(* ===== verification/_CoqProject ===== *)
-Q . S2P
Prelude.v
Consensus.v
Types.v
Toy.v
Signing.v
BlockValidation.v
ValidatorRegistry.v
Tasks.v
ProposerScheduler.v
AuctionContext.v
Traces.v
RelayBlocks.v
Relay.v
RelaySpec.v
RelaySafety.v
AuctionHouse.v
RelayData.v
RelayClient.v
Hashes.v
RelayMux.v
UnitTests.v
BidBoard.v
Untagged.v
Api.v
Execution.v
Attributes.v
PayloadBuilder.v
Bidder.v
PayloadJob.v
JobGenerator.v
Compat.v
AuctionSchedule.v
Auctioneer.v
EndToEnd.v
AuctionBook.v
PaidBids.v
Proposer.v
RelayService.v
OverHttp.v
Startup.v
IntegrationTest.v
