(* ===== verification/Prelude.v ===== *)
(** * A verification of the MEV relay, multiplexer and builder of mev-rs

    The repository holds three programs around proposer-builder separation.  The
    _relay_ ([mev-relay-rs]) takes block submissions from builders and sells the best
    bid of each auction to the proposer; the _multiplexer_ ([mev-boost-rs]) asks
    several relays on the proposer's behalf; the _builder_ ([mev-build-rs]) opens an
    auction for each proposer it learns of from the relays, and submits the payloads
    it builds.  [mev-rs] holds what they share: the types of the builder API, the
    validator registry, the proposer scheduler and signing.

    ** The files

    Shared foundations:
    - [Prelude]: results, machine integers, sorting, sets and maps, closure of a
      step relation, tactics.
    - [Consensus]: the interface to the consensus libraries (keys, signatures,
      payloads, blocks, the network's parameters) as the classes [ConsensusTypes] and
      [ConsensusFunctions], and what is assumed of them as [ConsensusLaws] and
      [SignableLaws].  [Toy] is a concrete instance, on which the witnesses of the
      theorems evaluate.
    - [Execution]: the interface to the execution client, in the same way: its data,
      [ExecutionFunctions], [ExecutionLaws], and the instances of [ToyExecution].
    - [Tasks]: handlers as sequences of critical sections, run alone, after others, or
      interleaved with them; a parallel iteration is one in any order ([read_par]).
      [Traces]: handlers that implement an abstract specification, whose events they
      write to a ledger.

    The library [mev-rs/src]:
    - [Types] ([types/], [error.rs]), [Untagged] (the deserializers in [types/]),
      [Signing] ([signing.rs]), [BlockValidation] ([block_validation.rs]),
      [ValidatorRegistry] ([validator_registry.rs]), [ProposerScheduler]
      ([proposer_scheduler.rs]), [RelayClient] ([relay.rs]); [Hashes] holds the [Hash]
      implementations written in them and in [mev-relay-rs/src/auction_context.rs].
    - [Api] ([blinded_block_provider/] and [blinded_block_relayer/]: the traits of the
      services, the servers that route requests to them, and the clients).

    The relay [mev-relay-rs/src]:
    - [AuctionContext] ([auction_context.rs]); [RelayBlocks], [Relay] and [RelayData]
      ([relay.rs]: the free functions on blocks, the handlers, the data API).
    - [RelaySpec]: each handler alone.  [RelaySafety]: any number of handlers
      interleaved.  [AuctionHouse]: the specification they then implement.

    The multiplexer [mev-boost-rs/src]: [RelayMux] ([relay_mux.rs]), and [BidBoard], the
    specification it implements.

    The builder [mev-build-rs/src]:
    - [Auctioneer] ([auctioneer/service.rs]), [AuctionSchedule]
      ([auctioneer/auction_schedule.rs]), [Compat] ([compat.rs]), [Bidder]
      ([bidder/]).
    - [Attributes] ([payload/attributes.rs]), [PayloadBuilder] ([payload/builder.rs]:
      packing, sealing and paying for a block), [PayloadJob] ([payload/job.rs]: one
      job, and the system of a job, its builds, the bidder and the finalizers),
      [JobGenerator] ([payload/job_generator.rs], [payload/service_builder.rs]).

    Between the programs: [EndToEnd] joins what the three compute; [AuctionBook] tells
    what the auctioneer does from the history of what the relays have answered;
    [PaidBids] follows a bid from the builder to the proposer it pays, and [Proposer]
    follows it through the multiplexer; [RelayService] holds the tasks that drive them
    and [Startup] how they are configured and started
    ([mev-relay-rs/src/service.rs], [mev-boost-rs/src/service.rs],
    [mev-build-rs/src/service.rs], [mev-rs/src/genesis.rs], [mev-rs/src/config.rs],
    [bin/mev/src/], [bin/utils/src/main.rs]); and [OverHttp] puts the relay behind its
    server and the multiplexer in front of it.  [IntegrationTest] is the integration
    test in [mev-boost-rs/tests/], and [UnitTests] holds the unit tests that stand beside
    the code.

    ** State and operations

    A definition has the name of the function, method or type it models; where two
    Rust modules give the same name to two types (the versions [bellatrix], [capella]
    and [deneb]) the module becomes a prefix, and record fields carry a prefix where
    they would clash.  What is done to state under a lock is a function of that state
    ([ValidatorRegistry.State], [ProposerScheduler.State], [Relay.State],
    [RelayMux.State]); the fields that never change are [Relay.Inner] and
    [RelayMux.Inner].  A handler that takes a lock several times is a [task] with one
    section for each, so that [Tasks.pool_step] can interleave it with others between
    any two sections; [Tasks.run] executes it alone.  The scheduler's operations are
    tasks over any state that holds a scheduler and a registry ([HoldsScheduler]), as
    the relay's does.  The auctioneer is a single loop
    over messages, so its handlers are functions of [Auctioneer.Service], and what it
    asks of others is a list of effects in order.  A future that is polled
    ([PayloadJob.poll], [RelayService.service_handle_poll]) is a function of what its
    timers and channels report at that moment; [PayloadJob.system_step] interleaves the
    polls of a job with the tasks it has spawned, which are cancelled when the job lets
    go of them.  A handler of the multiplexer that may wait for ever has an [Outcome].

    Results are [result E A]; a panic is [None], or [Panics] of an [outcome] where
    panics and errors are threaded through many calls, or [Panicked] of an [Outcome].  An unsigned machine integer is an
    [N] with its wrap-around written out ([u64_add], [u64_mul], [u64_sub], ...).
    [HashMap] and [HashSet] are [gmap] and [gset]; the set of contexts, whose
    elements are only compared, is a list without repetition ([hs_insert]).  Where a
    hash map is iterated the order is a parameter.  An [Arc] is a value with the
    identity of its allocation, and [Relay.clones] counts the references held by
    handlers, because [Arc::into_inner] succeeds only for the last reference.

    ** What is shown

    - Safety of the relay under any interleaving ([RelaySafety]): every context it
      keeps, sells or releases comes from a submission that an accepted builder
      signed and that pays the proposer at a registered address; a delivered payload
      is not replaced.  The order on bids and on registrations does not survive
      interleaving, and two theorems exhibit the runs.
    - Refinement of abstract specifications under any interleaving: the relay is an
      auction house ([AuctionHouse]) and the multiplexer a board of bids ([BidBoard]).
      The state is that of a legal ledger of events, which grows with the run, and every
      reply, an error included, was true at moments of it in the order in which the
      handler looked.
    - The handlers of the relay alone ([RelaySpec], [RelayData]): the outcome on every
      branch, the highest-bid rule over any sequence of submissions, the clock, and
      the data API.
    - The registry and the scheduler: each outcome of a registration, what a batch
      leaves, that the scheduler never lists a slot twice, lists it for the epoch it is
      in, and when a refresh has an effect.
    - Blocks and contexts: a blinded block that is unblinded and blinded again is
      itself; a context holds its submission and a valid bid over it.
    - The multiplexer: which bid is chosen, which contents are accepted, how long an
      offered bid can be opened, and that without relays it waits for ever.
    - The auctioneer: the invariant of open auctions over any sequence of messages, that
      a service ignores the events of its own auctions, what is submitted where.  From
      the start of the service on ([AuctionBook]): it asks for builds for exactly the
      proposers that its relays have named for the slot, each auction is for exactly the
      relays that named its proposer, and every submission goes to such a relay and is
      valid there as long as the registration it has named stands.
    - The construction of payloads ([PayloadBuilder]): a built block stays within its
      limits of gas and blob gas, its transactions are drawn from the pool, its fees are
      their tips, and it is better than the block it replaces; packing ends; the payment is the last
      transaction and pays what was bid; and the gas limit it leaves.
    - A payload job ([PayloadJob]): over any interleaving of polls, builds, bids and
      finalizers, the best payload only improves, polling never panics, and what is
      dispatched carries the bid for its fees; two theorems exhibit how a bid is lost.
      [JobGenerator] says which block a job starts from and bounds its deadline, and
      [Bidder] what is bid, for the configured share rounded to a whole percent.
    - The program from end to end ([PaidBids]): what the auctioneer submits for a payload
      of a job is valid at the relay, and the last transaction of its block pays the
      proposer the value of the bid; and when the accepted builders run this builder,
      every bid the relay offers and every payload it releases pays the proposer the
      value of the bid at an address it has signed.  The proposer that bids through the
      multiplexer gets the payload of its bid, with that payment, whichever relay releases
      it ([Proposer]).
    - Between the programs: the relay accepts what the builder prepares ([EndToEnd]); a
      client and a server together are the service behind them ([Api]); a bid, the
      header it offers and the payload released for it pass the multiplexer's checks
      over HTTP ([OverHttp]); and the integration test of the multiplexer passes for any
      proposers, exactly when its clock is on time ([IntegrationTest]).
    - The clocks ([RelayService]): which turns a sequence of slots gives, and that the
      relay stores the current epoch and the four before it.
    - The start ([Startup]): a relay that is started has the configured keys and is safe
      from then on, a multiplexer asks the configured relays, when a command panics, and
      that a signal ends a program without an error.
    - Round trips of the untagged encodings, gas limits, payload identifiers,
      conversions of blocks; equal relays are hashed alike, and hashing a context
      panics only when one of its roots cannot be computed ([Hashes]).

    ** Bounds

    The recursion of every model is structural but for the loop over the transaction
    pool: [PayloadBuilder.pack] takes fuel, and [packing_terminates] shows that for a
    pool whose iterator runs dry there is a fuel from which on it never runs out.  Loops
    that run as long as the process does (the clocks, the event streams, the retries) are
    functions of the finite sequence of events they have seen.  A
    theorem that needs products or sums of slots and epochs to stay below [2^64] says
    so.

    ** What is not modelled

    Logging and the text of messages; the parsing of arguments and the runtime; the
    type-level wiring of the builder into the execution client ([node.rs], which has no
    state or control flow of its own); the SSZ and serde code that is derived; the buckets
    of hash tables (a set or a map is modelled by the equality of its keys).
    Cryptography and the consensus libraries, the execution client and its virtual
    machine, the HTTP libraries and the script of the relay's root page are the
    parameters above. *)

From stdpp Require Export base tactics option sorting gmap numbers list.
Export (notations) N.

#[global] Set Default Goal Selector "!".

(** * Results

    Rust's [Result<A, E>].  The error type comes first so that [result E] is a
    functor and stdpp's do-notation ([x ← m; k], Rust's [?]) applies to it. *)

Inductive result (E A : Type) : Type :=
| Ok (a : A)
| Err (e : E).

Arguments Ok {_ _} _.
Arguments Err {_ _} _.

#[export] Instance result_ret {E} : MRet (result E) := λ A a, Ok a.

#[export] Instance result_bind {E} : MBind (result E) := λ A B f m,
  match m with
  | Ok a => f a
  | Err e => Err e
  end.

#[export] Instance result_fmap {E} : FMap (result E) := λ A B f m,
  match m with
  | Ok a => Ok (f a)
  | Err e => Err e
  end.

(** [Option::ok_or], [Result::map_err], [Result::is_ok] of the standard library. *)
Definition ok_or {E A} (o : option A) (e : E) : result E A :=
  match o with
  | Some a => Ok a
  | None => Err e
  end.

Definition map_err {E F A} (f : E → F) (r : result E A) : result F A :=
  match r with
  | Ok a => Ok a
  | Err e => Err (f e)
  end.

Definition is_ok {E A} (r : result E A) : bool :=
  match r with
  | Ok _ => true
  | Err _ => false
  end.

(** [if !cond { return Err(e) }] *)
Definition ensure {E} (P : Prop) `{Decision P} (e : E) : result E unit :=
  if decide P then Ok tt else Err e.

Section result_lemmas.
Context {E F A B : Type}.
Implicit Types (m : result E A) (f : A → result E B).

Lemma bind_Ok m f b : m ≫= f = Ok b ↔ ∃ a, m = Ok a ∧ f a = Ok b.
Proof. destruct m; naive_solver. Qed.

Lemma bind_Err m f e :
  m ≫= f = Err e ↔ m = Err e ∨ ∃ a, m = Ok a ∧ f a = Err e.
Proof. destruct m; naive_solver. Qed.

Lemma ok_or_Ok (o : option A) (e : E) a : ok_or o e = Ok a ↔ o = Some a.
Proof. destruct o; naive_solver. Qed.

Lemma ok_or_Err (o : option A) (e e' : E) : ok_or o e = Err e' ↔ o = None ∧ e = e'.
Proof. destruct o; naive_solver. Qed.

Lemma map_err_Ok (g : E → F) m a : map_err g m = Ok a ↔ m = Ok a.
Proof. destruct m; naive_solver. Qed.

Lemma map_err_Err (g : E → F) m e : map_err g m = Err e ↔ ∃ e', m = Err e' ∧ e = g e'.
Proof. destruct m; naive_solver. Qed.

Lemma ensure_Ok (P : Prop) `{Decision P} (e : E) u : ensure P e = Ok u ↔ P.
Proof. unfold ensure. destruct u. case_decide; naive_solver. Qed.

Lemma ensure_Err (P : Prop) `{Decision P} (e e' : E) : ensure P e = Err e' ↔ ¬ P ∧ e = e'.
Proof. unfold ensure. case_decide; naive_solver. Qed.

Lemma is_ok_true m : is_ok m = true ↔ ∃ a, m = Ok a.
Proof. destruct m; naive_solver. Qed.
End result_lemmas.

(** [inv_result] turns a hypothesis or goal [m ≫= f = Ok b] into the chain of
    successful steps behind it. *)
Ltac inv_result_step :=
  match goal with
  | H : mbind _ _ = Ok _ |- _ => apply bind_Ok in H as (? & ? & ?)
  | H : ok_or _ _ = Ok _ |- _ => apply ok_or_Ok in H
  | H : ok_or _ _ = Err _ |- _ => apply ok_or_Err in H as [? ?]
  | H : map_err _ _ = Ok _ |- _ => apply map_err_Ok in H
  | H : map_err _ _ = Err _ |- _ => apply map_err_Err in H as (? & ? & ?)
  | H : ensure _ _ = Ok _ |- _ => apply ensure_Ok in H
  | H : ensure _ _ = Err _ |- _ => apply ensure_Err in H as [? ?]
  | H : mret _ = Ok _ |- _ => injection H as H
  | H : Ok _ = Ok _ |- _ => injection H as H
  | H : Err _ = Err _ |- _ => injection H as H
  | H : Ok _ = Err _ |- _ => discriminate H
  | H : Err _ = Ok _ |- _ => discriminate H
  | u : unit |- _ => destruct u
  end.

Ltac inv_result := repeat (inv_result_step; simplify_eq).

(** * Outcomes

    What a function returns that may also panic, or whose model may run out of fuel. *)

Inductive outcome (E A : Type) : Type :=
| Returns (r : result E A)
| Panics
| OutOfFuel.

Arguments Returns {_ _} _.
Arguments Panics {_ _}.
Arguments OutOfFuel {_ _}.

Definition outcome_bind {E A B} (f : A → outcome E B) (o : outcome E A) : outcome E B :=
  match o with
  | Returns (Ok a) => f a
  | Returns (Err e) => Returns (Err e)
  | Panics => Panics
  | OutOfFuel => OutOfFuel
  end.

(** [unwrap] and [expect] *)
Definition unwrap {E A} (o : option A) : outcome E A :=
  match o with
  | Some a => Returns (Ok a)
  | None => Panics
  end.

(** [Poll], of a future that is asked whether it is done. *)
Inductive Poll (A : Type) : Type :=
| Pending
| Ready (a : A).

Arguments Pending {_}.
Arguments Ready {_} _.

Declare Scope outcome_scope.
Delimit Scope outcome_scope with outcome.
Notation "x ←! m ; k" := (outcome_bind (λ x, k) m)
  (at level 20, m at level 100, k at level 200) : outcome_scope.
Notation "' x ←! m ; k" := (outcome_bind (λ x, k) m)
  (at level 20, x pattern, m at level 100, k at level 200) : outcome_scope.
Open Scope outcome_scope.

Section outcome_lemmas.
Context {E A B : Type}.
Implicit Types (o : outcome E A) (f : A → outcome E B).

Lemma outcome_bind_Ok o f b :
  outcome_bind f o = Returns (Ok b) ↔ ∃ a, o = Returns (Ok a) ∧ f a = Returns (Ok b).
Proof. destruct o as [[]| |]; naive_solver. Qed.

Lemma outcome_bind_Err o f e :
  outcome_bind f o = Returns (Err e) ↔
  o = Returns (Err e) ∨ ∃ a, o = Returns (Ok a) ∧ f a = Returns (Err e).
Proof. destruct o as [[]| |]; naive_solver. Qed.

Lemma outcome_bind_fuel o f :
  outcome_bind f o = OutOfFuel ↔ o = OutOfFuel ∨ ∃ a, o = Returns (Ok a) ∧ f a = OutOfFuel.
Proof. destruct o as [[]| |]; naive_solver. Qed.

Lemma unwrap_Ok (x : option A) a : unwrap x = Returns (Ok a : result E A) ↔ x = Some a.
Proof. destruct x; naive_solver. Qed.

Lemma outcome_bind_enough o f :
  o ≠ OutOfFuel → (∀ a, f a ≠ OutOfFuel) → outcome_bind f o ≠ OutOfFuel.
Proof. destruct o as [[]| |]; naive_solver. Qed.

Lemma unwrap_enough (x : option A) : unwrap x ≠ (OutOfFuel : outcome E A).
Proof. by destruct x. Qed.

Lemma returns_enough (r : result E A) : Returns r ≠ OutOfFuel.
Proof. done. Qed.
End outcome_lemmas.

Create HintDb outcome.
#[export] Hint Resolve outcome_bind_enough unwrap_enough returns_enough : outcome.

(** Turn a hypothesis [outcome = Returns (Ok _)] into the steps that led to it. *)
Ltac inv_outcome H :=
  match type of H with
  | outcome_bind _ _ = Returns (Ok _) =>
      let a := fresh "a" in let Ha := fresh "Hstep" in
      apply outcome_bind_Ok in H; destruct H as (a & Ha & H)
  end.

(** * Machine integers

    Slots, epochs, gas and timestamps are [u64], bid values are [U256].  They are
    modelled as [N], and every operation that can leave the width is written with
    its wrap-around (the release profile of the workspace leaves overflow checks
    off; [U256] of ruint wraps in every profile). *)

Definition u64_max : N := 18446744073709551615.
Definition u64_mod : N := 18446744073709551616.
Definition u256_mod : N := 2 ^ 256.

Definition u64_add (a b : N) : N := (a + b) `mod` u64_mod.
Definition u64_mul (a b : N) : N := (a * b) `mod` u64_mod.
Definition u64_sub (a b : N) : N := (a + u64_mod - b) `mod` u64_mod.
Definition u256_add (a b : N) : N := (a + b) `mod` u256_mod.
Definition u256_sub (a b : N) : N := (a + u256_mod - b) `mod` u256_mod.
Definition u256_mul (a b : N) : N := (a * b) `mod` u256_mod.

(** [a.checked_sub(b).unwrap_or_default()] *)
Definition checked_sub (a b : N) : option N :=
  if decide (b ≤ a)%N then Some (a - b)%N else None.
(** [u64::try_from] and [to::<u64>] of a wider integer. *)
Definition to_u64 (n : N) : option N := if decide (n < u64_mod)%N then Some n else None.

Definition saturating_sub (a b : N) : N := default 0%N (checked_sub a b).

Lemma u64_add_small a b : (a + b < u64_mod)%N → u64_add a b = (a + b)%N.
Proof. intros. by apply N.mod_small. Qed.

Lemma u64_mul_small a b : (a * b < u64_mod)%N → u64_mul a b = (a * b)%N.
Proof. intros. by apply N.mod_small. Qed.

Lemma u64_sub_small a b : (b ≤ a)%N → (a < u64_mod)%N → u64_sub a b = (a - b)%N.
Proof.
  intros Hba Ha. unfold u64_sub.
  replace (a + u64_mod - b)%N with ((a - b) + 1 * u64_mod)%N by lia.
  rewrite N.Div0.mod_add. apply N.mod_small. lia.
Qed.

Lemma u64_add_lt a b : (u64_add a b < u64_mod)%N.
Proof. by apply N.mod_lt. Qed.

Lemma u64_mul_lt a b : (u64_mul a b < u64_mod)%N.
Proof. by apply N.mod_lt. Qed.

Lemma u256_add_small a b : (a + b < u256_mod)%N → u256_add a b = (a + b)%N.
Proof. intros. by apply N.mod_small. Qed.

Lemma u256_mul_small a b : (a * b < u256_mod)%N → u256_mul a b = (a * b)%N.
Proof. intros. by apply N.mod_small. Qed.

Lemma u256_sub_small a b : (b ≤ a < u256_mod)%N → u256_sub a b = (a - b)%N.
Proof.
  intros. unfold u256_sub. replace (a + u256_mod - b)%N with ((a - b) + 1 * u256_mod)%N by lia.
  rewrite N.Div0.mod_add. apply N.mod_small. lia.
Qed.

Lemma saturating_sub_spec a b : saturating_sub a b = (a - b)%N.
Proof. unfold saturating_sub, checked_sub. case_decide; simpl; lia. Qed.

(** * Orders given by a comparison function

    [#[derive(Ord)]], the [cmp] methods of the standard library and the closures
    given to [sort_by].  [CmpPre] is a total preorder, [CmpOrder] a total order. *)

(** [x ≤ y] for the order of [cmp]. *)
Definition cmp_le {A} (cmp : A → A → comparison) (x y : A) : Prop := cmp x y ≠ Gt.

#[export] Instance cmp_le_dec {A} (cmp : A → A → comparison) x y :
  Decision (cmp_le cmp x y).
Proof. unfold cmp_le. destruct (cmp x y); first [left; congruence | right; congruence]. Defined.

Class CmpPre {A} (cmp : A → A → comparison) : Prop := {
  cmp_antisym x y : cmp y x = CompOpp (cmp x y);
  cmp_le_trans x y z : cmp_le cmp x y → cmp_le cmp y z → cmp_le cmp x z;
}.

Class CmpOrder {A} (cmp : A → A → comparison) : Prop := {
  #[global] cmp_order_pre :: CmpPre cmp;
  cmp_eq x y : cmp x y = Eq ↔ x = y;
}.

Arguments cmp_antisym {A} cmp {_} x y.
Arguments cmp_le_trans {A} cmp {_} x y z _ _.
Arguments cmp_eq {A} cmp {_} x y.

(** [Ordering::then]: the lexicographic combination a derived [Ord] uses. *)
Definition then_cmp (c d : comparison) : comparison :=
  match c with
  | Eq => d
  | _ => c
  end.

Section cmp_lemmas.
Context {A : Type} (cmp : A → A → comparison) `{!CmpPre cmp}.

Lemma cmp_refl x : cmp x x = Eq.
Proof. pose proof (cmp_antisym cmp x x) as H. destruct (cmp x x); done. Qed.

Lemma cmp_le_total x y : cmp_le cmp x y ∨ cmp_le cmp y x.
Proof. unfold cmp_le. rewrite (cmp_antisym cmp x y). destruct (cmp x y); auto. Qed.

Lemma cmp_eq_le x y : cmp x y = Eq ↔ cmp_le cmp x y ∧ cmp_le cmp y x.
Proof.
  unfold cmp_le. rewrite (cmp_antisym cmp x y).
  destruct (cmp x y); naive_solver.
Qed.

Lemma cmp_eq_trans x y z : cmp x y = Eq → cmp y z = Eq → cmp x z = Eq.
Proof. rewrite !cmp_eq_le. intros [] []. split; by eapply cmp_le_trans. Qed.

Lemma cmp_eq_sym x y : cmp x y = Eq → cmp y x = Eq.
Proof. rewrite !cmp_eq_le. naive_solver. Qed.
End cmp_lemmas.

Lemma N_cmp_le x y : cmp_le N.compare x y ↔ (x ≤ y)%N.
Proof. done. Qed.

#[export] Instance N_cmp_order : CmpOrder N.compare.
Proof.
  split; [split|]; intros x y.
  - apply N.compare_antisym.
  - intros z. rewrite !N_cmp_le. lia.
  - apply N.compare_eq_iff.
Qed.

(** Comparison by a key, and lexicographic comparison. *)
#[export] Instance cmp_pre_key {A B} (cmp : B → B → comparison) (f : A → B) `{!CmpPre cmp} :
  CmpPre (λ x y, cmp (f x) (f y)).
Proof.
  split.
  - intros x y. apply (cmp_antisym cmp).
  - intros x y z. apply (cmp_le_trans cmp).
Qed.

#[export] Instance cmp_pre_then {A} (c d : A → A → comparison) `{!CmpPre c, !CmpPre d} :
  CmpPre (λ x y, then_cmp (c x y) (d x y)).
Proof.
  split.
  - intros x y. rewrite (cmp_antisym c x y), (cmp_antisym d x y).
    destruct (c x y); done.
  - assert (Hle : ∀ x y, cmp_le (λ x y, then_cmp (c x y) (d x y)) x y
                         ↔ cmp_le c x y ∧ (cmp_le c y x → cmp_le d x y)).
    { intros x y. unfold cmp_le. rewrite (cmp_antisym c x y).
      destruct (c x y); simpl; naive_solver. }
    intros x y z. rewrite !Hle. intros [Hxy Hxy'] [Hyz Hyz'].
    split; [by eapply (cmp_le_trans c)|]. intros Hzx.
    apply (cmp_le_trans d _ y).
    + apply Hxy'. by apply (cmp_le_trans c _ z).
    + apply Hyz'. by apply (cmp_le_trans c _ x).
Qed.

(** * [slice::sort_by]

    The stable sort of the standard library: insertion in front of the first
    element that is not smaller. *)

Fixpoint insert_by {A} (cmp : A → A → comparison) (x : A) (l : list A) : list A :=
  match l with
  | [] => [x]
  | y :: l' => if decide (cmp_le cmp x y) then x :: l else y :: insert_by cmp x l'
  end.

Definition sort_by {A} (cmp : A → A → comparison) (l : list A) : list A :=
  foldr (insert_by cmp) [] l.

Section sort_by.
Context {A : Type} (cmp : A → A → comparison) `{!CmpPre cmp}.
Implicit Types (l : list A).

Lemma insert_by_perm x l : insert_by cmp x l ≡ₚ x :: l.
Proof.
  induction l as [|y l IH]; simpl; [done|]. case_decide; [done|].
  rewrite IH. apply Permutation_swap.
Qed.

Lemma sort_by_perm l : sort_by cmp l ≡ₚ l.
Proof. induction l as [|x l IH]; simpl; [done|]. by rewrite insert_by_perm, IH. Qed.

Lemma insert_by_sorted x l :
  StronglySorted (cmp_le cmp) l → StronglySorted (cmp_le cmp) (insert_by cmp x l).
Proof.
  induction 1 as [|y l Hl IH Hy]; simpl; [by repeat constructor|].
  case_decide as Hxy.
  - constructor; [by constructor|]. constructor; [done|].
    rewrite !Forall_forall in *. intros z Hz. apply (cmp_le_trans cmp _ y); auto.
  - constructor; [done|]. rewrite insert_by_perm. constructor; [|done].
    by destruct (cmp_le_total cmp x y).
Qed.

Lemma sort_by_sorted l : StronglySorted (cmp_le cmp) (sort_by cmp l).
Proof. induction l; simpl; [constructor|by apply insert_by_sorted]. Qed.

(** Two enumerations of the same elements sort to the same list when no two of
    the elements compare equal. *)
Lemma sort_by_unique l1 l2 :
  l1 ≡ₚ l2 → (∀ x y, x ∈ l1 → y ∈ l1 → cmp x y = Eq → x = y) →
  sort_by cmp l1 = sort_by cmp l2.
Proof.
  intros Hperm Huniq. apply (StronglySorted_unique_strong (cmp_le cmp)).
  - intros x y Hx Hy Hxy Hyx. rewrite sort_by_perm in Hx. rewrite sort_by_perm in Hy.
    rewrite <-Hperm in Hy. apply Huniq; [done..|]. by apply cmp_eq_le.
  - apply sort_by_sorted.
  - apply sort_by_sorted.
  - by rewrite !sort_by_perm.
Qed.

(** Stability: the elements that compare equal to [x] keep their order. *)
Lemma insert_by_stable x y l :
  filter (λ z, cmp x z = Eq) (insert_by cmp y l) = filter (λ z, cmp x z = Eq) (y :: l).
Proof.
  induction l as [|z l IH]; [done|]. cbn [insert_by].
  case_decide as Hyz; [done|]. rewrite !filter_cons in *. rewrite IH.
  do 2 case_decide; try done. destruct Hyz. apply (cmp_eq_le cmp).
  by eapply cmp_eq_trans; [|apply cmp_eq_sym|].
Qed.

Lemma sort_by_stable x l :
  filter (λ z, cmp x z = Eq) (sort_by cmp l) = filter (λ z, cmp x z = Eq) l.
Proof.
  induction l as [|y l IH]; simpl; [done|].
  rewrite insert_by_stable, !filter_cons, IH. done.
Qed.
End sort_by.

(** * Filters *)

Section filters.
Context {A : Type} (P : A → Prop) `{!∀ x, Decision (P x)}.
Implicit Types (l : list A).

Lemma filter_none l : (∀ x, x ∈ l → ¬ P x) → filter P l = [].
Proof.
  induction l as [|x l IH]; intros Hl; [done|].
  rewrite filter_cons_False by (apply Hl; left). apply IH. intros y Hy. apply Hl. by right.
Qed.

Lemma filter_all l : (∀ x, x ∈ l → P x) → filter P l = l.
Proof.
  induction l as [|x l IH]; intros Hl; [done|].
  rewrite filter_cons_True by (apply Hl; left). f_equal. apply IH.
  intros y Hy. apply Hl. by right.
Qed.

Lemma StronglySorted_filter (R : A → A → Prop) l :
  StronglySorted R l → StronglySorted R (filter P l).
Proof.
  induction 1 as [|x l Hl IH Hx]; [constructor|]. rewrite filter_cons. case_decide; [|done].
  constructor; [done|]. rewrite Forall_forall in Hx. apply Forall_forall.
  intros y [_ Hy]%list_elem_of_filter. by apply Hx.
Qed.
End filters.

(** An invariant of a loop body is an invariant of the loop. *)
Lemma foldl_invariant {A B} (P : A → Prop) (f : A → B → A) (l : list B) (a : A) :
  (∀ a x, x ∈ l → P a → P (f a x)) → P a → P (foldl f a l).
Proof.
  revert a. induction l as [|x l IH]; intros a Hf Ha; simpl; [done|].
  apply IH; [intros; apply Hf; [by right|done]|]. apply Hf; [left|done].
Qed.

(** * Hash sets of values without a countable key

    [HashSet<T>] for a [T] that only has decidable equality: a list without
    duplicates, in an order the code never relies on. *)

Section hash_set.
Context {A : Type} `{!EqDecision A}.
Implicit Types (s : list A).

Definition hs_insert (x : A) (s : list A) : list A :=
  if decide (x ∈ s) then s else x :: s.

Lemma elem_of_hs_insert x y s : y ∈ hs_insert x s ↔ y = x ∨ y ∈ s.
Proof. unfold hs_insert. case_decide; rewrite ?elem_of_cons; naive_solver. Qed.

Lemma hs_insert_nodup x s : NoDup s → NoDup (hs_insert x s).
Proof. unfold hs_insert. case_decide; [done|]. by constructor. Qed.
End hash_set.

(** * Maps

    [HashMap::retain] and [HashSet::retain] with a test on the key. *)

Section retain.
Context {K V : Type} `{Countable K}.
Implicit Types (m : gmap K V) (s : gset K) (P : K → Prop).

Definition retain_keys P `{!∀ k, Decision (P k)} m : gmap K V :=
  filter (λ '(k, _), P k) m.

Definition retain_set P `{!∀ k, Decision (P k)} s : gset K := filter P s.

Lemma lookup_retain_keys P `{!∀ k, Decision (P k)} m k :
  retain_keys P m !! k = if decide (P k) then m !! k else None.
Proof.
  unfold retain_keys. apply option_eq. intros v. rewrite map_lookup_filter_Some.
  case_decide; naive_solver.
Qed.

Lemma lookup_retain_keys_Some P `{!∀ k, Decision (P k)} m k v :
  retain_keys P m !! k = Some v ↔ m !! k = Some v ∧ P k.
Proof. apply map_lookup_filter_Some. Qed.

Lemma elem_of_retain_set P `{!∀ k, Decision (P k)} s k :
  k ∈ retain_set P s ↔ k ∈ s ∧ P k.
Proof. unfold retain_set. rewrite elem_of_filter. naive_solver. Qed.
End retain.

(** * Runs of a transition system *)

Section steps.
Context {S : Type} (step : S → S → Prop).

Inductive steps : S → S → Prop :=
| steps_refl s : steps s s
| steps_cons s1 s2 s3 : steps s1 s2 → step s2 s3 → steps s1 s3.

(** An invariant of every step holds in every reachable state. *)
Lemma steps_invariant (P : S → Prop) s s' :
  (∀ s1 s2, P s1 → step s1 s2 → P s2) → P s → steps s s' → P s'.
Proof. intros Hstep Hs. induction 1; eauto. Qed.

(** A preorder every step respects relates the two ends of every run. *)
Lemma steps_preorder (R : S → S → Prop) `{!PreOrder R} s s' :
  (∀ s1 s2, step s1 s2 → R s1 s2) → steps s s' → R s s'.
Proof. intros Hstep. induction 1; [done|]. etrans; eauto. Qed.
Lemma steps_trans s1 s2 s3 : steps s1 s2 → steps s2 s3 → steps s1 s3.
Proof. intros H12. induction 1; eauto using steps_cons. Qed.
End steps.

Create HintDb mev.
#[export] Hint Resolve u64_add_lt u64_mul_lt hs_insert_nodup sort_by_sorted : mev.
#[export] Hint Rewrite @elem_of_hs_insert @lookup_retain_keys @elem_of_retain_set
  saturating_sub_spec : mev.
