(* ===== verification/Consensus.v ===== *)
(** The interface to the consensus libraries.

    The program is written against the crates [ethereum-consensus] and
    [beacon-api-client], whose code is not part of the repository.  Their types
    and functions are the fields of two classes, [ConsensusTypes] and
    [ConsensusFunctions], over which every other file is parametrised; nothing is
    known of them beyond their types.  The documented behaviour a theorem relies
    on is a field of the class [ConsensusLaws], which such a theorem takes as a
    hypothesis.

    Sums and records whose constructors or fields the program itself matches on,
    reads or writes ([Fork], [ExecutionPayload], the blinded and unblinded blocks,
    [ValidatorRegistration], ...) are declared here with those constructors and
    fields. *)

From S2P Require Import Prelude.

(** * Types *)

Class ConsensusTypes := {
  (** [primitives] and [crypto] *)
  BlsPublicKey : Type;
  BlsSignature : Type;
  SecretKey : Type;
  Hash32 : Type;
  ExecutionAddress : Type;
  Root : Type;
  Domain : Type;
  Version : Type;
  KzgCommitment : Type;
  KzgProof : Type;
  Blob : Type;
  (** [state_transition::Context]: the network's parameters *)
  ChainContext : Type;
  (** the execution payload and its header, per fork *)
  bellatrix_ExecutionPayload : Type;
  capella_ExecutionPayload : Type;
  deneb_ExecutionPayload : Type;
  bellatrix_ExecutionPayloadHeader : Type;
  capella_ExecutionPayloadHeader : Type;
  deneb_ExecutionPayloadHeader : Type;
  (** the parts of a beacon block the program only copies *)
  Eth1Data : Type;
  ProposerSlashings : Type;
  AttesterSlashings : Type;
  Attestations : Type;
  Deposits : Type;
  VoluntaryExits : Type;
  SyncAggregate : Type;
  BlsToExecutionChanges : Type;
  (** errors of [ethereum-consensus] and of the HTTP client *)
  ConsensusError : Type;
  ApiError : Type;

  (** the [Eq] and [Hash] instances the program uses *)
  #[global] BlsPublicKey_eq :: EqDecision BlsPublicKey;
  #[global] BlsPublicKey_countable :: Countable BlsPublicKey;
  #[global] BlsSignature_eq :: EqDecision BlsSignature;
  #[global] Hash32_eq :: EqDecision Hash32;
  #[global] Hash32_countable :: Countable Hash32;
  #[global] ExecutionAddress_eq :: EqDecision ExecutionAddress;
  #[global] ExecutionAddress_countable :: Countable ExecutionAddress;
  #[global] KzgCommitment_eq :: EqDecision KzgCommitment;
  #[global] KzgProof_eq :: EqDecision KzgProof;
  #[global] Blob_eq :: EqDecision Blob;
  #[global] bellatrix_ExecutionPayload_eq :: EqDecision bellatrix_ExecutionPayload;
  #[global] capella_ExecutionPayload_eq :: EqDecision capella_ExecutionPayload;
  #[global] deneb_ExecutionPayload_eq :: EqDecision deneb_ExecutionPayload;
  #[global] bellatrix_ExecutionPayloadHeader_eq :: EqDecision bellatrix_ExecutionPayloadHeader;
  #[global] capella_ExecutionPayloadHeader_eq :: EqDecision capella_ExecutionPayloadHeader;
  #[global] deneb_ExecutionPayloadHeader_eq :: EqDecision deneb_ExecutionPayloadHeader;
}.

(** [Fork]: the program names the three forks with an execution payload that it
    supports; every other fork is [OtherFork]. *)
Inductive Fork : Set :=
| Fork_Bellatrix
| Fork_Capella
| Fork_Deneb
| OtherFork (n : N).

#[export] Instance Fork_eq : EqDecision Fork.
Proof. solve_decision. Defined.

(** [beacon_api_client::ValidatorStatus]: the program names two of them. *)
Inductive ValidatorStatus : Set :=
| ValidatorStatus_Pending
| ValidatorStatus_ActiveOngoing
| OtherStatus (n : N).

#[export] Instance ValidatorStatus_eq : EqDecision ValidatorStatus.
Proof. solve_decision. Defined.

Section data.
Context `{CT : ConsensusTypes}.

(** ** Payloads and headers: an enum with one constructor per fork, and the
    accessors [version], [bellatrix], [capella], [deneb] of such an enum. *)

Inductive ExecutionPayload : Type :=
| ExecutionPayload_Bellatrix (inner : bellatrix_ExecutionPayload)
| ExecutionPayload_Capella (inner : capella_ExecutionPayload)
| ExecutionPayload_Deneb (inner : deneb_ExecutionPayload).

Inductive ExecutionPayloadHeader : Type :=
| ExecutionPayloadHeader_Bellatrix (inner : bellatrix_ExecutionPayloadHeader)
| ExecutionPayloadHeader_Capella (inner : capella_ExecutionPayloadHeader)
| ExecutionPayloadHeader_Deneb (inner : deneb_ExecutionPayloadHeader).

#[export] Instance ExecutionPayload_eq : EqDecision ExecutionPayload.
Proof. solve_decision. Defined.

#[export] Instance ExecutionPayloadHeader_eq : EqDecision ExecutionPayloadHeader.
Proof. solve_decision. Defined.

Definition payload_version (p : ExecutionPayload) : Fork :=
  match p with
  | ExecutionPayload_Bellatrix _ => Fork_Bellatrix
  | ExecutionPayload_Capella _ => Fork_Capella
  | ExecutionPayload_Deneb _ => Fork_Deneb
  end.

Definition payload_bellatrix (p : ExecutionPayload) : option bellatrix_ExecutionPayload :=
  match p with
  | ExecutionPayload_Bellatrix inner => Some inner
  | _ => None
  end.

Definition payload_capella (p : ExecutionPayload) : option capella_ExecutionPayload :=
  match p with
  | ExecutionPayload_Capella inner => Some inner
  | _ => None
  end.

Definition payload_deneb (p : ExecutionPayload) : option deneb_ExecutionPayload :=
  match p with
  | ExecutionPayload_Deneb inner => Some inner
  | _ => None
  end.

Definition header_bellatrix (h : ExecutionPayloadHeader)
    : option bellatrix_ExecutionPayloadHeader :=
  match h with
  | ExecutionPayloadHeader_Bellatrix inner => Some inner
  | _ => None
  end.

Definition header_capella (h : ExecutionPayloadHeader)
    : option capella_ExecutionPayloadHeader :=
  match h with
  | ExecutionPayloadHeader_Capella inner => Some inner
  | _ => None
  end.

Definition header_deneb (h : ExecutionPayloadHeader)
    : option deneb_ExecutionPayloadHeader :=
  match h with
  | ExecutionPayloadHeader_Deneb inner => Some inner
  | _ => None
  end.

(** ** Beacon blocks

    The body of a blinded block and of the block it becomes have the same
    fields, except that the blinded one holds the header [X] of the payload
    where the other holds the payload [X]. *)

Record BodyFields : Type := {
  randao_reveal : BlsSignature;
  eth1_data : Eth1Data;
  graffiti : Hash32;
  proposer_slashings : ProposerSlashings;
  attester_slashings : AttesterSlashings;
  attestations : Attestations;
  deposits : Deposits;
  voluntary_exits : VoluntaryExits;
  sync_aggregate : SyncAggregate;
}.

Record bellatrix_Body (X : Type) : Type := {
  bellatrix_fields : BodyFields;
  bellatrix_execution_payload : X;
}.

Record capella_Body (X : Type) : Type := {
  capella_fields : BodyFields;
  capella_execution_payload : X;
  capella_bls_to_execution_changes : BlsToExecutionChanges;
}.

Record deneb_Body (X : Type) : Type := {
  deneb_fields : BodyFields;
  deneb_execution_payload : X;
  deneb_bls_to_execution_changes : BlsToExecutionChanges;
  deneb_blob_kzg_commitments : list KzgCommitment;
}.

(** A block with body [B], and the signature around it. *)
Record Block (B : Type) : Type := {
  block_slot : N;
  block_proposer_index : N;
  block_parent_root : Root;
  block_state_root : Root;
  block_body : B;
}.

Record SignedBlock (B : Type) : Type := {
  signed_block_message : Block B;
  signed_block_signature : BlsSignature;
}.

Inductive SignedBlindedBeaconBlock : Type :=
| SignedBlindedBeaconBlock_Bellatrix
    (inner : SignedBlock (bellatrix_Body bellatrix_ExecutionPayloadHeader))
| SignedBlindedBeaconBlock_Capella
    (inner : SignedBlock (capella_Body capella_ExecutionPayloadHeader))
| SignedBlindedBeaconBlock_Deneb
    (inner : SignedBlock (deneb_Body deneb_ExecutionPayloadHeader)).

Inductive SignedBeaconBlock : Type :=
| SignedBeaconBlock_Bellatrix (inner : SignedBlock (bellatrix_Body bellatrix_ExecutionPayload))
| SignedBeaconBlock_Capella (inner : SignedBlock (capella_Body capella_ExecutionPayload))
| SignedBeaconBlock_Deneb (inner : SignedBlock (deneb_Body deneb_ExecutionPayload)).

(** [signed_block.message()]: a blinded block without its signature. *)
Inductive BlindedBeaconBlock : Type :=
| BlindedBeaconBlock_Bellatrix (inner : Block (bellatrix_Body bellatrix_ExecutionPayloadHeader))
| BlindedBeaconBlock_Capella (inner : Block (capella_Body capella_ExecutionPayloadHeader))
| BlindedBeaconBlock_Deneb (inner : Block (deneb_Body deneb_ExecutionPayloadHeader)).

End data.

Arguments bellatrix_Body {CT} X.
Arguments capella_Body {CT} X.
Arguments deneb_Body {CT} X.
Arguments Block {CT} B.
Arguments SignedBlock {CT} B.
Arguments Build_bellatrix_Body {CT X} _ _.
Arguments Build_capella_Body {CT X} _ _ _.
Arguments Build_deneb_Body {CT X} _ _ _ _.
Arguments Build_Block {CT B} _ _ _ _ _.
Arguments Build_SignedBlock {CT B} _ _.
Arguments bellatrix_fields {CT X} _.
Arguments bellatrix_execution_payload {CT X} _.
Arguments capella_fields {CT X} _.
Arguments capella_execution_payload {CT X} _.
Arguments capella_bls_to_execution_changes {CT X} _.
Arguments deneb_fields {CT X} _.
Arguments deneb_execution_payload {CT X} _.
Arguments deneb_bls_to_execution_changes {CT X} _.
Arguments deneb_blob_kzg_commitments {CT X} _.
Arguments block_slot {CT B} _.
Arguments block_proposer_index {CT B} _.
Arguments block_parent_root {CT B} _.
Arguments block_state_root {CT B} _.
Arguments block_body {CT B} _.
Arguments signed_block_message {CT B} _.
Arguments signed_block_signature {CT B} _.

Section accessors.
Context `{CT : ConsensusTypes}.

(** ** Accessors of [SignedBlindedBeaconBlock] and of its message *)

Definition blinded_message (b : SignedBlindedBeaconBlock) : BlindedBeaconBlock :=
  match b with
  | SignedBlindedBeaconBlock_Bellatrix b =>
      BlindedBeaconBlock_Bellatrix (signed_block_message b)
  | SignedBlindedBeaconBlock_Capella b =>
      BlindedBeaconBlock_Capella (signed_block_message b)
  | SignedBlindedBeaconBlock_Deneb b =>
      BlindedBeaconBlock_Deneb (signed_block_message b)
  end.

Definition signed_blinded_version (b : SignedBlindedBeaconBlock) : Fork :=
  match b with
  | SignedBlindedBeaconBlock_Bellatrix _ => Fork_Bellatrix
  | SignedBlindedBeaconBlock_Capella _ => Fork_Capella
  | SignedBlindedBeaconBlock_Deneb _ => Fork_Deneb
  end.

Definition blinded_signature (b : SignedBlindedBeaconBlock) : BlsSignature :=
  match b with
  | SignedBlindedBeaconBlock_Bellatrix b => signed_block_signature b
  | SignedBlindedBeaconBlock_Capella b => signed_block_signature b
  | SignedBlindedBeaconBlock_Deneb b => signed_block_signature b
  end.

Definition blinded_slot (b : BlindedBeaconBlock) : N :=
  match b with
  | BlindedBeaconBlock_Bellatrix b => block_slot b
  | BlindedBeaconBlock_Capella b => block_slot b
  | BlindedBeaconBlock_Deneb b => block_slot b
  end.

Definition blinded_proposer_index (b : BlindedBeaconBlock) : N :=
  match b with
  | BlindedBeaconBlock_Bellatrix b => block_proposer_index b
  | BlindedBeaconBlock_Capella b => block_proposer_index b
  | BlindedBeaconBlock_Deneb b => block_proposer_index b
  end.

(** [block.body().execution_payload_header()] *)
Definition blinded_payload_header (b : BlindedBeaconBlock) : ExecutionPayloadHeader :=
  match b with
  | BlindedBeaconBlock_Bellatrix b =>
      ExecutionPayloadHeader_Bellatrix (bellatrix_execution_payload (block_body b))
  | BlindedBeaconBlock_Capella b =>
      ExecutionPayloadHeader_Capella (capella_execution_payload (block_body b))
  | BlindedBeaconBlock_Deneb b =>
      ExecutionPayloadHeader_Deneb (deneb_execution_payload (block_body b))
  end.

(** [block.body().blob_kzg_commitments()] *)
Definition blinded_kzg_commitments (b : BlindedBeaconBlock) : option (list KzgCommitment) :=
  match b with
  | BlindedBeaconBlock_Deneb b => Some (deneb_blob_kzg_commitments (block_body b))
  | _ => None
  end.

(** ** Validators *)

Record ValidatorRegistration : Type := {
  registration_fee_recipient : ExecutionAddress;
  registration_gas_limit : N;
  registration_timestamp : N;
  registration_public_key : BlsPublicKey;
}.

Record SignedValidatorRegistration : Type := {
  registration_message : ValidatorRegistration;
  registration_signature : BlsSignature;
}.

(** The fields of [ValidatorSummary] the program reads. *)
Record ValidatorSummary : Type := {
  summary_index : N;
  summary_status : ValidatorStatus;
  summary_public_key : BlsPublicKey;
}.

Record ProposerDuty : Type := {
  duty_public_key : BlsPublicKey;
  duty_validator_index : N;
  duty_slot : N;
}.

(** The fields of [PayloadAttributesEvent] the program reads. *)
Record PayloadAttributesEvent : Type := {
  event_proposer_index : N;
  event_proposal_slot : N;
  event_parent_block_hash : Hash32;
}.
End accessors.

(** * Functions *)

(** What the library offers for a type with a hash tree root: signing a value and
    verifying a signature over it. *)
Class Signable `{CT : ConsensusTypes} (T : Type) := {
  compute_signing_root : T → Domain → result ConsensusError Root;
  sign_with_domain : T → SecretKey → Domain → result ConsensusError BlsSignature;
  verify_signed_data :
    T → BlsSignature → BlsPublicKey → Domain → result ConsensusError unit;
}.

Class ConsensusFunctions `{CT : ConsensusTypes} := {
  (** [SecretKey::public_key], [crypto::verify_signature] *)
  secret_key_public_key : SecretKey → BlsPublicKey;
  verify_signature : BlsPublicKey → Root → BlsSignature → result ConsensusError unit;
  (** the [Ord] instances *)
  Hash32_cmp : Hash32 → Hash32 → comparison;
  BlsPublicKey_cmp : BlsPublicKey → BlsPublicKey → comparison;
  (** accessors of [ExecutionPayload] and [ExecutionPayloadHeader] *)
  payload_parent_hash : ExecutionPayload → Hash32;
  payload_block_hash : ExecutionPayload → Hash32;
  payload_gas_limit : ExecutionPayload → N;
  payload_gas_used : ExecutionPayload → N;
  payload_transaction_count : ExecutionPayload → N;
  header_parent_hash : ExecutionPayloadHeader → Hash32;
  header_block_hash : ExecutionPayloadHeader → Hash32;
  header_block_number : ExecutionPayloadHeader → N;
  (** [TryFrom<&ExecutionPayload> for ExecutionPayloadHeader], per fork *)
  bellatrix_try_into_header :
    bellatrix_ExecutionPayload → result ConsensusError bellatrix_ExecutionPayloadHeader;
  capella_try_into_header :
    capella_ExecutionPayload → result ConsensusError capella_ExecutionPayloadHeader;
  deneb_try_into_header :
    deneb_ExecutionPayload → result ConsensusError deneb_ExecutionPayloadHeader;
  (** [Context] *)
  slots_per_epoch : ChainContext → N;
  seconds_per_slot : ChainContext → N;
  fork_for : ChainContext → N → Fork;
  fork_version_for : ChainContext → Fork → Version;
  (** [compute_builder_domain(context)] and
      [compute_domain(DomainType::BeaconProposer, version, root, context)] *)
  compute_builder_domain : ChainContext → result ConsensusError Domain;
  compute_beacon_proposer_domain : Version → Root → ChainContext → result ConsensusError Domain;
  (** the messages that are signed *)
  #[global] ValidatorRegistration_signable :: Signable ValidatorRegistration;
  #[global] BlindedBeaconBlock_signable :: Signable BlindedBeaconBlock;
  (** [signed_block.message().hash_tree_root()] *)
  beacon_block_root : SignedBeaconBlock → result ConsensusError Root;
}.

(** * Laws

    The documented behaviour some theorems rely on: the orders are total orders,
    and the header built from a payload carries the payload's parent hash and
    block hash. *)
Class ConsensusLaws `{CF : ConsensusFunctions} : Prop := {
  #[global] Hash32_cmp_order :: CmpOrder Hash32_cmp;
  #[global] BlsPublicKey_cmp_order :: CmpOrder BlsPublicKey_cmp;
  bellatrix_header_hashes p h : bellatrix_try_into_header p = Ok h →
    header_block_hash (ExecutionPayloadHeader_Bellatrix h)
      = payload_block_hash (ExecutionPayload_Bellatrix p) ∧
    header_parent_hash (ExecutionPayloadHeader_Bellatrix h)
      = payload_parent_hash (ExecutionPayload_Bellatrix p);
  capella_header_hashes p h : capella_try_into_header p = Ok h →
    header_block_hash (ExecutionPayloadHeader_Capella h)
      = payload_block_hash (ExecutionPayload_Capella p) ∧
    header_parent_hash (ExecutionPayloadHeader_Capella h)
      = payload_parent_hash (ExecutionPayload_Capella p);
  deneb_header_hashes p h : deneb_try_into_header p = Ok h →
    header_block_hash (ExecutionPayloadHeader_Deneb h)
      = payload_block_hash (ExecutionPayload_Deneb p) ∧
    header_parent_hash (ExecutionPayloadHeader_Deneb h)
      = payload_parent_hash (ExecutionPayload_Deneb p);
}.

(** A message type whose signatures verify: what is signed with a secret key
    verifies under its public key. *)
Class SignableLaws `{CF : ConsensusFunctions} (T : Type) {S : Signable T} : Prop := {
  sign_verify (m : T) sk d sig r :
    sign_with_domain m sk d = Ok sig → compute_signing_root m d = Ok r →
    verify_signature (secret_key_public_key sk) r sig = Ok tt;
  sign_root (m : T) sk d sig :
    sign_with_domain m sk d = Ok sig → ∃ r, compute_signing_root m d = Ok r;
}.
