(* ===== verification/Types.v ===== *)
(** The data of the builder API: [mev-rs/src/types/] and the errors of
    [mev-rs/src/error.rs].

    Rust's modules [bellatrix], [capella] and [deneb] become name prefixes;
    [capella] re-exports the types of [bellatrix] in the source, and does so here. *)

From S2P Require Import Prelude.
From S2P Require Import Consensus.

Section types.
Context `{CF : ConsensusFunctions}.

(** ** [auction_request.rs] *)

Record AuctionRequest : Type := {
  slot : N;
  parent_hash : Hash32;
  public_key : BlsPublicKey;
}.

#[export] Instance AuctionRequest_eq : EqDecision AuctionRequest.
Proof. solve_decision. Defined.

#[export] Instance AuctionRequest_countable : Countable AuctionRequest.
Proof.
  apply (inj_countable' (λ r, (slot r, parent_hash r, public_key r))
           (λ '(s, h, k), Build_AuctionRequest s h k)). by intros [].
Defined.

(** The derived [Ord]: lexicographic, in the order of the fields. *)
Definition AuctionRequest_cmp (a b : AuctionRequest) : comparison :=
  then_cmp (slot a ?= slot b)%N
    (then_cmp (Hash32_cmp (parent_hash a) (parent_hash b))
       (BlsPublicKey_cmp (public_key a) (public_key b))).

(** ** [auction_contents.rs] *)

Record BlobsBundle : Type := {
  commitments : list KzgCommitment;
  proofs : list KzgProof;
  blobs : list Blob;
}.

#[export] Instance BlobsBundle_eq : EqDecision BlobsBundle.
Proof. solve_decision. Defined.

Definition bellatrix_AuctionContents : Type := ExecutionPayload.
Definition capella_AuctionContents : Type := bellatrix_AuctionContents.

Record deneb_AuctionContents : Type := {
  deneb_contents_execution_payload : ExecutionPayload;
  deneb_contents_blobs_bundle : BlobsBundle;
}.

Inductive AuctionContents : Type :=
| AuctionContents_Bellatrix (inner : bellatrix_AuctionContents)
| AuctionContents_Capella (inner : capella_AuctionContents)
| AuctionContents_Deneb (inner : deneb_AuctionContents).

Definition contents_version (c : AuctionContents) : Fork :=
  match c with
  | AuctionContents_Bellatrix _ => Fork_Bellatrix
  | AuctionContents_Capella _ => Fork_Capella
  | AuctionContents_Deneb _ => Fork_Deneb
  end.

Definition contents_execution_payload (c : AuctionContents) : ExecutionPayload :=
  match c with
  | AuctionContents_Bellatrix inner => inner
  | AuctionContents_Capella inner => inner
  | AuctionContents_Deneb inner => deneb_contents_execution_payload inner
  end.

Definition contents_blobs_bundle (c : AuctionContents) : option BlobsBundle :=
  match c with
  | AuctionContents_Deneb inner => Some (deneb_contents_blobs_bundle inner)
  | _ => None
  end.

(** ** [block_submission.rs] *)

Record BidTrace : Type := {
  trace_slot : N;
  trace_parent_hash : Hash32;
  trace_block_hash : Hash32;
  trace_builder_public_key : BlsPublicKey;
  trace_proposer_public_key : BlsPublicKey;
  trace_proposer_fee_recipient : ExecutionAddress;
  trace_gas_limit : N;
  trace_gas_used : N;
  trace_value : N;
}.

#[export] Instance BidTrace_eq : EqDecision BidTrace.
Proof. solve_decision. Defined.

(** [data_api::PayloadTrace] *)
Record PayloadTrace : Type := {
  pt_slot : N;
  pt_parent_hash : Hash32;
  pt_block_hash : Hash32;
  pt_builder_public_key : BlsPublicKey;
  pt_proposer_public_key : BlsPublicKey;
  pt_proposer_fee_recipient : ExecutionAddress;
  pt_gas_limit : N;
  pt_gas_used : N;
  pt_value : N;
  pt_block_number : N;
  pt_transaction_count : N;
  pt_blob_count : N;
}.

(** [data_api::SubmissionTrace] *)
Record SubmissionTrace : Type := {
  st_slot : N;
  st_parent_hash : Hash32;
  st_block_hash : Hash32;
  st_builder_public_key : BlsPublicKey;
  st_proposer_public_key : BlsPublicKey;
  st_proposer_fee_recipient : ExecutionAddress;
  st_gas_limit : N;
  st_gas_used : N;
  st_value : N;
  st_block_number : N;
  st_transaction_count : N;
  st_blob_count : N;
  st_timestamp : N;
  st_timestamp_ms : N;
}.

Record bellatrix_SignedBidSubmission : Type := {
  bellatrix_submission_message : BidTrace;
  bellatrix_submission_execution_payload : ExecutionPayload;
  bellatrix_submission_signature : BlsSignature;
}.

Definition capella_SignedBidSubmission : Type := bellatrix_SignedBidSubmission.

Record deneb_SignedBidSubmission : Type := {
  deneb_submission_message : BidTrace;
  deneb_submission_execution_payload : ExecutionPayload;
  deneb_submission_blobs_bundle : BlobsBundle;
  deneb_submission_signature : BlsSignature;
}.

Inductive SignedBidSubmission : Type :=
| SignedBidSubmission_Bellatrix (inner : bellatrix_SignedBidSubmission)
| SignedBidSubmission_Capella (inner : capella_SignedBidSubmission)
| SignedBidSubmission_Deneb (inner : deneb_SignedBidSubmission).

Definition submission_version (s : SignedBidSubmission) : Fork :=
  match s with
  | SignedBidSubmission_Bellatrix _ => Fork_Bellatrix
  | SignedBidSubmission_Capella _ => Fork_Capella
  | SignedBidSubmission_Deneb _ => Fork_Deneb
  end.

Definition submission_message (s : SignedBidSubmission) : BidTrace :=
  match s with
  | SignedBidSubmission_Bellatrix inner => bellatrix_submission_message inner
  | SignedBidSubmission_Capella inner => bellatrix_submission_message inner
  | SignedBidSubmission_Deneb inner => deneb_submission_message inner
  end.

Definition submission_payload (s : SignedBidSubmission) : ExecutionPayload :=
  match s with
  | SignedBidSubmission_Bellatrix inner => bellatrix_submission_execution_payload inner
  | SignedBidSubmission_Capella inner => bellatrix_submission_execution_payload inner
  | SignedBidSubmission_Deneb inner => deneb_submission_execution_payload inner
  end.

Definition submission_signature (s : SignedBidSubmission) : BlsSignature :=
  match s with
  | SignedBidSubmission_Bellatrix inner => bellatrix_submission_signature inner
  | SignedBidSubmission_Capella inner => bellatrix_submission_signature inner
  | SignedBidSubmission_Deneb inner => deneb_submission_signature inner
  end.

Definition submission_blobs_bundle (s : SignedBidSubmission) : option BlobsBundle :=
  match s with
  | SignedBidSubmission_Bellatrix _ => None
  | SignedBidSubmission_Capella _ => None
  | SignedBidSubmission_Deneb inner => Some (deneb_submission_blobs_bundle inner)
  end.

(** ** [builder_bid.rs] *)

Record bellatrix_BuilderBid : Type := {
  bellatrix_bid_header : ExecutionPayloadHeader;
  bellatrix_bid_value : N;
  bellatrix_bid_public_key : BlsPublicKey;
}.

#[export] Instance bellatrix_BuilderBid_eq : EqDecision bellatrix_BuilderBid.
Proof. solve_decision. Defined.

Definition capella_BuilderBid : Type := bellatrix_BuilderBid.

Record deneb_BuilderBid : Type := {
  deneb_bid_header : ExecutionPayloadHeader;
  deneb_bid_blob_kzg_commitments : list KzgCommitment;
  deneb_bid_value : N;
  deneb_bid_public_key : BlsPublicKey;
}.

#[export] Instance deneb_BuilderBid_eq : EqDecision deneb_BuilderBid.
Proof. solve_decision. Defined.

Inductive BuilderBid : Type :=
| BuilderBid_Bellatrix (inner : bellatrix_BuilderBid)
| BuilderBid_Capella (inner : capella_BuilderBid)
| BuilderBid_Deneb (inner : deneb_BuilderBid).

#[export] Instance BuilderBid_eq : EqDecision BuilderBid.
Proof. unfold EqDecision, capella_BuilderBid. solve_decision. Defined.

Definition bid_version (b : BuilderBid) : Fork :=
  match b with
  | BuilderBid_Bellatrix _ => Fork_Bellatrix
  | BuilderBid_Capella _ => Fork_Capella
  | BuilderBid_Deneb _ => Fork_Deneb
  end.

Definition bid_header (b : BuilderBid) : ExecutionPayloadHeader :=
  match b with
  | BuilderBid_Bellatrix inner => bellatrix_bid_header inner
  | BuilderBid_Capella inner => bellatrix_bid_header inner
  | BuilderBid_Deneb inner => deneb_bid_header inner
  end.

Definition bid_blob_kzg_commitments (b : BuilderBid) : option (list KzgCommitment) :=
  match b with
  | BuilderBid_Deneb inner => Some (deneb_bid_blob_kzg_commitments inner)
  | _ => None
  end.

Definition bid_value (b : BuilderBid) : N :=
  match b with
  | BuilderBid_Bellatrix inner => bellatrix_bid_value inner
  | BuilderBid_Capella inner => bellatrix_bid_value inner
  | BuilderBid_Deneb inner => deneb_bid_value inner
  end.

Definition bid_public_key (b : BuilderBid) : BlsPublicKey :=
  match b with
  | BuilderBid_Bellatrix inner => bellatrix_bid_public_key inner
  | BuilderBid_Capella inner => bellatrix_bid_public_key inner
  | BuilderBid_Deneb inner => deneb_bid_public_key inner
  end.

Record SignedBuilderBid : Type := {
  signed_bid_message : BuilderBid;
  signed_bid_signature : BlsSignature;
}.

#[export] Instance SignedBuilderBid_eq : EqDecision SignedBuilderBid.
Proof. solve_decision. Defined.

Definition signed_bid_version (b : SignedBuilderBid) : Fork :=
  bid_version (signed_bid_message b).

(** ** [proposer_schedule.rs] *)

Record ProposerSchedule : Type := {
  schedule_slot : N;
  schedule_validator_index : N;
  schedule_entry : SignedValidatorRegistration;
}.

(** ** [error.rs], and the errors of [validator_registry.rs] and
    [proposer_scheduler.rs] it wraps *)

Inductive RegistryError : Type :=
| FutureRegistration (m : ValidatorRegistration) (current_timestamp : N)
| OutdatedRegistration (m : ValidatorRegistration) (latest_timestamp : N)
| RegistryError_ValidatorStatus (m : ValidatorRegistration) (status : ValidatorStatus)
| UnknownPubkey
| UnknownIndex
| RegistryError_Api (e : ApiError)
| RegistryError_Consensus (e : ConsensusError).

Inductive SchedulerError : Type :=
| SchedulerError_Api (e : ApiError).

Inductive BoostError : Type :=
| BidPublicKeyMismatch (bid relay : BlsPublicKey)
| MissingOpenBid (h : Hash32)
| CouldNotRegister
| MissingPayload (h : Hash32)
| InvalidPayloadHash (expected provided : Hash32)
| InvalidPayloadUnexpectedBlobs
| InvalidPayloadBlobs (expected provided : list KzgCommitment).

Inductive RelayError : Type :=
| InvalidAuctionRequest (r : AuctionRequest)
| InvalidExecutionPayloadInBlock
| InvalidFeeRecipient (k : BlsPublicKey) (a : ExecutionAddress)
| InvalidGasLimit (declared provided : N)
| InvalidGasUsed (declared provided : N)
| InvalidParentHash (declared provided : Hash32)
| InvalidBlockHash (declared provided : Hash32)
| MissingAuction (r : AuctionRequest)
| InvalidSignedBlindedBeaconBlock
| ValidatorNotRegistered (k : BlsPublicKey)
| UnknownValidatorIndex (index : N)
| BuilderNotRegistered (k : BlsPublicKey).

Inductive Error : Type :=
| InvalidFork (expected provided : Fork)
| NoBidPrepared (r : AuctionRequest)
| Error_ValidatorRegistry (e : RegistryError)
| Error_ProposerScheduler (e : SchedulerError)
| RegistrationErrors (es : list RegistryError)
| Error_Boost (e : BoostError)
| Error_Relay (e : RelayError)
| Error_Consensus (e : ConsensusError)
| Error_Api (e : ApiError).

(** The status codes of HTTP the program and its server library use. *)
Inductive StatusCode : Set :=
| OK
| NO_CONTENT
| BAD_REQUEST
| NOT_FOUND
| METHOD_NOT_ALLOWED
| UNPROCESSABLE_ENTITY.

#[export] Instance StatusCode_eq : EqDecision StatusCode.
Proof. solve_decision. Defined.

(** [IntoResponse for Error]: the status code an error is served with. *)

Definition error_into_response (e : Error) : StatusCode :=
  match e with
  | NoBidPrepared _ => NO_CONTENT
  | _ => BAD_REQUEST
  end.

#[export] Instance AuctionRequest_cmp_order `{!ConsensusLaws} : CmpOrder AuctionRequest_cmp.
Proof.
  split.
  - unfold AuctionRequest_cmp.
    apply (cmp_pre_then (λ a b, slot a ?= slot b)%N
      (λ a b, then_cmp (Hash32_cmp (parent_hash a) (parent_hash b))
                (BlsPublicKey_cmp (public_key a) (public_key b)))).
  - intros [s h k] [s' h' k']. unfold AuctionRequest_cmp. simpl.
    pose proof (cmp_eq N.compare s s'). pose proof (cmp_eq Hash32_cmp h h').
    pose proof (cmp_eq BlsPublicKey_cmp k k').
    destruct (s ?= s')%N, (Hash32_cmp h h'), (BlsPublicKey_cmp k k'); simpl; naive_solver.
Qed.
End types.

(** The types declared here that are signed. *)
Class BuilderSignable `{CF : ConsensusFunctions} := {
  #[global] BidTrace_signable :: Signable BidTrace;
  #[global] BuilderBid_signable :: Signable BuilderBid;
}.
