(* ===== verification/Toy.v ===== *)
(** A concrete instance of the consensus interface, on which the witnesses of the
    theorems evaluate: keys, hashes and roots are numbers, a signature is the pair
    of the signer's public key and the signed root, and a header keeps the hashes
    and the number of its payload.  The instances are visible only where
    [ToyInstances] is imported. *)

From S2P Require Import Prelude.
From S2P Require Import Consensus.
From S2P Require Import Types.

Record toy_payload : Set := {
  toy_parent_hash : N;
  toy_block_hash : N;
  toy_gas_limit : N;
  toy_gas_used : N;
  toy_transaction_count : N;
}.

Record toy_header : Set := {
  toy_header_parent_hash : N;
  toy_header_block_hash : N;
  toy_header_transaction_count : N;
}.

#[export] Instance toy_payload_eq : EqDecision toy_payload.
Proof. solve_decision. Defined.

#[export] Instance toy_header_eq : EqDecision toy_header.
Proof. solve_decision. Defined.

Definition toy_try_into_header (p : toy_payload) : result N toy_header :=
  if decide (toy_transaction_count p = 1000)%N then Err 3%N
  else Ok (Build_toy_header (toy_parent_hash p) (toy_block_hash p) (toy_transaction_count p)).

Module ToyInstances.
#[export] Instance toy_types : ConsensusTypes := {|
  BlsPublicKey := N; BlsSignature := N * N; SecretKey := N; Hash32 := N;
  ExecutionAddress := N; Root := N; Domain := N; Version := N;
  KzgCommitment := N; KzgProof := N; Blob := N; ChainContext := N;
  bellatrix_ExecutionPayload := toy_payload;
  capella_ExecutionPayload := toy_payload;
  deneb_ExecutionPayload := toy_payload;
  bellatrix_ExecutionPayloadHeader := toy_header;
  capella_ExecutionPayloadHeader := toy_header;
  deneb_ExecutionPayloadHeader := toy_header;
  Eth1Data := N; ProposerSlashings := N; AttesterSlashings := N; Attestations := N;
  Deposits := N; VoluntaryExits := N; SyncAggregate := N; BlsToExecutionChanges := N;
  ConsensusError := N; ApiError := N;
|}.

(** Numbers, at the types of the interface. *)
Definition toy_pk (n : N) : BlsPublicKey := n.
Definition toy_sk (n : N) : SecretKey := n.
Definition toy_hash (n : N) : Hash32 := n.
Definition toy_address (n : N) : ExecutionAddress := n.
Definition toy_root (n : N) : Root := n.
Definition toy_sig (k r : N) : BlsSignature := (k, r).
Definition toy_commitment (n : N) : KzgCommitment := n.

(** The network: [n] slots an epoch. *)
Definition toy_network (n : N) : ChainContext := n.

Definition toy_payload_of (p : ExecutionPayload) : toy_payload :=
  match p with
  | ExecutionPayload_Bellatrix p => p
  | ExecutionPayload_Capella p => p
  | ExecutionPayload_Deneb p => p
  end.

Definition toy_header_of (h : ExecutionPayloadHeader) : toy_header :=
  match h with
  | ExecutionPayloadHeader_Bellatrix h => h
  | ExecutionPayloadHeader_Capella h => h
  | ExecutionPayloadHeader_Deneb h => h
  end.

Definition toy_public_key (sk : N) : N := (sk + 1000)%N.

Definition toy_verify (k r : N) (sig : N * N) : result N unit :=
  if decide (sig = (k, r)) then Ok tt else Err 1%N.

(** Signing a value whose root is given by [root]. *)
Definition toy_signable {T : Type} (root : T → N) : Signable T := {|
  compute_signing_root := λ m d, Ok (root m + d)%N : result ConsensusError Root;
  sign_with_domain := λ m sk d,
    Ok (toy_public_key sk, (root m + d)%N) : result ConsensusError BlsSignature;
  verify_signed_data := λ m sig k d,
    toy_verify k (root m + d)%N sig : result ConsensusError unit;
|}.

Definition toy_registration_root (r : ValidatorRegistration) : N :=
  (1000 * registration_public_key r + registration_timestamp r)%N.

Definition toy_block_root (b : BlindedBeaconBlock) : N :=
  (1000 * blinded_slot b + toy_header_block_hash (toy_header_of (blinded_payload_header b)))%N.

#[export] Instance toy_functions : ConsensusFunctions := {|
  secret_key_public_key := toy_public_key : SecretKey → BlsPublicKey;
  verify_signature := toy_verify : BlsPublicKey → Root → BlsSignature → _;
  Hash32_cmp := N.compare;
  BlsPublicKey_cmp := N.compare;
  payload_parent_hash p := toy_parent_hash (toy_payload_of p);
  payload_block_hash p := toy_block_hash (toy_payload_of p);
  payload_gas_limit p := toy_gas_limit (toy_payload_of p);
  payload_gas_used p := toy_gas_used (toy_payload_of p);
  payload_transaction_count p := toy_transaction_count (toy_payload_of p);
  header_parent_hash h := toy_header_parent_hash (toy_header_of h);
  header_block_hash h := toy_header_block_hash (toy_header_of h);
  header_block_number h := 17%N;
  bellatrix_try_into_header := toy_try_into_header;
  capella_try_into_header := toy_try_into_header;
  deneb_try_into_header := toy_try_into_header;
  slots_per_epoch c := c;
  seconds_per_slot _ := 12%N;
  fork_for _ s :=
    if (s <? 100)%N then Fork_Bellatrix else if (s <? 200)%N then Fork_Capella else Fork_Deneb;
  fork_version_for _ f := match f with Fork_Bellatrix => 1 | Fork_Capella => 2 | _ => 3 end%N;
  compute_builder_domain _ := Ok 7%N;
  compute_beacon_proposer_domain v r _ := Ok (v + r)%N;
  ValidatorRegistration_signable := toy_signable toy_registration_root;
  BlindedBeaconBlock_signable := toy_signable toy_block_root;
  beacon_block_root _ := Ok 5%N;
|}.

#[export] Instance toy_builder_signable : BuilderSignable := {|
  BidTrace_signable := toy_signable (λ t, 1000 * trace_slot t + trace_value t)%N;
  BuilderBid_signable := toy_signable bid_value;
|}.

#[export] Instance toy_laws : ConsensusLaws.
Proof.
  split; try apply _; intros p h; simpl; unfold toy_try_into_header;
    case_decide; intros [=]; by subst.
Qed.

Lemma toy_signable_laws {T} (root : T → N) : SignableLaws T (S := toy_signable root).
Proof.
  split; simpl.
  - intros m sk d sig r [=<-] [=<-]. unfold toy_verify. by rewrite decide_True.
  - eauto.
Qed.

#[export] Instance toy_bid_laws : SignableLaws BuilderBid := toy_signable_laws _.
#[export] Instance toy_trace_laws : SignableLaws BidTrace := toy_signable_laws _.
#[export] Instance toy_registration_laws : SignableLaws ValidatorRegistration :=
  toy_signable_laws _.
End ToyInstances.
