(* ===== verification/Signing.v ===== *)
(** [mev-rs/src/signing.rs]: signing and verifying builder messages and blocks. *)

From S2P Require Import Prelude.
From S2P Require Import Consensus.
From S2P Require Import Types.
From S2P Require Import Toy.

Section signing.
Context `{CF : ConsensusFunctions}.

Definition compute_consensus_domain (slot : N) (genesis_validators_root : Root)
    (context : ChainContext) : result ConsensusError Domain :=
  let fork := fork_for context slot in
  let fork_version := fork_version_for context fork in
  compute_beacon_proposer_domain fork_version genesis_validators_root context.

Definition sign_builder_message {T} `{!Signable T} (message : T) (signing_key : SecretKey)
    (context : ChainContext) : result ConsensusError BlsSignature :=
  domain ← compute_builder_domain context;
  sign_with_domain message signing_key domain.

Definition verify_signed_builder_data {T} `{!Signable T} (data : T) (public_key : BlsPublicKey)
    (signature : BlsSignature) (context : ChainContext) : result ConsensusError unit :=
  domain ← compute_builder_domain context;
  signing_root ← compute_signing_root data domain;
  verify_signature public_key signing_root signature.

(** [BuilderBid::sign] of [builder_bid.rs]. *)
Definition bid_sign `{!BuilderSignable} (bid : BuilderBid) (secret_key : SecretKey)
    (context : ChainContext) : result ConsensusError SignedBuilderBid :=
  signature ← sign_builder_message bid secret_key context;
  Ok {| signed_bid_message := bid; signed_bid_signature := signature |}.

(** What [sign_builder_message] signs, [verify_signed_builder_data] accepts
    under the signer's public key. *)
Lemma sign_builder_message_verifies {T} `{!Signable T, !SignableLaws T} (m : T) sk sig ctx :
  sign_builder_message m sk ctx = Ok sig →
  verify_signed_builder_data m (secret_key_public_key sk) sig ctx = Ok tt.
Proof.
  unfold sign_builder_message, verify_signed_builder_data.
  intros (d & -> & Hsig)%bind_Ok. simpl.
  destruct (sign_root m sk d sig) as [r Hr]; [done|].
  rewrite Hr. simpl. by eapply sign_verify.
Qed.
End signing.
