(* ===== verification/BlockValidation.v ===== *)
(** [mev-rs/src/block_validation.rs]: the gas limit a proposer's preference leads
    to, within the bound the protocol puts on its change from one block to the
    next. *)

From S2P Require Import Prelude.

#[local] Open Scope N_scope.

Definition GAS_BOUND_DIVISOR : N := 1024.

(** [u64] arithmetic, with the wrap-around of the release profile. *)
Definition compute_preferred_gas_limit (preferred_gas_limit parent_gas_limit : N) : N :=
  match preferred_gas_limit ?= parent_gas_limit with
  | Eq => preferred_gas_limit
  | Gt =>
      let bound := u64_add parent_gas_limit (parent_gas_limit / GAS_BOUND_DIVISOR) in
      preferred_gas_limit `min` u64_sub bound 1
  | Lt =>
      let bound := u64_sub parent_gas_limit (parent_gas_limit / GAS_BOUND_DIVISOR) in
      preferred_gas_limit `max` u64_add bound 1
  end.

(** The protocol's rule, as the unit test of the file states it: the limit of a
    block differs from its parent's by less than a 1024th of it. *)
Definition verify_limits (gas_limit parent_gas_limit : N) : bool :=
  match gas_limit ?= parent_gas_limit with
  | Eq => true
  | Gt =>
      let bound := u64_add parent_gas_limit (parent_gas_limit / GAS_BOUND_DIVISOR) in
      gas_limit <? bound
  | Lt =>
      let bound := u64_sub parent_gas_limit (parent_gas_limit / GAS_BOUND_DIVISOR) in
      bound <? gas_limit
  end.

(** The parent limits for which no operation wraps and the protocol leaves room
    for a change. *)
Definition gas_limit_in_range (parent : N) : Prop :=
  GAS_BOUND_DIVISOR ≤ parent ∧ parent + parent / GAS_BOUND_DIVISOR < u64_mod.

Lemma parent_step_bounds parent :
  gas_limit_in_range parent → 1 ≤ parent / GAS_BOUND_DIVISOR < parent.
Proof.
  intros [Hlo _]. split.
  - by apply N.div_le_lower_bound.
  - apply N.div_lt_upper_bound; unfold GAS_BOUND_DIVISOR in *; lia.
Qed.

(** In range, the wrapping arithmetic is the mathematical one. *)
Lemma compute_preferred_gas_limit_exact preferred parent :
  gas_limit_in_range parent → preferred < u64_mod →
  compute_preferred_gas_limit preferred parent =
    match preferred ?= parent with
    | Eq => preferred
    | Gt => preferred `min` (parent + parent / GAS_BOUND_DIVISOR - 1)
    | Lt => preferred `max` (parent - parent / GAS_BOUND_DIVISOR + 1)
    end.
Proof.
  intros Hr Hp. pose proof (parent_step_bounds parent Hr) as Hb. destruct Hr as [_ Hr].
  unfold compute_preferred_gas_limit.
  rewrite (u64_add_small parent) by done.
  rewrite (u64_sub_small parent) by lia.
  rewrite u64_add_small by lia. rewrite u64_sub_small by lia. done.
Qed.

Lemma verify_limits_spec g p :
  gas_limit_in_range p →
  verify_limits g p = true ↔
  g = p ∨ (p < g ∧ g < p + p / GAS_BOUND_DIVISOR) ∨ (g < p ∧ p - p / GAS_BOUND_DIVISOR < g).
Proof.
  intros Hr. pose proof (parent_step_bounds p Hr) as Hb. destruct Hr as [_ Hr].
  unfold verify_limits. rewrite u64_add_small, u64_sub_small by lia. destruct (N.compare_spec g p); rewrite ?N.ltb_lt; lia.
Qed.

(** How far apart two limits are. *)
Definition limit_distance (a b : N) : N := (a - b) + (b - a).

(** C35: When the parent's limit is at least 1024 (and far enough from overflowing), the
    computed limit is the one the proposer would choose: it satisfies the protocol's rule,
    and no limit that satisfies the rule is closer to the proposer's preference. *)
Theorem compute_preferred_gas_limit_optimal preferred parent :
  gas_limit_in_range parent → preferred < u64_mod →
  let g := compute_preferred_gas_limit preferred parent in
  verify_limits g parent = true ∧
  ∀ g', verify_limits g' parent = true →
    limit_distance preferred g ≤ limit_distance preferred g'.
Proof.
  intros Hr Hp. cbv zeta. rewrite compute_preferred_gas_limit_exact by done.
  pose proof (parent_step_bounds parent Hr) as Hb.
  rewrite verify_limits_spec by done. unfold limit_distance.
  split; [destruct (N.compare_spec preferred parent); lia|].
  intros g' Hg'%(verify_limits_spec _ _ Hr). destruct (N.compare_spec preferred parent); lia.
Qed.

Lemma compute_preferred_gas_limit_optimal_witness :
  gas_limit_in_range 30000000 ∧ 30029300 < u64_mod ∧
  compute_preferred_gas_limit 30029300 30000000 = 30029295 ∧
  verify_limits (compute_preferred_gas_limit 30029300 30000000) 30000000 = true.
Proof.
  assert (Hr : gas_limit_in_range 30000000) by done.
  split; [done|]. split; [done|]. split; [done|].
  by apply (compute_preferred_gas_limit_optimal 30029300 30000000).
Defined.

(** Below the range (a parent limit under 1024) the step is zero and a preference
    for more gas yields one unit less than the parent's limit, which the rule
    forbids. *)
Lemma compute_preferred_gas_limit_tiny_parent preferred parent :
  0 < parent < GAS_BOUND_DIVISOR → parent < preferred →
  compute_preferred_gas_limit preferred parent = parent - 1 ∧
  verify_limits (parent - 1) parent = false.
Proof.
  intros [Hlo Hhi] Hlt. unfold GAS_BOUND_DIVISOR in *.
  assert (Hdiv : parent / 1024 = 0) by by apply N.div_small.
  unfold compute_preferred_gas_limit, verify_limits, GAS_BOUND_DIVISOR. rewrite Hdiv.
  rewrite (proj2 (N.compare_gt_iff preferred parent)) by done.
  rewrite u64_add_small, N.add_0_r by (unfold u64_mod; lia).
  rewrite !u64_sub_small by (unfold u64_mod; lia). split; [lia|].
  rewrite (proj2 (N.compare_lt_iff (parent - 1) parent)) by lia.
  apply N.ltb_ge. lia.
Qed.
