(* ===== verification/ValidatorRegistry.v ===== *)
(** [mev-rs/src/validator_registry.rs]: the validators the relay knows from
    consensus, and the registrations they have sent.

    The state behind the [RwLock] is [State]; each critical section is a function of
    that state.  [process_registrations] is the method run alone: every
    [process_registration] takes the read lock, and [apply_registrations] then takes
    the write lock and applies the accepted registrations in the order of the
    request.  The relay's [register_validators] ([Relay.v]) is composed of the same
    sections, so that they can be interleaved with other requests. *)

From S2P Require Import Prelude.
From S2P Require Import Consensus.
From S2P Require Import Types.
From S2P Require Import Signing.
From S2P Require Import Toy.

#[local] Open Scope N_scope.

Inductive ValidatorRegistrationStatus : Set :=
| Status_New
| Status_Existing
| Status_Outdated.

Section registry.
Context `{CF : ConsensusFunctions}.

Definition validate_registration_is_not_from_future (message : ValidatorRegistration)
    (current_timestamp : N) : result RegistryError unit :=
  let timestamp := registration_timestamp message in
  if decide (u64_add current_timestamp 10 < timestamp)
  then Err (FutureRegistration message current_timestamp)
  else Ok tt.

Definition determine_validator_registration_status (timestamp latest_timestamp : N)
    : ValidatorRegistrationStatus :=
  match timestamp ?= latest_timestamp with
  | Lt => Status_Outdated
  | Eq => Status_Existing
  | Gt => Status_New
  end.

Definition validate_validator_status (message : ValidatorRegistration)
    (status : ValidatorStatus) : result RegistryError unit :=
  match status with
  | ValidatorStatus_Pending | ValidatorStatus_ActiveOngoing => Ok tt
  | _ => Err (RegistryError_ValidatorStatus message status)
  end.

Record State : Type := {
  validator_preferences : gmap BlsPublicKey SignedValidatorRegistration;
  validators : gmap BlsPublicKey ValidatorSummary;
  pubkeys_by_index : gmap N BlsPublicKey;
}.

(** [ValidatorRegistry::new] starts from the default state. *)
Definition new : State := {|
  validator_preferences := ∅;
  validators := ∅;
  pubkeys_by_index := ∅;
|}.

Definition set_validator_preferences (prefs : gmap BlsPublicKey SignedValidatorRegistration)
    (state : State) : State := {|
  validator_preferences := prefs;
  validators := validators state;
  pubkeys_by_index := pubkeys_by_index state;
|}.

(** The body of the loop of [on_epoch]. *)
Definition insert_summary (state : State) (summary : ValidatorSummary) : State :=
  let public_key := summary_public_key summary in
  {| validator_preferences := validator_preferences state;
     validators := <[public_key := summary]> (validators state);
     pubkeys_by_index := <[summary_index summary := public_key]> (pubkeys_by_index state) |}.

(** [get_validators] is the beacon node's answer for the state at a slot. *)
Definition on_epoch (spe : N) (get_validators : N → result ApiError (list ValidatorSummary))
    (epoch : N) (state : State) : State * result RegistryError unit :=
  let slot := u64_mul epoch spe in
  match get_validators slot with
  | Err e => (state, Err (RegistryError_Api e))
  | Ok summaries => (foldl insert_summary state summaries, Ok tt)
  end.

Definition get_public_key (state : State) (index : N) : option BlsPublicKey :=
  pubkeys_by_index state !! index.

Definition registration_count (state : State) : nat :=
  size (validator_preferences state).

Definition get_signed_registration (state : State) (public_key : BlsPublicKey)
    : option SignedValidatorRegistration :=
  validator_preferences state !! public_key.

Definition process_registration (state : State) (registration : SignedValidatorRegistration)
    (current_timestamp : N) (context : ChainContext)
    : result RegistryError (option SignedValidatorRegistration) :=
  let message := registration_message registration in
  let latest_timestamp :=
    (λ r, registration_timestamp (registration_message r)) <$>
      validator_preferences state !! registration_public_key message in
  _ ← validate_registration_is_not_from_future message current_timestamp;
  registration_status ←
    match latest_timestamp with
    | Some latest_timestamp =>
        match determine_validator_registration_status
                (registration_timestamp message) latest_timestamp with
        | Status_Outdated => Err (OutdatedRegistration message latest_timestamp)
        | status => Ok status
        end
    | None => Ok Status_New
    end;
  let public_key := registration_public_key message in
  validator_status ← ok_or (summary_status <$> validators state !! public_key) UnknownPubkey;
  _ ← validate_validator_status message validator_status;
  _ ← map_err RegistryError_Consensus
        (verify_signed_builder_data message public_key
           (registration_signature registration) context);
  match registration_status with
  | Status_New => Ok (Some registration)
  | _ => Ok None
  end.

(** One turn of the loop that applies the updates. *)
Definition apply_update
    (acc : gset BlsPublicKey * gmap BlsPublicKey SignedValidatorRegistration)
    (update : option SignedValidatorRegistration)
    : gset BlsPublicKey * gmap BlsPublicKey SignedValidatorRegistration :=
  match update with
  | Some signed_registration =>
      let public_key := registration_public_key (registration_message signed_registration) in
      ({[public_key]} ∪ acc.1, <[public_key := signed_registration]> acc.2)
  | None => acc
  end.

Definition ok_part {E A} (r : result E A) : option A :=
  match r with Ok a => Some a | Err _ => None end.
Definition err_part {E A} (r : result E A) : option E :=
  match r with Ok _ => None | Err e => Some e end.

(** The section that applies the updates, under the write lock. *)
Definition apply_registrations (updates : list (option SignedValidatorRegistration))
    (state : State) : State * gset BlsPublicKey :=
  let '(updated_keys, prefs) :=
    foldl apply_update (∅, validator_preferences state) updates in
  (set_validator_preferences prefs state, updated_keys).

Definition process_registrations (state : State)
    (registrations : list SignedValidatorRegistration) (current_timestamp : N)
    (context : ChainContext) : State * (gset BlsPublicKey * list RegistryError) :=
  let results :=
    map (λ r, process_registration state r current_timestamp context) registrations in
  let updates := omap ok_part results in
  let errs := omap err_part results in
  let '(state', updated_keys) := apply_registrations updates state in
  (state', (updated_keys, errs)).
End registry.

(** * Properties *)

Section registry_properties.
Context `{CF : ConsensusFunctions}.
Implicit Types (state : State) (r : SignedValidatorRegistration) (k : BlsPublicKey).

(** The key and the timestamp of a signed registration. *)
Definition key_of r : BlsPublicKey := registration_public_key (registration_message r).
Definition timestamp_of r : N := registration_timestamp (registration_message r).

Definition allowed_status (s : ValidatorStatus) : Prop :=
  s = ValidatorStatus_Pending ∨ s = ValidatorStatus_ActiveOngoing.

(** The signature of [r] verifies under its own key. *)
Definition signed_by_key r (context : ChainContext) : Prop :=
  verify_signed_builder_data (registration_message r) (key_of r) (registration_signature r)
    context = Ok tt.

(** The four checks, as propositions. *)
Definition passes_checks state r (now : N) (context : ChainContext) : Prop :=
  timestamp_of r ≤ u64_add now 10 ∧
  (∀ old, validator_preferences state !! key_of r = Some old →
          timestamp_of old ≤ timestamp_of r) ∧
  (∃ s, validators state !! key_of r = Some s ∧ allowed_status (summary_status s)) ∧
  signed_by_key r context.

(** [r] is newer than what the state holds for its key, if anything. *)
Definition is_newer state r : Prop :=
  ∀ old, validator_preferences state !! key_of r = Some old → timestamp_of old < timestamp_of r.

Lemma validate_validator_status_Ok m s :
  validate_validator_status m s = Ok tt ↔ allowed_status s.
Proof. unfold allowed_status. destruct s; naive_solver. Qed.

Lemma validate_validator_status_Err m s e :
  validate_validator_status m s = Err e ↔
  ¬ allowed_status s ∧ e = RegistryError_ValidatorStatus m s.
Proof. unfold allowed_status. destruct s; naive_solver. Qed.

Lemma not_from_future_Ok m now u :
  validate_registration_is_not_from_future m now = Ok u ↔
  registration_timestamp m ≤ u64_add now 10.
Proof.
  unfold validate_registration_is_not_from_future. destruct u.
  case_decide; split; intros; try done; lia.
Qed.

Lemma status_outdated t l :
  determine_validator_registration_status t l = Status_Outdated ↔ t < l.
Proof.
  unfold determine_validator_registration_status.
  destruct (N.compare_spec t l); split; intros; try done; lia.
Qed.

Lemma status_new t l : determine_validator_registration_status t l = Status_New ↔ l < t.
Proof.
  unfold determine_validator_registration_status.
  destruct (N.compare_spec t l); split; intros; try done; lia.
Qed.

(** What [process_registration] answers, case by case, in the order of its
    checks. *)
Inductive registration_outcome state r (now : N) (context : ChainContext)
    : result RegistryError (option SignedValidatorRegistration) → Prop :=
| outcome_future :
    u64_add now 10 < timestamp_of r →
    registration_outcome state r now context
      (Err (FutureRegistration (registration_message r) now))
| outcome_outdated old :
    timestamp_of r ≤ u64_add now 10 →
    validator_preferences state !! key_of r = Some old →
    timestamp_of r < timestamp_of old →
    registration_outcome state r now context
      (Err (OutdatedRegistration (registration_message r) (timestamp_of old)))
| outcome_unknown :
    timestamp_of r ≤ u64_add now 10 →
    (∀ old, validator_preferences state !! key_of r = Some old →
            timestamp_of old ≤ timestamp_of r) →
    validators state !! key_of r = None →
    registration_outcome state r now context (Err UnknownPubkey)
| outcome_status s :
    timestamp_of r ≤ u64_add now 10 →
    (∀ old, validator_preferences state !! key_of r = Some old →
            timestamp_of old ≤ timestamp_of r) →
    validators state !! key_of r = Some s → ¬ allowed_status (summary_status s) →
    registration_outcome state r now context
      (Err (RegistryError_ValidatorStatus (registration_message r) (summary_status s)))
| outcome_signature s e :
    timestamp_of r ≤ u64_add now 10 →
    (∀ old, validator_preferences state !! key_of r = Some old →
            timestamp_of old ≤ timestamp_of r) →
    validators state !! key_of r = Some s → allowed_status (summary_status s) →
    verify_signed_builder_data (registration_message r) (key_of r)
      (registration_signature r) context = Err e →
    registration_outcome state r now context (Err (RegistryError_Consensus e))
| outcome_existing old :
    passes_checks state r now context →
    validator_preferences state !! key_of r = Some old →
    timestamp_of old = timestamp_of r →
    registration_outcome state r now context (Ok None)
| outcome_new :
    passes_checks state r now context → is_newer state r →
    registration_outcome state r now context (Ok (Some r)).

(** The checks that follow the timestamp checks. *)
Lemma process_registration_tail state r now ctx status :
  timestamp_of r ≤ u64_add now 10 →
  (∀ old, validator_preferences state !! key_of r = Some old →
          timestamp_of old ≤ timestamp_of r) →
  (status = Status_New → is_newer state r) →
  (status ≠ Status_New → ∃ old, validator_preferences state !! key_of r = Some old ∧
                                timestamp_of old = timestamp_of r) →
  registration_outcome state r now ctx
    (validator_status ← ok_or (summary_status <$> validators state !! key_of r) UnknownPubkey;
     _ ← validate_validator_status (registration_message r) validator_status;
     _ ← map_err RegistryError_Consensus
           (verify_signed_builder_data (registration_message r) (key_of r)
              (registration_signature r) ctx);
     match status with
     | Status_New => Ok (Some r)
     | _ => Ok None
     end).
Proof.
  intros Hf Ho Hnew Hold.
  destruct (validators state !! key_of r) as [s|] eqn:Hs; simpl; [|by apply outcome_unknown].
  destruct (validate_validator_status _ (summary_status s)) as [[]|e] eqn:Hv; simpl.
  2: { apply validate_validator_status_Err in Hv as [? ->]. by apply (outcome_status _ _ _ _ s). }
  apply validate_validator_status_Ok in Hv.
  destruct (verify_signed_builder_data _ _ _ _) as [[]|e] eqn:Hsig; simpl.
  2: by apply (outcome_signature _ _ _ _ s).
  assert (passes_checks state r now ctx) by (repeat split; eauto).
  destruct status; [by apply outcome_new; auto|..];
    destruct (Hold ltac:(done)) as (old & ? & ?); by eapply outcome_existing.
Qed.

Lemma process_registration_has_outcome state r now ctx :
  registration_outcome state r now ctx (process_registration state r now ctx).
Proof.
  unfold process_registration. fold (key_of r).
  destruct (validate_registration_is_not_from_future _ _) as [[]|e] eqn:Hf; simpl.
  2: { unfold validate_registration_is_not_from_future in Hf. case_decide; simplify_eq.
       by apply outcome_future. }
  apply not_from_future_Ok in Hf.
  destruct (validator_preferences state !! key_of r) as [old|] eqn:Hold; simpl.
  2: { apply (process_registration_tail _ _ _ _ Status_New); [done| |intros _|done];
       intros ?; by rewrite Hold. }
  fold (timestamp_of r) (timestamp_of old).
  destruct (determine_validator_registration_status _ _) eqn:Hst; simpl.
  - apply status_new in Hst. apply (process_registration_tail _ _ _ _ Status_New); try done.
    + intros ?; rewrite Hold; intros [= <-]; lia.
    + intros _ ?; rewrite Hold; by intros [= <-].
  - unfold determine_validator_registration_status in Hst.
    destruct (N.compare_spec (timestamp_of r) (timestamp_of old)); simplify_eq.
    apply (process_registration_tail _ _ _ _ Status_Existing); try done.
    + intros ?; rewrite Hold; intros [= <-]; lia.
    + intros _. exists old. auto.
  - apply status_outdated in Hst. by apply outcome_outdated.
Qed.

(** The cases exclude each other. *)
Lemma registration_outcome_functional state r now ctx o o' :
  registration_outcome state r now ctx o → registration_outcome state r now ctx o' → o = o'.
Proof.
  intros Ho Ho'; destruct Ho; destruct Ho';
    unfold is_newer, passes_checks, signed_by_key in *;
    repeat match goal with
    | H : _ ∧ _ |- _ => destruct H
    | H : ∃ _, _ |- _ => destruct H
    | H : ∀ old, _ = Some old → _, H' : _ = Some _ |- _ => specialize (H _ H')
    end; simplify_eq; try done; try lia; try congruence.
Qed.

(** C22: [process_registration] answers exactly the case of
    [registration_outcome] its inputs select: the checks are made in the order
    future timestamp, outdated timestamp, unknown key, validator status,
    signature; an accepted registration is an update exactly when it is newer
    than the stored one. *)
Theorem process_registration_spec state r now ctx o :
  process_registration state r now ctx = o ↔ registration_outcome state r now ctx o.
Proof.
  pose proof (process_registration_has_outcome state r now ctx).
  split; [by intros <-|]. eauto using registration_outcome_functional.
Qed.

Lemma process_registration_update state r now ctx r' :
  process_registration state r now ctx = Ok (Some r') →
  r' = r ∧ passes_checks state r now ctx ∧ is_newer state r.
Proof.
  rewrite process_registration_spec. inversion 1; subst; auto.
Qed.

(** ** Batches *)

(** What the registry may hold: under each key a registration for that key,
    signed by it. *)
Definition preferences_ok (ctx : ChainContext)
    (prefs : gmap BlsPublicKey SignedValidatorRegistration) : Prop :=
  map_Forall (λ k r, key_of r = k ∧ signed_by_key r ctx) prefs.

(** The preferences only move to newer registrations. *)
Definition preferences_advance (prefs prefs' : gmap BlsPublicKey SignedValidatorRegistration)
    (updated : gset BlsPublicKey) : Prop :=
  ∀ k, if decide (k ∈ updated)
       then ∃ r', prefs' !! k = Some r' ∧
                  ∀ r, prefs !! k = Some r → timestamp_of r < timestamp_of r'
       else prefs' !! k = prefs !! k.

Lemma apply_updates_spec ctx state now us acc :
  Forall (λ u, ∀ r, u = Some r → passes_checks state r now ctx ∧ is_newer state r) us →
  preferences_ok ctx acc.2 → preferences_advance (validator_preferences state) acc.2 acc.1 →
  let acc' := foldl apply_update acc us in
  preferences_ok ctx acc'.2 ∧ preferences_advance (validator_preferences state) acc'.2 acc'.1.
Proof.
  intros Hus. revert acc. induction Hus as [|u us Hu _ IH]; intros [keys prefs] Hok Hadv; [done|].
  simpl. apply IH; destruct u as [r|]; simpl in *; try done.
  - destruct (Hu r) as [(_ & _ & _ & Hsig) _]; [done|]. by apply map_Forall_insert_2.
  - destruct (Hu r) as [_ Hnew]; [done|]. fold (key_of r). intros k.
    destruct (decide (k = key_of r)) as [->|Hne].
    + rewrite decide_True by set_solver. exists r.
      split; [apply lookup_insert_eq|]. intros old Hold. by apply Hnew.
    + rewrite lookup_insert_ne by done. specialize (Hadv k).
      destruct (decide (k ∈ keys)).
      * by rewrite decide_True by set_solver.
      * by rewrite decide_False by set_solver.
Qed.

Lemma apply_updates_signed ctx us acc :
  Forall (λ u, ∀ r, u = Some r → signed_by_key r ctx) us →
  preferences_ok ctx acc.2 → preferences_ok ctx (foldl apply_update acc us).2.
Proof.
  intros Hus. revert acc. induction Hus as [|u us Hu _ IH]; intros [keys prefs] Hok; [done|].
  simpl. apply IH. destruct u as [r|]; simpl in *; [|done].
  apply map_Forall_insert_2; [|done]. split; [done|by apply Hu].
Qed.

Lemma updates_pass_checks state rs now ctx :
  Forall (λ u, ∀ r, u = Some r → passes_checks state r now ctx ∧ is_newer state r)
    (omap ok_part (map (λ r, process_registration state r now ctx) rs)).
Proof.
  rewrite Forall_forall. intros u (res & Hres & Hu)%list_elem_of_omap r ->.
  apply list_elem_of_fmap in Hres as (r' & -> & _).
  destruct (process_registration state r' now ctx) as [[r''|]|] eqn:Hp; simplify_eq/=.
  by apply process_registration_update in Hp as (-> & ? & ?).
Qed.

(** C31: Processing a batch keeps the registry well formed, never replaces a
    stored registration by one that is not strictly newer, changes nothing but the
    preferences, and reports as updated exactly the keys whose registration
    changed. *)
Theorem process_registrations_advances state rs now ctx :
  preferences_ok ctx (validator_preferences state) →
  let '(state', (updated, errs)) := process_registrations state rs now ctx in
  preferences_ok ctx (validator_preferences state') ∧
  preferences_advance (validator_preferences state) (validator_preferences state') updated ∧
  (∀ k, k ∈ updated ↔
        validator_preferences state' !! k ≠ validator_preferences state !! k) ∧
  validators state' = validators state ∧ pubkeys_by_index state' = pubkeys_by_index state.
Proof.
  intros Hok. unfold process_registrations, apply_registrations.
  pose proof (apply_updates_spec ctx state now _ (∅, validator_preferences state)
    (updates_pass_checks state rs now ctx) Hok) as Hspec.
  destruct (foldl _ _ _) as [updated prefs]; simpl in *.
  destruct Hspec as [Hok' Hadv]; [intros k; by rewrite decide_False by set_solver|].
  split; [done|]. split; [done|]. split; [|done]. intros k. split.
  - specialize (Hadv k). intros Hk. rewrite decide_True in Hadv by done.
    destruct Hadv as (r' & -> & Hr'). intros Heq.
    specialize (Hr' r' (eq_sym Heq)). lia.
  - specialize (Hadv k). intros Hne. case_decide; [done|]. by rewrite Hadv in Hne.
Qed.

(** Every registration of a batch is either accepted or answered by an error, in
    order. *)
Lemma process_registrations_errors state rs now ctx e :
  e ∈ (process_registrations state rs now ctx).2.2 ↔
  ∃ r, r ∈ rs ∧ process_registration state r now ctx = Err e.
Proof.
  unfold process_registrations, apply_registrations. destruct (foldl _ _ _) as [updated prefs]; simpl.
  rewrite list_elem_of_omap. setoid_rewrite list_elem_of_fmap. split.
  - intros (res & (r & -> & Hr) & He). exists r. split; [done|].
    destruct (process_registration state r now ctx); naive_solver.
  - intros (r & Hr & He). exists (Err e). rewrite <-He. split; [by exists r|]. by rewrite He.
Qed.

(** The registrations of a batch that are updates. *)
Definition is_update state (now : N) (ctx : ChainContext) r : bool :=
  match process_registration state r now ctx with
  | Ok (Some _) => true
  | _ => false
  end.

Definition updates_for state (now : N) (ctx : ChainContext) k
    (rs : list SignedValidatorRegistration) : list SignedValidatorRegistration :=
  filter (λ r, is_update state now ctx r = true ∧ key_of r = k) rs.

Lemma process_registrations_fold state rs now ctx keys prefs k :
  (foldl apply_update (keys, prefs)
    (omap ok_part (map (λ r, process_registration state r now ctx) rs))).2 !! k =
  match last (updates_for state now ctx k rs) with
  | Some r => Some r
  | None => prefs !! k
  end.
Proof.
  revert keys prefs. induction rs as [|r rs IH]; intros keys prefs; [done|].
  unfold updates_for, is_update in *. cbn [map omap list_omap].
  destruct (process_registration state r now ctx) as [[r'|]|e] eqn:Hp; simpl.
  - apply process_registration_update in Hp as Hr. destruct Hr as [-> _].
    rewrite IH, filter_cons, Hp. fold (key_of r).
    destruct (decide (key_of r = k)) as [<-|Hne].
    + rewrite decide_True by done. rewrite lookup_insert_eq, last_cons.
      by destruct (last _).
    + rewrite decide_False by naive_solver. by rewrite lookup_insert_ne.
  - rewrite IH, filter_cons, Hp. by rewrite decide_False by naive_solver.
  - rewrite IH, filter_cons, Hp. by rewrite decide_False by naive_solver.
Qed.

(** After a batch a key holds the last registration of the batch that
    was an update for it, and otherwise what it held before: the position in the
    request decides between two registrations of one batch, not their
    timestamps. *)
Theorem process_registrations_last_wins state rs now ctx k :
  validator_preferences (process_registrations state rs now ctx).1 !! k =
  match last (updates_for state now ctx k rs) with
  | Some r => Some r
  | None => validator_preferences state !! k
  end.
Proof.
  rewrite <-(process_registrations_fold state rs now ctx ∅). unfold process_registrations, apply_registrations.
  by destruct (foldl _ _ _) as [updated prefs].
Qed.

(** ** Consensus updates *)

Lemma insert_summaries_lookup summaries state i k :
  pubkeys_by_index (foldl insert_summary state summaries) !! i = Some k →
  pubkeys_by_index state !! i = Some k ∨
  ∃ s, s ∈ summaries ∧ summary_index s = i ∧ summary_public_key s = k.
Proof.
  revert state. induction summaries as [|s l IH]; intros state; simpl; [by left|].
  intros [H|(s' & ? & ?)]%IH; [|right; set_solver]. simpl in H.
  destruct (decide (summary_index s = i)) as [<-|?]; simplify_map_eq; set_solver.
Qed.

Lemma insert_summaries_preferences summaries state :
  validator_preferences (foldl insert_summary state summaries) = validator_preferences state.
Proof. revert state. induction summaries as [|s l IH]; intros; simpl; [done|]. by rewrite IH. Qed.
End registry_properties.

(** * Examples *)

Section examples.
Import ToyInstances.

(** A registration of the validator with secret key 5, and a registry that knows
    the validator as active. *)
Definition toy_registration (timestamp : N) : SignedValidatorRegistration := {|
  registration_message := {|
    registration_fee_recipient := toy_address 77;
    registration_gas_limit := 30000000;
    registration_timestamp := timestamp;
    registration_public_key := toy_pk 1005;
  |};
  registration_signature := toy_sig 1005 (1000 * 1005 + timestamp + 7);
|}.

Definition toy_summary : ValidatorSummary := {|
  summary_index := 3;
  summary_status := ValidatorStatus_ActiveOngoing;
  summary_public_key := toy_pk 1005;
|}.

Definition toy_registry : State :=
  (on_epoch 32 (λ _, Ok [toy_summary]) 2 new).1.

Lemma process_registrations_advances_witness :
  let out := process_registrations toy_registry [toy_registration 20] 100
               (toy_network 32) in
  bool_decide ((toy_pk 1005) ∈ out.2.1) = true ∧
  validator_preferences out.1 !! (toy_pk 1005)
    ≠ validator_preferences toy_registry !! (toy_pk 1005).
Proof.
  cbv zeta.
  assert (Hin : bool_decide ((toy_pk 1005) ∈
    (process_registrations toy_registry [toy_registration 20] 100
       (toy_network 32)).2.1) = true) by (vm_compute; reflexivity).
  pose proof (process_registrations_advances toy_registry [toy_registration 20] 100
    (toy_network 32) (map_Forall_empty _)) as H.
  destruct (process_registrations _ _ _ _) as [st' [up errs]].
  destruct H as (_ & _ & Hup & _). split; [done|]. apply Hup.
  by apply bool_decide_eq_true in Hin.
Defined.

(** The older of two registrations of one batch ends up stored. *)
Example older_registration_wins :
  timestamp_of <$> get_signed_registration
    (process_registrations toy_registry [toy_registration 20; toy_registration 10] 100
      (toy_network 32)).1 (toy_pk 1005) = Some 10.
Proof. by vm_compute. Qed.
End examples.
