(* ===== verification/Tasks.v ===== *)
(** Handlers that run concurrently over shared state.

    A handler of the program (an [async fn] behind an HTTP route, or a turn of the
    clock loop) is a [task]: a sequence of critical sections, each of which runs
    under a lock, with pure code in between.  [run] executes a task alone;
    [pool_step] interleaves the sections of any number of tasks.  [safe] is the
    proof obligation of one task from which the invariants of both follow. *)

From S2P Require Import Prelude.

Inductive task (R A : Type) : Type :=
| Done (a : A)
| Atomic {B : Type} (section : R → R * B) (k : B → task R A).

Arguments Done {R A} _.
Arguments Atomic {R A B} _ _.

Fixpoint task_bind_def {R A B} (f : A → task R B) (p : task R A) : task R B :=
  match p with
  | Done a => f a
  | Atomic section k => Atomic section (λ b, task_bind_def f (k b))
  end.

#[export] Instance task_ret {R} : MRet (task R) := λ A a, Done a.
#[export] Instance task_bind {R} : MBind (task R) := λ A B f p, task_bind_def f p.
#[export] Instance task_fmap {R} : FMap (task R) := λ A B f p, task_bind_def (λ a, Done (f a)) p.

(** The operator [?] of a handler that returns a [Result]. *)
Definition task_try {R E A B} (p : task R (result E A)) (f : A → task R (result E B))
    : task R (result E B) :=
  r ← p;
  match r with
  | Ok a => f a
  | Err e => Done (Err e)
  end.

Notation "x ←? m ; k" := (task_try m (λ x, k))
  (at level 20, m at level 100, k at level 200, only parsing) : stdpp_scope.

(** One critical section; one that only reads; one that only writes. *)
Definition critical {R B} (f : R → R * B) : task R B := Atomic f Done.
Definition read {R B} (f : R → B) : task R B := critical (λ s, (s, f s)).
Definition modify {R} (f : R → R) : task R () := critical (λ s, (f s, tt)).

(** One section for each element of a list. *)
Fixpoint read_each {R A B} (f : A → R → B) (l : list A) : task R (list B) :=
  match l with
  | [] => Done []
  | x :: l => b ← read (f x); bs ← read_each f l; Done (b :: bs)
  end.

(** The order in which a parallel iterator visits the indices of a list. *)
Record VisitOrder : Type := {
  arrange :> list nat → list nat;
  arrange_perm l : arrange l ≡ₚ l;
}.

Definition in_order : VisitOrder := {| arrange := id; arrange_perm l := reflexivity l |}.

(** The elements of a list visited in some order, one section for each; the results are
    in the order of the list. *)
Definition read_par {R A B} (order : VisitOrder) (f : A → R → B) (l : list A)
    : task R (list B) :=
  let visits := omap (λ i, pair i <$> l !! i) (order (seq 0 (length l))) in
  results ← read_each (λ visit s, (visit.1, f visit.2 s)) visits;
  Done (omap (λ i, list_to_map (M := gmap nat B) results !! i) (seq 0 (length l))).

(** * Running one task alone *)

Fixpoint run {R A} (p : task R A) (s : R) : R * A :=
  match p with
  | Done a => (s, a)
  | Atomic section k => let '(s', b) := section s in run (k b) s'
  end.

Lemma run_bind {R A B} (p : task R A) (f : A → task R B) s :
  run (p ≫= f) s = let '(s', a) := run p s in run (f a) s'.
Proof.
  revert s. induction p as [a|C section k IH]; intros s; [done|]. simpl.
  destruct (section s) as [s' b]. apply IH.
Qed.

Lemma run_try {R E A B} (p : task R (result E A)) (f : A → task R (result E B)) s :
  run (task_try p f) s =
    let '(s', r) := run p s in
    match r with
    | Ok a => run (f a) s'
    | Err e => (s', Err e)
    end.
Proof. unfold task_try. rewrite run_bind. by destruct (run p s) as [s' [a|e]]. Qed.

Lemma run_read_each {R A B} (f : A → R → B) l (s : R) :
  run (read_each f l) s = (s, map (λ x, f x s) l).
Proof.
  induction l as [|x l IH]; [done|]. cbn [read_each]. rewrite run_bind. simpl.
  by rewrite run_bind, IH.
Qed.

(** Looking up every index of a list gives its elements. *)
Lemma omap_lookups {A B} (g : nat → A → B) (l : list A) :
  omap (λ i, g i <$> l !! i) (seq 0 (length l)) = imap g l.
Proof.
  induction l as [|x l IH] using rev_ind; [done|].
  rewrite length_app, seq_app, omap_app, imap_app. f_equal.
  - rewrite <-IH. apply list_omap_ext, Forall_Forall2_diag, Forall_forall.
    intros i [_ Hi]%elem_of_seq. by rewrite lookup_app_l.
  - simpl. by rewrite list_lookup_middle, Nat.add_0_r.
Qed.

Lemma run_read_par {R A B} (order : VisitOrder) (f : A → R → B) l (s : R) :
  run (read_par order f l) s = (s, map (λ x, f x s) l).
Proof.
  unfold read_par. rewrite run_bind, run_read_each. simpl. f_equal.
  set (results := map (λ visit : nat * A, (visit.1, f visit.2 s)) _).
  assert (Hresults : results ≡ₚ imap (λ i x, (i, f x s)) l).
  { unfold results. rewrite arrange_perm, (omap_lookups pair).
    apply Permutation_refl', (fmap_imap pair (λ visit : nat * A, (visit.1, f visit.2 s)) l). }
  assert (Hnodup : NoDup results.*1).
  { rewrite Hresults, fmap_imap. unfold compose. simpl. rewrite imap_seq_0.
    rewrite list_fmap_id. apply NoDup_seq. }
  assert (Hm : ∀ i, list_to_map (M := gmap nat B) results !! i = (λ x, f x s) <$> l !! i).
  { intros i. apply option_eq. intros b. rewrite <-elem_of_list_to_map by done.
    rewrite Hresults, elem_of_lookup_imap, fmap_Some. naive_solver. }
  trans (omap (λ i, (λ x, f x s) <$> l !! i) (seq 0 (length l))).
  - apply list_omap_ext, Forall_Forall2_diag, Forall_true. exact Hm.
  - rewrite (omap_lookups (λ _ x, f x s)). apply imap_const.
Qed.

(** * Running one task among others

    Before every section, and at the end, the others may move the shared state along
    [env] any number of times. *)
Fixpoint run_among {R A} (env : relation R) (p : task R A) (s s' : R) (r : A) : Prop :=
  match p with
  | Done a => steps env s s' ∧ r = a
  | Atomic section k =>
      ∃ s1, steps env s s1 ∧ run_among env (k (section s1).2) (section s1).1 s' r
  end.

Section among.
Context {R : Type} (env : relation R).

Lemma run_among_alone {A} (p : task R A) s : run_among env p s (run p s).1 (run p s).2.
Proof.
  revert s. induction p as [a|B section k IH]; intros s; simpl; [by split; [constructor|]|].
  exists s. split; [constructor|]. destruct (section s) as [s1 b] eqn:Hs. apply IH.
Qed.

Lemma run_among_bind {A B} (p : task R A) (f : A → task R B) s s' r :
  run_among env (p ≫= f) s s' r ↔ ∃ s1 a, run_among env p s s1 a ∧ run_among env (f a) s1 s' r.
Proof.
  revert s. induction p as [a|C section k IH]; intros s; simpl.
  - split.
    + intros Hrun. exists s, a. split; [by split; [constructor|]|done].
    + intros (s1 & ? & [Hsteps ->] & Hrun). revert Hrun. change (task_bind_def f (Done a)) with (f a).
      destruct (f a) as [b|C section k]; simpl.
      * intros [? ->]. split; [by eapply steps_trans|done].
      * intros (s2 & ? & ?). exists s2. split; [by eapply steps_trans|done].
  - split.
    + intros (s1 & Hsteps & (s2 & a & Hp & Hf)%IH). exists s2, a. split; [|done]. by exists s1.
    + intros (s2 & a & (s1 & Hsteps & Hp) & Hf). exists s1. split; [done|]. apply IH. by exists s2, a.
Qed.

(** A section that only reads. *)
Lemma run_among_read {B} (f : R → B) s s' r :
  run_among env (read f) s s' r → ∃ s1, steps env s s1 ∧ steps env s1 s' ∧ r = f s1.
Proof. intros (s1 & Hsteps & [Hsteps' ->]). eauto. Qed.
End among.

(** * Running many tasks *)

Section pools.
Context {R A : Type}.

Record pool : Type := {
  shared : R;
  running : list (task R A);
  finished : list A;
}.

Definition start (s : R) : pool := {| shared := s; running := []; finished := [] |}.

(** [spawns] is the set of tasks the environment may start at any moment. *)
Inductive pool_step (spawns : task R A → Prop) : pool → pool → Prop :=
| step_spawn s ps out p :
    spawns p →
    pool_step spawns {| shared := s; running := ps; finished := out |}
      {| shared := s; running := ps ++ [p]; finished := out |}
| step_section s ps ps' out B (section : R → R * B) k s' b :
    section s = (s', b) →
    pool_step spawns {| shared := s; running := ps ++ Atomic section k :: ps'; finished := out |}
      {| shared := s'; running := ps ++ k b :: ps'; finished := out |}
| step_finish s ps ps' out a :
    pool_step spawns {| shared := s; running := ps ++ Done a :: ps'; finished := out |}
      {| shared := s; running := ps ++ ps'; finished := a :: out |}.

(** ** An executable scheduler

    [advance i] runs one section of the [i]-th running task. *)
Definition advance (i : nat) (pl : pool) : pool :=
  match running pl !! i with
  | Some (Atomic section k) =>
      let '(s', b) := section (shared pl) in
      {| shared := s'; running := <[i := k b]> (running pl); finished := finished pl |}
  | Some (Done a) =>
      {| shared := shared pl; running := delete i (running pl); finished := a :: finished pl |}
  | None => pl
  end.

Definition spawn (p : task R A) (pl : pool) : pool :=
  {| shared := shared pl; running := running pl ++ [p]; finished := finished pl |}.

Lemma advance_steps spawns i pl : steps (pool_step spawns) pl (advance i pl).
Proof.
  unfold advance. destruct (running pl !! i) as [p|] eqn:Hi; [|apply steps_refl].
  destruct pl as [s ps out]; simpl in *.
  apply list_elem_of_split_length in Hi as (ps1 & ps2 & -> & ->).
  eapply steps_cons; [apply steps_refl|]. destruct p as [a|B section k].
  - rewrite delete_middle. constructor.
  - destruct (section s) as [s' b] eqn:Hs.
    rewrite insert_app_r_alt, Nat.sub_diag by done. by constructor.
Qed.

(** One section of one task, whatever the others. *)
Lemma section_steps (spawns : task R A → Prop) s ps ps' out B (section : R → R * B) k :
  steps (pool_step spawns)
    {| shared := s; running := ps ++ Atomic section k :: ps'; finished := out |}
    {| shared := (section s).1; running := ps ++ k (section s).2 :: ps'; finished := out |}.
Proof.
  eapply steps_cons; [apply steps_refl|]. constructor. by destruct (section s).
Qed.

Lemma finish_steps (spawns : task R A → Prop) s ps ps' out a :
  steps (pool_step spawns)
    {| shared := s; running := ps ++ Done a :: ps'; finished := out |}
    {| shared := s; running := ps ++ ps'; finished := a :: out |}.
Proof. eapply steps_cons; [apply steps_refl|]. constructor. Qed.

Lemma spawn_steps (spawns : task R A → Prop) p pl :
  spawns p → steps (pool_step spawns) pl (spawn p pl).
Proof.
  intros Hp. eapply steps_cons; [apply steps_refl|]. destruct pl. by constructor.
Qed.

(** A script of the environment: start a task, or run a section of the [i]-th. *)
Definition play (script : list (task R A + nat)) (pl : pool) : pool :=
  foldl (λ pl action,
    match action with
    | inl p => spawn p pl
    | inr i => advance i pl
    end) pl script.

Lemma play_steps (spawns : task R A → Prop) script pl :
  Forall (λ action, match action with inl p => spawns p | inr _ => True end) script →
  steps (pool_step spawns) pl (play script pl).
Proof.
  intros Hall. revert pl. induction Hall as [|[p|i] script Hp _ IH]; intros pl; simpl.
  - apply steps_refl.
  - eapply steps_trans; [by apply spawn_steps|apply IH].
  - eapply steps_trans; [apply advance_steps|apply IH].
Qed.
End pools.

Arguments pool R A : clear implicits.

(** * Safety

    Every section of the task preserves the invariant [I] and moves the shared
    state along [G]; the task's result satisfies [Q].  Between two sections the
    other tasks may have changed the shared state in any way that keeps [I]. *)

Section safety.
Context {R : Type} (I : R → Prop) (G : R → R → Prop).

Fixpoint safe {A} (p : task R A) (Q : A → Prop) : Prop :=
  match p with
  | Done a => Q a
  | Atomic section k =>
      ∀ s, I s → I (section s).1 ∧ G s (section s).1 ∧ safe (k (section s).2) Q
  end.

Lemma safe_bind {A B} (p : task R A) (f : A → task R B) Q Q' :
  safe p Q → (∀ a, Q a → safe (f a) Q') → safe (p ≫= f) Q'.
Proof.
  intros Hp Hf. induction p as [a|C section k IH]; simpl in *; [by apply Hf|].
  intros s Hs. destruct (Hp s Hs) as (? & ? & Hk). split_and!; [done..|]. by apply IH.
Qed.

Lemma safe_fmap {A B} (g : A → B) (p : task R A) (Q : B → Prop) :
  safe p (λ a, Q (g a)) → safe (g <$> p) Q.
Proof. intros Hp. by apply (safe_bind p (λ a, Done (g a)) (λ a, Q (g a))). Qed.

(** The rule for [?]: an error ends the task. *)
Lemma safe_try {E A B} (p : task R (result E A)) (f : A → task R (result E B))
    (Q : result E A → Prop) (Q' : result E B → Prop) :
  safe p Q → (∀ e, Q (Err e) → Q' (Err e)) → (∀ a, Q (Ok a) → safe (f a) Q') →
  safe (task_try p f) Q'.
Proof.
  intros Hp He Hf. unfold task_try. eapply safe_bind; [done|].
  intros [a|e] Hr; simpl; auto.
Qed.

Lemma safe_mono {A} (p : task R A) (Q Q' : A → Prop) :
  (∀ a, Q a → Q' a) → safe p Q → safe p Q'.
Proof.
  intros HQ. induction p as [a|C section k IH]; simpl; [by auto|].
  intros Hp s Hs. destruct (Hp s Hs) as (? & ? & ?). auto.
Qed.

Lemma safe_critical {B} (f : R → R * B) (Q : B → Prop) :
  (∀ s, I s → I (f s).1 ∧ G s (f s).1 ∧ Q (f s).2) → safe (critical f) Q.
Proof. done. Qed.

Lemma safe_read `{!Reflexive G} {B} (f : R → B) (Q : B → Prop) :
  (∀ s, I s → Q (f s)) → safe (read f) Q.
Proof. intros HQ s Hs. simpl. auto. Qed.

Lemma safe_modify (f : R → R) :
  (∀ s, I s → I (f s) ∧ G s (f s)) → safe (modify f) (λ _, True).
Proof. intros Hf s Hs. simpl. by destruct (Hf s Hs). Qed.

Lemma safe_read_each `{!Reflexive G} {A B} (f : A → R → B) l (Q : B → Prop) :
  (∀ x s, x ∈ l → I s → Q (f x s)) → safe (read_each f l) (Forall Q).
Proof.
  induction l as [|x l IH]; intros HQ; cbn [read_each]; [by constructor|].
  apply (safe_bind _ _ Q); [apply safe_read; intros; apply HQ; [left|done]|].
  intros b Hb. apply (safe_bind _ _ (Forall Q)); [apply IH; intros; apply HQ; [by right|done]|].
  intros bs Hbs. by constructor.
Qed.

Lemma safe_read_par `{!Reflexive G} {A B} (order : VisitOrder) (f : A → R → B) l (Q : B → Prop) :
  (∀ x s, x ∈ l → I s → Q (f x s)) → safe (read_par order f l) (Forall Q).
Proof.
  intros HQ. unfold read_par. set (visits := omap _ _).
  apply (safe_bind _ _ (Forall (λ result, Q result.2))).
  - apply safe_read_each. intros [i x] s Hin Hs. apply HQ; [|done].
    apply list_elem_of_omap in Hin as (j & _ & Hj). apply fmap_Some in Hj as (y & Hy & [= -> ->]).
    by eapply list_elem_of_lookup_2.
  - intros results Hresults. rewrite Forall_forall in Hresults. apply Forall_forall.
    intros b (i & _ & Hb)%list_elem_of_omap. apply elem_of_list_to_map_2 in Hb.
    by apply (Hresults (i, b)).
Qed.

Context `{!PreOrder G}.

Lemma safe_run {A} (p : task R A) Q s :
  safe p Q → I s → I (run p s).1 ∧ G s (run p s).1 ∧ Q (run p s).2.
Proof.
  revert s. induction p as [a|C section k IH]; simpl; intros s Hp Hs; [done|].
  destruct (Hp s Hs) as (HI & HG & Hk). destruct (section s) as [s' b]; simpl in *.
  destruct (IH b s' Hk HI) as (? & ? & ?). split_and!; [done| |done]. by etrans.
Qed.

Definition pool_ok {A} (Q : A → Prop) (pl : pool R A) : Prop :=
  I (shared pl) ∧ Forall (λ p, safe p Q) (running pl) ∧ Forall Q (finished pl).

Lemma pool_step_ok {A} (spawns : task R A → Prop) Q pl pl' :
  (∀ p, spawns p → safe p Q) → pool_ok Q pl → pool_step spawns pl pl' →
  pool_ok Q pl' ∧ G (shared pl) (shared pl').
Proof.
  intros Hspawn (HI & Hrun & Hfin) Hstep. destruct Hstep as [s ps out p Hp|
    s ps ps' out B section k s' b Hs|s ps ps' out a]; unfold pool_ok; simpl in *.
  - rewrite Forall_app, Forall_singleton. split; [|done]. split_and!; auto.
  - apply Forall_app in Hrun as [Hps [Hk Hps']%Forall_cons].
    destruct (Hk s HI) as (? & ? & ?). rewrite Hs in *. simpl in *.
    split; [|done]. rewrite Forall_app, Forall_cons. by split_and!.
  - apply Forall_app in Hrun as [Hps [Ha Hps']%Forall_cons].
    rewrite Forall_app, Forall_cons. by split_and!.
Qed.

(** Whatever the interleaving: the invariant holds, every reply satisfies [Q], and
    the shared state has only moved along [G]. *)
Lemma pool_safe {A} (spawns : task R A → Prop) Q pl pl' :
  (∀ p, spawns p → safe p Q) → pool_ok Q pl → steps (pool_step spawns) pl pl' →
  pool_ok Q pl' ∧ G (shared pl) (shared pl').
Proof.
  intros Hspawn Hpl Hsteps. induction Hsteps as [pl|pl1 pl2 pl3 _ IH Hstep]; [done|].
  destruct (IH Hpl) as [Hok HG]. destruct (pool_step_ok spawns Q pl2 pl3) as [? ?]; [done..|].
  split; [done|]. by etrans.
Qed.

Lemma start_ok {A} (Q : A → Prop) s : I s → pool_ok Q (start s).
Proof. intros. by split_and!; [|constructor..]. Qed.
End safety.

(** Case analysis on the result a task branches on. *)
Ltac safe_match H :=
  cbv beta zeta;
  match goal with
  | |- safe _ _ (match ?r with _ => _ end) _ => destruct r eqn:H
  end.
