(* ===== verification/ProposerScheduler.v ===== *)
(** [mev-rs/src/proposer_scheduler.rs]: the upcoming proposers that have
    registered, from the proposer duties the beacon node serves.

    The state behind the [Mutex] is the list of schedules.  The lock is taken several
    times by [on_epoch], with requests to the beacon node in between, and every look into
    the registry is a section of its own, so the operations are tasks over any shared
    state that holds a scheduler and a registry ([HoldsScheduler]).  Only the relay's
    clock task calls [on_epoch], so nothing else changes the schedules meanwhile. *)

From S2P Require Import Prelude.
From S2P Require Import Consensus.
From S2P Require Import Types.
From S2P Require Import Tasks.
From S2P Require Import ValidatorRegistry.
From S2P Require Import Toy.

#[local] Open Scope N_scope.

Section scheduler.
Context `{CF : ConsensusFunctions}.

Record State : Type := {
  proposer_schedule : list ProposerSchedule;
}.

(** [ProposerScheduler::new] starts from the default state. *)
Definition new : State := {| proposer_schedule := [] |}.

(** [GET proposer duties] of the beacon node: the dependent root and the duties
    of an epoch. *)
Definition DutiesApi : Type := N → result ApiError (Root * list ProposerDuty).

(** A shared state with a scheduler and a registry, each behind its lock. *)
Class HoldsScheduler (R : Type) : Type := {
  held_scheduler : R → State;
  held_registry : R → ValidatorRegistry.State;
  set_held_scheduler : State → R → R;
  held_scheduler_set st (s : R) : held_scheduler (set_held_scheduler st s) = st;
}.

Context {R : Type} {HR : HoldsScheduler R}.

(** The caller's [&mut all_duties] is passed in and returned. *)
Definition fetch_duties_if_missing (spe : N) (api : DutiesApi) (epoch : N)
    (all_duties : list ProposerDuty) : task R (list ProposerDuty * result SchedulerError unit) :=
  let slot := u64_mul epoch spe in
  present ← read (λ s,
    bool_decide (Exists (λ schedule, slot ≤ schedule_slot schedule)
      (proposer_schedule (held_scheduler s))));
  if (present : bool) then Done (all_duties, Ok tt)
  else
    match api epoch with
    | Err e => Done (all_duties, Err (SchedulerError_Api e))
    | Ok (_, duties) => Done (all_duties ++ duties, Ok tt)
    end.

(** Errors are logged and otherwise ignored. *)
Definition fetch_new_duties (spe : N) (api : DutiesApi) (epoch : N) : task R (list ProposerDuty) :=
  let duties := [] in
  ' (duties, _) ← fetch_duties_if_missing spe api epoch duties;
  ' (duties, _) ← fetch_duties_if_missing spe api (u64_add epoch 1) duties;
  Done duties.

(** The closure of the [filter_map]. *)
Definition schedule_duty (registry : ValidatorRegistry.State) (duty : ProposerDuty)
    : option ProposerSchedule :=
  let public_key := duty_public_key duty in
  (λ entry, {| schedule_slot := duty_slot duty;
               schedule_validator_index := duty_validator_index duty;
               schedule_entry := entry |}) <$>
    get_signed_registration registry public_key.

Definition on_epoch (spe : N) (api : DutiesApi) (epoch : N) : task R (result SchedulerError unit) :=
  duties ← fetch_new_duties spe api epoch;
  scheduled ← read_each (λ duty s, schedule_duty (held_registry s) duty) duties;
  let extension := omap id scheduled in
  let slot := u64_mul epoch spe in
  _ ← modify (λ s,
    let kept := filter (λ schedule, slot ≤ schedule_slot schedule)
                  (proposer_schedule (held_scheduler s)) in
    set_held_scheduler {| proposer_schedule := kept ++ extension |} s);
  Done (Ok tt).

Definition get_proposal_schedule (state : State) : result SchedulerError (list ProposerSchedule) :=
  Ok (proposer_schedule state).
End scheduler.

(** * Properties *)

Lemma StronglySorted_sublist {A} (ord : relation A) (l k : list A) :
  StronglySorted ord l → k `sublist_of` l → StronglySorted ord k.
Proof.
  intros Hl Hk. revert Hl. induction Hk as [|x l k Hk IH|x l k Hk IH]; intros Hl; [done|..];
    apply StronglySorted_cons in Hl as [Hx Hl].
  - apply StronglySorted_cons. split; [|by apply IH]. rewrite Forall_forall in *.
    intros y Hy. by eapply Hx, elem_of_sublist.
  - by apply IH.
Qed.

Lemma omap_id_map {A B} (f : A → option B) (l : list A) : omap id (map f l) = omap f l.
Proof. induction l as [|x l IH]; [done|]. csimpl. destruct (f x); simpl; by f_equal. Qed.

Section scheduler_properties.
Context `{CF : ConsensusFunctions} {R : Type} {HR : HoldsScheduler R}.
Implicit Types (st : State) (entry : ProposerSchedule) (d : ProposerDuty) (s : R).
Implicit Types (ds : list ProposerDuty) (registry : ValidatorRegistry.State).
Implicit Types (ord : relation N).

Definition slots st : list N := schedule_slot <$> proposer_schedule st.

(** The epoch's slots and those of the next one fit in a [u64]. *)
Definition epoch_in_range (spe epoch : N) : Prop :=
  0 < spe ∧ (epoch + 2) * spe < u64_mod ∧ epoch + 1 < u64_mod.

(** What the beacon node documents: the duties of an epoch are those of its slots. *)
Definition api_serves_epochs (spe : N) (api : DutiesApi) : Prop :=
  ∀ epoch root duties, api epoch = Ok (root, duties) →
    Forall (λ d, epoch * spe ≤ duty_slot d < (epoch + 1) * spe) duties.

(** The node lists the duties of an epoch in the given order of their slots. *)
Definition api_lists ord (api : DutiesApi) : Prop :=
  ∀ epoch root duties, api epoch = Ok (root, duties) → StronglySorted ord (duty_slot <$> duties).

(** The duties [on_epoch] adds for one of the two epochs. *)
Definition duties_for (spe : N) (api : DutiesApi) st (epoch : N) : list ProposerDuty :=
  if decide (Exists (λ schedule, u64_mul epoch spe ≤ schedule_slot schedule) (proposer_schedule st))
  then []
  else match api epoch with Ok (_, duties) => duties | Err _ => [] end.

Definition with_extension (spe epoch : N) (extension : list ProposerSchedule) st : State :=
  {| proposer_schedule :=
       filter (λ schedule, u64_mul epoch spe ≤ schedule_slot schedule) (proposer_schedule st)
       ++ extension |}.

(** What [on_epoch] amounts to when nothing happens meanwhile. *)
Definition refreshed (spe : N) (api : DutiesApi) registry (epoch : N) st : State :=
  with_extension spe epoch (omap (schedule_duty registry)
    (duties_for spe api st epoch ++ duties_for spe api st (u64_add epoch 1))) st.

(** ** What the sections see *)

Section others.
Context (env : relation R) (env_keeps : ∀ s s', env s s' → held_scheduler s' = held_scheduler s).

Lemma others_keep s s' : steps env s s' → held_scheduler s' = held_scheduler s.
Proof using env_keeps.
  intros Hsteps. apply (steps_invariant env (λ s', held_scheduler s' = held_scheduler s) s); [|done..].
  intros s1 s2 Heq Hstep. by rewrite (env_keeps _ _ Hstep).
Qed.

Lemma fetch_among spe api epoch ds s s' r :
  run_among env (fetch_duties_if_missing spe api epoch ds) s s' r →
  held_scheduler s' = held_scheduler s ∧ r.1 = ds ++ duties_for spe api (held_scheduler s) epoch.
Proof using env_keeps.
  unfold fetch_duties_if_missing.
  intros (s1 & present & (s0 & Hs0 & Hs1 & ->)%run_among_read & Hrun)%run_among_bind.
  apply others_keep in Hs0. rewrite Hs0 in Hrun.
  assert (Heq : steps env s1 s' ∧ r.1 = ds ++ duties_for spe api (held_scheduler s) epoch).
  { unfold duties_for. revert Hrun.
    case_decide; [rewrite bool_decide_eq_true_2 by done|rewrite bool_decide_eq_false_2 by done].
    - intros [Hend ->]. by rewrite app_nil_r.
    - destruct (api epoch) as [[root duties]|e]; simpl; intros [Hend ->]; [done|].
      by rewrite app_nil_r. }
  destruct Heq as [Hend ->]. split; [|done].
  by rewrite (others_keep _ _ Hend), (others_keep _ _ Hs1).
Qed.

Lemma read_duties_among ds s s' scheduled :
  run_among env (read_each (λ duty s, schedule_duty (held_registry s) duty) ds) s s' scheduled →
  held_scheduler s' = held_scheduler s ∧
  (schedule_slot <$> omap id scheduled) `sublist_of` (duty_slot <$> ds).
Proof using env_keeps.
  revert s s' scheduled. induction ds as [|d ds IH]; intros s s' scheduled; cbn [read_each].
  { intros [Hend ->]. split; [by apply others_keep|constructor]. }
  intros (s1 & entry & (s0 & Hs0 & Hs1 & ->)%run_among_read & Hrun)%run_among_bind.
  apply run_among_bind in Hrun as (s2 & rest & [Hs2 Hsub]%IH & [Hend ->]).
  split; [by rewrite (others_keep _ _ Hend), Hs2, (others_keep _ _ Hs1), (others_keep _ _ Hs0)|].
  simpl. unfold schedule_duty at 1. destruct (get_signed_registration _ _); simpl;
    [by apply sublist_skip|by apply sublist_cons].
Qed.

(** The old entries from the epoch on are kept, and the new ones are for slots of the
    duties, in their order. *)
Lemma on_epoch_among spe api epoch s s' r :
  run_among env (on_epoch spe api epoch) s s' r →
  r = Ok tt ∧ ∃ extension,
    held_scheduler s' = with_extension spe epoch extension (held_scheduler s) ∧
    (schedule_slot <$> extension) `sublist_of`
      (duty_slot <$> duties_for spe api (held_scheduler s) epoch ++
                     duties_for spe api (held_scheduler s) (u64_add epoch 1)).
Proof using env_keeps.
  unfold on_epoch, fetch_new_duties.
  intros (s2 & ds & Hduties & Hrun)%run_among_bind.
  apply run_among_bind in Hduties as (s1 & [ds1 r1] & [Hs1 Hds1]%fetch_among & Hduties).
  apply run_among_bind in Hduties as (s1' & [ds2 r2] & [Hs1' Hds2]%fetch_among & [Hs2 ->]).
  simpl in *. apply others_keep in Hs2. rewrite Hs1 in *. rewrite Hs1' in *. subst ds1 ds2.
  apply run_among_bind in Hrun as (s3 & scheduled & [Hs3 Hsub]%read_duties_among & Hrun).
  rewrite Hs2 in Hs3. destruct Hrun as (s3' & Hs3' & Hend & ->).
  split; [done|]. exists (omap id scheduled). split; [|done].
  apply others_keep in Hs3', Hend. simpl in Hend.
  by rewrite Hend, held_scheduler_set, Hs3', Hs3.
Qed.
End others.

Lemma run_fetch spe api epoch ds s :
  run (fetch_duties_if_missing spe api epoch ds) s =
    (s, (ds ++ duties_for spe api (held_scheduler s) epoch,
         if decide (Exists (λ schedule, u64_mul epoch spe ≤ schedule_slot schedule)
              (proposer_schedule (held_scheduler s)))
         then Ok tt
         else match api epoch with Ok _ => Ok tt | Err e => Err (SchedulerError_Api e) end)).
Proof.
  unfold fetch_duties_if_missing, duties_for. rewrite run_bind. simpl.
  case_decide; [rewrite bool_decide_eq_true_2 by done|rewrite bool_decide_eq_false_2 by done];
    simpl; [by rewrite app_nil_r|].
  destruct (api epoch) as [[root duties]|e]; simpl; by rewrite ?app_nil_r.
Qed.

(** Alone, the sections of [on_epoch] amount to one. *)
Lemma run_on_epoch spe api epoch s :
  run (on_epoch spe api epoch) s =
    (set_held_scheduler (refreshed spe api (held_registry s) epoch (held_scheduler s)) s, Ok tt).
Proof.
  unfold on_epoch, fetch_new_duties. rewrite !run_bind, run_fetch.
  cbv beta iota. rewrite run_bind, run_fetch. simpl. rewrite run_bind, run_read_each. simpl.
  by rewrite omap_id_map.
Qed.

(** ** The order of the schedules *)

(** Duties of an epoch are added only when no schedule reaches into it. *)
Lemma duties_for_spec ord spe api st epoch :
  api_serves_epochs spe api → api_lists ord api → epoch * spe < u64_mod →
  StronglySorted ord (duty_slot <$> duties_for spe api st epoch) ∧
  (∀ slot, slot ∈ duty_slot <$> duties_for spe api st epoch →
     epoch * spe ≤ slot < (epoch + 1) * spe ∧ Forall (λ old, old < epoch * spe) (slots st)).
Proof.
  intros Hapi Hord Hr. unfold duties_for, slots. rewrite u64_mul_small by done.
  case_decide as Hex; simpl; [by split; [constructor|intros ? ?%elem_of_nil]|].
  destruct (api epoch) as [[root duties]|e] eqn:Hd; simpl;
    [|by split; [constructor|intros ? ?%elem_of_nil]].
  split; [by eapply Hord|]. intros slot (d & -> & Hin)%list_elem_of_fmap. split.
  - specialize (Hapi epoch root duties Hd). rewrite Forall_forall in Hapi. by apply Hapi.
  - apply not_Exists_Forall in Hex; [|apply _]. apply Forall_fmap.
    eapply Forall_impl; [exact Hex|]. simpl. lia.
Qed.

(** Any order of slots that later slots respect stays, when the node lists the duties of
    each epoch in it. *)
Lemma extension_sorted ord spe api epoch st extension :
  (∀ a b, a < b → ord a b) → epoch_in_range spe epoch → api_serves_epochs spe api →
  api_lists ord api → StronglySorted ord (slots st) →
  (schedule_slot <$> extension) `sublist_of`
    (duty_slot <$> duties_for spe api st epoch ++ duties_for spe api st (u64_add epoch 1)) →
  StronglySorted ord (slots (with_extension spe epoch extension st)).
Proof.
  intros Hlt Hr Hapi Hord Hst Hsub. unfold slots, with_extension. simpl.
  rewrite fmap_app in *. rewrite (u64_add_small epoch) in Hsub by (by destruct Hr as (_ & _ & ?)).
  destruct (duties_for_spec ord spe api st epoch Hapi Hord ltac:(destruct Hr; lia)) as [Hs1 Hb1].
  destruct (duties_for_spec ord spe api st (epoch + 1) Hapi Hord ltac:(destruct Hr; lia)) as [Hs2 Hb2].
  set (kept := schedule_slot <$> _).
  assert (Hkept : ∀ slot, slot ∈ kept → slot ∈ slots st ∧ epoch * spe ≤ slot).
  { intros slot (entry & -> & [Hle Hin]%list_elem_of_filter)%list_elem_of_fmap.
    rewrite u64_mul_small in Hle by (destruct Hr; lia). split; [|done]. by apply list_elem_of_fmap_2. }
  eapply StronglySorted_sublist; [|apply sublist_app; [reflexivity|exact Hsub]].
  rewrite fmap_app. apply StronglySorted_app. split; [|split; [|apply StronglySorted_app; split; [|done]]].
  - intros a b [Hin Hle]%Hkept Hb. apply Hlt. apply elem_of_app in Hb as [[_ Hb]%Hb1|[? Hb]%Hb2];
      rewrite Forall_forall in Hb; specialize (Hb a Hin); simpl in Hb; lia.
  - eapply StronglySorted_sublist; [exact Hst|]. apply fmap_sublist, sublist_filter.
  - intros a b [? _]%Hb1 [? _]%Hb2. apply Hlt. lia.
Qed.

Lemma NoDup_sorted {A} (l : list A) : NoDup l ↔ StronglySorted (≠) l.
Proof.
  induction l as [|x l IH]; [by split; constructor|].
  rewrite NoDup_cons, StronglySorted_cons, IH, Forall_forall. naive_solver.
Qed.

(** The epoch of one slot is not after that of another. *)
Definition epoch_le (spe : N) : relation N := λ a b, a / spe ≤ b / spe.

(** C32: [on_epoch], whatever requests to the beacon node fail and whatever is registered
    between its sections: when the node answers with at most one duty for each slot of the
    epoch it is asked for, there are never two entries for one slot, and the entries of an
    epoch come before those of later epochs.  The entries are increasing by slot, as the
    comment in the code says, when the node lists the duties of an epoch by slot. *)
Theorem on_epoch_ordered (env : relation R) spe api epoch s s' r :
  (∀ s s', env s s' → held_scheduler s' = held_scheduler s) →
  epoch_in_range spe epoch → api_serves_epochs spe api → api_lists (≠) api →
  run_among env (on_epoch spe api epoch) s s' r →
  r = Ok tt ∧
  (NoDup (slots (held_scheduler s)) → NoDup (slots (held_scheduler s'))) ∧
  (StronglySorted (epoch_le spe) (slots (held_scheduler s)) →
   StronglySorted (epoch_le spe) (slots (held_scheduler s'))) ∧
  (api_lists N.lt api →
   StronglySorted N.lt (slots (held_scheduler s)) → StronglySorted N.lt (slots (held_scheduler s'))).
Proof.
  intros Henv Hr Hapi Hone [-> (extension & -> & Hsub)]%on_epoch_among; [|done].
  pose proof Hr as [Hspe _]. split; [done|]. split_and!.
  - rewrite !NoDup_sorted. intros Hst. by eapply extension_sorted; [lia|..].
  - intros Hst. eapply extension_sorted; [|done..| |done|done].
    { intros a b Hab. by apply N.Div0.div_le_mono, N.lt_le_incl. }
    intros e root duties Hd. specialize (Hapi e root duties Hd). clear -Hapi Hspe.
    induction Hapi as [|d ds Hin Hall IH]; csimpl; [constructor|].
    apply StronglySorted_cons. split; [|done]. apply Forall_fmap.
    eapply Forall_impl; [exact Hall|]. intros d' Hin'. unfold compose, epoch_le.
    assert (Hdiv : ∀ x, e * spe ≤ x < (e + 1) * spe → x / spe = e).
    { intros x Hx. symmetry. apply (N.div_unique x spe e (x - e * spe)); lia. }
    by rewrite !Hdiv.
  - intros Hlist Hst. by eapply extension_sorted.
Qed.

Lemma duties_for_present spe api st epoch :
  epoch * spe < u64_mod →
  Exists (λ entry, epoch * spe ≤ schedule_slot entry) (proposer_schedule st) →
  duties_for spe api st epoch = [].
Proof. intros Hr Hex. unfold duties_for. rewrite u64_mul_small by done. by rewrite decide_True. Qed.

Lemma duties_for_missing spe api st epoch root duties :
  epoch * spe < u64_mod →
  Forall (λ entry, schedule_slot entry < epoch * spe) (proposer_schedule st) →
  api epoch = Ok (root, duties) → duties_for spe api st epoch = duties.
Proof.
  intros Hr Hall Hapi. unfold duties_for. rewrite u64_mul_small by done.
  rewrite decide_False; [by rewrite Hapi|].
  rewrite Exists_exists. intros (entry & Hin & Hle). rewrite Forall_forall in Hall.
  specialize (Hall entry Hin). simpl in Hall. lia.
Qed.

(** When no schedule reaches the epoch yet and the beacon node answers, [on_epoch]
    schedules exactly the registered proposers of the epoch and the next one: one entry
    per duty whose key has a registration, with the duty's slot and index and the stored
    registration, in the order of the duties. *)
Theorem on_epoch_fresh spe api epoch s root1 root2 duties1 duties2 :
  epoch_in_range spe epoch →
  Forall (λ entry, schedule_slot entry < epoch * spe) (proposer_schedule (held_scheduler s)) →
  api epoch = Ok (root1, duties1) → api (epoch + 1) = Ok (root2, duties2) →
  proposer_schedule (held_scheduler (run (on_epoch spe api epoch) s).1) =
    omap (schedule_duty (held_registry s)) (duties1 ++ duties2).
Proof.
  intros Hr Hall H1 H2. rewrite run_on_epoch. simpl. rewrite held_scheduler_set. simpl.
  rewrite u64_add_small by (by destruct Hr as (_ & _ & ?)).
  rewrite (duties_for_missing _ _ _ epoch root1 duties1),
    (duties_for_missing _ _ _ (epoch + 1) root2 duties2); [|destruct Hr; lia| |done|destruct Hr; lia|done..].
  - rewrite filter_none; [done|]. intros entry Hin. rewrite Forall_forall in Hall.
    specialize (Hall entry Hin). simpl in Hall. rewrite u64_mul_small by (destruct Hr; lia). lia.
  - eapply Forall_impl; [done|]. simpl. lia.
Qed.

(** Once a schedule reaches into the next epoch, [on_epoch] only drops past entries:
    nothing is added, whatever has been registered in the meantime.  The refresh the relay
    runs after new registrations therefore has no effect on the proposers of the current
    and the next epoch. *)
Theorem on_epoch_refresh_only_prunes spe api epoch s :
  epoch_in_range spe epoch →
  Exists (λ entry, (epoch + 1) * spe ≤ schedule_slot entry) (proposer_schedule (held_scheduler s)) →
  proposer_schedule (held_scheduler (run (on_epoch spe api epoch) s).1) =
    filter (λ entry, epoch * spe ≤ schedule_slot entry) (proposer_schedule (held_scheduler s)).
Proof.
  intros Hr Hex. rewrite run_on_epoch. simpl. rewrite held_scheduler_set. simpl.
  rewrite u64_add_small by (by destruct Hr as (_ & _ & ?)).
  rewrite !duties_for_present; [|destruct Hr; lia|done|destruct Hr; lia|].
  - simpl. rewrite app_nil_r, u64_mul_small by (destruct Hr; lia). done.
  - eapply Exists_impl; [done|]. simpl. lia.
Qed.
End scheduler_properties.

(** * Examples *)

Section examples.
Import ToyInstances.

#[local] Instance toy_holder : HoldsScheduler (State * ValidatorRegistry.State) := {
  held_scheduler := fst;
  held_registry := snd;
  set_held_scheduler st s := (st, snd s);
  held_scheduler_set st s := eq_refl;
}.

(** Four slots an epoch, two duties an epoch. *)
Definition toy_duty (key slot : N) : ProposerDuty := {|
  duty_public_key := toy_pk key;
  duty_validator_index := 3;
  duty_slot := slot;
|}.

Definition toy_duties (epoch : N) : result ApiError (Root * list ProposerDuty) :=
  Ok ((toy_root 0), [toy_duty 1005 (4 * epoch + 1); toy_duty 1006 (4 * epoch + 2)]).

(** Two duties of one proposer, the later one listed first. *)
Definition toy_duties_listed (epoch : N) : result ApiError (Root * list ProposerDuty) :=
  Ok ((toy_root 0), [toy_duty 1005 (4 * epoch + 2); toy_duty 1005 (4 * epoch + 1)]).

Definition toy_registered : ValidatorRegistry.State :=
  (process_registrations toy_registry [toy_registration 20] 100 (toy_network 4)).1.

Lemma toy_duties_serve : api_serves_epochs 4 toy_duties ∧ api_lists N.lt toy_duties.
Proof.
  split; intros epoch root duties [= <- <-].
  - repeat constructor; simpl; lia.
  - repeat constructor; simpl; lia.
Qed.

Lemma on_epoch_ordered_witness :
  slots (held_scheduler (run (on_epoch 4 toy_duties 2) (new, toy_registered)).1) = [9; 13] ∧
  StronglySorted N.lt
    (slots (held_scheduler (run (on_epoch 4 toy_duties 2) (new, toy_registered)).1)).
Proof.
  split; [by vm_compute|].
  eapply (on_epoch_ordered (λ s s', s' = s) 4 toy_duties 2 (new, toy_registered)).
  - by intros s s' ->.
  - done.
  - apply toy_duties_serve.
  - intros epoch root duties [= <- <-]. repeat constructor; simpl; lia.
  - apply run_among_alone.
  - apply toy_duties_serve.
  - constructor.
Defined.

Lemma on_epoch_fresh_witness :
  slots (held_scheduler (run (on_epoch 4 toy_duties 2) (new, toy_registered)).1) = [9; 13].
Proof.
  unfold slots. rewrite (on_epoch_fresh 4 toy_duties 2 (new, toy_registered) (toy_root 0) (toy_root 0) _ _
    ltac:(done) ltac:(constructor) eq_refl eq_refl). by vm_compute.
Defined.

(** The schedules are in the order in which the node lists the duties. *)
Example toy_listed_in_the_order_of_the_node :
  slots (held_scheduler (run (on_epoch 4 toy_duties_listed 2) (new, toy_registered)).1) =
    [10; 9; 14; 13].
Proof. by vm_compute. Qed.

(** The validator with key 1005 registers after the epoch was fetched: the refresh
    leaves its duties out. *)
Definition toy_fetched : State := {|
  proposer_schedule := [
    {| schedule_slot := 14; schedule_validator_index := 3;
       schedule_entry := toy_registration 20 |}];
|}.

Lemma on_epoch_refresh_only_prunes_witness :
  slots (held_scheduler (run (on_epoch 4 toy_duties 2) (toy_fetched, toy_registered)).1) = [14].
Proof.
  unfold slots. rewrite on_epoch_refresh_only_prunes; [by vm_compute|done|].
  apply Exists_cons_hd. simpl. lia.
Defined.
End examples.
