(* ===== verification/AuctionContext.v ===== *)
(** [mev-relay-rs/src/auction_context.rs]: what the relay keeps of a bid submission:
    the submission's data together with the bid the relay has signed over it.

    A [Duration] is its number of nanoseconds. *)

From S2P Require Import Prelude.
From S2P Require Import Consensus.
From S2P Require Import Types.
From S2P Require Import Signing.
From S2P Require Import Toy.

Section auction_context.
Context `{CF : ConsensusFunctions} `{BS : !BuilderSignable}.

Definition to_header (execution_payload : ExecutionPayload)
    : result Error ExecutionPayloadHeader :=
  match execution_payload with
  | ExecutionPayload_Bellatrix payload =>
      ExecutionPayloadHeader_Bellatrix <$>
        map_err Error_Consensus (bellatrix_try_into_header payload)
  | ExecutionPayload_Capella payload =>
      ExecutionPayloadHeader_Capella <$>
        map_err Error_Consensus (capella_try_into_header payload)
  | ExecutionPayload_Deneb payload =>
      ExecutionPayloadHeader_Deneb <$>
        map_err Error_Consensus (deneb_try_into_header payload)
  end.

Record bellatrix_AuctionContext : Type := {
  bellatrix_context_builder_public_key : BlsPublicKey;
  bellatrix_context_bid_trace : BidTrace;
  bellatrix_context_receive_duration : N;
  bellatrix_context_signed_builder_bid : SignedBuilderBid;
  bellatrix_context_execution_payload : ExecutionPayload;
  bellatrix_context_value : N;
}.

#[export] Instance bellatrix_AuctionContext_eq : EqDecision bellatrix_AuctionContext.
Proof. solve_decision. Defined.

Definition capella_AuctionContext : Type := bellatrix_AuctionContext.

Record deneb_AuctionContext : Type := {
  deneb_context_builder_public_key : BlsPublicKey;
  deneb_context_bid_trace : BidTrace;
  deneb_context_receive_duration : N;
  deneb_context_signed_builder_bid : SignedBuilderBid;
  deneb_context_execution_payload : ExecutionPayload;
  deneb_context_value : N;
  deneb_context_blobs_bundle : BlobsBundle;
}.

#[export] Instance deneb_AuctionContext_eq : EqDecision deneb_AuctionContext.
Proof. solve_decision. Defined.

Inductive AuctionContext : Type :=
| AuctionContext_Bellatrix (inner : bellatrix_AuctionContext)
| AuctionContext_Capella (inner : capella_AuctionContext)
| AuctionContext_Deneb (inner : deneb_AuctionContext).

#[export] Instance AuctionContext_eq : EqDecision AuctionContext.
Proof. unfold EqDecision, capella_AuctionContext. solve_decision. Defined.

(** The bid of [AuctionContext::new], before it is signed. *)
Definition builder_bid_for (signed_submission : SignedBidSubmission)
    (execution_payload_header : ExecutionPayloadHeader) (value : N)
    (relay_public_key : BlsPublicKey) : BuilderBid :=
  match signed_submission with
  | SignedBidSubmission_Bellatrix _ =>
      BuilderBid_Bellatrix {|
        bellatrix_bid_header := execution_payload_header;
        bellatrix_bid_value := value;
        bellatrix_bid_public_key := relay_public_key;
      |}
  | SignedBidSubmission_Capella _ =>
      BuilderBid_Capella {|
        bellatrix_bid_header := execution_payload_header;
        bellatrix_bid_value := value;
        bellatrix_bid_public_key := relay_public_key;
      |}
  | SignedBidSubmission_Deneb submission =>
      BuilderBid_Deneb {|
        deneb_bid_header := execution_payload_header;
        deneb_bid_blob_kzg_commitments := commitments (deneb_submission_blobs_bundle submission);
        deneb_bid_value := value;
        deneb_bid_public_key := relay_public_key;
      |}
  end.

Definition new (signed_submission : SignedBidSubmission) (receive_duration : N)
    (relay_public_key : BlsPublicKey) (relay_secret_key : SecretKey)
    (context : ChainContext) : result Error AuctionContext :=
  let builder_public_key := trace_builder_public_key (submission_message signed_submission) in
  let execution_payload := submission_payload signed_submission in
  execution_payload_header ← to_header execution_payload;
  let value := trace_value (submission_message signed_submission) in
  let bid := builder_bid_for signed_submission execution_payload_header value relay_public_key in
  signature ← map_err Error_Consensus (sign_builder_message bid relay_secret_key context);
  let signed_builder_bid := {| signed_bid_message := bid; signed_bid_signature := signature |} in
  let fields message := {|
    bellatrix_context_builder_public_key := builder_public_key;
    bellatrix_context_bid_trace := message;
    bellatrix_context_receive_duration := receive_duration;
    bellatrix_context_signed_builder_bid := signed_builder_bid;
    bellatrix_context_execution_payload := execution_payload;
    bellatrix_context_value := value;
  |} in
  Ok match signed_submission with
     | SignedBidSubmission_Bellatrix submission =>
         AuctionContext_Bellatrix (fields (bellatrix_submission_message submission))
     | SignedBidSubmission_Capella submission =>
         AuctionContext_Capella (fields (bellatrix_submission_message submission))
     | SignedBidSubmission_Deneb submission =>
         AuctionContext_Deneb {|
           deneb_context_builder_public_key := builder_public_key;
           deneb_context_bid_trace := deneb_submission_message submission;
           deneb_context_receive_duration := receive_duration;
           deneb_context_signed_builder_bid := signed_builder_bid;
           deneb_context_execution_payload := execution_payload;
           deneb_context_value := value;
           deneb_context_blobs_bundle := deneb_submission_blobs_bundle submission;
         |}
     end.

Definition builder_public_key (c : AuctionContext) : BlsPublicKey :=
  match c with
  | AuctionContext_Bellatrix context => bellatrix_context_builder_public_key context
  | AuctionContext_Capella context => bellatrix_context_builder_public_key context
  | AuctionContext_Deneb context => deneb_context_builder_public_key context
  end.

Definition bid_trace (c : AuctionContext) : BidTrace :=
  match c with
  | AuctionContext_Bellatrix context => bellatrix_context_bid_trace context
  | AuctionContext_Capella context => bellatrix_context_bid_trace context
  | AuctionContext_Deneb context => deneb_context_bid_trace context
  end.

Definition receive_duration (c : AuctionContext) : N :=
  match c with
  | AuctionContext_Bellatrix context => bellatrix_context_receive_duration context
  | AuctionContext_Capella context => bellatrix_context_receive_duration context
  | AuctionContext_Deneb context => deneb_context_receive_duration context
  end.

Definition signed_builder_bid (c : AuctionContext) : SignedBuilderBid :=
  match c with
  | AuctionContext_Bellatrix context => bellatrix_context_signed_builder_bid context
  | AuctionContext_Capella context => bellatrix_context_signed_builder_bid context
  | AuctionContext_Deneb context => deneb_context_signed_builder_bid context
  end.

Definition execution_payload (c : AuctionContext) : ExecutionPayload :=
  match c with
  | AuctionContext_Bellatrix context => bellatrix_context_execution_payload context
  | AuctionContext_Capella context => bellatrix_context_execution_payload context
  | AuctionContext_Deneb context => deneb_context_execution_payload context
  end.

Definition blobs_bundle (c : AuctionContext) : option BlobsBundle :=
  match c with
  | AuctionContext_Bellatrix _ => None
  | AuctionContext_Capella _ => None
  | AuctionContext_Deneb context => Some (deneb_context_blobs_bundle context)
  end.

Definition value (c : AuctionContext) : N :=
  match c with
  | AuctionContext_Bellatrix context => bellatrix_context_value context
  | AuctionContext_Capella context => bellatrix_context_value context
  | AuctionContext_Deneb context => deneb_context_value context
  end.

Definition to_auction_contents (c : AuctionContext) : AuctionContents :=
  match c with
  | AuctionContext_Bellatrix context =>
      AuctionContents_Bellatrix (bellatrix_context_execution_payload context)
  | AuctionContext_Capella context =>
      AuctionContents_Capella (bellatrix_context_execution_payload context)
  | AuctionContext_Deneb context =>
      AuctionContents_Deneb {|
        deneb_contents_execution_payload := deneb_context_execution_payload context;
        deneb_contents_blobs_bundle := deneb_context_blobs_bundle context;
      |}
  end.
End auction_context.

(** * Properties *)

Section auction_context_properties.
Context `{CF : ConsensusFunctions} `{BS : !BuilderSignable}.

(** The context [c] holds the submission [s]: the trace, the payload and the
    blobs are the submission's, and the relay's bid offers the submission's value
    for the header of the payload (and commits to its blobs). *)
Record holds_submission (relay_key : BlsPublicKey) (ctx : ChainContext)
    (s : SignedBidSubmission) (duration : N) (c : AuctionContext) : Prop := {
  holds_trace : bid_trace c = submission_message s;
  holds_builder : builder_public_key c = trace_builder_public_key (submission_message s);
  holds_payload : execution_payload c = submission_payload s;
  holds_blobs : blobs_bundle c = submission_blobs_bundle s;
  holds_value : value c = trace_value (submission_message s);
  holds_duration : receive_duration c = duration;
  holds_header :
    to_header (submission_payload s) = Ok (bid_header (signed_bid_message (signed_builder_bid c)));
  holds_bid_value : bid_value (signed_bid_message (signed_builder_bid c)) = value c;
  holds_bid_key : bid_public_key (signed_bid_message (signed_builder_bid c)) = relay_key;
  holds_commitments :
    bid_blob_kzg_commitments (signed_bid_message (signed_builder_bid c)) =
      commitments <$> submission_blobs_bundle s;
  holds_bid_signature :
    verify_signed_builder_data (signed_bid_message (signed_builder_bid c)) relay_key
      (signed_bid_signature (signed_builder_bid c)) ctx = Ok tt;
  holds_version : bid_version (signed_bid_message (signed_builder_bid c)) = submission_version s;
}.

Lemma new_holds `{!SignableLaws BuilderBid} s duration sk ctx c :
  new s duration (secret_key_public_key sk) sk ctx = Ok c →
  holds_submission (secret_key_public_key sk) ctx s duration c.
Proof.
  unfold new. destruct (to_header _) as [h|e] eqn:Hh; simpl; [|done].
  destruct (sign_builder_message _ _ _) as [sig|e] eqn:Hsig; simpl; [|done].
  pose proof (sign_builder_message_verifies _ _ _ _ Hsig) as Hver.
  destruct s; intros [= <-]; split; simpl in *; done.
Qed.

(** Only the library's operations fail. *)
Lemma new_error s duration pk sk ctx e :
  new s duration pk sk ctx = Err e → ∃ e', e = Error_Consensus e'.
Proof.
  unfold new. destruct (to_header _) as [h|e'] eqn:Hh; simpl.
  - destruct (sign_builder_message _ _ _) as [sig|e'']; simpl; [done|]. intros [= <-]. eauto.
  - intros [= <-]. unfold to_header in Hh. destruct (submission_payload s) as [p|p|p];
      [destruct (bellatrix_try_into_header p)|destruct (capella_try_into_header p)
      |destruct (deneb_try_into_header p)]; simplify_eq/=; eauto.
Qed.

Lemma new_value s duration pk sk ctx c :
  new s duration pk sk ctx = Ok c → value c = trace_value (submission_message s).
Proof.
  unfold new. destruct (to_header _) as [h|e] eqn:Hh; simpl; [|done].
  destruct (sign_builder_message _ _ _) as [sig|e] eqn:Hsig; simpl; [|done].
  by destruct s; intros [= <-].
Qed.

(** A context built from a submission holds that submission, with a bid
    that verifies under the relay's key; and building it fails only when the
    payload has no header or the bid cannot be signed. *)
Theorem new_holds_submission `{!SignableLaws BuilderBid} s duration sk ctx :
  match new s duration (secret_key_public_key sk) sk ctx with
  | Ok c => holds_submission (secret_key_public_key sk) ctx s duration c
  | Err e =>
      to_header (submission_payload s) = Err e ∨
      ∃ h e', to_header (submission_payload s) = Ok h ∧ e = Error_Consensus e' ∧
        sign_builder_message
          (builder_bid_for s h (trace_value (submission_message s)) (secret_key_public_key sk))
          sk ctx = Err e'
  end.
Proof.
  destruct (new _ _ _ _ _) as [c|e] eqn:Hnew; [by apply new_holds|].
  revert Hnew. unfold new. destruct (to_header _) as [h|e'] eqn:Hh; simpl.
  2: { intros [= ->]. by left. }
  destruct (sign_builder_message _ _ _) as [sig|e'] eqn:Hsig; simpl; [done|].
  intros [= <-]. right. by exists h, e'.
Qed.

(** The contents handed out for a context are the submitted payload and
    blobs, in the version of the submission. *)
Theorem to_auction_contents_spec relay_key ctx s duration c :
  holds_submission relay_key ctx s duration c →
  contents_execution_payload (to_auction_contents c) = submission_payload s ∧
  contents_blobs_bundle (to_auction_contents c) = submission_blobs_bundle s.
Proof. intros []. by destruct c. Qed.

(** The header of a payload carries its hashes. *)
Lemma to_header_hashes `{!ConsensusLaws} p h :
  to_header p = Ok h →
  header_block_hash h = payload_block_hash p ∧ header_parent_hash h = payload_parent_hash p.
Proof.
  unfold to_header. intros Hh.
  destruct p as [p|p|p]; [destruct (bellatrix_try_into_header p) eqn:E
    |destruct (capella_try_into_header p) eqn:E|destruct (deneb_try_into_header p) eqn:E];
    simplify_eq/=.
  - by apply bellatrix_header_hashes.
  - by apply capella_header_hashes.
  - by apply deneb_header_hashes.
Qed.

(** The header is in the payload's fork. *)
Lemma to_header_version p h :
  to_header p = Ok h →
  match p, h with
  | ExecutionPayload_Bellatrix _, ExecutionPayloadHeader_Bellatrix _
  | ExecutionPayload_Capella _, ExecutionPayloadHeader_Capella _
  | ExecutionPayload_Deneb _, ExecutionPayloadHeader_Deneb _ => True
  | _, _ => False
  end.
Proof.
  unfold to_header. intros Hh.
  destruct p as [p|p|p]; [destruct (bellatrix_try_into_header p)
    |destruct (capella_try_into_header p)|destruct (deneb_try_into_header p)];
    by simplify_eq/=.
Qed.
End auction_context_properties.

(** * Examples *)

Section examples.
Import ToyInstances.

Definition toy_payload_with (parent hash : N) : ExecutionPayload :=
  ExecutionPayload_Deneb (Build_toy_payload parent hash 30000000 21000 1 : deneb_ExecutionPayload).

Definition toy_blobs : BlobsBundle :=
  {| commitments := [toy_commitment 8]; proofs := [9%N : KzgProof]; blobs := [10%N : Blob] |}.

(** A Deneb submission by the builder with secret key 2. *)
Definition toy_trace (slot parent hash val : N) : BidTrace := {|
  trace_slot := slot;
  trace_parent_hash := toy_hash parent;
  trace_block_hash := toy_hash hash;
  trace_builder_public_key := toy_pk 1002;
  trace_proposer_public_key := toy_pk 1005;
  trace_proposer_fee_recipient := toy_address 77;
  trace_gas_limit := 30000000;
  trace_gas_used := 21000;
  trace_value := val;
|}.

Definition toy_submission (slot parent hash val : N) : SignedBidSubmission :=
  SignedBidSubmission_Deneb {|
    deneb_submission_message := toy_trace slot parent hash val;
    deneb_submission_execution_payload := toy_payload_with parent hash;
    deneb_submission_blobs_bundle := toy_blobs;
    deneb_submission_signature := toy_sig 1002 (1000 * slot + val + 7);
  |}.

Definition toy_context (slot parent hash val duration : N) : result Error AuctionContext :=
  new (toy_submission slot parent hash val) duration (secret_key_public_key (toy_sk 1)) (toy_sk 1)
    (toy_network 32).

Lemma new_holds_submission_witness :
  ∃ c, toy_context 201 40 41 500 6 = Ok c ∧ value c = 500%N.
Proof.
  pose proof (new_holds_submission (toy_submission 201 40 41 500) 6 (toy_sk 1)
    (toy_network 32)) as H.
  fold (toy_context 201 40 41 500 6) in H.
  destruct (toy_context 201 40 41 500 6) as [c|e] eqn:Hc.
  - exists c. split; [done|]. by rewrite (holds_value _ _ _ _ _ H).
  - vm_compute in Hc. discriminate Hc.
Defined.

Lemma to_auction_contents_spec_witness :
  ∃ c, toy_context 201 40 41 500 6 = Ok c ∧
    contents_blobs_bundle (to_auction_contents c) = Some toy_blobs.
Proof.
  pose proof (new_holds_submission (toy_submission 201 40 41 500) 6 (toy_sk 1)
    (toy_network 32)) as H.
  fold (toy_context 201 40 41 500 6) in H.
  destruct (toy_context 201 40 41 500 6) as [c|e] eqn:Hc.
  - exists c. split; [done|]. by apply (to_auction_contents_spec _ _ _ _ _ H).
  - vm_compute in Hc. discriminate Hc.
Defined.
End examples.
