(* ===== verification/Traces.v ===== *)
(** Handlers that write a ledger.

    The ledger is not part of the program: it lists the events of an abstract
    specification, and [H] says which ledger a shared state may have.  [ensures] is the
    proof obligation of one task: each of its sections extends the ledger by the events
    the specification has for it, and the result is justified by the ledger of that
    moment.  Between two sections the other tasks may have extended the ledger. *)

From S2P Require Import Prelude.
From S2P Require Import Tasks.

Section ledger.
Context {R E : Type} (I : R → Prop) (H : R → list E → Prop).
Implicit Types (t : list E).

Fixpoint ensures {A} (p : task R A) (Q : list E → A → Prop) t : Prop :=
  match p with
  | Done a => Q t a
  | Atomic section k =>
      ∀ s t', t `prefix_of` t' → I s → H s t' → I (section s).1 →
        ∃ events, H (section s).1 (t' ++ events) ∧ ensures (k (section s).2) Q (t' ++ events)
  end.

(** A justification that stays one while the ledger grows. *)
Definition lasting {A} (Q : list E → A → Prop) : Prop :=
  ∀ t t' a, t `prefix_of` t' → Q t a → Q t' a.

Lemma ensures_later {A} (p : task R A) Q t t' :
  lasting Q → t `prefix_of` t' → ensures p Q t → ensures p Q t'.
Proof.
  intros HQ Hpre. destruct p as [a|B section k]; simpl; [by apply HQ|].
  intros Hp s t'' Hpre'. apply Hp. by etrans.
Qed.

Lemma ensures_bind {A B} (p : task R A) (f : A → task R B) Q Q' t :
  ensures p Q t →
  (∀ a t', t `prefix_of` t' → Q t' a → ensures (f a) Q' t') →
  ensures (p ≫= f) Q' t.
Proof.
  revert t. induction p as [a|C section k IH]; intros t Hp Hf; simpl in *.
  - by apply Hf.
  - intros s t' Hpre HI HH HI'. destruct (Hp s t' Hpre HI HH HI') as (events & HH' & Hk).
    exists events. split; [done|]. apply IH; [done|].
    intros a t'' Hpre'. apply Hf. etrans; [exact Hpre|]. etrans; [|exact Hpre'].
    by apply prefix_app_r.
Qed.

Lemma ensures_fmap {A B} (g : A → B) (p : task R A) (Q : list E → B → Prop) t :
  ensures p (λ t a, Q t (g a)) t → ensures (g <$> p) Q t.
Proof. intros Hp. by apply (ensures_bind p (λ a, Done (g a)) (λ t a, Q t (g a))). Qed.

(** The rule for [?]: an error ends the task. *)
Lemma ensures_try {X A B} (p : task R (result X A)) (f : A → task R (result X B))
    (Q : list E → result X A → Prop) (Q' : list E → result X B → Prop) t :
  ensures p Q t →
  (∀ e t', t `prefix_of` t' → Q t' (Err e) → Q' t' (Err e)) →
  (∀ a t', t `prefix_of` t' → Q t' (Ok a) → ensures (f a) Q' t') →
  ensures (task_try p f) Q' t.
Proof.
  intros Hp He Hf. unfold task_try. eapply ensures_bind; [done|].
  intros [a|e] t' Hpre HQ; simpl; auto.
Qed.

Lemma ensures_mono {A} (p : task R A) (Q Q' : list E → A → Prop) t :
  (∀ t' a, t `prefix_of` t' → Q t' a → Q' t' a) → ensures p Q t → ensures p Q' t.
Proof.
  revert t. induction p as [a|B section k IH]; intros t HQ; simpl; [by apply HQ|].
  intros Hp s t' Hpre HI HH HI'. destruct (Hp s t' Hpre HI HH HI') as (events & HH' & Hk).
  exists events. split; [done|]. apply IH; [|done]. intros t'' a Hpre'. apply HQ.
  etrans; [exact Hpre|]. etrans; [|exact Hpre']. by apply prefix_app_r.
Qed.

(** A section for which the specification has one event. *)
Lemma ensures_event {B} (f : R → R * B) e (Q : list E → B → Prop) t :
  (∀ s t', t `prefix_of` t' → I s → H s t' → I (f s).1 →
     H (f s).1 (t' ++ [e]) ∧ Q (t' ++ [e]) (f s).2) →
  ensures (critical f) Q t.
Proof. intros Hf s t' Hpre HI HH HI'. exists [e]. by apply Hf. Qed.

(** A section the specification does not see. *)
Lemma ensures_silent {B} (f : R → R * B) (Q : list E → B → Prop) t :
  (∀ s t', t `prefix_of` t' → I s → H s t' → I (f s).1 →
     H (f s).1 t' ∧ Q t' (f s).2) →
  ensures (critical f) Q t.
Proof.
  intros Hf s t' Hpre HI HH HI'. exists []. rewrite app_nil_r. by apply Hf.
Qed.

Lemma ensures_read {B} (f : R → B) (Q : list E → B → Prop) t :
  (∀ s t', t `prefix_of` t' → I s → H s t' → Q t' (f s)) → ensures (read f) Q t.
Proof. intros Hf. apply ensures_silent. simpl. auto. Qed.

Lemma ensures_read_each {A B} (f : A → R → B) l t :
  ensures (read_each f l) (λ _ _, True) t.
Proof.
  revert t. induction l as [|x l IH]; intros t; [done|]. cbn [read_each].
  eapply ensures_bind; [by apply (ensures_read _ (λ _ _, True))|]. intros b t' _ _.
  by eapply ensures_bind.
Qed.

Lemma ensures_read_par {A B} order (f : A → R → B) l t :
  ensures (read_par order f l) (λ _ _, True) t.
Proof. eapply ensures_bind; [apply ensures_read_each|done]. Qed.

(** ** Pools *)

Context (G : R → R → Prop) `{!PreOrder G}.
Context {A : Type} (spawns : task R A → Prop) (P : A → Prop) (Q : list E → A → Prop).
Context (Q_lasting : lasting Q).
Context (spawns_safe : ∀ p, spawns p → safe I G p P) (spawns_ensure : ∀ p, spawns p → ensures p Q []).

Definition pool_ledger (pl : pool R A) t : Prop :=
  H (shared pl) t ∧ Forall (λ p, ensures p Q t) (running pl) ∧ Forall (Q t) (finished pl).

Lemma pool_step_ledger pl pl' t :
  pool_ok I G P pl → pool_ledger pl t → pool_step spawns pl pl' →
  ∃ events, pool_ledger pl' (t ++ events).
Proof using Q_lasting spawns_ensure.
  intros (HI & Hsafe & _) (HH & Hrun & Hfin) Hstep. destruct Hstep as [s ps out p Hp|
    s ps ps' out B section k s' b Hs|s ps ps' out a]; unfold pool_ledger; simpl in *.
  - exists []. rewrite app_nil_r, Forall_app, Forall_singleton. split_and!; try done.
    apply (ensures_later p Q []); [done|apply prefix_nil|by apply spawns_ensure].
  - apply Forall_app in Hrun as [Hps [Hk Hps']%Forall_cons].
    apply Forall_app in Hsafe as [_ [Hsk _]%Forall_cons].
    destruct (Hsk s HI) as (HI' & _ & _).
    destruct (Hk s t (reflexivity t) HI HH HI') as (events & HH' & Hk'). rewrite Hs in *.
    exists events. split; [done|]. rewrite Forall_app, Forall_cons.
    assert (Hpre : t `prefix_of` t ++ events) by (by apply prefix_app_r).
    split_and!; [|done|..].
    + apply (Forall_impl _ _ _ Hps). intros p. by apply ensures_later.
    + apply (Forall_impl _ _ _ Hps'). intros p. by apply ensures_later.
    + apply (Forall_impl _ _ _ Hfin). intros r. by apply Q_lasting.
  - apply Forall_app in Hrun as [Hps [Ha Hps']%Forall_cons]. exists [].
    rewrite app_nil_r, Forall_app, Forall_cons. by split_and!.
Qed.

(** Whatever the interleaving, the ledger grows with the run. *)
Lemma pool_ledger_grows pl pl' t :
  pool_ok I G P pl → pool_ledger pl t → steps (pool_step spawns) pl pl' →
  pool_ok I G P pl' ∧ ∃ events, pool_ledger pl' (t ++ events).
Proof using Q_lasting spawns_ensure spawns_safe PreOrder0.
  intros Hok Ht Hsteps.
  refine (steps_invariant _ (λ pl, pool_ok I G P pl ∧ ∃ events, pool_ledger pl (t ++ events))
    _ _ _ _ Hsteps).
  - intros pl1 pl2 [Hok1 [events Hl]] Hstep. split; [by destruct (pool_step_ok I G spawns P pl1 pl2)|].
    destruct (pool_step_ledger pl1 pl2 _ Hok1 Hl Hstep) as (more & ?). exists (events ++ more).
    by rewrite app_assoc.
  - split; [done|]. exists []. by rewrite app_nil_r.
Qed.

(** There is a ledger for each state of a run, it justifies every reply, and it stays the
    beginning of the ledgers of what follows. *)
Lemma pool_has_ledger s pl :
  I s → H s [] → steps (pool_step spawns) (start s) pl →
  ∃ t, H (shared pl) t ∧ Forall (Q t) (finished pl) ∧
    ∀ pl', steps (pool_step spawns) pl pl' →
      ∃ events, H (shared pl') (t ++ events) ∧ Forall (Q (t ++ events)) (finished pl').
Proof using Q_lasting spawns_ensure spawns_safe PreOrder0.
  intros HI HH Hsteps.
  destruct (pool_ledger_grows (start s) pl []) as (Hok & t & Ht & Hrun & Hfin); [|split_and!| |].
  - by apply start_ok.
  - done.
  - constructor.
  - constructor.
  - done.
  - exists t. split_and!; [done..|]. intros pl' Hsteps'.
    destruct (pool_ledger_grows pl pl' t) as (_ & events & ? & _ & ?); [done|by split_and!|done|].
    by exists events.
Qed.
End ledger.

(** When the sections need no invariant. *)
Lemma safe_trivially {R A} (p : task R A) : safe (λ _, True) (λ _ _, True) p (λ _, True).
Proof. induction p as [a|B section k IH]; simpl; auto. Qed.

#[export] Instance anything_preorder {R} : PreOrder (λ _ _ : R, True).
Proof. by split. Qed.

Lemma pool_has_simple_ledger {R E A} (H : R → list E → Prop) (spawns : task R A → Prop)
    (Q : list E → A → Prop) s pl :
  lasting Q → (∀ p, spawns p → ensures (λ _, True) H p Q []) → H s [] →
  steps (pool_step spawns) (start s) pl →
  ∃ t, H (shared pl) t ∧ Forall (Q t) (finished pl) ∧
    ∀ pl', steps (pool_step spawns) pl pl' →
      ∃ events, H (shared pl') (t ++ events) ∧ Forall (Q (t ++ events)) (finished pl').
Proof.
  intros HQ Hspawns. eapply (pool_has_ledger _ _ (λ _ _, True) _ (λ _, True)); [done| |done|done].
  intros p _. apply safe_trivially.
Qed.

(** * Specifications with a state

    The state of the specification after a ledger, and the events that may be added to a
    ledger. *)

Section specification.
Context {E S : Type} (step : S → E → S) (initial : S) (legal : list E → E → Prop).
Implicit Types (t : list E).

Definition after t : S := foldl step initial t.

Lemma after_snoc t e : after (t ++ [e]) = step (after t) e.
Proof. unfold after. by rewrite foldl_app. Qed.

(** There were moments at which the state had these properties, the latest first. *)
Fixpoint moments (properties : list (S → Prop)) t : Prop :=
  match properties with
  | [] => True
  | P :: properties => ∃ t', t' `prefix_of` t ∧ P (after t') ∧ moments properties t'
  end.

Lemma moments_later Ps t t' : moments Ps t → t `prefix_of` t' → moments Ps t'.
Proof.
  destruct Ps as [|P Ps]; [done|]. intros (t0 & Hpre & HP & Hrest) Hpre'. exists t0.
  split_and!; [by etrans|done..].
Qed.

Lemma moments_now (P : S → Prop) Ps t : P (after t) → moments Ps t → moments (P :: Ps) t.
Proof. intros. by exists t. Qed.

Lemma moments_mono (P P' : S → Prop) Ps t :
  (∀ h, P h → P' h) → moments (P :: Ps) t → moments (P' :: Ps) t.
Proof. intros HP (t' & ? & ? & ?). exists t'. auto. Qed.

Definition legal_ledger t : Prop := ∀ t1 e t2, t = t1 ++ e :: t2 → legal t1 e.

Lemma legal_elem t e : legal_ledger t → e ∈ t → ∃ t1, legal t1 e.
Proof. intros Ht (t1 & t2 & ->)%list_elem_of_split. exists t1. by eapply Ht. Qed.

Lemma legal_ledger_nil : legal_ledger [].
Proof. by intros [] ? ?. Qed.

Lemma legal_ledger_snoc t e : legal_ledger t → legal t e → legal_ledger (t ++ [e]).
Proof.
  intros Ht He t1 e' t2 Heq. destruct t2 as [|e2 t2 _] using rev_ind.
  - apply app_inj_tail in Heq as [<- <-]. done.
  - rewrite app_comm_cons, app_assoc in Heq. apply app_inj_tail in Heq as [-> _]. by eapply Ht.
Qed.
End specification.

#[global] Arguments moments : simpl never.

(** Case analysis on the result a task branches on. *)
Ltac ensures_match H :=
  cbv beta zeta;
  match goal with
  | |- ensures _ _ (match ?r with _ => _ end) _ _ => destruct r eqn:H
  end.
