(* ===== verification/RelayBlocks.v ===== *)
(** The free functions of [mev-relay-rs/src/relay.rs] on signed blinded blocks:
    comparing the header a proposer signed with the header the relay offered, turning
    the blinded block into the full block, and checking the proposer's signature. *)

From S2P Require Import Prelude.
From S2P Require Import Consensus.
From S2P Require Import Types.
From S2P Require Import Signing.
From S2P Require Import AuctionContext.
From S2P Require Import Toy.

Section relay_blocks.
Context `{CF : ConsensusFunctions}.

Definition validate_header_equality (local_header provided_header : ExecutionPayloadHeader)
    : result RelayError unit :=
  match local_header with
  | ExecutionPayloadHeader_Bellatrix local_header =>
      provided_header ← ok_or (header_bellatrix provided_header) InvalidExecutionPayloadInBlock;
      if decide (local_header ≠ provided_header)
      then Err InvalidExecutionPayloadInBlock else Ok tt
  | ExecutionPayloadHeader_Capella local_header =>
      provided_header ← ok_or (header_capella provided_header) InvalidExecutionPayloadInBlock;
      if decide (local_header ≠ provided_header)
      then Err InvalidExecutionPayloadInBlock else Ok tt
  | ExecutionPayloadHeader_Deneb local_header =>
      provided_header ← ok_or (header_deneb provided_header) InvalidExecutionPayloadInBlock;
      if decide (local_header ≠ provided_header)
      then Err InvalidExecutionPayloadInBlock else Ok tt
  end.

Definition unblind_block (signed_blinded_beacon_block : SignedBlindedBeaconBlock)
    (execution_payload : ExecutionPayload) : result Error SignedBeaconBlock :=
  match signed_blinded_beacon_block with
  | SignedBlindedBeaconBlock_Bellatrix blinded_block =>
      let signature := signed_block_signature blinded_block in
      let block := signed_block_message blinded_block in
      let body := block_body block in
      execution_payload ← ok_or (payload_bellatrix execution_payload)
        (InvalidFork Fork_Bellatrix (payload_version execution_payload));
      Ok (SignedBeaconBlock_Bellatrix {|
        signed_block_message := {|
          block_slot := block_slot block;
          block_proposer_index := block_proposer_index block;
          block_parent_root := block_parent_root block;
          block_state_root := block_state_root block;
          block_body := {|
            bellatrix_fields := {|
              randao_reveal := randao_reveal (bellatrix_fields body);
              eth1_data := eth1_data (bellatrix_fields body);
              graffiti := graffiti (bellatrix_fields body);
              proposer_slashings := proposer_slashings (bellatrix_fields body);
              attester_slashings := attester_slashings (bellatrix_fields body);
              attestations := attestations (bellatrix_fields body);
              deposits := deposits (bellatrix_fields body);
              voluntary_exits := voluntary_exits (bellatrix_fields body);
              sync_aggregate := sync_aggregate (bellatrix_fields body);
            |};
            bellatrix_execution_payload := execution_payload;
          |};
        |};
        signed_block_signature := signature;
      |})
  | SignedBlindedBeaconBlock_Capella blinded_block =>
      let signature := signed_block_signature blinded_block in
      let block := signed_block_message blinded_block in
      let body := block_body block in
      execution_payload ← ok_or (payload_capella execution_payload)
        (InvalidFork Fork_Capella (payload_version execution_payload));
      Ok (SignedBeaconBlock_Capella {|
        signed_block_message := {|
          block_slot := block_slot block;
          block_proposer_index := block_proposer_index block;
          block_parent_root := block_parent_root block;
          block_state_root := block_state_root block;
          block_body := {|
            capella_fields := {|
              randao_reveal := randao_reveal (capella_fields body);
              eth1_data := eth1_data (capella_fields body);
              graffiti := graffiti (capella_fields body);
              proposer_slashings := proposer_slashings (capella_fields body);
              attester_slashings := attester_slashings (capella_fields body);
              attestations := attestations (capella_fields body);
              deposits := deposits (capella_fields body);
              voluntary_exits := voluntary_exits (capella_fields body);
              sync_aggregate := sync_aggregate (capella_fields body);
            |};
            capella_execution_payload := execution_payload;
            capella_bls_to_execution_changes := capella_bls_to_execution_changes body;
          |};
        |};
        signed_block_signature := signature;
      |})
  | SignedBlindedBeaconBlock_Deneb blinded_block =>
      let signature := signed_block_signature blinded_block in
      let block := signed_block_message blinded_block in
      let body := block_body block in
      execution_payload ← ok_or (payload_deneb execution_payload)
        (InvalidFork Fork_Deneb (payload_version execution_payload));
      Ok (SignedBeaconBlock_Deneb {|
        signed_block_message := {|
          block_slot := block_slot block;
          block_proposer_index := block_proposer_index block;
          block_parent_root := block_parent_root block;
          block_state_root := block_state_root block;
          block_body := {|
            deneb_fields := {|
              randao_reveal := randao_reveal (deneb_fields body);
              eth1_data := eth1_data (deneb_fields body);
              graffiti := graffiti (deneb_fields body);
              proposer_slashings := proposer_slashings (deneb_fields body);
              attester_slashings := attester_slashings (deneb_fields body);
              attestations := attestations (deneb_fields body);
              deposits := deposits (deneb_fields body);
              voluntary_exits := voluntary_exits (deneb_fields body);
              sync_aggregate := sync_aggregate (deneb_fields body);
            |};
            deneb_execution_payload := execution_payload;
            deneb_bls_to_execution_changes := deneb_bls_to_execution_changes body;
            deneb_blob_kzg_commitments := deneb_blob_kzg_commitments body;
          |};
        |};
        signed_block_signature := signature;
      |})
  end.

Definition verify_blinded_block_signature (auction_request : AuctionRequest)
    (signed_block : SignedBlindedBeaconBlock) (genesis_validators_root : Root)
    (context : ChainContext) : result Error unit :=
  let proposer_public_key := public_key auction_request in
  let slot := blinded_slot (blinded_message signed_block) in
  domain ← map_err Error_Consensus
    (compute_consensus_domain slot genesis_validators_root context);
  map_err Error_Consensus
    (verify_signed_data (blinded_message signed_block) (blinded_signature signed_block)
       proposer_public_key domain).
End relay_blocks.

(** * Properties *)

Section relay_blocks_properties.
Context `{CF : ConsensusFunctions}.

Lemma validate_header_equality_Ok h h' :
  validate_header_equality h h' = Ok tt ↔ h = h'.
Proof.
  destruct h, h'; simpl; try case_decide; naive_solver.
Qed.

(** ** The specification of unblinding: blinding

    [blind_with f b] replaces the payload of a block's body by [f] of it. *)

Definition map_message {B B'} (f : B → B') (b : SignedBlock B) : SignedBlock B' := {|
  signed_block_message := {|
    block_slot := block_slot (signed_block_message b);
    block_proposer_index := block_proposer_index (signed_block_message b);
    block_parent_root := block_parent_root (signed_block_message b);
    block_state_root := block_state_root (signed_block_message b);
    block_body := f (block_body (signed_block_message b));
  |};
  signed_block_signature := signed_block_signature b;
|}.

Definition blind_block (b : SignedBeaconBlock) : result ConsensusError SignedBlindedBeaconBlock :=
  match b with
  | SignedBeaconBlock_Bellatrix b =>
      h ← bellatrix_try_into_header
            (bellatrix_execution_payload (block_body (signed_block_message b)));
      Ok (SignedBlindedBeaconBlock_Bellatrix
           (map_message (λ body, Build_bellatrix_Body (bellatrix_fields body) h) b))
  | SignedBeaconBlock_Capella b =>
      h ← capella_try_into_header
            (capella_execution_payload (block_body (signed_block_message b)));
      Ok (SignedBlindedBeaconBlock_Capella
           (map_message (λ body, Build_capella_Body (capella_fields body) h
              (capella_bls_to_execution_changes body)) b))
  | SignedBeaconBlock_Deneb b =>
      h ← deneb_try_into_header
            (deneb_execution_payload (block_body (signed_block_message b)));
      Ok (SignedBlindedBeaconBlock_Deneb
           (map_message (λ body, Build_deneb_Body (deneb_fields body) h
              (deneb_bls_to_execution_changes body) (deneb_blob_kzg_commitments body)) b))
  end.

(** C33: When the header of the payload is the header the proposer signed,
    unblinding succeeds, and blinding the result again gives back exactly the
    block the proposer signed: nothing else of the block, and no byte of the
    signature, is touched. *)
Theorem unblind_block_roundtrip b p :
  to_header p = Ok (blinded_payload_header (blinded_message b)) →
  ∃ full, unblind_block b p = Ok full ∧ blind_block full = Ok b.
Proof.
  unfold to_header. intros Hp.
  destruct b as [[[? ? ? ? [[] h]] sig]|[[? ? ? ? [[] h ch]] sig]|[[? ? ? ? [[] h ch kzg]] sig]],
    p as [p|p|p]; simpl in *;
    match type of Hp with (_ <$> map_err _ ?r = _) => destruct r as [h'|] eqn:Hh end;
    simplify_eq/=; (eexists; split; [done|]); simpl; by rewrite Hh.
Qed.

(** The only failure is a payload of another fork. *)
Lemma unblind_block_Err b p e :
  unblind_block b p = Err e → ∃ f, e = InvalidFork f (payload_version p) ∧ f ≠ payload_version p.
Proof. destruct b, p; simpl; intros; simplify_eq; eauto. Qed.
End relay_blocks_properties.

(** * Examples *)

Section examples.
Import ToyInstances.

Definition toy_fields : BodyFields := {|
  randao_reveal := toy_sig 1 1; eth1_data := (2%N : Eth1Data); graffiti := toy_hash 3;
  proposer_slashings := (4%N : ProposerSlashings); attester_slashings := (5%N : AttesterSlashings);
  attestations := (6%N : Attestations); deposits := (7%N : Deposits);
  voluntary_exits := (8%N : VoluntaryExits); sync_aggregate := (9%N : SyncAggregate);
|}.

(** A Deneb block of validator [3], whose key is [1005], signed over the header
    with the given hashes; the domain of a Deneb slot is [3] plus the genesis
    validators root [1]. *)
Definition toy_blinded_block (slot parent hash : N) : SignedBlindedBeaconBlock :=
  SignedBlindedBeaconBlock_Deneb {|
    signed_block_message := {|
      block_slot := slot;
      block_proposer_index := 3;
      block_parent_root := toy_root 11;
      block_state_root := toy_root 12;
      block_body := {|
        deneb_fields := toy_fields;
        deneb_execution_payload := (Build_toy_header parent hash 1 : deneb_ExecutionPayloadHeader);
        deneb_bls_to_execution_changes := (13%N : BlsToExecutionChanges);
        deneb_blob_kzg_commitments := [toy_commitment 8];
      |};
    |};
    signed_block_signature := toy_sig 1005 (1000 * slot + hash + 4);
  |}.

Lemma unblind_block_roundtrip_witness :
  ∃ full, unblind_block (toy_blinded_block 201 40 41) (toy_payload_with 40 41) = Ok full ∧
    blind_block full = Ok (toy_blinded_block 201 40 41).
Proof. apply unblind_block_roundtrip. reflexivity. Defined.
End examples.
