(* ===== verification/Relay.v ===== *)
(** [mev-relay-rs/src/relay.rs]: the relay's state and its handlers.

    [Inner] holds the fields of [Inner] that never change; [Shared] holds those
    behind a lock: the validator registry, the proposer scheduler and [State].  A
    handler is a [task] over [Shared] with one section for each time the source
    takes a lock, so that it can be run alone or interleaved with others.

    An [Arc<AuctionContext>] is a value with the identity of its allocation, and
    the state counts the clones that running handlers hold, which is what
    [Arc::into_inner] depends on.

    The beacon node's answers are the fields of [BeaconNode].  Logging is left out. *)

From stdpp Require Import gmultiset.
From S2P Require Import Prelude.
From S2P Require Import Consensus.
From S2P Require Import Types.
From S2P Require Import Signing.
From S2P Require Import ValidatorRegistry.
From S2P Require Import ProposerScheduler.
From S2P Require Import AuctionContext.
From S2P Require Import Tasks.
From S2P Require Import RelayBlocks.
From S2P Require Import Toy.

#[local] Open Scope N_scope.

Definition AUCTION_LIFETIME_SLOTS : N := 1.
Definition HISTORY_LOOK_BEHIND_EPOCHS : N := 4.

Section relay.
Context `{CF : ConsensusFunctions} `{BS : !BuilderSignable}.

(** ** State *)

Record Inner : Type := {
  relay_secret_key : SecretKey;
  relay_public_key : BlsPublicKey;
  builder_registry : gset BlsPublicKey;
  relay_context : ChainContext;
  genesis_validators_root : Root;
}.

Record BeaconNode : Type := {
  get_validators : N → result ApiError (list ValidatorSummary);
  get_proposer_duties : DutiesApi;
  post_signed_beacon_block_v2 :
    SignedBeaconBlock → option (list KzgProof) → option (list Blob) → Fork →
    result ApiError unit;
}.

Record Arc : Type := {
  arc_id : N;
  arc_val : AuctionContext;
}.

Record State : Type := {
  outstanding_validator_updates : gset BlsPublicKey;
  open_auctions : gset AuctionRequest;
  auctions : gmap AuctionRequest Arc;
  other_submissions : gmap AuctionRequest (list AuctionContext);
  delivered_payloads : gmap AuctionRequest Arc;
  (** the allocator: the next allocation, and the clones alive in handlers *)
  next_arc : N;
  clones : gmultiset N;
}.

Record Shared : Type := {
  registry : ValidatorRegistry.State;
  scheduler : ProposerScheduler.State;
  state : State;
}.

Definition default_state : State := {|
  outstanding_validator_updates := ∅;
  open_auctions := ∅;
  auctions := ∅;
  other_submissions := ∅;
  delivered_payloads := ∅;
  next_arc := 0;
  clones := ∅;
|}.

Definition new (secret_key : SecretKey) (accepted_builders : list BlsPublicKey)
    (context : ChainContext) (genesis_root : Root) : Inner * Shared :=
  let public_key := secret_key_public_key secret_key in
  let validator_registry := ValidatorRegistry.new in
  let proposer_scheduler := ProposerScheduler.new in
  ({| relay_secret_key := secret_key;
      relay_public_key := public_key;
      builder_registry := list_to_set accepted_builders;
      relay_context := context;
      genesis_validators_root := genesis_root |},
   {| registry := validator_registry;
      scheduler := proposer_scheduler;
      state := default_state |}).

(** ** Setters *)

Definition set_registry (r : ValidatorRegistry.State) (s : Shared) : Shared :=
  {| registry := r; scheduler := scheduler s; state := state s |}.
Definition set_scheduler (p : ProposerScheduler.State) (s : Shared) : Shared :=
  {| registry := registry s; scheduler := p; state := state s |}.
Definition update_state (f : State → State) (s : Shared) : Shared :=
  {| registry := registry s; scheduler := scheduler s; state := f (state s) |}.

#[export] Instance relay_scheduler : HoldsScheduler Shared := {
  held_scheduler := scheduler;
  held_registry := registry;
  set_held_scheduler := set_scheduler;
  held_scheduler_set st s := eq_refl;
}.

Definition set_outstanding (keys : gset BlsPublicKey) (st : State) : State :=
  {| outstanding_validator_updates := keys; open_auctions := open_auctions st;
     auctions := auctions st; other_submissions := other_submissions st;
     delivered_payloads := delivered_payloads st; next_arc := next_arc st;
     clones := clones st |}.
Definition set_open_auctions (open : gset AuctionRequest) (st : State) : State :=
  {| outstanding_validator_updates := outstanding_validator_updates st; open_auctions := open;
     auctions := auctions st; other_submissions := other_submissions st;
     delivered_payloads := delivered_payloads st; next_arc := next_arc st;
     clones := clones st |}.
Definition set_clones (ids : gmultiset N) (st : State) : State :=
  {| outstanding_validator_updates := outstanding_validator_updates st;
     open_auctions := open_auctions st;
     auctions := auctions st; other_submissions := other_submissions st;
     delivered_payloads := delivered_payloads st; next_arc := next_arc st;
     clones := ids |}.

(** ** [Arc] *)

(** [Arc::clone] into, and the drop of the clone by, a running handler. *)
Definition clone_arc (arc : Arc) (st : State) : State :=
  set_clones (clones st ⊎ {[+ arc_id arc +]}) st.
Definition drop_arc (arc : Arc) (st : State) : State :=
  set_clones (clones st ∖ {[+ arc_id arc +]}) st.

Definition map_references (id : N) (m : gmap AuctionRequest Arc) : bool :=
  existsb (λ entry, arc_id entry.2 =? id) (map_to_list m).

(** [Arc::into_inner] of an [Arc] that was just taken out of [auctions]: the value,
    if no other reference to it is left. *)
Definition into_inner (st : State) (arc : Arc) : option AuctionContext :=
  if decide (arc_id arc ∈ clones st) then None
  else if map_references (arc_id arc) (auctions st) then None
  else if map_references (arc_id arc) (delivered_payloads st) then None
  else Some (arc_val arc).

(** ** The clock *)

(** What it reads of the schedules in the end only goes to the log. *)
Definition refresh_proposer_schedule (inner : Inner) (node : BeaconNode) (epoch : N)
    : task Shared () :=
  _ ← ProposerScheduler.on_epoch (slots_per_epoch (relay_context inner))
        (get_proposer_duties node) epoch;
  Done tt.

Definition prune (retain_slot : N) (st : State) : State :=
  {| outstanding_validator_updates := outstanding_validator_updates st;
     open_auctions := open_auctions st;
     auctions := retain_keys (λ auction_request, retain_slot ≤ slot auction_request)
                   (auctions st);
     other_submissions := retain_keys (λ auction_request, retain_slot ≤ slot auction_request)
                            (other_submissions st);
     delivered_payloads := retain_keys (λ auction_request, retain_slot ≤ slot auction_request)
                             (delivered_payloads st);
     next_arc := next_arc st;
     clones := clones st |}.

Definition retain_slot_for (inner : Inner) (epoch : N) : N :=
  u64_mul (default 0 (checked_sub epoch HISTORY_LOOK_BEHIND_EPOCHS))
    (slots_per_epoch (relay_context inner)).

Definition on_epoch (inner : Inner) (node : BeaconNode) (epoch : N) : task Shared () :=
  _ ← modify (λ s,
        set_registry
          (ValidatorRegistry.on_epoch (slots_per_epoch (relay_context inner))
             (get_validators node) epoch (registry s)).1 s);
  _ ← refresh_proposer_schedule inner node epoch;
  modify (update_state (prune (retain_slot_for inner epoch))).

Definition drop_old_auctions (slot : N) (st : State) : State :=
  set_open_auctions
    (retain_set (λ auction_request,
       slot ≤ u64_add (Types.slot auction_request) AUCTION_LIFETIME_SLOTS)
       (open_auctions st)) st.

Definition on_slot (inner : Inner) (node : BeaconNode) (slot : N) : task Shared () :=
  keys_to_refresh ← critical (λ s,
    (update_state (set_outstanding ∅) s, outstanding_validator_updates (state s)));
  _ ← (if decide (keys_to_refresh ≠ ∅)
       then
         let epoch := slot / slots_per_epoch (relay_context inner) in
         refresh_proposer_schedule inner node epoch
       else Done tt);
  modify (update_state (drop_old_auctions slot)).

Definition on_payload_attributes (event : PayloadAttributesEvent)
    : task Shared (result Error ()) :=
  proposer_public_key ←? read (λ s,
    ok_or (get_public_key (registry s) (event_proposer_index event))
      (Error_Relay (UnknownValidatorIndex (event_proposer_index event))));
  let auction_request := {|
    slot := event_proposal_slot event;
    parent_hash := event_parent_block_hash event;
    public_key := proposer_public_key;
  |} in
  _ ← modify (update_state (λ st,
        set_open_auctions ({[auction_request]} ∪ open_auctions st) st));
  Done (Ok tt).

(** ** Auctions *)

Definition get_auction_context (auction_request : AuctionRequest) : task Shared (option Arc) :=
  critical (λ s,
    match auctions (state s) !! auction_request with
    | Some arc => (update_state (clone_arc arc) s, Some arc)
    | None => (s, None)
    end).

Definition drop_context (arc : Arc) : task Shared () := modify (update_state (drop_arc arc)).

Definition validate_allowed_builder (inner : Inner) (builder_public_key : BlsPublicKey)
    : result Error unit :=
  if decide (builder_public_key ∈ builder_registry inner) then Ok tt
  else Err (Error_Relay (BuilderNotRegistered builder_public_key)).

Definition validate_auction_request (auction_request : AuctionRequest)
    : task Shared (result RelayError unit) :=
  read (λ s,
    if decide (auction_request ∈ open_auctions (state s)) then Ok tt
    else Err (InvalidAuctionRequest auction_request)).

Definition validate_builder_submission_trusted (registry : ValidatorRegistry.State)
    (bid_trace : BidTrace) (execution_payload : ExecutionPayload) : result RelayError unit :=
  let proposer_public_key := trace_proposer_public_key bid_trace in
  signed_registration ← ok_or (get_signed_registration registry proposer_public_key)
    (ValidatorNotRegistered proposer_public_key);
  let fee_recipient := registration_fee_recipient (registration_message signed_registration) in
  if decide (trace_proposer_fee_recipient bid_trace ≠ fee_recipient)
  then Err (InvalidFeeRecipient proposer_public_key fee_recipient)
  else if decide (trace_gas_limit bid_trace ≠ payload_gas_limit execution_payload)
  then Err (InvalidGasLimit (trace_gas_limit bid_trace) (payload_gas_limit execution_payload))
  else if decide (trace_gas_used bid_trace ≠ payload_gas_used execution_payload)
  then Err (InvalidGasUsed (trace_gas_used bid_trace) (payload_gas_used execution_payload))
  else if decide (trace_parent_hash bid_trace ≠ payload_parent_hash execution_payload)
  then Err (InvalidParentHash (trace_parent_hash bid_trace)
              (payload_parent_hash execution_payload))
  else if decide (trace_block_hash bid_trace ≠ payload_block_hash execution_payload)
  then Err (InvalidBlockHash (trace_block_hash bid_trace) (payload_block_hash execution_payload))
  else Ok tt.

(** The section that ends [insert_bid_if_greater]. *)
Definition insert_bid (auction_request : AuctionRequest) (auction_context : AuctionContext)
    (st : State) : State :=
  let arc := {| arc_id := next_arc st; arc_val := auction_context |} in
  let old_context := auctions st !! auction_request in
  let st := {|
    outstanding_validator_updates := outstanding_validator_updates st;
    open_auctions := open_auctions st;
    auctions := <[auction_request := arc]> (auctions st);
    other_submissions := other_submissions st;
    delivered_payloads := delivered_payloads st;
    next_arc := next_arc st + 1;
    clones := clones st;
  |} in
  match old_context ≫= into_inner st with
  | Some context =>
      let entry := default [] (other_submissions st !! auction_request) in
      {| outstanding_validator_updates := outstanding_validator_updates st;
         open_auctions := open_auctions st;
         auctions := auctions st;
         other_submissions :=
           <[auction_request := hs_insert context entry]> (other_submissions st);
         delivered_payloads := delivered_payloads st;
         next_arc := next_arc st;
         clones := clones st |}
  | None => st
  end.

Definition insert_bid_if_greater (inner : Inner) (auction_request : AuctionRequest)
    (signed_submission : SignedBidSubmission) (value receive_duration : N)
    : task Shared (result Error ()) :=
  existing ← get_auction_context auction_request;
  ignore ← match existing with
           | Some bid =>
               _ ← drop_context bid;
               Done (bool_decide (value < AuctionContext.value (arc_val bid)))
           | None => Done false
           end;
  if (ignore : bool) then Done (Ok tt)
  else
    auction_context ←? Done (AuctionContext.new signed_submission receive_duration
      (relay_public_key inner) (relay_secret_key inner) (relay_context inner));
    _ ← modify (update_state (insert_bid auction_request auction_context));
    Done (Ok tt).

(** The section of [store_delivered_payload]; [false] when the attempt is skipped.
    When the context is stored the handler's clone becomes the map's. *)
Definition deliver (auction_request : AuctionRequest) (auction_context : Arc) (st : State)
    : State * bool :=
  let stored := {|
    outstanding_validator_updates := outstanding_validator_updates st;
    open_auctions := open_auctions st;
    auctions := auctions st;
    other_submissions := other_submissions st;
    delivered_payloads := <[auction_request := auction_context]> (delivered_payloads st);
    next_arc := next_arc st;
    clones := clones st ∖ {[+ arc_id auction_context +]};
  |} in
  match delivered_payloads st !! auction_request with
  | Some existing =>
      if decide (arc_val existing ≠ arc_val auction_context) then (st, false) else (stored, true)
  | None => (stored, true)
  end.

Definition store_delivered_payload (auction_request : AuctionRequest) (auction_context : Arc)
    : task Shared () :=
  moved ← critical (λ s,
    let '(st, moved) := deliver auction_request auction_context (state s) in
    (update_state (λ _, st) s, moved));
  if (moved : bool) then Done tt else drop_context auction_context.

(** ** [BlindedBlockProvider] *)

(** The checks of [process_registrations] run in parallel, each under a read lock of
    its own; they are the first sections here, in any [order].

    [try_into().expect(..)] of the 128-bit clock reading: [None] is the panic. *)
Definition u64_try_from (n : N) : option N := if decide (n < u64_mod) then Some n else None.

Definition register_validators (inner : Inner) (order : VisitOrder) (unix_time_in_nanos : N)
    (registrations : list SignedValidatorRegistration)
    : task Shared (option (result Error ())) :=
  match u64_try_from unix_time_in_nanos with
  | None => Done None
  | Some current_time =>
      results ← read_par order (λ registration s,
        process_registration (registry s) registration current_time (relay_context inner))
        registrations;
      let updates := omap ok_part results in
      let errs := omap err_part results in
      updated_keys ← critical (λ s,
        let '(registry', updated_keys) := apply_registrations updates (registry s) in
        (set_registry registry' s, updated_keys));
      _ ← modify (update_state (λ st,
            set_outstanding (outstanding_validator_updates st ∪ updated_keys) st));
      Done (Some (if decide (errs = []) then Ok tt else Err (RegistrationErrors errs)))
  end.

Definition fetch_best_bid (auction_request : AuctionRequest)
    : task Shared (result Error SignedBuilderBid) :=
  _ ←? map_err Error_Relay <$> validate_auction_request auction_request;
  auction_context ←? (λ o, ok_or o (NoBidPrepared auction_request)) <$>
    get_auction_context auction_request;
  let signed_builder_bid := signed_builder_bid (arc_val auction_context) in
  _ ← drop_context auction_context;
  Done (Ok signed_builder_bid).

Definition beacon_block_version (b : SignedBeaconBlock) : Fork :=
  match b with
  | SignedBeaconBlock_Bellatrix _ => Fork_Bellatrix
  | SignedBeaconBlock_Capella _ => Fork_Capella
  | SignedBeaconBlock_Deneb _ => Fork_Deneb
  end.

Definition submit_block (node : BeaconNode) (auction_context : AuctionContext)
    (signed_block : SignedBeaconBlock) : result ApiError unit :=
  let version := beacon_block_version signed_block in
  let kzg_proofs := proofs <$> blobs_bundle auction_context in
  let blobs := blobs <$> blobs_bundle auction_context in
  post_signed_beacon_block_v2 node signed_block kzg_proofs blobs version.

(** Leave [open_bid] with an error, dropping the auction context. *)
Definition reject (auction_context : Arc) (e : Error) : task Shared (result Error AuctionContents) :=
  _ ← drop_context auction_context;
  Done (Err e).

Definition open_bid (inner : Inner) (node : BeaconNode) (signed_block : SignedBlindedBeaconBlock)
    : task Shared (result Error AuctionContents) :=
  let block := blinded_message signed_block in
  let payload_header := blinded_payload_header block in
  let proposer_index := blinded_proposer_index block in
  public_key ←? read (λ s, ok_or (get_public_key (registry s) proposer_index)
    (Error_Relay (UnknownValidatorIndex proposer_index)));
  let auction_request := {|
    slot := blinded_slot block;
    parent_hash := header_parent_hash payload_header;
    public_key := public_key;
  |} in
  _ ←? map_err Error_Relay <$> validate_auction_request auction_request;
  auction_context ←? (λ o, ok_or o (Error_Relay (MissingAuction auction_request))) <$>
    get_auction_context auction_request;
  let local_header :=
    bid_header (signed_bid_message (signed_builder_bid (arc_val auction_context))) in
  match validate_header_equality local_header payload_header with
  | Err _ => reject auction_context (Error_Relay InvalidSignedBlindedBeaconBlock)
  | Ok _ =>
  match verify_blinded_block_signature auction_request signed_block
          (genesis_validators_root inner) (relay_context inner) with
  | Err _ => reject auction_context (Error_Relay InvalidSignedBlindedBeaconBlock)
  | Ok _ =>
  match unblind_block signed_block (execution_payload (arc_val auction_context)) with
  | Err _ => reject auction_context (Error_Relay InvalidSignedBlindedBeaconBlock)
  | Ok signed_block =>
  match beacon_block_root signed_block with
  | Err e => reject auction_context (Error_Consensus e)
  | Ok _ =>
  match submit_block node (arc_val auction_context) signed_block with
  | Err _ => reject auction_context (Error_Relay InvalidSignedBlindedBeaconBlock)
  | Ok _ =>
      let auction_contents := to_auction_contents (arc_val auction_context) in
      _ ← store_delivered_payload auction_request auction_context;
      Done (Ok auction_contents)
  end end end end end.

(** ** [BlindedBlockRelayer] *)

Definition get_proposal_schedule : task Shared (result Error (list ProposerSchedule)) :=
  read (λ s, map_err Error_ProposerScheduler
               (ProposerScheduler.get_proposal_schedule (scheduler s))).

Definition auction_request_of (bid_trace : BidTrace) : AuctionRequest := {|
  slot := trace_slot bid_trace;
  parent_hash := trace_parent_hash bid_trace;
  public_key := trace_proposer_public_key bid_trace;
|}.

Definition submit_bid (inner : Inner) (receive_duration : N)
    (signed_submission : SignedBidSubmission) : task Shared (result Error ()) :=
  let bid_trace := submission_message signed_submission in
  let builder_public_key := trace_builder_public_key bid_trace in
  _ ←? Done (validate_allowed_builder inner builder_public_key);
  let auction_request := auction_request_of bid_trace in
  _ ←? map_err Error_Relay <$> validate_auction_request auction_request;
  _ ←? read (λ s, map_err Error_Relay
         (validate_builder_submission_trusted (registry s) bid_trace
            (submission_payload signed_submission)));
  let value := trace_value bid_trace in
  _ ←? Done (map_err Error_Consensus
         (verify_signed_builder_data bid_trace builder_public_key
            (submission_signature signed_submission) (relay_context inner)));
  insert_bid_if_greater inner auction_request signed_submission value receive_duration.

Definition fetch_validator_registration (public_key : BlsPublicKey)
    : task Shared (result Error SignedValidatorRegistration) :=
  read (λ s, map_err Error_Relay
    (ok_or (get_signed_registration (registry s) public_key)
       (ValidatorNotRegistered public_key))).

Definition registered_validators_count : task Shared nat :=
  read (λ s, registration_count (registry s)).
End relay.
