(* ===== verification/RelaySpec.v ===== *)
(** What each handler of the relay does when it runs alone: the result and the new
    state on every branch, the value the best bid reaches, and what the clock
    retains. *)

From stdpp Require Import gmultiset.
From S2P Require Import Prelude.
From S2P Require Import Consensus.
From S2P Require Import Types.
From S2P Require Import Signing.
From S2P Require Import ValidatorRegistry.
From S2P Require Import ProposerScheduler.
From S2P Require Import AuctionContext.
From S2P Require Import Tasks.
From S2P Require Import RelayBlocks.
From S2P Require Import Relay.
From S2P Require Import Toy.

#[local] Open Scope N_scope.

Section relay_spec.
Context `{CF : ConsensusFunctions} `{BS : !BuilderSignable}.
Implicit Types (s : Shared) (st : Relay.State) (k : AuctionRequest) (a : Arc).
Implicit Types (c : AuctionContext) (sub : SignedBidSubmission).

Lemma update_state_id s : update_state (λ st, st) s = s.
Proof. by destruct s. Qed.

Lemma disj_union_difference_r (X : gmultiset N) x : (X ⊎ {[+ x +]}) ∖ {[+ x +]} = X.
Proof. multiset_solver. Qed.

Lemma drop_clone a st : drop_arc a (clone_arc a st) = st.
Proof.
  destruct st. unfold drop_arc, clone_arc, set_clones. simpl. f_equal. multiset_solver.
Qed.

Lemma drop_clone_shared a s : update_state (drop_arc a) (update_state (clone_arc a) s) = s.
Proof. destruct s. unfold update_state. simpl. by rewrite drop_clone. Qed.

(** ** Trusted validation *)

(** The trace describes the payload and pays the proposer at its registered
    address. *)
Definition trace_describes (r : ValidatorRegistry.State) (t : BidTrace) (p : ExecutionPayload)
    : Prop :=
  (∃ reg, get_signed_registration r (trace_proposer_public_key t) = Some reg ∧
     trace_proposer_fee_recipient t = registration_fee_recipient (registration_message reg)) ∧
  trace_gas_limit t = payload_gas_limit p ∧ trace_gas_used t = payload_gas_used p ∧
  trace_parent_hash t = payload_parent_hash p ∧ trace_block_hash t = payload_block_hash p.

Lemma validate_trusted_Ok r t p :
  validate_builder_submission_trusted r t p = Ok tt ↔ trace_describes r t p.
Proof.
  unfold validate_builder_submission_trusted, trace_describes.
  destruct (get_signed_registration _ _) as [reg|]; simpl; [|naive_solver].
  repeat case_decide; naive_solver.
Qed.

(** ** Fetching the best bid *)

(** A proposer is offered the bid of the auction's current best
    submission; a request for an auction that is not open, or without a
    submission, is an error; and the request changes nothing. *)
Theorem fetch_best_bid_spec k s :
  run (fetch_best_bid k) s =
    (s, if decide (k ∈ open_auctions (state s))
        then match auctions (state s) !! k with
             | Some a => Ok (signed_builder_bid (arc_val a))
             | None => Err (NoBidPrepared k)
             end
        else Err (Error_Relay (InvalidAuctionRequest k))).
Proof.
  simpl. case_decide; simpl; [|done].
  destruct (auctions (state s) !! k) as [a|]; simpl; [|done].
  by rewrite drop_clone_shared.
Qed.

(** ** Replacing the best bid *)

Lemma map_references_true id (m : gmap AuctionRequest Arc) :
  map_references id m = true ↔ ∃ k a, m !! k = Some a ∧ arc_id a = id.
Proof.
  unfold map_references. rewrite existsb_exists. split.
  - intros ([k a] & Hin%list_elem_of_In%elem_of_map_to_list & Heq%N.eqb_eq). eauto.
  - intros (k & a & Hk & <-). exists (k, a). rewrite N.eqb_refl. split; [|done].
    by apply list_elem_of_In, elem_of_map_to_list.
Qed.

(** No running handler and no map but the auction's own entry refers to [a]. *)
Definition unreferenced s k (a : Arc) : Prop :=
  arc_id a ∉ clones (state s) ∧ arc_id a ≠ next_arc (state s) ∧
  (∀ k' a', k' ≠ k → auctions (state s) !! k' = Some a' → arc_id a' ≠ arc_id a) ∧
  (∀ k' a', delivered_payloads (state s) !! k' = Some a' → arc_id a' ≠ arc_id a).

Lemma map_references_false id (m : gmap AuctionRequest Arc) :
  map_references id m = false ↔ ∀ k a, m !! k = Some a → arc_id a ≠ id.
Proof.
  pose proof (map_references_true id m) as Href.
  destruct (map_references id m); split; intros H; try done.
  - destruct (proj1 Href eq_refl) as (k & a & Hk & Hid). by destruct (H k a Hk).
  - intros k a Hk Hid. assert (false = true) by (apply Href; eauto). done.
Qed.

(** [into_inner] on the context that [insert_bid] has just replaced. *)
Lemma into_inner_replaced s k a c st :
  auctions (state s) !! k = Some a →
  clones st = clones (state s) →
  delivered_payloads st = delivered_payloads (state s) →
  auctions st = <[k := {| arc_id := next_arc (state s); arc_val := c |}]> (auctions (state s)) →
  ∀ c', into_inner st a = Some c' ↔ arc_val a = c' ∧ unreferenced s k a.
Proof.
  intros Hk Hclones Hdel Hauc c'. unfold into_inner, unreferenced. rewrite Hclones, Hdel, Hauc.
  case_decide as Hcl; [naive_solver|].
  destruct (map_references (arc_id a) (<[k:=_]> _)) eqn:Hm1.
  { split; [done|]. intros (_ & _ & Hnext & Hother & _).
    apply map_references_true in Hm1 as (k' & a' & Hk' & Hid).
    destruct (decide (k = k')) as [<-|Hne].
    - rewrite lookup_insert_eq in Hk'. by simplify_eq/=.
    - rewrite lookup_insert_ne in Hk' by done. by destruct (Hother k' a'). }
  destruct (map_references (arc_id a) (delivered_payloads (state s))) eqn:Hm2.
  { split; [done|]. intros (_ & _ & _ & _ & Hdelivered).
    apply map_references_true in Hm2 as (k' & a' & Hk' & Hid). by destruct (Hdelivered k' a'). }
  rewrite map_references_false in Hm1. rewrite map_references_false in Hm2.
  split; [|naive_solver]. intros [= <-]. split_and!; [done|done| | |done].
  - intros Hid. apply (Hm1 k {| arc_id := next_arc (state s); arc_val := c |});
      [apply lookup_insert_eq|done].
  - intros k' a' Hne Hk'. apply (Hm1 k'). by rewrite lookup_insert_ne.
Qed.

(** [c] has become the best of the auction [k].  The submission that it replaces is kept
    when nothing else refers to it; every other auction, and the rest of the state, is as
    it was. *)
Record replaced s k c s' : Prop := {
  replaced_best :
    auctions (state s') = <[k := {| arc_id := next_arc (state s); arc_val := c |}]> (auctions (state s));
  replaced_kept a :
    auctions (state s) !! k = Some a → unreferenced s k a →
    other_submissions (state s') =
      <[k := hs_insert (arc_val a) (default [] (other_submissions (state s) !! k))]>
        (other_submissions (state s));
  replaced_dropped :
    (∀ a, auctions (state s) !! k = Some a → ¬ unreferenced s k a) →
    other_submissions (state s') = other_submissions (state s);
  replaced_open : open_auctions (state s') = open_auctions (state s);
  replaced_delivered : delivered_payloads (state s') = delivered_payloads (state s);
  replaced_updates :
    outstanding_validator_updates (state s') = outstanding_validator_updates (state s);
  replaced_clones : clones (state s') = clones (state s);
  replaced_arc : next_arc (state s') = next_arc (state s) + 1;
  replaced_registry : registry s' = registry s;
  replaced_scheduler : scheduler s' = scheduler s;
}.

Lemma insert_bid_replaced s k c : replaced s k c (update_state (insert_bid k c) s).
Proof.
  unfold update_state. destruct (auctions (state s) !! k) as [a|] eqn:Hk; unfold insert_bid;
    rewrite Hk; cbn [mbind option_bind].
  2: { split; cbn; try done. by rewrite Hk. }
  set (st := Build_State _ _ _ _ _ _ _).
  pose proof (into_inner_replaced s k a c st Hk eq_refl eq_refl eq_refl) as Hinto.
  destruct (into_inner st a) as [old|]; split; cbn; try done.
  - intros a' Ha'. rewrite Hk in Ha'. injection Ha' as <-. destruct (proj1 (Hinto old) eq_refl) as [<- _]. done.
  - intros Hnot. destruct (proj1 (Hinto old) eq_refl) as [_ Hun]. by destruct (Hnot a).
  - intros a' Ha' Hun. rewrite Hk in Ha'. injection Ha' as <-.
    pose proof (proj2 (Hinto (arc_val a)) (conj eq_refl Hun)) as Hn. discriminate Hn.
Qed.

Lemma unreferenced_or_not s k a :
  auctions (state s) !! k = Some a → unreferenced s k a ∨ ¬ unreferenced s k a.
Proof.
  intros Hk. pose proof (into_inner_replaced s k a (arc_val a) {|
    outstanding_validator_updates := ∅; open_auctions := ∅;
    auctions := <[k := {| arc_id := next_arc (state s); arc_val := arc_val a |}]> (auctions (state s));
    other_submissions := ∅; delivered_payloads := delivered_payloads (state s); next_arc := 0;
    clones := clones (state s) |} Hk eq_refl eq_refl eq_refl) as Hinto.
  destruct (into_inner _ a) as [c|]; [left; by apply (Hinto c)|right].
  intros Hun. pose proof (proj2 (Hinto (arc_val a)) (conj eq_refl Hun)) as Hn. discriminate Hn.
Qed.

Lemma replaced_unique s k c s1 s2 : replaced s k c s1 → replaced s k c s2 → s1 = s2.
Proof.
  intros [H1 K1 D1 O1 V1 U1 C1 A1 R1 S1] [H2 K2 D2 O2 V2 U2 C2 A2 R2 S2].
  assert (Hothers : other_submissions (state s1) = other_submissions (state s2)).
  { destruct (auctions (state s) !! k) as [a|] eqn:Hk.
    2: { rewrite D1, D2; [done|naive_solver..]. }
    destruct (unreferenced_or_not s k a Hk) as [Hun|Hun].
    - by rewrite (K1 a eq_refl Hun), (K2 a eq_refl Hun).
    - rewrite D1, D2; [done|naive_solver..]. }
  destruct s1 as [r1 p1 []], s2 as [r2 p2 []]. simpl in *. congruence.
Qed.

(** ** Submitting a bid *)

Definition best_value s k : option N := AuctionContext.value ∘ arc_val <$> auctions (state s) !! k.

Lemma insert_bid_if_greater_run inner k sub v d s :
  run (insert_bid_if_greater inner k sub v d) s =
    match best_value s k with
    | Some best =>
        if decide (v < best) then (s, Ok tt)
        else match AuctionContext.new sub d (relay_public_key inner) (relay_secret_key inner)
                     (relay_context inner) with
             | Ok c => (update_state (insert_bid k c) s, Ok tt)
             | Err e => (s, Err e)
             end
    | None =>
        match AuctionContext.new sub d (relay_public_key inner) (relay_secret_key inner)
                (relay_context inner) with
        | Ok c => (update_state (insert_bid k c) s, Ok tt)
        | Err e => (s, Err e)
        end
    end.
Proof.
  unfold best_value, insert_bid_if_greater. simpl.
  destruct (auctions (state s) !! k) as [a|]; simpl.
  - rewrite drop_clone_shared. unfold bool_decide.
    destruct (decide_rel _ _ _) as [Hlt|Hge]; destruct (decide _); try done.
    by destruct (AuctionContext.new _ _ _ _ _).
  - by destruct (AuctionContext.new _ _ _ _ _).
Qed.

Definition request_of sub : AuctionRequest := auction_request_of (submission_message sub).
Definition builder_of sub : BlsPublicKey := trace_builder_public_key (submission_message sub).

Definition signed_by_builder (ctx : ChainContext) sub : result ConsensusError unit :=
  verify_signed_builder_data (submission_message sub) (builder_of sub)
    (submission_signature sub) ctx.

Definition context_for (inner : Inner) (d : N) sub : result Error AuctionContext :=
  AuctionContext.new sub d (relay_public_key inner) (relay_secret_key inner)
    (relay_context inner).

(** The checks that precede the comparison with the best bid. *)
Record submission_valid (inner : Inner) s sub : Prop := {
  valid_builder : builder_of sub ∈ builder_registry inner;
  valid_open : request_of sub ∈ open_auctions (state s);
  valid_trace : trace_describes (registry s) (submission_message sub) (submission_payload sub);
  valid_signature : signed_by_builder (relay_context inner) sub = Ok tt;
}.

(** No submission of the auction is worth more than [sub]. *)
Definition not_outbid s sub : Prop :=
  ∀ best, best_value s (request_of sub) = Some best → best ≤ trace_value (submission_message sub).

(** The ways [submit_bid] can end, with the state it leaves. *)
Inductive submit_outcome (inner : Inner) (d : N) sub s : Shared → result Error () → Prop :=
| submit_not_allowed :
    builder_of sub ∉ builder_registry inner →
    submit_outcome inner d sub s s (Err (Error_Relay (BuilderNotRegistered (builder_of sub))))
| submit_not_open :
    builder_of sub ∈ builder_registry inner →
    request_of sub ∉ open_auctions (state s) →
    submit_outcome inner d sub s s (Err (Error_Relay (InvalidAuctionRequest (request_of sub))))
| submit_invalid e :
    builder_of sub ∈ builder_registry inner →
    request_of sub ∈ open_auctions (state s) →
    validate_builder_submission_trusted (registry s) (submission_message sub)
      (submission_payload sub) = Err e →
    submit_outcome inner d sub s s (Err (Error_Relay e))
| submit_bad_signature e :
    builder_of sub ∈ builder_registry inner →
    request_of sub ∈ open_auctions (state s) →
    trace_describes (registry s) (submission_message sub) (submission_payload sub) →
    signed_by_builder (relay_context inner) sub = Err e →
    submit_outcome inner d sub s s (Err (Error_Consensus e))
| submit_outbid best :
    submission_valid inner s sub →
    best_value s (request_of sub) = Some best → trace_value (submission_message sub) < best →
    submit_outcome inner d sub s s (Ok tt)
| submit_unbuildable e :
    submission_valid inner s sub → not_outbid s sub → context_for inner d sub = Err e →
    submit_outcome inner d sub s s (Err e)
| submit_inserted c s' :
    submission_valid inner s sub → not_outbid s sub → context_for inner d sub = Ok c →
    replaced s (request_of sub) c s' → submit_outcome inner d sub s s' (Ok tt).

Lemma submit_bid_has_outcome inner d sub s :
  submit_outcome inner d sub s (run (submit_bid inner d sub) s).1
    (run (submit_bid inner d sub) s).2.
Proof.
  unfold submit_bid.
  remember (insert_bid_if_greater _ _ _ _ _) as insert eqn:Hinsert. simpl.
  unfold validate_allowed_builder. case_decide as Hb; simpl; [|by apply submit_not_allowed].
  case_decide as Ho; simpl; [|by apply submit_not_open].
  destruct (validate_builder_submission_trusted _ _ _) as [[]|e] eqn:Ht; simpl;
    [|by apply submit_invalid].
  apply validate_trusted_Ok in Ht. fold (builder_of sub).
  fold (signed_by_builder (relay_context inner) sub).
  destruct (signed_by_builder _ _) as [[]|e] eqn:Hsig; simpl; [|by apply submit_bad_signature].
  change (task_try (Done (Ok ())) (λ _, insert)) with insert.
  rewrite Hinsert, insert_bid_if_greater_run.
  fold (context_for inner d sub) (request_of sub).
  assert (submission_valid inner s sub) by (by split).
  destruct (best_value s (request_of sub)) as [best|] eqn:Hbest.
  - case_decide as Hlt; [by eapply submit_outbid|].
    assert (not_outbid s sub) by (intros b; rewrite Hbest; intros [= <-]; lia).
    destruct (context_for inner d sub) eqn:Hc; simpl;
      [by eapply submit_inserted, insert_bid_replaced|by apply submit_unbuildable].
  - assert (not_outbid s sub) by (intros b; by rewrite Hbest).
    destruct (context_for inner d sub) eqn:Hc; simpl;
      [by eapply submit_inserted, insert_bid_replaced|by apply submit_unbuildable].
Qed.

Lemma submit_outcome_functional inner d sub s s1 r1 s2 r2 :
  submit_outcome inner d sub s s1 r1 → submit_outcome inner d sub s s2 r2 →
  s1 = s2 ∧ r1 = r2.
Proof.
  intros H1 H2.
  pose proof (proj2 (validate_trusted_Ok (registry s) (submission_message sub)
    (submission_payload sub))) as Hval.
  destruct H1, H2; unfold not_outbid in *;
    repeat match goal with
    | H : submission_valid _ _ _ |- _ => destruct H
    | H : trace_describes _ _ _ |- _ => apply Hval in H
    | H : ∀ best, _ = Some best → _, H' : _ = Some _ |- _ => specialize (H _ H')
    | H : replaced ?s ?k ?c ?s1, H' : replaced ?s ?k ?c ?s2 |- _ =>
        pose proof (replaced_unique _ _ _ _ _ H H'); clear H
    | H : ?x = Ok ?c, H' : ?x = Ok ?c' |- _ => assert (c' = c) as -> by congruence; clear H'
    end; first [done | split; congruence | exfalso; congruence | lia].
Qed.

(** C13: [submit_bid] ends in exactly the outcome its inputs select.  Only a valid
    submission that no better one has outbid changes the state: a context made of it
    becomes the best of its auction, the one it replaces is kept among the other
    submissions when nothing else refers to it, and nothing else changes. *)
Theorem submit_bid_spec inner d sub s s' r :
  run (submit_bid inner d sub) s = (s', r) ↔ submit_outcome inner d sub s s' r.
Proof.
  pose proof (submit_bid_has_outcome inner d sub s) as Ho. split.
  - intros Heq. by rewrite Heq in Ho.
  - intros Ho'. destruct (submit_outcome_functional _ _ _ _ _ _ _ _ Ho Ho') as [<- <-].
    by destruct (run _ _).
Qed.

(** ** Sequences of submissions *)

(** The state after submissions that arrive one after the other. *)
Definition submit_all (inner : Inner) (subs : list (N * SignedBidSubmission)) s : Shared :=
  foldl (λ s '(d, sub), (run (submit_bid inner d sub) s).1) s subs.

(** The submission counts in the auction [k]: it is valid and the relay can build a
    bid from it. *)
Definition counts_in (inner : Inner) s k (entry : N * SignedBidSubmission) : Prop :=
  request_of entry.2 = k ∧ submission_valid inner s entry.2 ∧
  is_ok (context_for inner entry.1 entry.2) = true.

(** The order on the values of an auction, [None] being no submission. *)
Definition opt_le (o o' : option N) : Prop := ∀ v, o = Some v → ∃ v', o' = Some v' ∧ v ≤ v'.

#[local] Instance opt_le_preorder : PreOrder opt_le.
Proof.
  split.
  - intros o v ->. by exists v.
  - intros o1 o2 o3 H12 H23 v Hv. destruct (H12 v Hv) as (v2 & Hv2 & ?).
    destruct (H23 v2 Hv2) as (v3 & ? & ?). exists v3. split; [done|lia].
Qed.

Lemma insert_bid_auctions k c st :
  auctions (insert_bid k c st) = <[k := {| arc_id := next_arc st; arc_val := c |}]> (auctions st).
Proof. unfold insert_bid. by destruct (_ ≫= _). Qed.

Lemma insert_bid_open k c st : open_auctions (insert_bid k c st) = open_auctions st.
Proof. unfold insert_bid. by destruct (_ ≫= _). Qed.

Lemma insert_bid_delivered k c st :
  delivered_payloads (insert_bid k c st) = delivered_payloads st.
Proof. unfold insert_bid. by destruct (_ ≫= _). Qed.

(** What insertion keeps for the data API is what it kept before, or the bid it
    replaces. *)
Lemma insert_bid_others k c st k' cs c' :
  other_submissions (insert_bid k c st) !! k' = Some cs → c' ∈ cs →
  (∃ cs', other_submissions st !! k' = Some cs' ∧ c' ∈ cs') ∨
  k' = k ∧ ∃ a, auctions st !! k = Some a ∧ arc_val a = c'.
Proof.
  unfold insert_bid. destruct (_ ≫= _) as [old|] eqn:Hold; simpl; [|by eauto].
  intros [[<- <-]|[_ Hcs]]%lookup_insert_Some; [|by eauto].
  intros [->|Hc']%elem_of_hs_insert.
  - right. split; [done|]. apply bind_Some in Hold as (a & Hk & Hinto). exists a. split; [done|].
    unfold into_inner in Hinto. repeat case_match; by simplify_eq.
  - left. destruct (other_submissions st !! k) as [cs|]; [by eauto|]. by apply elem_of_nil in Hc'.
Qed.

Lemma best_value_insert_bid k k' c s :
  best_value (update_state (insert_bid k c) s) k' =
    if decide (k = k') then Some (AuctionContext.value c) else best_value s k'.
Proof.
  unfold best_value. simpl. rewrite insert_bid_auctions.
  case_decide as Hk; [subst; by rewrite lookup_insert_eq|by rewrite lookup_insert_ne].
Qed.

(** What one submission does to an auction. *)
Lemma submit_bid_step inner d sub s k :
  let s' := (run (submit_bid inner d sub) s).1 in
  registry s' = registry s ∧ open_auctions (state s') = open_auctions (state s) ∧
  opt_le (best_value s k) (best_value s' k) ∧
  (counts_in inner s k (d, sub) →
     opt_le (Some (trace_value (submission_message sub))) (best_value s' k)) ∧
  (best_value s' k = best_value s k ∨
   counts_in inner s k (d, sub) ∧
     best_value s' k = Some (trace_value (submission_message sub))).
Proof.
  pose proof (submit_bid_has_outcome inner d sub s) as Ho. cbv zeta.
  destruct (run _ _) as [s' r]; cbn [fst snd] in *. unfold counts_in; cbn [fst snd].
  destruct Ho as [| | | |best Hval Hbest Hlt|e Hval Hnot Hc|c s' Hval Hnot Hc Hrep];
    try (split_and!; [done..| |by left];
         intros (_ & [? ? Ht%validate_trusted_Ok ?] & _); congruence).
  - split_and!; [done..| |by left].
    intros (<- & _) v [= <-]. exists best. split; [done|lia].
  - split_and!; [done..| |by left]. intros (_ & _ & Hok). by rewrite Hc in Hok.
  - rewrite (replaced_unique _ _ _ _ _ Hrep (insert_bid_replaced _ _ _)).
    pose proof (new_value _ _ _ _ _ _ Hc) as Hvalue. cbn [update_state registry state].
    rewrite insert_bid_open, best_value_insert_bid, Hvalue.
    split_and!; [done|done|..]; case_decide as Hk.
    + subst k. intros v Hv. eexists. split; [done|]. by apply Hnot.
    + done.
    + done.
    + by intros (? & _).
    + right. by rewrite Hc.
    + by left.
Qed.

Lemma counts_in_step inner d sub s k entry :
  counts_in inner (run (submit_bid inner d sub) s).1 k entry ↔ counts_in inner s k entry.
Proof.
  destruct (submit_bid_step inner d sub s k) as (Hreg & Hopen & _).
  unfold counts_in. split; intros (? & [] & ?); split_and!; try done; split; try done;
    congruence.
Qed.

(** C23: After any sequence of submissions an auction offers the highest
    value among the submissions that count and what was there before: it is never
    below any of them, and it is one of them. *)
Theorem submit_all_highest inner subs s k :
  let s' := submit_all inner subs s in
  opt_le (best_value s k) (best_value s' k) ∧
  (∀ entry, entry ∈ subs → counts_in inner s k entry →
     opt_le (Some (trace_value (submission_message entry.2))) (best_value s' k)) ∧
  (best_value s' k = best_value s k ∨
   ∃ entry, entry ∈ subs ∧ counts_in inner s k entry ∧
     best_value s' k = Some (trace_value (submission_message entry.2))).
Proof.
  revert s. induction subs as [|[d sub] subs IH]; intros s; simpl.
  { split_and!; [done|by intros ? ?%elem_of_nil|by left]. }
  destruct (submit_bid_step inner d sub s k) as (_ & _ & Hle & Hcount & Hor).
  destruct (IH (run (submit_bid inner d sub) s).1) as (Hle' & Hcount' & Hor').
  split_and!.
  - by etrans.
  - intros entry [->|Hin]%elem_of_cons Hc; [etrans; [by apply Hcount|done]|].
    apply Hcount'; [done|]. by apply counts_in_step.
  - destruct Hor' as [->|(entry & Hin & Hc & Hbest)].
    + destruct Hor as [->|[Hc Hv]]; [by left|]. right. exists (d, sub).
      split_and!; [by left|done|done].
    + right. exists entry. split_and!; [by right|by eapply counts_in_step|done].
Qed.

(** ** Opening a bid *)

(** The auction a signed block belongs to. *)
Definition block_request (r : ValidatorRegistry.State) (b : SignedBlindedBeaconBlock)
    : option AuctionRequest :=
  (λ key, {| slot := blinded_slot (blinded_message b);
             parent_hash := header_parent_hash (blinded_payload_header (blinded_message b));
             public_key := key |}) <$>
    get_public_key r (blinded_proposer_index (blinded_message b)).

(** The payload is recorded as delivered, unless a different one already is. *)
Definition record_delivery k a st : Relay.State :=
  let stored := {|
    outstanding_validator_updates := outstanding_validator_updates st;
    open_auctions := open_auctions st;
    auctions := auctions st;
    other_submissions := other_submissions st;
    delivered_payloads := <[k := a]> (delivered_payloads st);
    next_arc := next_arc st;
    clones := clones st;
  |} in
  match delivered_payloads st !! k with
  | Some existing => if decide (arc_val existing = arc_val a) then stored else st
  | None => stored
  end.

(** Everything [open_bid] requires before it releases the payload of [a]. *)
Record bid_opened (inner : Inner) (node : BeaconNode) (b : SignedBlindedBeaconBlock) s
    k a (full : SignedBeaconBlock) : Prop := {
  opened_request : block_request (registry s) b = Some k;
  opened_open : k ∈ open_auctions (state s);
  opened_auction : auctions (state s) !! k = Some a;
  opened_header :
    bid_header (signed_bid_message (signed_builder_bid (arc_val a)))
      = blinded_payload_header (blinded_message b);
  opened_signature :
    verify_blinded_block_signature k b (genesis_validators_root inner) (relay_context inner)
      = Ok tt;
  opened_block : unblind_block b (execution_payload (arc_val a)) = Ok full;
  opened_root : is_ok (beacon_block_root full) = true;
  opened_posted : submit_block node (arc_val a) full = Ok tt;
}.

(** The same requirements as a computation, with the error of the first that
    fails. *)
Definition open_checks (inner : Inner) (node : BeaconNode) (b : SignedBlindedBeaconBlock) s
    : result Error (AuctionRequest * Arc) :=
  let rejected {E A} : result E A → result Error A :=
    map_err (λ _, Error_Relay InvalidSignedBlindedBeaconBlock) in
  k ← ok_or (block_request (registry s) b)
        (Error_Relay (UnknownValidatorIndex (blinded_proposer_index (blinded_message b))));
  _ ← ensure (k ∈ open_auctions (state s)) (Error_Relay (InvalidAuctionRequest k));
  a ← ok_or (auctions (state s) !! k) (Error_Relay (MissingAuction k));
  _ ← rejected (validate_header_equality
        (bid_header (signed_bid_message (signed_builder_bid (arc_val a))))
        (blinded_payload_header (blinded_message b)));
  _ ← rejected (verify_blinded_block_signature k b (genesis_validators_root inner)
        (relay_context inner));
  full ← rejected (unblind_block b (execution_payload (arc_val a)));
  _ ← map_err Error_Consensus (beacon_block_root full);
  _ ← rejected (submit_block node (arc_val a) full);
  Ok (k, a).

Lemma store_delivered_run k a s :
  (run (store_delivered_payload k a) (update_state (clone_arc a) s)).1 =
    update_state (record_delivery k a) s.
Proof.
  destruct s as [reg sched st]. unfold record_delivery, update_state. simpl.
  unfold deliver. simpl. rewrite disj_union_difference_r.
  destruct (delivered_payloads st !! k) as [existing|]; simpl; [|done].
  destruct (decide (arc_val existing = arc_val a)) as [Heq|Hne].
  - by rewrite decide_False by (by intros []).
  - rewrite decide_True by done. simpl. unfold update_state. simpl. by rewrite drop_clone.
Qed.

Lemma open_bid_run inner node b s :
  run (open_bid inner node b) s =
    match open_checks inner node b s with
    | Ok (k, a) => (update_state (record_delivery k a) s, Ok (to_auction_contents (arc_val a)))
    | Err e => (s, Err e)
    end.
Proof.
  unfold open_bid, open_checks, block_request, reject, drop_context, ensure.
  remember store_delivered_payload as store eqn:Hstore. simpl.
  destruct (get_public_key _ _) as [key|]; simpl; [|done].
  destruct (decide (_ ∈ open_auctions _)); simpl; [|done].
  destruct (auctions (state s) !! _) as [a|]; simpl; [|done].
  destruct (validate_header_equality _ _) as [[]|]; simpl; [|by rewrite drop_clone_shared].
  destruct (verify_blinded_block_signature _ _ _ _) as [[]|]; simpl;
    [|by rewrite drop_clone_shared].
  destruct (unblind_block _ _) as [full|]; simpl; [|by rewrite drop_clone_shared].
  destruct (beacon_block_root full); simpl; [|by rewrite drop_clone_shared].
  destruct (submit_block _ _ _) as [[]|]; simpl; [|by rewrite drop_clone_shared].
  subst store. rewrite <-store_delivered_run, run_bind.
  by destruct (run (store_delivered_payload _ _) _).
Qed.

Lemma open_checks_Ok inner node b s k a :
  open_checks inner node b s = Ok (k, a) ↔ ∃ full, bid_opened inner node b s k a full.
Proof.
  unfold open_checks. split.
  - intros H. inv_result.
    match goal with H : validate_header_equality _ _ = _ |- _ =>
      apply validate_header_equality_Ok in H end.
    eexists. split; try done.
    by match goal with H : beacon_block_root _ = _ |- _ => rewrite H end.
  - intros (full & [Hk Ho Ha Hh Hsig Hb Hr Hp]).
    rewrite Hk. simpl. rewrite (proj2 (ensure_Ok _ _ tt)) by done. simpl. rewrite Ha. simpl.
    rewrite (proj2 (validate_header_equality_Ok _ _)) by done. simpl.
    rewrite Hsig. simpl. rewrite Hb. simpl.
    destruct (beacon_block_root full); [|done]. simpl. by rewrite Hp.
Qed.

(** C12: [open_bid] releases a payload exactly when the block is for an open
    auction, its header is the one of the auction's best bid, the auction's
    proposer has signed it, and the beacon node accepted the full block; it then
    releases the payload of that bid and records it as delivered. *)
Theorem open_bid_spec inner node b s s' contents :
  run (open_bid inner node b) s = (s', Ok contents) ↔
  ∃ k a full, bid_opened inner node b s k a full ∧
    contents = to_auction_contents (arc_val a) ∧ s' = update_state (record_delivery k a) s.
Proof.
  rewrite open_bid_run. split.
  - destruct (open_checks inner node b s) as [[k a]|e] eqn:Hc; intros [= <- <-].
    apply open_checks_Ok in Hc as [full Hc]. by exists k, a, full.
  - intros (k & a & full & Hc & -> & ->).
    by rewrite (proj2 (open_checks_Ok inner node b s k a)) by eauto.
Qed.

(** The errors of [open_bid], in the order they are checked. *)
Definition open_error (inner : Inner) (b : SignedBlindedBeaconBlock) s (e : Error) : Prop :=
  match block_request (registry s) b with
  | None => e = Error_Relay (UnknownValidatorIndex (blinded_proposer_index (blinded_message b)))
  | Some k =>
      if decide (k ∉ open_auctions (state s)) then e = Error_Relay (InvalidAuctionRequest k)
      else match auctions (state s) !! k with
           | None => e = Error_Relay (MissingAuction k)
           | Some a =>
               e = Error_Relay InvalidSignedBlindedBeaconBlock ∨
               ∃ full e', unblind_block b (execution_payload (arc_val a)) = Ok full ∧
                 beacon_block_root full = Err e' ∧ e = Error_Consensus e'
           end
  end.

(** When [open_bid] fails nothing has changed: no payload is recorded as
    delivered, and no clone of the auction context is left behind. *)
Theorem open_bid_error inner node b s s' e :
  run (open_bid inner node b) s = (s', Err e) → s' = s ∧ open_error inner b s e.
Proof.
  rewrite open_bid_run. destruct (open_checks inner node b s) as [[k a]|e'] eqn:Hc;
    intros [= <- ->]. split; [done|]. revert Hc. unfold open_checks, open_error, ensure.
  destruct (block_request _ _) as [k|]; simpl; [|by intros [= <-]].
  destruct (decide (k ∈ open_auctions (state s))) as [Hin|Hout]; simpl.
  2: { rewrite decide_True by done. by intros [= <-]. }
  rewrite decide_False by (by intros []).
  destruct (auctions (state s) !! k) as [a|]; simpl; [|by intros [= <-]].
  destruct (validate_header_equality _ _) as [[]|]; simpl; [|intros [= <-]; by left].
  destruct (verify_blinded_block_signature _ _ _ _) as [[]|]; simpl;
    [|intros [= <-]; by left].
  destruct (unblind_block _ _) as [full|]; simpl; [|intros [= <-]; by left].
  destruct (beacon_block_root full) as [r|e'] eqn:Hr; simpl.
  - destruct (submit_block _ _ _) as [[]|]; simpl; [done|intros [= <-]; by left].
  - intros [= <-]. right. eauto.
Qed.

(** ** The clock *)

Lemma run_refresh inner node epoch s :
  run (refresh_proposer_schedule inner node epoch) s =
    (set_scheduler (refreshed (slots_per_epoch (relay_context inner)) (get_proposer_duties node)
       (registry s) epoch (scheduler s)) s, tt).
Proof. unfold refresh_proposer_schedule. by rewrite run_bind, run_on_epoch. Qed.

Lemma on_epoch_state inner node epoch s :
  state (run (on_epoch inner node epoch) s).1 = prune (retain_slot_for inner epoch) (state s).
Proof.
  unfold on_epoch. rewrite run_bind. unfold modify at 1, critical at 1. cbn [run].
  by rewrite run_bind, run_refresh.
Qed.

Lemma run_on_slot inner node now s :
  run (on_slot inner node now) s =
    ({| registry := registry s;
        scheduler :=
          if decide (outstanding_validator_updates (state s) = ∅) then scheduler s
          else refreshed (slots_per_epoch (relay_context inner)) (get_proposer_duties node)
                 (registry s) (now / slots_per_epoch (relay_context inner)) (scheduler s);
        state := drop_old_auctions now (set_outstanding ∅ (state s)) |}, tt).
Proof.
  unfold on_slot. rewrite run_bind. unfold critical at 1. cbn [run]. rewrite run_bind.
  destruct (decide (outstanding_validator_updates (state s) = ∅)) as [He|He].
  - rewrite decide_False by (by intros []). by destruct s.
  - rewrite decide_True by done. by rewrite run_refresh.
Qed.

(** After [on_epoch] exactly the auctions, submissions and delivered
    payloads of the current epoch and the four before it are kept, unchanged. *)
Theorem on_epoch_retains inner node epoch s k :
  epoch * slots_per_epoch (relay_context inner) < u64_mod →
  let st := state s in
  let st' := state (run (on_epoch inner node epoch) s).1 in
  let retained := (epoch - 4) * slots_per_epoch (relay_context inner) ≤ slot k in
  auctions st' !! k = (if decide retained then auctions st !! k else None) ∧
  other_submissions st' !! k = (if decide retained then other_submissions st !! k else None) ∧
  delivered_payloads st' !! k = (if decide retained then delivered_payloads st !! k else None) ∧
  open_auctions st' = open_auctions st.
Proof.
  intros Hrange. cbv zeta. rewrite on_epoch_state. simpl.
  unfold retain_slot_for.
  assert (Hslot : u64_mul (default 0 (checked_sub epoch HISTORY_LOOK_BEHIND_EPOCHS))
    (slots_per_epoch (relay_context inner)) = (epoch - 4) * slots_per_epoch (relay_context inner)).
  { fold (saturating_sub epoch HISTORY_LOOK_BEHIND_EPOCHS). rewrite saturating_sub_spec.
    apply u64_mul_small. unfold HISTORY_LOOK_BEHIND_EPOCHS. nia. }
  rewrite Hslot. by rewrite !lookup_retain_keys.
Qed.

(** [on_slot] closes exactly the auctions of slots before the previous
    one, forgets which validators have updates outstanding, and refreshes the
    proposer schedule exactly when there were some; the auctions' submissions stay. *)
Theorem on_slot_spec inner node now s :
  (∀ k, k ∈ open_auctions (state s) → slot k + 1 < u64_mod) →
  let s' := (run (on_slot inner node now) s).1 in
  (∀ k, k ∈ open_auctions (state s') ↔ k ∈ open_auctions (state s) ∧ now ≤ slot k + 1) ∧
  outstanding_validator_updates (state s') = ∅ ∧
  auctions (state s') = auctions (state s) ∧
  delivered_payloads (state s') = delivered_payloads (state s) ∧
  registry s' = registry s ∧
  scheduler s' =
    if decide (outstanding_validator_updates (state s) = ∅) then scheduler s
    else refreshed (slots_per_epoch (relay_context inner)) (get_proposer_duties node)
           (registry s) (now / slots_per_epoch (relay_context inner)) (scheduler s).
Proof.
  intros Hrange. cbv zeta. rewrite run_on_slot. simpl. split; [|by split_and!].
  intros k. rewrite elem_of_retain_set. split.
  - intros [Hk Hle]. rewrite u64_add_small in Hle by (by apply Hrange). done.
  - intros [Hk Hle]. rewrite u64_add_small by (by apply Hrange). done.
Qed.

(** ** Validator registrations *)

(** Alone, the sections of [register_validators] amount to one atomic
    [process_registrations]: it answers with the errors of the registrations that
    are refused, stores the others, and marks the keys that were updated for the
    next refresh of the schedule; it panics once the clock no longer fits in 64
    bits of nanoseconds. *)
Theorem register_validators_spec inner order nanos registrations s :
  run (register_validators inner order nanos registrations) s =
    if decide (nanos < u64_mod) then
      let '(registry', (updated, errs)) :=
        process_registrations (registry s) registrations nanos (relay_context inner) in
      ({| registry := registry'; scheduler := scheduler s;
          state := set_outstanding (outstanding_validator_updates (state s) ∪ updated) (state s) |},
       Some (if decide (errs = []) then Ok tt else Err (RegistrationErrors errs)))
    else (s, None).
Proof.
  unfold register_validators, u64_try_from. case_decide; [|done].
  rewrite run_bind, run_read_par. simpl. unfold process_registrations.
  by destruct (apply_registrations _ _) as [registry' updated].
Qed.

(** Registrations carry seconds but the clock is read in nanoseconds, so
    no registration dated up to [nanos] {e seconds} after 1970 is refused as being
    from the future. *)
Theorem register_validators_ignores_future inner order nanos registrations s s' errs :
  nanos + 10 < u64_mod →
  Forall (λ r, timestamp_of r ≤ nanos) registrations →
  run (register_validators inner order nanos registrations) s
    = (s', Some (Err (RegistrationErrors errs))) →
  ∀ r t, FutureRegistration r t ∉ errs.
Proof.
  intros Hrange Hall Hrun r t Hin.
  unfold register_validators, u64_try_from in Hrun. rewrite decide_True in Hrun by lia.
  rewrite run_bind, run_read_par in Hrun. simpl in Hrun.
  pose proof (process_registrations_errors (registry s) registrations nanos
    (relay_context inner) (FutureRegistration r t)) as Herr.
  unfold process_registrations in Herr.
  destruct (apply_registrations _ _) as [registry' updated]. simpl in *.
  case_decide; simplify_eq. apply Herr in Hin as (r' & Hr' & Hp).
  pose proof (process_registration_has_outcome (registry s) r' nanos (relay_context inner)) as Ho.
  rewrite Hp in Ho. rewrite Forall_forall in Hall. specialize (Hall r' Hr').
  inversion Ho; subst. rewrite u64_add_small in *; lia.
Qed.
End relay_spec.

(** * Examples *)

Section examples.
Import ToyInstances.

Definition toy_node : BeaconNode := {|
  get_validators := λ _, Ok [toy_summary];
  get_proposer_duties := λ epoch, Ok (toy_root 0, []);
  post_signed_beacon_block_v2 := λ _ _ _ _, Ok tt;
|}.

(** A relay with one builder, whose key is [1002]; it knows validator [3], who has
    registered, and the auction of slot 201 on top of block 40 is open. *)
Definition toy_inner : Inner := (new (toy_sk 1) [toy_pk 1002] (toy_network 32) (toy_root 1)).1.

Definition toy_event : PayloadAttributesEvent := {|
  event_proposer_index := 3;
  event_proposal_slot := 201;
  event_parent_block_hash := toy_hash 40;
|}.

Definition toy_relay : Shared :=
  let s := (new (toy_sk 1) [toy_pk 1002] (toy_network 32) (toy_root 1)).2 in
  let s := (run (on_epoch toy_inner toy_node 6) s).1 in
  let s := (run (register_validators toy_inner in_order 1000 [toy_registration 20]) s).1 in
  (run (on_payload_attributes toy_event) s).1.

Definition toy_request : AuctionRequest := {|
  slot := 201; parent_hash := toy_hash 40; public_key := toy_pk 1005;
|}.

(** The relay after submissions worth 500, 400 and 700. *)
Definition toy_subs : list (N * SignedBidSubmission) :=
  [(6, toy_submission 201 40 41 500); (7, toy_submission 201 40 42 400);
   (8, toy_submission 201 40 43 700)].

Definition toy_auction : Shared := submit_all toy_inner toy_subs toy_relay.

(** The submission of 500 was replaced and is kept for the data API; the one of 400
    was never the best and is not. *)
Example toy_auction_state :
  best_value toy_auction toy_request = Some 700 ∧
  map AuctionContext.value
    (default [] (other_submissions (state toy_auction) !! toy_request)) = [500].
Proof. by vm_compute. Qed.

Example toy_open_bid :
  (contents_execution_payload <$>
     (run (open_bid toy_inner toy_node (toy_blinded_block 201 40 43)) toy_auction).2)
    = Ok (toy_payload_with 40 43).
Proof. by vm_compute. Qed.

Lemma open_bid_error_witness :
  ∃ e, run (open_bid toy_inner toy_node (toy_blinded_block 201 40 41)) toy_auction
         = (toy_auction, Err e) ∧
    open_error toy_inner (toy_blinded_block 201 40 41) toy_auction e.
Proof.
  assert (Hrun : run (open_bid toy_inner toy_node (toy_blinded_block 201 40 41)) toy_auction
    = (toy_auction, Err (Error_Relay InvalidSignedBlindedBeaconBlock)))
    by (vm_compute; reflexivity).
  eexists. split; [exact Hrun|].
  by apply (open_bid_error toy_inner toy_node (toy_blinded_block 201 40 41) toy_auction
    toy_auction _ Hrun).
Defined.

Lemma on_epoch_retains_witness :
  auctions (state (run (on_epoch toy_inner toy_node 11) toy_auction).1) !! toy_request = None ∧
  auctions (state (run (on_epoch toy_inner toy_node 10) toy_auction).1) !! toy_request
    = auctions (state toy_auction) !! toy_request.
Proof.
  split.
  - destruct (on_epoch_retains toy_inner toy_node 11 toy_auction toy_request) as [-> _];
      [vm_compute; reflexivity|].
    by rewrite decide_False by (vm_compute; intros Hle; by apply Hle).
  - destruct (on_epoch_retains toy_inner toy_node 10 toy_auction toy_request) as [-> _];
      [vm_compute; reflexivity|].
    by rewrite decide_True by (vm_compute; discriminate).
Defined.

Lemma toy_open_slots k : k ∈ open_auctions (state toy_auction) → slot k + 1 < u64_mod.
Proof.
  apply (bool_decide_eq_true_1 (set_Forall (λ k, slot k + 1 < u64_mod)
    (open_auctions (state toy_auction)))).
  by vm_compute.
Qed.

Lemma on_slot_spec_witness :
  bool_decide (toy_request ∈ open_auctions (state (run (on_slot toy_inner toy_node 202) toy_auction).1))
    = true ∧
  bool_decide (toy_request ∈ open_auctions (state (run (on_slot toy_inner toy_node 203) toy_auction).1))
    = false.
Proof.
  split.
  - apply bool_decide_eq_true.
    destruct (on_slot_spec toy_inner toy_node 202 toy_auction toy_open_slots) as [Hk _].
    apply Hk. split; [|by vm_compute].
    apply (bool_decide_eq_true_1 _). by vm_compute.
  - apply bool_decide_eq_false.
    destruct (on_slot_spec toy_inner toy_node 203 toy_auction toy_open_slots) as [Hk _].
    rewrite Hk. intros [_ Hle]. by apply Hle.
Defined.

(** The clock reads the year 2024 and the registration is dated 2100: its validator is
    unknown to the relay, and that is the only error. *)
Lemma register_validators_ignores_future_witness :
  ∃ errs,
    (run (register_validators toy_inner in_order 1710000000000000000 [toy_registration 4102444800])
       (new (toy_sk 1) [] (toy_network 32) (toy_root 1)).2).2
      = Some (Err (RegistrationErrors errs)) ∧
    FutureRegistration (registration_message (toy_registration 4102444800)) 1710000000000000000
      ∉ errs.
Proof.
  exists [UnknownPubkey]. split; [by vm_compute|].
  apply (register_validators_ignores_future toy_inner in_order 1710000000000000000
    [toy_registration 4102444800]
    (new (toy_sk 1) [] (toy_network 32) (toy_root 1)).2
    (new (toy_sk 1) [] (toy_network 32) (toy_root 1)).2).
  - by vm_compute.
  - constructor; [by vm_compute|constructor].
  - by vm_compute.
Defined.
End examples.
