(* ===== verification/RelaySafety.v ===== *)
(** The relay under concurrency: any number of requests and clock turns, their
    critical sections interleaved in any order.

    Every auction context the relay holds or hands out comes from a submission an
    accepted builder signed, which pays the proposer at an address the proposer
    signed; and a payload, once delivered, is never replaced while it is within the
    relay's history.  What does not survive interleaving is the order on bids:
    [insert_bid_if_greater] compares and inserts in two sections. *)

From stdpp Require Import gmultiset.
From S2P Require Import Prelude.
From S2P Require Import Consensus.
From S2P Require Import Types.
From S2P Require Import Signing.
From S2P Require Import ValidatorRegistry.
From S2P Require Import ProposerScheduler.
From S2P Require Import AuctionContext.
From S2P Require Import Tasks.
From S2P Require Import RelayBlocks.
From S2P Require Import Relay.
From S2P Require Import RelaySpec.
From S2P Require Import Toy.

#[local] Open Scope N_scope.

Section relay_safety.
Context `{CF : ConsensusFunctions} `{BS : !BuilderSignable}.
Context `{!SignableLaws BuilderBid}.
(** The submissions that arrive: those builders send. *)
Context (arrived : SignedBidSubmission → Prop).
Implicit Types (s : Shared) (st : Relay.State) (k : AuctionRequest) (a : Arc).
Implicit Types (c : AuctionContext) (sub : SignedBidSubmission) (inner : Inner).

(** ** Requests and replies *)

Inductive Reply : Type :=
| Reply_clock
| Reply_attributes (r : result Error ())
| Reply_registered (r : option (result Error ()))
| Reply_bid (auction_request : AuctionRequest) (r : result Error SignedBuilderBid)
| Reply_contents (signed_block : SignedBlindedBeaconBlock) (r : result Error AuctionContents)
| Reply_submitted (submission : SignedBidSubmission) (r : result Error ())
| Reply_schedule (r : result Error (list ProposerSchedule))
| Reply_registration (key : BlsPublicKey) (r : result Error SignedValidatorRegistration).

(** What may be started at any moment: any request with any arguments, of the submissions
    those that arrive, any answers of the beacon node and any reading of the clock.  [horizon] bounds the slots
    below which the clock prunes. *)
Inductive request inner (horizon : N) : task Shared Reply → Prop :=
| request_on_epoch node epoch :
    retain_slot_for inner epoch ≤ horizon →
    request inner horizon ((λ _, Reply_clock) <$> on_epoch inner node epoch)
| request_on_slot node slot :
    request inner horizon ((λ _, Reply_clock) <$> on_slot inner node slot)
| request_attributes event :
    request inner horizon (Reply_attributes <$> on_payload_attributes event)
| request_register order nanos registrations :
    request inner horizon
      (Reply_registered <$> register_validators inner order nanos registrations)
| request_fetch k :
    request inner horizon (Reply_bid k <$> fetch_best_bid k)
| request_open node b :
    request inner horizon (Reply_contents b <$> open_bid inner node b)
| request_submit d sub :
    arrived sub →
    request inner horizon (Reply_submitted sub <$> submit_bid inner d sub)
| request_schedule :
    request inner horizon (Reply_schedule <$> get_proposal_schedule)
| request_registration key :
    request inner horizon (Reply_registration key <$> fetch_validator_registration key).

(** ** The invariant *)

(** The context was sold in the auction [k]: it holds a submission that arrived for that
    auction, which an accepted builder has signed, whose trace describes its payload, and
    which pays the proposer at an address the proposer has signed. *)
Definition sold inner k c : Prop :=
  ∃ sub d,
    holds_submission (relay_public_key inner) (relay_context inner) sub d c ∧
    arrived sub ∧
    request_of sub = k ∧
    builder_of sub ∈ builder_registry inner ∧
    signed_by_builder (relay_context inner) sub = Ok tt ∧
    trace_parent_hash (submission_message sub) = payload_parent_hash (submission_payload sub) ∧
    trace_block_hash (submission_message sub) = payload_block_hash (submission_payload sub) ∧
    ∃ reg, key_of reg = public_key k ∧ signed_by_key reg (relay_context inner) ∧
      trace_proposer_fee_recipient (submission_message sub)
        = registration_fee_recipient (registration_message reg).

Record relay_ok inner s : Prop := {
  ok_preferences :
    preferences_ok (relay_context inner) (validator_preferences (registry s));
  ok_auctions : map_Forall (λ k a, sold inner k (arc_val a)) (auctions (state s));
  ok_delivered : map_Forall (λ k a, sold inner k (arc_val a)) (delivered_payloads (state s));
  ok_others : map_Forall (λ k cs, Forall (sold inner k) cs) (other_submissions (state s));
}.

Definition delivered_value s k : option AuctionContext :=
  arc_val <$> delivered_payloads (state s) !! k.

(** What is delivered for a slot from [horizon] on stays. *)
Definition keeps_delivered (horizon : N) s s' : Prop :=
  ∀ k c, horizon ≤ slot k → delivered_value s k = Some c → delivered_value s' k = Some c.

#[export] Instance keeps_delivered_preorder horizon : PreOrder (keeps_delivered horizon).
Proof.
  split; [by intros s k c|]. intros s1 s2 s3 H12 H23 k c Hk Hc. auto.
Qed.

(** What a reply promises. *)
Definition reply_ok inner (r : Reply) : Prop :=
  match r with
  | Reply_bid k (Ok bid) =>
      ∃ c, sold inner k c ∧ bid = signed_builder_bid c
  | Reply_contents b (Ok contents) =>
      ∃ k c, sold inner k c ∧ contents = to_auction_contents c ∧
        slot k = blinded_slot (blinded_message b) ∧
        to_header (contents_execution_payload contents)
          = Ok (blinded_payload_header (blinded_message b)) ∧
        verify_blinded_block_signature k b (genesis_validators_root inner)
          (relay_context inner) = Ok tt
  | Reply_registration key (Ok reg) =>
      key_of reg = key ∧ signed_by_key reg (relay_context inner)
  | _ => True
  end.

(** [Inner] as [Relay::new] builds it. *)
Definition inner_ok inner : Prop :=
  relay_public_key inner = secret_key_public_key (relay_secret_key inner).

(** ** The sections *)

Section sections.
Context (inner : Inner) (horizon : N).

#[local] Notation preserved s s' := (relay_ok inner s' ∧ keeps_delivered horizon s s').

(** A section that changes nothing the invariant speaks of. *)
Lemma frame_ok s s' :
  validator_preferences (registry s') = validator_preferences (registry s) →
  auctions (state s') = auctions (state s) →
  other_submissions (state s') = other_submissions (state s) →
  delivered_payloads (state s') = delivered_payloads (state s) →
  relay_ok inner s → preserved s s'.
Proof.
  intros Hp Ha Ho Hd [? ? ? ?]. split.
  - split; by rewrite ?Hp, ?Ha, ?Ho, ?Hd.
  - intros k c _. unfold delivered_value. by rewrite Hd.
Qed.

Lemma insert_bid_ok k c s :
  sold inner k c → relay_ok inner s → preserved s (update_state (insert_bid k c) s).
Proof.
  intros Hc [Hp Ha Hd Ho]. split.
  - split; simpl; [done| | |].
    + rewrite insert_bid_auctions. by apply map_Forall_insert_2.
    + by rewrite insert_bid_delivered.
    + intros k' cs Hcs. apply Forall_forall. intros c' Hc'.
      destruct (insert_bid_others k c (state s) k' cs c') as [(cs' & Hcs' & Hin)|(-> & a & Hk & <-)];
        [done..| |by apply (Ha k a)].
      specialize (Ho k' cs' Hcs'). rewrite Forall_forall in Ho. by apply Ho.
  - intros k' c' _. unfold delivered_value. simpl. by rewrite insert_bid_delivered.
Qed.

Lemma deliver_ok k a s :
  sold inner k (arc_val a) → relay_ok inner s →
  preserved s (update_state (λ _, (deliver k a (state s)).1) s).
Proof.
  intros Hc Hs. unfold deliver.
  assert (Hstore : (∀ e, delivered_payloads (state s) !! k = Some e → arc_val e = arc_val a) →
    preserved s (update_state (λ _, {|
      outstanding_validator_updates := outstanding_validator_updates (state s);
      open_auctions := open_auctions (state s);
      auctions := auctions (state s);
      other_submissions := other_submissions (state s);
      delivered_payloads := <[k:=a]> (delivered_payloads (state s));
      next_arc := next_arc (state s);
      clones := clones (state s) ∖ {[+ arc_id a +]} |}) s)).
  { intros Hsame. destruct Hs as [Hp Ha Hd Ho]. split.
    - split; simpl; try done. by apply map_Forall_insert_2.
    - intros k' c' _. unfold delivered_value. simpl.
      destruct (decide (k = k')) as [<-|Hne]; [|by rewrite lookup_insert_ne].
      rewrite lookup_insert_eq. destruct (delivered_payloads (state s) !! k) as [e|]; [|done].
      simpl. intros [= <-]. by rewrite (Hsame e). }
  destruct (delivered_payloads (state s) !! k) as [e|] eqn:He; simpl.
  - case_decide as Heq; simpl; [by apply frame_ok|].
    apply Hstore. intros e' [= ->]. by destruct (decide (arc_val e' = arc_val a)).
  - by apply Hstore.
Qed.

Lemma prune_ok retain s :
  retain ≤ horizon → relay_ok inner s → preserved s (update_state (prune retain) s).
Proof.
  intros Hle [Hp Ha Hd Ho]. split.
  - split; simpl; [done|..]; intros k x [Hx _]%lookup_retain_keys_Some; eauto.
  - intros k c Hk. unfold delivered_value. simpl. rewrite lookup_retain_keys.
    by rewrite decide_True by lia.
Qed.

Lemma apply_registrations_ok us s :
  Forall (λ u, ∀ r, u = Some r → signed_by_key r (relay_context inner)) us →
  relay_ok inner s →
  preserved s (set_registry (apply_registrations us (registry s)).1 s).
Proof.
  intros Hus [Hp Ha Hd Ho]. split; [|by intros k c]. split; simpl; try done.
  unfold apply_registrations.
  pose proof (apply_updates_signed (relay_context inner) us
    (∅, validator_preferences (registry s)) Hus Hp) as H.
  by destruct (foldl _ _ _) as [keys prefs].
Qed.

(** ** The handlers *)

#[local] Notation safe_task := (safe (relay_ok inner) (keeps_delivered horizon)).

Lemma safe_frame {B} (f : Shared → Shared * B) :
  (∀ s, validator_preferences (registry (f s).1) = validator_preferences (registry s) ∧
        auctions (state (f s).1) = auctions (state s) ∧
        other_submissions (state (f s).1) = other_submissions (state s) ∧
        delivered_payloads (state (f s).1) = delivered_payloads (state s)) →
  safe_task (critical f) (λ _, True).
Proof.
  intros Hf. apply safe_critical. intros s Hs. destruct (Hf s) as (? & ? & ? & ?).
  destruct (frame_ok s (f s).1) as [? ?]; [done..|]. by split_and!.
Qed.

Lemma get_auction_context_safe k :
  safe_task (get_auction_context k) (λ o, ∀ a, o = Some a → sold inner k (arc_val a)).
Proof.
  apply safe_critical. intros s Hs.
  destruct (auctions (state s) !! k) as [a|] eqn:Hk; simpl; [|by split_and!].
  destruct (frame_ok s (update_state (clone_arc a) s)) as [? ?]; [done..|].
  split_and!; [done..|]. intros a' [= <-]. by apply (ok_auctions _ _ Hs).
Qed.

Lemma drop_context_safe a : safe_task (drop_context a) (λ _, True).
Proof. by apply safe_frame. Qed.

Lemma fetch_duties_safe spe api epoch duties :
  safe_task (fetch_duties_if_missing spe api epoch duties) (λ _, True).
Proof.
  apply (safe_bind _ _ _ _ (λ _, True)); [by apply safe_frame|]. intros [] _; [done|].
  by destruct (api epoch) as [[root fetched]|e].
Qed.

Lemma refresh_safe node epoch :
  safe_task (refresh_proposer_schedule inner node epoch) (λ _, True).
Proof.
  apply (safe_bind _ _ _ _ (λ _, True)); [|done].
  apply (safe_bind _ _ _ _ (λ _, True)).
  - apply (safe_bind _ _ _ _ (λ _, True)); [apply fetch_duties_safe|]. intros [duties r] _.
    apply (safe_bind _ _ _ _ (λ _, True)); [apply fetch_duties_safe|]. by intros [].
  - intros duties _. apply (safe_bind _ _ _ _ (Forall (λ _, True))).
    { apply safe_read_each; [apply _|done]. }
    intros scheduled _. apply (safe_bind _ _ _ _ (λ _, True)); [by apply safe_frame|done].
Qed.

Lemma validate_auction_request_safe k : safe_task (validate_auction_request k) (λ _, True).
Proof. by apply safe_frame. Qed.

Lemma on_epoch_safe node epoch :
  retain_slot_for inner epoch ≤ horizon → safe_task (on_epoch inner node epoch) (λ _, True).
Proof.
  intros Hle. apply (safe_bind _ _ _ _ (λ _, True)).
  { apply safe_frame. intros s. split_and!; try done. simpl.
    unfold ValidatorRegistry.on_epoch. destruct (get_validators _ _); simpl; [|done].
    apply insert_summaries_preferences. }
  intros _ _. apply (safe_bind _ _ _ _ (λ _, True)); [apply refresh_safe|].
  intros _ _. apply safe_modify. intros s Hs. by apply prune_ok.
Qed.

Lemma on_slot_safe node now : safe_task (on_slot inner node now) (λ _, True).
Proof.
  apply (safe_bind _ _ _ _ (λ _, True)); [by apply safe_frame|].
  intros keys _. apply (safe_bind _ _ _ _ (λ _, True)).
  - case_decide; [apply refresh_safe|done].
  - intros _ _. by apply safe_frame.
Qed.

Lemma on_payload_attributes_safe event :
  safe_task (on_payload_attributes event) (λ _, True).
Proof.
  apply (safe_try _ _ _ _ (λ _, True)); [by apply safe_frame|done|].
  intros key _. apply (safe_bind _ _ _ _ (λ _, True)); [by apply safe_frame|done].
Qed.

Lemma register_validators_safe order nanos registrations :
  safe_task (register_validators inner order nanos registrations) (λ _, True).
Proof.
  unfold register_validators. destruct (u64_try_from nanos) as [now|]; [|done].
  apply (safe_bind _ _ _ _ (Forall (λ res, ∀ r, res = Ok (Some r) →
    signed_by_key r (relay_context inner)))).
  { apply safe_read_par; [apply _|]. intros r s _ _ r' Hr'.
    apply process_registration_update in Hr' as (-> & (_ & _ & _ & ?) & _). done. }
  intros results Hres. apply (safe_bind _ _ _ _ (λ _, True)).
  - apply safe_critical. intros s Hs.
    destruct (apply_registrations_ok (omap ok_part results) s) as [? ?]; [|done|].
    { apply Forall_forall. intros u (res & Hin & Hu)%list_elem_of_omap r ->.
      rewrite Forall_forall in Hres. apply (Hres res Hin). by destruct res; simplify_eq/=. }
    by destruct (apply_registrations _ _) as [registry' updated].
  - intros keys _. apply (safe_bind _ _ _ _ (λ _, True)); [by apply safe_frame|done].
Qed.

Lemma fetch_best_bid_safe k :
  safe_task (fetch_best_bid k)
    (λ r, ∀ bid, r = Ok bid → ∃ c, sold inner k c ∧ bid = signed_builder_bid c).
Proof.
  apply (safe_try _ _ _ _ (λ _, True)); [|done|].
  { apply safe_fmap, validate_auction_request_safe. }
  intros _ _.
  apply (safe_try _ _ _ _ (λ r, ∀ a, r = Ok a → sold inner k (arc_val a))); [|done|].
  { apply safe_fmap. eapply safe_mono, get_auction_context_safe.
    intros o Ho a Ha%ok_or_Ok. by apply Ho. }
  intros a Ha. apply (safe_bind _ _ _ _ (λ _, True)); [apply drop_context_safe|].
  intros _ _ bid [= <-]. exists (arc_val a). by split; [apply Ha|].
Qed.

(** The header of the payload of a context is the one its bid offers. *)
Lemma sold_header k c :
  sold inner k c →
  to_header (contents_execution_payload (to_auction_contents c))
    = Ok (bid_header (signed_bid_message (signed_builder_bid c))).
Proof.
  intros (sub & d & Hc & _). rewrite <-(holds_header _ _ _ _ _ Hc).
  rewrite <-(holds_payload _ _ _ _ _ Hc). by destruct c.
Qed.

Definition contents_ok (b : SignedBlindedBeaconBlock) (r : result Error AuctionContents) : Prop :=
  reply_ok inner (Reply_contents b r).

Lemma reject_safe b a e : safe_task (reject a e) (contents_ok b).
Proof. by apply (safe_bind _ _ _ _ (λ _, True)); [apply drop_context_safe|]. Qed.

Lemma store_delivered_payload_safe k a :
  sold inner k (arc_val a) → safe_task (store_delivered_payload k a) (λ _, True).
Proof.
  intros Ha. apply (safe_bind _ _ _ _ (λ _, True)).
  - apply safe_critical. intros s Hs. destruct (deliver_ok k a s) as [? ?]; [done..|].
    by destruct (deliver k a (state s)) as [st moved].
  - intros [] _; [done|apply drop_context_safe].
Qed.

Lemma open_bid_safe node b : safe_task (open_bid inner node b) (contents_ok b).
Proof.
  apply (safe_try _ _ _ _ (λ _, True)); [by apply safe_frame|done|].
  intros key _. apply (safe_try _ _ _ _ (λ _, True)); [|done|].
  { apply safe_fmap, validate_auction_request_safe. }
  intros _ _. set (k := Build_AuctionRequest _ _ key).
  apply (safe_try _ _ _ _ (λ r, ∀ a, r = Ok a → sold inner k (arc_val a))); [|done|].
  { apply safe_fmap. eapply safe_mono, get_auction_context_safe.
    intros o Ho a Ha%ok_or_Ok. by apply Ho. }
  intros a Ha. specialize (Ha a eq_refl).
  safe_match Hh; [|apply reject_safe]. safe_match Hsig; [|apply reject_safe].
  safe_match Hfull; [|apply reject_safe]. safe_match Hroot; [|apply reject_safe].
  safe_match Hpost; [|apply reject_safe]. destruct a0, a1.
  apply (safe_bind _ _ _ _ (λ _, True)); [by apply store_delivered_payload_safe|].
  intros _ _. apply validate_header_equality_Ok in Hh.
  exists k, (arc_val a). split_and!; try done. rewrite <-Hh. by apply (sold_header k).
Qed.

Lemma insert_bid_if_greater_safe sub v d :
  (∀ c, context_for inner d sub = Ok c → sold inner (request_of sub) c) →
  safe_task (insert_bid_if_greater inner (request_of sub) sub v d) (λ _, True).
Proof.
  intros Hsold. apply (safe_bind _ _ _ _ (λ _, True)).
  { by eapply safe_mono, get_auction_context_safe. }
  intros existing _. apply (safe_bind _ _ _ _ (λ _, True)).
  { destruct existing as [bid|]; [|done].
    by apply (safe_bind _ _ _ _ (λ _, True)); [apply drop_context_safe|]. }
  intros [] _; [done|].
  apply (safe_try _ _ _ _ (λ r, r = context_for inner d sub)); [done..|].
  intros c Hc. apply (safe_bind _ _ _ _ (λ _, True)); [|done].
  apply safe_modify. intros s Hs. apply insert_bid_ok; [|done]. by apply Hsold.
Qed.

Lemma submit_bid_safe sub d :
  inner_ok inner → arrived sub → safe_task (submit_bid inner d sub) (λ _, True).
Proof.
  intros Hinner Harrived.
  apply (safe_try _ _ _ _ (λ r, r = validate_allowed_builder inner (builder_of sub)));
    [done..|].
  intros [] Hbuilder. apply (safe_try _ _ _ _ (λ _, True)); [|done|].
  { apply safe_fmap, validate_auction_request_safe. }
  intros _ _.
  apply (safe_try _ _ _ _ (λ r, r = Ok tt → ∃ registry,
    preferences_ok (relay_context inner) (validator_preferences registry) ∧
    trace_describes registry (submission_message sub) (submission_payload sub))); [|done|].
  { apply safe_read; [apply _|]. intros s Hs Hv%map_err_Ok.
    exists (registry s). split; [apply Hs|]. by apply validate_trusted_Ok. }
  intros [] Htrace.
  apply (safe_try _ _ _ _ (λ r, r = map_err Error_Consensus
    (signed_by_builder (relay_context inner) sub))); [done..|].
  intros [] Hsig. apply insert_bid_if_greater_safe.
  intros c Hc. symmetry in Hsig. apply map_err_Ok in Hsig.
  destruct (Htrace eq_refl) as (registry & Hprefs & (reg & Hreg & Hfee) & _ & _ & Hp & Hb).
  destruct (Hprefs _ _ Hreg) as [Hkey Hregsig].
  exists sub, d. unfold context_for in Hc. rewrite Hinner in *.
  split_and!; try done.
  - by apply new_holds.
  - unfold validate_allowed_builder in Hbuilder. by case_decide.
  - by exists reg.
Qed.
End sections.

(** Every request keeps the invariant and answers as promised. *)
Lemma request_safe inner horizon p :
  inner_ok inner → request inner horizon p →
  safe (relay_ok inner) (keeps_delivered horizon) p (reply_ok inner).
Proof.
  intros Hinner Hp. destruct Hp; apply safe_fmap.
  - by apply on_epoch_safe.
  - apply on_slot_safe.
  - eapply safe_mono, on_payload_attributes_safe. done.
  - eapply safe_mono, register_validators_safe. done.
  - eapply safe_mono, fetch_best_bid_safe. intros [bid|e] Hr; [by apply Hr|done].
  - apply open_bid_safe.
  - by eapply safe_mono, submit_bid_safe.
  - by apply safe_read; [apply _|].
  - apply safe_read; [apply _|]. intros s Hs.
    unfold get_signed_registration. destruct (_ !! key) as [reg|] eqn:Hreg; simpl; [|done].
    by apply (ok_preferences _ _ Hs).
Qed.

Lemma new_inner_ok sk builders ctx root : inner_ok (new sk builders ctx root).1.
Proof. done. Qed.

Lemma new_relay_ok sk builders ctx root inner : relay_ok inner (new sk builders ctx root).2.
Proof. by split. Qed.

Lemma new_pool_ok sk builders ctx root horizon pl :
  steps (pool_step (request (new sk builders ctx root).1 horizon))
    (start (new sk builders ctx root).2) pl →
  relay_ok (new sk builders ctx root).1 (shared pl) ∧
  Forall (reply_ok (new sk builders ctx root).1) (finished pl).
Proof.
  intros Hsteps.
  destruct (pool_safe (relay_ok (new sk builders ctx root).1) (keeps_delivered horizon)
    (request (new sk builders ctx root).1 horizon) (reply_ok (new sk builders ctx root).1)
    (start (new sk builders ctx root).2) pl) as [(? & _ & ?) _].
  - intros p. apply request_safe, new_inner_ok.
  - apply start_ok, new_relay_ok.
  - done.
  - done.
Qed.

(** C1: Whatever requests arrive and however their critical sections
    interleave, every bid and payload the relay holds arrived as a submission that an
    accepted builder signed for that auction and pays the proposer at an address it has
    signed; and every reply keeps its promise: a bid offered is such a bid, and a
    payload released is the one of the header the proposer signed. *)
Theorem relay_safe sk builders ctx root horizon pl :
  let '(inner, s0) := new sk builders ctx root in
  steps (pool_step (request inner horizon)) (start s0) pl →
  relay_ok inner (shared pl) ∧ Forall (reply_ok inner) (finished pl).
Proof. exact (new_pool_ok sk builders ctx root horizon pl). Qed.

(** C5: From any moment on, a payload that has been delivered is never
    replaced by another and never forgotten, as long as the clock does not prune
    its slot: not by further requests of the proposer, nor by later bids. *)
Theorem delivered_payload_stable sk builders ctx root horizon pl pl' k c :
  let '(inner, s0) := new sk builders ctx root in
  steps (pool_step (request inner horizon)) (start s0) pl →
  steps (pool_step (request inner horizon)) pl pl' →
  horizon ≤ slot k → delivered_value (shared pl) k = Some c →
  delivered_value (shared pl') k = Some c.
Proof.
  intros Hsteps Hsteps' Hk Hc.
  assert (Hspawn : ∀ p, request (new sk builders ctx root).1 horizon p →
    safe (relay_ok (new sk builders ctx root).1) (keeps_delivered horizon) p
      (reply_ok (new sk builders ctx root).1)).
  { intros p. apply request_safe, new_inner_ok. }
  destruct (pool_safe _ _ _ _ _ _ Hspawn (start_ok _ _ _ _ (new_relay_ok sk builders ctx root _))
    Hsteps) as [Hpl _].
  destruct (pool_safe _ _ _ _ _ _ Hspawn Hpl Hsteps') as [_ HG]. by apply HG.
Qed.
End relay_safety.

(** * What interleaving breaks *)

Section races.
Context `{CF : ConsensusFunctions} `{BS : !BuilderSignable}.
Implicit Types (s : Shared) (sub : SignedBidSubmission) (inner : Inner).

(** No restriction on the submissions that arrive. *)
Definition any_submission sub : Prop := True.

(** [submit_bid] from the moment it has decided to insert. *)
Definition inserting sub (c : AuctionContext) : task Shared Reply :=
  Reply_submitted sub <$>
    (_ ← modify (update_state (insert_bid (request_of sub) c)); Done (Ok tt)).

(** A valid submission to an auction without a bid decides to insert, and changes
    nothing on the way. *)
Lemma submit_decides inner horizon sub d c s ps ps' out :
  submission_valid inner s sub → best_value s (request_of sub) = None →
  context_for inner d sub = Ok c →
  steps (pool_step (request any_submission inner horizon))
    {| shared := s; running := ps ++ (Reply_submitted sub <$> submit_bid inner d sub) :: ps';
       finished := out |}
    {| shared := s; running := ps ++ inserting sub c :: ps'; finished := out |}.
Proof.
  intros [Hb Ho Ht Hsig] Hbest Hc.
  assert (Hnone : auctions (state s) !! request_of sub = None).
  { unfold best_value in Hbest. by destruct (auctions (state s) !! request_of sub). }
  unfold submit_bid, validate_allowed_builder. fold (builder_of sub) (request_of sub).
  rewrite decide_True by done.
  eapply steps_trans; [apply section_steps|]. simpl. rewrite decide_True by done. simpl.
  eapply steps_trans; [apply section_steps|]. simpl.
  rewrite (proj2 (validate_trusted_Ok _ _ _)) by done. simpl.
  fold (signed_by_builder (relay_context inner) sub). rewrite Hsig. simpl.
  eapply steps_trans; [apply section_steps|]. simpl. rewrite Hnone. simpl.
  fold (context_for inner d sub). rewrite Hc. apply steps_refl.
Qed.

(** C36: Two submissions to an auction without a bid can both find it empty
    and both insert; the auction then offers whichever was inserted last, also when
    it is worth less, although both builders were answered with success. *)
Theorem racing_submissions_lose_best inner horizon s sub1 sub2 d1 d2 c1 c2 :
  request_of sub2 = request_of sub1 →
  submission_valid inner s sub1 → submission_valid inner s sub2 →
  best_value s (request_of sub1) = None →
  context_for inner d1 sub1 = Ok c1 → context_for inner d2 sub2 = Ok c2 →
  ∃ pl,
    steps (pool_step (request any_submission inner horizon)) (start s) pl ∧ running pl = [] ∧
    finished pl = [Reply_submitted sub2 (Ok tt); Reply_submitted sub1 (Ok tt)] ∧
    best_value (shared pl) (request_of sub1) = Some (trace_value (submission_message sub2)).
Proof.
  intros Hreq Hv1 Hv2 Hbest Hc1 Hc2.
  exists {| shared := update_state (insert_bid (request_of sub2) c2)
              (update_state (insert_bid (request_of sub1) c1) s);
            running := [];
            finished := [Reply_submitted sub2 (Ok tt); Reply_submitted sub1 (Ok tt)] |}.
  split_and!; [|done|done|].
  2: { cbn [shared]. rewrite best_value_insert_bid, decide_True by done. f_equal. by eapply new_value. }
  eapply steps_trans; [apply (spawn_steps _ (Reply_submitted sub1 <$> submit_bid inner d1 sub1));
    by constructor|].
  eapply steps_trans; [apply (spawn_steps _ (Reply_submitted sub2 <$> submit_bid inner d2 sub2));
    by constructor|].
  eapply steps_trans; [by apply (submit_decides inner horizon sub1 d1 c1 s [])|].
  eapply steps_trans; [apply (submit_decides inner horizon sub2 d2 c2 s [inserting sub1 c1] []);
    [done|by rewrite Hreq|done]|].
  eapply steps_trans; [apply (section_steps _ _ [])|]. simpl.
  eapply steps_trans; [apply (section_steps _ _ [Done (Reply_submitted sub1 (Ok tt))] [])|]. simpl.
  eapply steps_trans; [apply (finish_steps _ _ [] [Done (Reply_submitted sub2 (Ok tt))])|]. simpl.
  apply (finish_steps _ _ [] []).
Qed.

(** Two registrations of one validator that arrive together are both
    checked against the registry before either is stored; the one whose request
    stores last wins, also when it is the older one. *)
Theorem racing_registrations_go_back inner horizon s nanos r1 r2 :
  nanos < u64_mod → key_of r2 = key_of r1 →
  process_registration (registry s) r1 nanos (relay_context inner) = Ok (Some r1) →
  process_registration (registry s) r2 nanos (relay_context inner) = Ok (Some r2) →
  ∃ pl,
    steps (pool_step (request any_submission inner horizon)) (start s) pl ∧ running pl = [] ∧
    finished pl = [Reply_registered (Some (Ok tt)); Reply_registered (Some (Ok tt))] ∧
    get_signed_registration (registry (shared pl)) (key_of r1) = Some r2.
Proof.
  intros Hnanos Hkey H1 H2.
  set (p r := Reply_registered <$> register_validators inner in_order nanos [r]).
  eexists {| shared := _; running := []; finished := _ |}. split.
  { eapply steps_trans; [apply (spawn_steps _ (p r1)); constructor|].
    eapply steps_trans; [apply (spawn_steps _ (p r2)); constructor|].
    unfold p, register_validators, u64_try_from. rewrite decide_True by done.
    eapply steps_trans; [apply (section_steps _ _ [])|]. simpl. rewrite H1, lookup_insert_eq. simpl.
    eapply steps_trans; [apply (section_steps _ _ [_] [])|]. simpl. rewrite H2, lookup_insert_eq. simpl.
    do 2 (eapply steps_trans; [apply (section_steps _ _ [])|]; simpl).
    do 2 (eapply steps_trans; [apply (section_steps _ _ [_] [])|]; simpl).
    eapply steps_trans; [apply (finish_steps _ _ [])|]. simpl.
    apply (finish_steps _ _ [] []). }
  split_and!; [done..|]. unfold get_signed_registration. simpl.
  fold (key_of r2). by rewrite Hkey, lookup_insert_eq.
Qed.
End races.

(** * Examples *)

Section examples.
Import ToyInstances.

(** Requests one after the other. *)
Definition toy_script (requests : list (task Shared Reply)) : list (task Shared Reply + nat) :=
  requests ≫= λ p, inl p :: replicate 9 (inr 0%nat).

Definition toy_requests : list (task Shared Reply) :=
  [(λ _, Reply_clock) <$> on_epoch toy_inner toy_node 6;
   Reply_registered <$> register_validators toy_inner in_order 1000 [toy_registration 20];
   Reply_attributes <$> on_payload_attributes toy_event;
   Reply_submitted (toy_submission 201 40 41 500) <$>
     submit_bid toy_inner 6 (toy_submission 201 40 41 500);
   Reply_contents (toy_blinded_block 201 40 41) <$>
     open_bid toy_inner toy_node (toy_blinded_block 201 40 41)].

Definition toy_start : Shared := (new (toy_sk 1) [toy_pk 1002] (toy_network 32) (toy_root 1)).2.
Definition toy_pool : pool Shared Reply := play (toy_script toy_requests) (start toy_start).

Definition toy_later : list (task Shared Reply) :=
  [Reply_submitted (toy_submission 201 40 43 700) <$>
     submit_bid toy_inner 8 (toy_submission 201 40 43 700);
   Reply_contents (toy_blinded_block 201 40 43) <$>
     open_bid toy_inner toy_node (toy_blinded_block 201 40 43)].

Lemma toy_pool_steps :
  steps (pool_step (request any_submission toy_inner 64)) (start toy_start) toy_pool.
Proof.
  apply play_steps. repeat (constructor; [first [done|by constructor; vm_compute]|]).
  constructor.
Qed.

Lemma toy_later_steps :
  steps (pool_step (request any_submission toy_inner 64)) toy_pool
    (play (toy_script toy_later) toy_pool).
Proof. apply play_steps. repeat (constructor; [first [done|by constructor]|]). constructor. Qed.

(** All five requests succeed, and the payload worth 500 is delivered. *)
Lemma relay_safe_witness :
  AuctionContext.value <$> delivered_value (shared toy_pool) toy_request = Some 500 ∧
  relay_ok any_submission toy_inner (shared toy_pool) ∧
  Forall (reply_ok any_submission toy_inner) (finished toy_pool).
Proof.
  split; [by vm_compute|].
  exact (relay_safe any_submission (toy_sk 1) [toy_pk 1002] (toy_network 32) (toy_root 1) 64 toy_pool
    toy_pool_steps).
Defined.

(** After a better bid and a second block for it, both released, the delivered
    payload is still the first. *)
Lemma delivered_payload_stable_witness :
  ∃ c, AuctionContext.value c = 500 ∧
    delivered_value (shared (play (toy_script toy_later) toy_pool)) toy_request = Some c.
Proof.
  destruct (delivered_value (shared toy_pool) toy_request) as [c|] eqn:Hc.
  - exists c. split.
    + assert (Hv : AuctionContext.value <$> delivered_value (shared toy_pool) toy_request
        = Some 500) by (vm_compute; reflexivity).
      rewrite Hc in Hv. by injection Hv.
    + apply (delivered_payload_stable any_submission (toy_sk 1) [toy_pk 1002] (toy_network 32) (toy_root 1) 64
        toy_pool (play (toy_script toy_later) toy_pool) toy_request c
        toy_pool_steps toy_later_steps); [by vm_compute|exact Hc].
  - assert (Hsome : bool_decide (delivered_value (shared toy_pool) toy_request = None) = false)
      by (vm_compute; reflexivity).
    rewrite Hc in Hsome. discriminate Hsome.
Defined.

(** Two submissions for the open auction, worth 500 and 400. *)
Definition toy_best : SignedBidSubmission := toy_submission 201 40 41 500.
Definition toy_second : SignedBidSubmission := toy_submission 201 40 42 400.

Lemma toy_valid sub :
  bool_decide (builder_of sub ∈ builder_registry toy_inner) = true →
  bool_decide (request_of sub ∈ open_auctions (state toy_relay)) = true →
  is_ok (validate_builder_submission_trusted (registry toy_relay) (submission_message sub)
    (submission_payload sub)) = true →
  is_ok (signed_by_builder (relay_context toy_inner) sub) = true →
  submission_valid toy_inner toy_relay sub.
Proof.
  intros Hb%bool_decide_eq_true Ho%bool_decide_eq_true [[] Ht]%is_ok_true [[] Hs]%is_ok_true.
  split; try done. by apply validate_trusted_Ok.
Qed.

Lemma racing_submissions_lose_best_witness :
  ∃ pl, steps (pool_step (request any_submission toy_inner 64)) (start toy_relay) pl ∧
    best_value (shared pl) (request_of toy_best) = Some 400.
Proof.
  assert (Hok1 : is_ok (context_for toy_inner 6 toy_best) = true) by (vm_compute; reflexivity).
  assert (Hok2 : is_ok (context_for toy_inner 7 toy_second) = true) by (vm_compute; reflexivity).
  apply is_ok_true in Hok1 as [c1 Hc1]. apply is_ok_true in Hok2 as [c2 Hc2].
  destruct (racing_submissions_lose_best toy_inner 64 toy_relay toy_best toy_second 6 7 c1 c2)
    as (pl & Hsteps & _ & _ & Hbest).
  - reflexivity.
  - apply toy_valid; vm_compute; reflexivity.
  - apply toy_valid; vm_compute; reflexivity.
  - vm_compute. reflexivity.
  - exact Hc1.
  - exact Hc2.
  - exists pl. split; [exact Hsteps|exact Hbest].
Defined.

(** Alone, in either order, the better of the two is the one offered. *)
Example toy_sequential :
  best_value (submit_all toy_inner [(6, toy_best); (7, toy_second)] toy_relay)
    (request_of toy_best) = Some 500 ∧
  best_value (submit_all toy_inner [(7, toy_second); (6, toy_best)] toy_relay)
    (request_of toy_best) = Some 500.
Proof. by vm_compute. Qed.

Lemma racing_registrations_go_back_witness :
  ∃ pl, steps (pool_step (request any_submission toy_inner 64)) (start toy_relay) pl ∧
    timestamp_of <$> get_signed_registration (registry (shared pl)) (toy_pk 1005) = Some 30.
Proof.
  destruct (racing_registrations_go_back toy_inner 64 toy_relay 1000 (toy_registration 40)
    (toy_registration 30)) as (pl & Hsteps & _ & _ & Hreg).
  - by vm_compute.
  - reflexivity.
  - vm_compute. reflexivity.
  - vm_compute. reflexivity.
  - exists pl. split; [exact Hsteps|]. change (toy_pk 1005) with (key_of (toy_registration 40)).
    rewrite Hreg. reflexivity.
Defined.
End examples.
