(* ===== verification/AuctionHouse.v ===== *)
(** The relay as an auction house.

    The house is the specification: it knows which auctions are open, which bid is on
    show in each, and which bid was recorded as sold.  Its ledger is a list of events,
    some of which are only [legal] after others.  The relay implements it: whatever the
    interleaving of its handlers, its state is the one of some legal ledger, and every
    answer it gives, an error included, was true at moments of that ledger in the order
    the handler looked at them. *)

From S2P Require Import Prelude.
From S2P Require Import Consensus.
From S2P Require Import Types.
From S2P Require Import Signing.
From S2P Require Import ValidatorRegistry.
From S2P Require Import ProposerScheduler.
From S2P Require Import AuctionContext.
From S2P Require Import Tasks.
From S2P Require Import Traces.
From S2P Require Import RelayBlocks.
From S2P Require Import Relay.
From S2P Require Import RelaySpec.
From S2P Require Import RelaySafety.
From S2P Require Import Toy.

#[local] Open Scope N_scope.

Section house.
Context `{CF : ConsensusFunctions} `{BS : !BuilderSignable}.
(** The submissions that arrive. *)
Context (arrived : SignedBidSubmission → Prop).
Implicit Types (k : AuctionRequest) (c : AuctionContext) (sub : SignedBidSubmission).
Implicit Types (inner : Inner) (s : Shared) (st : Relay.State) (a : Arc).

(** * The specification *)

Record house : Type := {
  open : gset AuctionRequest;
  shown : gmap AuctionRequest AuctionContext;
  recorded : gmap AuctionRequest AuctionContext;
}.

Inductive event : Type :=
| Opens k
| Closes (now : N)
| Shows k c
| Records k c
| Forgets (before : N).

Implicit Types (h : house) (t : list event).

Definition empty_house : house := {| open := ∅; shown := ∅; recorded := ∅ |}.

(** An auction closes when a slot after its own is over; the first bid that is recorded
    for an auction stays. *)
Definition house_step h (e : event) : house :=
  match e with
  | Opens k => {| open := {[k]} ∪ open h; shown := shown h; recorded := recorded h |}
  | Closes now =>
      {| open := retain_set (λ k, now ≤ u64_add (slot k) 1) (open h);
         shown := shown h; recorded := recorded h |}
  | Shows k c => {| open := open h; shown := <[k := c]> (shown h); recorded := recorded h |}
  | Records k c =>
      {| open := open h; shown := shown h;
         recorded := match recorded h !! k with
                     | Some _ => recorded h
                     | None => <[k := c]> (recorded h)
                     end |}
  | Forgets before =>
      {| open := open h;
         shown := retain_keys (λ k, before ≤ slot k) (shown h);
         recorded := retain_keys (λ k, before ≤ slot k) (recorded h) |}
  end.

#[local] Notation house_after := (after house_step empty_house).
#[local] Notation moments := (moments house_step empty_house).

Definition is_open k h : Prop := k ∈ open h.
Definition is_closed k h : Prop := k ∉ open h.
Definition shows k c h : Prop := shown h !! k = Some c.
Definition shows_nothing k h : Prop := shown h !! k = None.
Definition shows_at_most k (v : N) h : Prop := ∀ c, shows k c h → value c ≤ v.
Definition shows_more k (v : N) h : Prop := ∃ c, shows k c h ∧ v < value c.
Definition has_record k h : Prop := is_Some (recorded h !! k).

(** A bid is put on show when it can be sold, after the auction was open and then showed
    nothing better; and a bid is recorded when it was on show after the auction was
    open. *)
Definition legal inner t (e : event) : Prop :=
  match e with
  | Shows k c => sold arrived inner k c ∧ moments [shows_at_most k (value c); is_open k] t
  | Records k c => moments [shows k c; is_open k] t
  | _ => True
  end.

(** What makes a reply right. *)
Definition justified inner t (r : Reply) : Prop :=
  match r with
  | Reply_bid k (Ok bid) =>
      ∃ c, bid = signed_builder_bid c ∧ moments [shows k c; is_open k] t
  | Reply_bid k (Err e) =>
      e = Error_Relay (InvalidAuctionRequest k) ∧ moments [is_closed k] t ∨
      e = NoBidPrepared k ∧ moments [shows_nothing k; is_open k] t
  | Reply_contents b (Ok contents) =>
      ∃ k c, slot k = blinded_slot (blinded_message b) ∧
        contents = to_auction_contents c ∧
        bid_header (signed_bid_message (signed_builder_bid c))
          = blinded_payload_header (blinded_message b) ∧
        verify_blinded_block_signature k b (genesis_validators_root inner) (relay_context inner)
          = Ok tt ∧
        moments [has_record k; shows k c; is_open k] t
  | Reply_contents b (Err (Error_Relay (InvalidAuctionRequest k))) => moments [is_closed k] t
  | Reply_contents b (Err (Error_Relay (MissingAuction k))) =>
      moments [shows_nothing k; is_open k] t
  | Reply_contents b (Err (Error_Relay InvalidSignedBlindedBeaconBlock)) =>
      ∃ k c, slot k = blinded_slot (blinded_message b) ∧ moments [shows k c; is_open k] t
  | Reply_submitted sub (Ok _) =>
      let k := request_of sub in let v := trace_value (submission_message sub) in
      moments [shows_more k v; is_open k] t ∨
      ∃ d c, context_for inner d sub = Ok c ∧
        moments [shows k c; shows_at_most k v; is_open k] t
  | Reply_submitted sub (Err (Error_Relay (InvalidAuctionRequest k))) =>
      k = request_of sub ∧ moments [is_closed k] t
  | _ => True
  end.

(** * Ledgers grow *)

Lemma justified_lasting inner : lasting (justified inner).
Proof.
  intros t t' r Hpre. assert (Hlater : ∀ Ps, moments Ps t → moments Ps t').
  { intros Ps HPs. by eapply moments_later. }
  destruct r as [|r|r|k [bid|e]|b [contents|e]|sub [[]|e]|r|key r]; simpl; try done.
  - naive_solver.
  - naive_solver.
  - intros (k & c & ? & ? & ? & ? & ?). exists k, c. auto 10.
  - repeat case_match; try done; [naive_solver..|].
    intros (k & c & ? & ?). exists k, c. auto.
  - intros [?|(d & c & ? & ?)]; [left; auto|right; exists d, c; auto].
  - repeat case_match; naive_solver.
Qed.

(** * The implementation *)

Definition house_of st : house := {|
  open := open_auctions st;
  shown := arc_val <$> auctions st;
  recorded := arc_val <$> delivered_payloads st;
|}.

(** What is kept for the data API was on show. *)
Definition archive_ok st t : Prop :=
  map_Forall (λ k cs, Forall (λ c, moments [shows k c] t) cs) (other_submissions st).

Record ledger_of inner s t : Prop := {
  ledger_house : house_of (state s) = house_after t;
  ledger_legal : legal_ledger (legal inner) t;
  ledger_archive : archive_ok (state s) t;
}.

Lemma archive_later st t t' : archive_ok st t → t `prefix_of` t' → archive_ok st t'.
Proof.
  intros Hst Hpre k cs Hcs. apply (Forall_impl _ _ _ (Hst k cs Hcs)). intros c Hc.
  by eapply moments_later.
Qed.

(** The state changes as the house does on a legal event. *)
Lemma ledger_event inner s s' t e :
  ledger_of inner s t → legal inner t e →
  house_of (state s') = house_step (house_of (state s)) e →
  archive_ok (state s') (t ++ [e]) →
  ledger_of inner s' (t ++ [e]).
Proof.
  intros [Hh Hl _] He Hs' Ha. split; [|by apply legal_ledger_snoc|done].
  by rewrite after_snoc, <-Hh.
Qed.

(** The house does not see the change. *)
Lemma ledger_frame inner s s' t :
  ledger_of inner s t → house_of (state s') = house_of (state s) →
  other_submissions (state s') = other_submissions (state s) → ledger_of inner s' t.
Proof.
  intros [Hh Hl Ha] Hs' Ho. split; [by rewrite Hs'|done|]. unfold archive_ok. by rewrite Ho.
Qed.

Lemma house_of_insert_bid k c st :
  house_of (insert_bid k c st) = house_step (house_of st) (Shows k c).
Proof.
  unfold house_of. rewrite insert_bid_open, insert_bid_auctions, insert_bid_delivered.
  by rewrite fmap_insert.
Qed.

Lemma house_of_deliver k a st :
  house_of (deliver k a st).1 = house_step (house_of st) (Records k (arc_val a)).
Proof.
  unfold deliver, house_of. simpl. rewrite lookup_fmap.
  destruct (delivered_payloads st !! k) as [e|] eqn:He; simpl; [|by rewrite fmap_insert].
  case_decide as Hne; simpl; [done|]. f_equal. rewrite fmap_insert. apply insert_id.
  rewrite lookup_fmap, He. simpl. f_equal. by destruct (decide (arc_val e = arc_val a)).
Qed.

Lemma retain_keys_fmap (P : AuctionRequest → Prop) `{!∀ k, Decision (P k)}
    (m : gmap AuctionRequest Arc) :
  arc_val <$> retain_keys P m = retain_keys P (arc_val <$> m).
Proof.
  apply map_eq. intros k. rewrite lookup_fmap, !lookup_retain_keys, lookup_fmap.
  by case_decide.
Qed.

Lemma house_of_prune before st :
  house_of (prune before st) = house_step (house_of st) (Forgets before).
Proof. unfold house_of. simpl. by rewrite !retain_keys_fmap. Qed.

(** ** The handlers *)

Section handlers.
Context (inner : Inner).

#[local] Notation ensures_task := (ensures (relay_ok arrived inner) (ledger_of inner)).

Lemma ensures_unseen {B} (f : Shared → Shared * B) t :
  (∀ s, house_of (state (f s).1) = house_of (state s) ∧
        other_submissions (state (f s).1) = other_submissions (state s)) →
  ensures_task (critical f) (λ _ _, True) t.
Proof.
  intros Hf. apply ensures_silent. intros s t' _ _ Hs _. split; [|done].
  destruct (Hf s). by eapply ledger_frame.
Qed.

Lemma fetch_duties_ensures spe api epoch duties t :
  ensures_task (fetch_duties_if_missing spe api epoch duties) (λ _ _, True) t.
Proof.
  eapply (ensures_bind _ _ _ _ (λ _ _, True)); [by apply ensures_unseen|]. intros [] t1 _ _; [done|].
  by destruct (api epoch) as [[root fetched]|e].
Qed.

Lemma refresh_ensures node epoch t :
  ensures_task (refresh_proposer_schedule inner node epoch) (λ _ _, True) t.
Proof.
  eapply (ensures_bind _ _ _ _ (λ _ _, True)); [|done].
  eapply (ensures_bind _ _ _ _ (λ _ _, True)).
  - eapply (ensures_bind _ _ _ _ (λ _ _, True)); [apply fetch_duties_ensures|]. intros [] t1 _ _.
    eapply (ensures_bind _ _ _ _ (λ _ _, True)); [apply fetch_duties_ensures|]. by intros [].
  - intros duties t1 _ _. eapply ensures_bind; [apply ensures_read_each|]. intros scheduled t2 _ _.
    eapply (ensures_bind _ _ _ _ (λ _ _, True)); [by apply ensures_unseen|done].
Qed.

Lemma drop_context_ensures a t : ensures_task (drop_context a) (λ _ _, True) t.
Proof. by apply ensures_unseen. Qed.

Lemma on_epoch_ensures node epoch t :
  ensures_task (on_epoch inner node epoch) (λ _ _, True) t.
Proof.
  eapply ensures_bind; [by apply (ensures_unseen _ t)|]. intros _ t1 _ _.
  eapply ensures_bind; [by apply refresh_ensures|]. intros _ t2 _ _.
  apply (ensures_event _ _ _ (Forgets (retain_slot_for inner epoch))).
  intros s t' _ _ Hs _. split; [|done]. apply (ledger_event inner s); [done|done| |].
  - apply house_of_prune.
  - intros k cs [Hcs _]%lookup_retain_keys_Some. eapply archive_later; [|by apply prefix_app_r|done].
    by destruct Hs.
Qed.

Lemma on_slot_ensures node now t : ensures_task (on_slot inner node now) (λ _ _, True) t.
Proof.
  eapply ensures_bind; [by apply (ensures_unseen _ t)|]. intros keys t1 _ _.
  eapply ensures_bind with (Q := λ _ _, True).
  { case_decide; [apply refresh_ensures|done]. }
  intros _ t2 _ _. apply (ensures_event _ _ _ (Closes now)).
  intros s t' _ _ Hs _. split; [|done]. apply (ledger_event inner s); [done..|].
  eapply archive_later; [by destruct Hs|by apply prefix_app_r].
Qed.

Lemma on_payload_attributes_ensures event t :
  ensures_task (on_payload_attributes event) (λ _ _, True) t.
Proof.
  eapply (ensures_try _ _ _ _ (λ _ _, True)); [by apply ensures_unseen|done|].
  intros key t1 _ _. eapply ensures_bind with (Q := λ _ _, True); [|done].
  apply (ensures_event _ _ _ (Opens {|
    slot := event_proposal_slot event; parent_hash := event_parent_block_hash event;
    public_key := key |})).
  intros s t' _ _ Hs _. split; [|done]. apply (ledger_event inner s); [done..|].
  eapply archive_later; [by destruct Hs|by apply prefix_app_r].
Qed.

Lemma register_validators_ensures order nanos registrations t :
  ensures_task (register_validators inner order nanos registrations) (λ _ _, True) t.
Proof.
  unfold register_validators. destruct (u64_try_from nanos) as [now|]; [|done].
  eapply ensures_bind; [apply ensures_read_par|].
  intros results t1 _ _. eapply ensures_bind with (Q := λ _ _, True).
  - apply ensures_unseen. intros s. by destruct (apply_registrations _ _).
  - intros keys t2 _ _. by eapply ensures_bind; [by apply (ensures_unseen _ t2)|].
Qed.

Lemma validate_auction_request_ensures k t :
  ensures_task (validate_auction_request k) (λ t r,
    match r with
    | Ok _ => moments [is_open k] t
    | Err e => e = InvalidAuctionRequest k ∧ moments [is_closed k] t
    end) t.
Proof.
  apply ensures_read. intros s t' _ _ [Hh _ _].
  case_decide as Hopen; [|split; [done|]]; apply moments_now; try done;
    unfold is_open, is_closed; by rewrite <-Hh.
Qed.

(** The same, as [open_bid], [fetch_best_bid] and [submit_bid] ask it. *)
Lemma check_open_ensures {B} k (f : task Shared (result Error B)) (Q : list event → result Error B → Prop) t :
  (∀ t', t `prefix_of` t' → moments [is_closed k] t' →
     Q t' (Err (Error_Relay (InvalidAuctionRequest k)))) →
  (∀ t', t `prefix_of` t' → moments [is_open k] t' → ensures_task f Q t') →
  ensures_task (_ ←? map_err Error_Relay <$> validate_auction_request k; f) Q t.
Proof.
  intros Hclosed Hopen.
  apply (ensures_try _ _ _ _ (λ t r,
    match r with
    | Ok _ => moments [is_open k] t
    | Err e => e = Error_Relay (InvalidAuctionRequest k) ∧ moments [is_closed k] t
    end)).
  - apply ensures_fmap. eapply ensures_mono, validate_auction_request_ensures.
    intros t' [[]|e] _; simpl; [done|]. by intros [-> ?].
  - intros e t' Hpre [-> ?]. by apply Hclosed.
  - intros _ t' Hpre Ht'. by apply Hopen.
Qed.

Lemma get_auction_context_ensures k t :
  ensures_task (get_auction_context k) (λ t' o,
    ∀ Ps, moments Ps t →
      match o with
      | Some a => moments (shows k (arc_val a) :: Ps) t'
      | None => moments (shows_nothing k :: Ps) t'
      end) t.
Proof.
  apply ensures_silent. intros s t' Hpre _ Hs _.
  assert (Hshown : shown (house_after t') !! k = arc_val <$> auctions (state s) !! k).
  { destruct Hs as [<- _ _]. apply lookup_fmap. }
  destruct (auctions (state s) !! k) as [a|]; simpl in *.
  - split; [by eapply ledger_frame|]. intros Ps HPs. apply moments_now; [done|].
    by eapply moments_later.
  - split; [done|]. intros Ps HPs. apply moments_now; [done|]. by eapply moments_later.
Qed.

(** The same, when there must be a context. *)
Lemma find_context_ensures {B} k (missing : Error) (f : Arc → task Shared (result Error B))
    (Q : list event → result Error B → Prop) Ps t :
  moments Ps t →
  (∀ t', t `prefix_of` t' → moments (shows_nothing k :: Ps) t' → Q t' (Err missing)) →
  (∀ a t', t `prefix_of` t' → moments (shows k (arc_val a) :: Ps) t' → ensures_task (f a) Q t') →
  ensures_task (a ←? (λ o, ok_or o missing) <$> get_auction_context k; f a) Q t.
Proof.
  intros HPs Hnone Hsome.
  apply (ensures_try _ _ _ _ (λ t' r,
    match r with
    | Ok a => moments (shows k (arc_val a) :: Ps) t'
    | Err e => e = missing ∧ moments (shows_nothing k :: Ps) t'
    end)).
  - apply ensures_fmap. eapply ensures_mono, get_auction_context_ensures.
    intros t' [a|] _ Ho; simpl; [by apply Ho|]. split; [done|by apply Ho].
  - intros e t' Hpre [-> ?]. by apply Hnone.
  - intros a t' Hpre Ht'. by apply Hsome.
Qed.

Lemma fetch_best_bid_ensures k t :
  ensures_task (fetch_best_bid k) (λ t r, justified inner t (Reply_bid k r)) t.
Proof.
  apply check_open_ensures; [by left|]. intros t1 _ H1.
  apply (find_context_ensures k _ _ _ _ _ H1); [by right|]. intros a t2 _ H2.
  eapply ensures_bind; [apply drop_context_ensures|]. intros _ t3 Hpre _.
  exists (arc_val a). split; [done|]. by eapply moments_later.
Qed.

Lemma reject_ensures b a e t :
  justified inner t (Reply_contents b (Err e)) →
  ensures_task (reject a e) (λ t r, justified inner t (Reply_contents b r)) t.
Proof.
  intros He. eapply ensures_bind; [apply drop_context_ensures|]. intros _ t' Hpre _.
  by eapply justified_lasting.
Qed.

Lemma store_delivered_payload_ensures k a t :
  moments [shows k (arc_val a); is_open k] t →
  ensures_task (store_delivered_payload k a) (λ t' _,
    moments [has_record k; shows k (arc_val a); is_open k] t') t.
Proof.
  intros Hk. eapply ensures_bind.
  - apply (ensures_event _ _ _ (Records k (arc_val a)) (λ t' _,
      moments [has_record k; shows k (arc_val a); is_open k] t')).
    intros s t' Hpre _ Hs _.
    assert (Hk' : moments [shows k (arc_val a); is_open k] t') by (by eapply moments_later).
    pose proof (house_of_deliver k a (state s)) as Hdeliver. split.
    + apply (ledger_event inner s); [done|done| |].
      * destruct (deliver k a (state s)). by simpl in *.
      * assert (Hsame : other_submissions (deliver k a (state s)).1 = other_submissions (state s)).
        { unfold deliver. repeat case_match; done. }
        unfold archive_ok. destruct (deliver k a (state s)). simpl in *. rewrite Hsame.
        eapply archive_later; [by destruct Hs|by apply prefix_app_r].
    + apply moments_now; [|by eapply moments_later, prefix_app_r].
      rewrite after_snoc. unfold has_record. simpl.
      destruct (recorded _ !! k) as [c|] eqn:Hc; [by rewrite Hc|]. by rewrite lookup_insert_eq.
  - intros [] t' _ Ht'; [done|]. eapply ensures_mono, drop_context_ensures.
    intros t'' _ Hpre _. by eapply moments_later.
Qed.

Lemma open_bid_ensures node b t :
  ensures_task (open_bid inner node b) (λ t r, justified inner t (Reply_contents b r)) t.
Proof.
  eapply (ensures_try _ _ _ _ (λ _ r, match r with
    | Ok _ => True
    | Err e => e = Error_Relay (UnknownValidatorIndex (blinded_proposer_index (blinded_message b)))
    end)).
  { apply ensures_read. intros s t' _ _ _. by destruct (get_public_key _ _). }
  { by intros e t' _ ->. }
  intros key t1 _ _. set (k := Build_AuctionRequest _ _ key).
  apply (check_open_ensures k); [done|]. intros t2 _ H2.
  apply (find_context_ensures k _ _ _ _ _ H2); [done|]. intros a t3 _ H3.
  assert (Hinvalid : justified inner t3
    (Reply_contents b (Err (Error_Relay InvalidSignedBlindedBeaconBlock)))).
  { by exists k, (arc_val a). }
  ensures_match Hh; [destruct a0|by apply reject_ensures].
  ensures_match Hsig; [destruct a0|by apply reject_ensures].
  ensures_match Hfull; [|by apply reject_ensures]. ensures_match Hroot; [|by apply reject_ensures].
  ensures_match Hpost; [|by apply reject_ensures].
  eapply ensures_bind; [by apply (store_delivered_payload_ensures k)|]. intros [] t4 _ Hstored.
  apply validate_header_equality_Ok in Hh. by exists k, (arc_val a).
Qed.

(** Putting a bid on show. *)
Lemma show_ensures k c t :
  moments [shows_at_most k (value c); is_open k] t →
  ensures_task (modify (update_state (insert_bid k c))) (λ t' _,
    moments [shows k c; shows_at_most k (value c); is_open k] t') t.
Proof.
  intros Hk. apply (ensures_event _ _ _ (Shows k c)). intros s t' Hpre _ Hs Hs'.
  assert (Hk' : moments [shows_at_most k (value c); is_open k] t') by (by eapply moments_later).
  assert (Hpre' : t' `prefix_of` t' ++ [Shows k c]) by (by apply prefix_app_r). split.
  - apply (ledger_event inner s); [done| |apply house_of_insert_bid|].
    + split; [|done]. apply (ok_auctions _ _ _ Hs' k {| arc_id := next_arc (state s); arc_val := c |}).
      simpl. by rewrite insert_bid_auctions, lookup_insert_eq.
    + intros k' cs Hcs. apply Forall_forall. intros c' Hc'. apply (moments_later _ _ _ t'); [|done].
      destruct (insert_bid_others k c (state s) k' cs c') as [(cs' & Hcs' & Hin)|(-> & a & Ha & <-)];
        [done..| |].
      * pose proof (ledger_archive _ _ _ Hs k' cs' Hcs') as Hall. rewrite Forall_forall in Hall.
        by apply Hall.
      * apply moments_now; [|done]. unfold shows. rewrite <-(ledger_house _ _ _ Hs).
        simpl. by rewrite lookup_fmap, Ha.
  - apply moments_now; [|by eapply moments_later]. rewrite after_snoc. apply lookup_insert_eq.
Qed.

Lemma insert_bid_if_greater_ensures sub d t :
  let v := trace_value (submission_message sub) in
  moments [is_open (request_of sub)] t →
  ensures_task (insert_bid_if_greater inner (request_of sub) sub v d)
    (λ t r, justified inner t (Reply_submitted sub r)) t.
Proof.
  intros v Hopen. set (k := request_of sub) in *.
  eapply ensures_bind; [apply get_auction_context_ensures|]. intros existing t1 _ Hexisting.
  specialize (Hexisting _ Hopen).
  eapply ensures_bind with (Q := λ t (ignore : bool),
    if ignore then moments [shows_more k v; is_open k] t
    else moments [shows_at_most k v; is_open k] t).
  { destruct existing as [bid|].
    - eapply ensures_bind; [apply drop_context_ensures|]. intros _ t2 Hpre _. simpl.
      apply (moments_later _ _ _ _ t2) in Hexisting; [|done].
      case_bool_decide; eapply moments_mono; try exact Hexisting; intros h Hh;
        [by exists (arc_val bid)|].
      intros c Hc. unfold shows in *. assert (c = arc_val bid) as -> by congruence. lia.
    - simpl. eapply moments_mono; [|exact Hexisting]. intros h Hh c Hc.
      unfold shows, shows_nothing in *. congruence. }
  intros [] t2 _ Hignore; [by left|].
  eapply (ensures_try _ _ _ _ (λ _ r, r = context_for inner d sub)); [done| |].
  { intros e t3 _ He. symmetry in He. by apply new_error in He as [e' ->]. }
  intros c t3 Hpre Hc. apply (moments_later _ _ _ _ t3) in Hignore; [|done].
  pose proof (new_value _ _ _ _ _ _ (eq_sym Hc)) as Hvalue. fold v in Hvalue.
  eapply ensures_bind; [apply (show_ensures k c); by rewrite Hvalue|].
  intros [] t4 _ Hshown. right. exists d, c. split; [done|]. by rewrite Hvalue in Hshown.
Qed.

Lemma submit_bid_ensures sub d t :
  ensures_task (submit_bid inner d sub) (λ t r, justified inner t (Reply_submitted sub r)) t.
Proof.
  eapply (ensures_try _ _ _ _ (λ _ r, r = validate_allowed_builder inner (builder_of sub)));
    [done| |].
  { intros e t1 _ He. unfold validate_allowed_builder in He. case_decide; [done|].
    by injection He as ->. }
  intros _ t1 _ _. apply (check_open_ensures (request_of sub)); [done|]. intros t2 _ H2.
  eapply (ensures_try _ _ _ _ (λ t r, justified inner t (Reply_submitted sub
    (match r with Ok _ => Err (Error_Relay InvalidSignedBlindedBeaconBlock) | Err e => Err e end)))).
  { apply ensures_read. intros s t' _ _ _.
    destruct (validate_builder_submission_trusted _ _ _) as [[]|e] eqn:He; [done|].
    unfold validate_builder_submission_trusted in He. destruct (get_signed_registration _ _); simpl in He;
      repeat case_decide; by simplify_eq. }
  { done. }
  intros _ t3 Hpre _. apply (moments_later _ _ _ _ t3) in H2; [|done].
  eapply (ensures_try _ _ _ _ (λ _ r, ∀ e, r = Err e → ∃ e', e = Error_Consensus e')).
  { simpl. destruct (verify_signed_builder_data _ _ _ _); simpl; [done|]. intros e' [= <-]. eauto. }
  { intros e t4 _ He. by destruct (He e eq_refl) as [e' ->]. }
  intros _ t4 Hpre' _. apply insert_bid_if_greater_ensures. by eapply moments_later.
Qed.
End handlers.

(** * The refinement *)

Lemma request_ensures inner horizon p :
  request arrived inner horizon p →
  ensures (relay_ok arrived inner) (ledger_of inner) p (justified inner) [].
Proof.
  intros Hp. destruct Hp; apply ensures_fmap.
  - apply on_epoch_ensures.
  - apply on_slot_ensures.
  - eapply ensures_mono, on_payload_attributes_ensures. done.
  - eapply ensures_mono, register_validators_ensures. done.
  - apply fetch_best_bid_ensures.
  - apply open_bid_ensures.
  - apply submit_bid_ensures.
  - by apply ensures_read.
  - by apply ensures_read.
Qed.

Lemma new_ledger sk builders ctx root :
  ledger_of (new sk builders ctx root).1 (new sk builders ctx root).2 [].
Proof.
  split; [|by intros [] ? ?|done]. unfold house_of. simpl. by rewrite !fmap_empty.
Qed.

(** The ledger [t] explains the relay: it is legal and ends in the relay's state, it
    justifies every reply, and what is kept for the data API was on show. *)
Definition explains inner t (pl : pool Shared Reply) : Prop :=
  legal_ledger (legal inner) t ∧ house_of (state (shared pl)) = house_after t ∧
  Forall (justified inner t) (finished pl) ∧ archive_ok (state (shared pl)) t.

(** C2: The relay implements the auction house.  Whatever requests arrive and
    however their critical sections interleave, there is a legal ledger of the house
    which ends in the relay's state, and which justifies every answer: a bid was on show
    after the auction was open; a payload was released for the bid that was on show, and
    its auction then had a record of a sold payload; an accepted submission was put on
    show after a moment when nothing better was, or a better bid was on show; an auction that was refused
    was closed, or showed nothing.  And the ledger only grows: that of any later moment
    continues it. *)
Theorem relay_refines_house `{!SignableLaws BuilderBid} sk builders ctx root horizon pl :
  let '(inner, s0) := new sk builders ctx root in
  steps (pool_step (request arrived inner horizon)) (start s0) pl →
  ∃ t, explains inner t pl ∧
    ∀ pl', steps (pool_step (request arrived inner horizon)) pl pl' →
      ∃ events, explains inner (t ++ events) pl'.
Proof.
  intros Hsteps. set (inner := (new sk builders ctx root).1) in *.
  destruct (pool_has_ledger (relay_ok arrived inner) (ledger_of inner) (keeps_delivered horizon)
    (request arrived inner horizon) (reply_ok arrived inner) (justified inner) (justified_lasting inner)
    (λ p, request_safe arrived inner horizon p (new_inner_ok sk builders ctx root))
    (request_ensures inner horizon) _ pl (new_relay_ok arrived sk builders ctx root inner)
    (new_ledger sk builders ctx root) Hsteps) as (t & [? ? ?] & ? & Hlater).
  exists t. split; [done|]. intros pl' Hsteps'.
  destruct (Hlater pl' Hsteps') as (events & [? ? ?] & ?). by exists events.
Qed.
End house.

(** * Examples *)

Section examples.
Import ToyInstances.

(** A run of five requests: the ledger of the relay has the payload worth 500 on record
    and its bid on show; and it goes on while a better bid is sold. *)
Lemma relay_refines_house_witness :
  ∃ t events, explains any_submission toy_inner t toy_pool ∧
    explains any_submission toy_inner (t ++ events) (play (toy_script toy_later) toy_pool) ∧
    value <$> recorded (after house_step empty_house t) !! toy_request = Some 500 ∧
    value <$> shown (after house_step empty_house (t ++ events)) !! toy_request = Some 700.
Proof.
  destruct (relay_refines_house any_submission (toy_sk 1) [toy_pk 1002] (toy_network 32)
    (toy_root 1) 64 toy_pool toy_pool_steps) as (t & Ht & Hlater).
  destruct (Hlater _ toy_later_steps) as (events & Hevents).
  exists t, events. split; [exact Ht|]. split; [exact Hevents|].
  destruct Ht as (_ & <- & _). destruct Hevents as (_ & <- & _).
  split; vm_compute; reflexivity.
Defined.
End examples.
