(* ===== verification/RelayData.v ===== *)
(** The relay's data API, the [BlindedBlockDataProvider] of
    [mev-relay-rs/src/relay.rs]: the traces of delivered payloads and of
    submissions.

    A [HashMap] or [HashSet] is iterated in an order the program does not control.
    The iteration order is a parameter of the two queries, of which only the
    documented behaviour is assumed: every entry is visited exactly once. *)

From S2P Require Import Prelude.
From S2P Require Import Consensus.
From S2P Require Import Types.
From S2P Require Import Signing.
From S2P Require Import AuctionContext.
From S2P Require Import Tasks.
From S2P Require Import ValidatorRegistry.
From S2P Require Import RelayBlocks.
From S2P Require Import Relay.
From S2P Require Import RelaySpec.
From S2P Require Import Toy.

#[local] Open Scope N_scope.

(** [Duration::as_secs] and [Duration::as_millis] of a number of nanoseconds. *)
Definition as_secs (duration : N) : N := duration / 1000000000.
Definition as_millis (duration : N) : N := duration / 1000000.

Section relay_data.
Context `{CF : ConsensusFunctions} `{BS : !BuilderSignable}.

Definition payload_trace_from_auction (auction_context : AuctionContext) : PayloadTrace :=
  let bid_trace := bid_trace auction_context in
  let builder_bid := signed_bid_message (signed_builder_bid auction_context) in
  let header := bid_header builder_bid in
  {| pt_slot := trace_slot bid_trace;
     pt_parent_hash := trace_parent_hash bid_trace;
     pt_block_hash := trace_block_hash bid_trace;
     pt_builder_public_key := trace_builder_public_key bid_trace;
     pt_proposer_public_key := trace_proposer_public_key bid_trace;
     pt_proposer_fee_recipient := trace_proposer_fee_recipient bid_trace;
     pt_gas_limit := trace_gas_limit bid_trace;
     pt_gas_used := trace_gas_used bid_trace;
     pt_value := trace_value bid_trace;
     pt_block_number := header_block_number header;
     pt_transaction_count := payload_transaction_count (execution_payload auction_context);
     pt_blob_count :=
       default 0 ((λ bundle, N.of_nat (length (blobs bundle))) <$> blobs_bundle auction_context);
  |}.

Definition submission_trace_from_auction (auction_context : AuctionContext) : SubmissionTrace :=
  let bid_trace := bid_trace auction_context in
  let receive_duration := receive_duration auction_context in
  let builder_bid := signed_bid_message (signed_builder_bid auction_context) in
  let header := bid_header builder_bid in
  {| st_slot := trace_slot bid_trace;
     st_parent_hash := trace_parent_hash bid_trace;
     st_block_hash := trace_block_hash bid_trace;
     st_builder_public_key := trace_builder_public_key bid_trace;
     st_proposer_public_key := trace_proposer_public_key bid_trace;
     st_proposer_fee_recipient := trace_proposer_fee_recipient bid_trace;
     st_gas_limit := trace_gas_limit bid_trace;
     st_gas_used := trace_gas_used bid_trace;
     st_value := trace_value bid_trace;
     st_block_number := header_block_number header;
     st_transaction_count := payload_transaction_count (execution_payload auction_context);
     st_blob_count :=
       default 0 ((λ bundle, N.of_nat (length (blobs bundle))) <$> blobs_bundle auction_context);
     st_timestamp := as_secs receive_duration;
     st_timestamp_ms := as_millis receive_duration;
  |}.

(** The order in which the maps and the sets are iterated. *)
Class HashIteration : Type := {
  iter_map {V} (m : gmap AuctionRequest V) : list (AuctionRequest * V);
  iter_set (l : list AuctionContext) : list AuctionContext;
}.

Context {HI : HashIteration}.

(** The filters of both queries are not used. *)
Definition get_delivered_payloads : task Shared (result Error (list PayloadTrace)) :=
  read (λ s,
    let traces :=
      map (λ '(auction_request, auction_context),
             (auction_request, payload_trace_from_auction (arc_val auction_context)))
        (iter_map (delivered_payloads (state s))) in
    let traces := sort_by (λ a b, AuctionRequest_cmp a.1 b.1) traces in
    Ok (map snd (rev traces))).

Definition submission_entry_cmp (a b : AuctionRequest * SubmissionTrace) : comparison :=
  let auction_request := AuctionRequest_cmp a.1 b.1 in
  match auction_request with
  | Eq => st_timestamp_ms a.2 ?= st_timestamp_ms b.2
  | _ => auction_request
  end.

Definition get_block_submissions : task Shared (result Error (list SubmissionTrace)) :=
  read (λ s,
    let traces :=
      map (λ '(auction_request, auction_context),
             (auction_request, submission_trace_from_auction (arc_val auction_context)))
        (iter_map (auctions (state s))) in
    let other_traces :=
      iter_map (other_submissions (state s)) ≫= λ '(auction_request, contexts),
        map (λ auction_context, (auction_request, submission_trace_from_auction auction_context))
          (iter_set contexts) in
    let traces := traces ++ other_traces in
    let traces := sort_by submission_entry_cmp traces in
    Ok (map snd (rev traces))).
End relay_data.

(** * Properties *)

Section relay_data_properties.
Context `{CF : ConsensusFunctions} `{BS : !BuilderSignable} `{CL : !ConsensusLaws}.
Implicit Types (s : Shared) (k : AuctionRequest).

(** Every entry is visited exactly once. *)
Class HashIterationLaws (HI : HashIteration) : Prop := {
  iter_map_perm {V} (m : gmap AuctionRequest V) : iter_map m ≡ₚ map_to_list m;
  iter_set_perm (l : list AuctionContext) : iter_set l ≡ₚ l;
}.

(** The reply of a query, and the entries behind it. *)
Definition delivered_entries (HI : HashIteration) s : list (AuctionRequest * PayloadTrace) :=
  map (λ '(k, a), (k, payload_trace_from_auction (arc_val a)))
    (iter_map (delivered_payloads (state s))).

Definition submission_entries (HI : HashIteration) s : list (AuctionRequest * SubmissionTrace) :=
  map (λ '(k, a), (k, submission_trace_from_auction (arc_val a)))
    (iter_map (auctions (state s))) ++
  (iter_map (other_submissions (state s)) ≫= λ '(k, cs),
     map (λ c, (k, submission_trace_from_auction c)) (iter_set cs)).

#[local] Instance request_entry_cmp_pre {A} :
  CmpPre (λ a b : AuctionRequest * A, AuctionRequest_cmp a.1 b.1).
Proof. apply (cmp_pre_key AuctionRequest_cmp fst). Qed.

#[local] Instance submission_entry_cmp_pre : CmpPre submission_entry_cmp.
Proof.
  apply (cmp_pre_then (λ a b : AuctionRequest * SubmissionTrace, AuctionRequest_cmp a.1 b.1)
    (λ a b, st_timestamp_ms a.2 ?= st_timestamp_ms b.2)).
Qed.

(** A list is decreasing for a comparison when its reverse is sorted. *)
Definition newest_first {A} (cmp : A → A → comparison) (l : list A) : Prop :=
  StronglySorted (cmp_le cmp) (rev l).

Lemma elem_of_delivered_entries HI `{!HashIterationLaws HI} s k t :
  (k, t) ∈ delivered_entries HI s ↔
  ∃ a, delivered_payloads (state s) !! k = Some a ∧ t = payload_trace_from_auction (arc_val a).
Proof.
  unfold delivered_entries. rewrite list_elem_of_fmap. setoid_rewrite iter_map_perm. split.
  - intros ([k' a] & [= -> ->] & Hin%elem_of_map_to_list). by exists a.
  - intros (a & Ha & ->). exists (k, a). split; [done|]. by apply elem_of_map_to_list.
Qed.

(** The delivered payloads are listed newest auction first, each once, and
    the answer does not depend on the order in which the hash map happens to be
    iterated. *)
Theorem get_delivered_payloads_spec (HI HI' : HashIteration)
    `{!HashIterationLaws HI, !HashIterationLaws HI'} s :
  (∃ l, (run (get_delivered_payloads (HI := HI)) s) = (s, Ok (map snd l)) ∧
     l ≡ₚ map (λ '(k, a), (k, payload_trace_from_auction (arc_val a)))
            (map_to_list (delivered_payloads (state s))) ∧
     newest_first (λ a b, AuctionRequest_cmp a.1 b.1) l) ∧
  run (get_delivered_payloads (HI := HI)) s = run (get_delivered_payloads (HI := HI')) s.
Proof.
  split.
  - exists (rev (sort_by (λ a b, AuctionRequest_cmp a.1 b.1) (delivered_entries HI s))).
    split_and!; [done| |].
    + rewrite <-Permutation_rev, sort_by_perm. unfold delivered_entries.
      by rewrite iter_map_perm.
    + unfold newest_first. rewrite rev_involutive. by apply sort_by_sorted, _.
  - simpl. do 4 f_equal. apply (sort_by_unique _ (delivered_entries HI s) (delivered_entries HI' s)).
    + unfold delivered_entries. by rewrite !iter_map_perm.
    + intros [k t] [k' t'] Hx Hy Heq%(cmp_eq AuctionRequest_cmp). simpl in Heq. subst k'.
      apply elem_of_delivered_entries in Hx as (a & Ha & ->); [|done].
      apply elem_of_delivered_entries in Hy as (a' & Ha' & ->); [|done]. by simplify_eq.
Qed.

(** The contexts kept for an auction. *)
Definition kept s k (c : AuctionContext) : Prop :=
  (∃ a, auctions (state s) !! k = Some a ∧ arc_val a = c) ∨
  (∃ cs, other_submissions (state s) !! k = Some cs ∧ c ∈ cs).

(** [a] is listed before [b]: its slot is later; or its parent hash, and then its
    proposer's key, is greater; or it was received for the same auction and not in an
    earlier millisecond. *)
Definition listed_before (a b : AuctionRequest * SubmissionTrace) : Prop :=
  slot b.1 < slot a.1 ∨
  slot b.1 = slot a.1 ∧
    (Hash32_cmp (parent_hash b.1) (parent_hash a.1) = Lt ∨
     parent_hash b.1 = parent_hash a.1 ∧
       (BlsPublicKey_cmp (public_key b.1) (public_key a.1) = Lt ∨
        public_key b.1 = public_key a.1 ∧ st_timestamp_ms b.2 ≤ st_timestamp_ms a.2)).

Lemma listed_before_spec a b : cmp_le submission_entry_cmp b a ↔ listed_before a b.
Proof.
  destruct a as [[sa pa ka] ta], b as [[sb pb kb] tb].
  unfold cmp_le, submission_entry_cmp, listed_before, AuctionRequest_cmp. simpl.
  pose proof (cmp_eq Hash32_cmp pb pa) as Hp. pose proof (cmp_eq BlsPublicKey_cmp kb ka) as Hk.
  destruct (N.compare_spec sb sa) as [->|Hlt|Hgt]; simpl.
  2: { split; [by left|done]. }
  2: { split; [done|intros [?|[? _]]; lia]. }
  destruct (Hash32_cmp pb pa); simpl.
  2: { split; [intros _; right; split; [done|by left]|done]. }
  2: { split; [done|intros [?|[_ [?|[Heq _]]]]; [lia|done|by apply Hp in Heq]]. }
  destruct (proj1 Hp eq_refl). destruct (BlsPublicKey_cmp kb ka); simpl.
  2: { split; [intros _; right; split; [done|right; split; [done|by left]]|done]. }
  2: { split; [done|intros [?|[_ [?|[_ [?|[Heq _]]]]]]; [lia|done|done|by apply Hk in Heq]]. }
  destruct (proj1 Hk eq_refl). rewrite N.compare_le_iff. split.
  - intros Hle. right. split; [done|]. right. split; [done|]. by right.
  - intros [?|[_ [?|[_ [?|[_ ?]]]]]]; [lia|done..].
Qed.

Lemma sorted_rev {A} (R R' : relation A) (l : list A) :
  (∀ x y, R y x → R' x y) → StronglySorted R (rev l) → StronglySorted R' l.
Proof.
  intros HR. induction l as [|x l IH]; simpl; [constructor|].
  intros (Hx & Hl & _)%StronglySorted_app. constructor; [by apply IH|].
  apply Forall_forall. intros y Hy. apply HR, Hx; [|left]. by rewrite <-Permutation_rev.
Qed.

(** One entry for each context that the relay keeps. *)
Definition kept_entries s : list (AuctionRequest * SubmissionTrace) :=
  map (λ '(k, a), (k, submission_trace_from_auction (arc_val a))) (map_to_list (auctions (state s))) ++
  (map_to_list (other_submissions (state s)) ≫= λ '(k, cs),
     map (λ c, (k, submission_trace_from_auction c)) cs).

Lemma submission_entries_kept HI `{!HashIterationLaws HI} s :
  submission_entries HI s ≡ₚ kept_entries s.
Proof.
  unfold submission_entries, kept_entries. f_equiv; [by rewrite iter_map_perm|].
  rewrite iter_map_perm. induction (map_to_list (other_submissions (state s))) as [|[k cs] l IH]; [done|].
  csimpl. by rewrite IH, iter_set_perm.
Qed.

Lemma elem_of_kept_entries s k t :
  (k, t) ∈ kept_entries s ↔ ∃ c, kept s k c ∧ t = submission_trace_from_auction c.
Proof.
  unfold kept_entries, kept. rewrite elem_of_app, list_elem_of_fmap, list_elem_of_bind. split.
  - intros [([k' a] & [= -> ->] & Ha%elem_of_map_to_list)
           |([k' cs] & Hin & Hcs%elem_of_map_to_list)].
    + exists (arc_val a). eauto.
    + apply list_elem_of_fmap in Hin as (c & [= -> ->] & Hc). exists c. eauto.
  - intros (c & [(a & Ha & <-)|(cs & Hcs & Hc)] & ->).
    + left. exists (k, a). split; [done|]. by apply elem_of_map_to_list.
    + right. exists (k, cs). split; [|by apply elem_of_map_to_list].
      apply list_elem_of_fmap. by exists c.
Qed.

(** C37: The submissions are listed by slot, then by the parent hash and the proposer of
    their auction, and within an auction by the millisecond they were received in, always
    the latest or greatest first.  There is exactly one entry for each context that the
    relay keeps: the best of each auction, and those among its other submissions (where a
    replaced one is only when nothing else referred to it). *)
Theorem get_block_submissions_spec (HI : HashIteration) `{!HashIterationLaws HI} s :
  ∃ l, run (get_block_submissions (HI := HI)) s = (s, Ok (map snd l)) ∧
    StronglySorted listed_before l ∧ l ≡ₚ kept_entries s ∧
    (∀ k t, (k, t) ∈ l ↔ ∃ c, kept s k c ∧ t = submission_trace_from_auction c).
Proof.
  exists (rev (sort_by submission_entry_cmp (submission_entries HI s))).
  assert (Hperm : rev (sort_by submission_entry_cmp (submission_entries HI s)) ≡ₚ kept_entries s)
    by by rewrite <-Permutation_rev, sort_by_perm, submission_entries_kept.
  split_and!; [done| |done|].
  - apply (sorted_rev (cmp_le submission_entry_cmp)); [intros; by apply listed_before_spec|].
    rewrite rev_involutive.
    apply sort_by_sorted, _.
  - intros k t. rewrite Hperm. apply elem_of_kept_entries.
Qed.

(** ** What replacing the best bid keeps *)

Lemma held_insert (m : gmap AuctionRequest Arc) k x k' c :
  (∃ a, <[k := x]> m !! k' = Some a ∧ arc_val a = c) ↔
    (k' = k ∧ c = arc_val x) ∨ (k' ≠ k ∧ ∃ a, m !! k' = Some a ∧ arc_val a = c).
Proof. destruct (decide (k' = k)) as [->|Hne]; simplify_map_eq; naive_solver. Qed.

Lemma others_insert (m : gmap AuctionRequest (list AuctionContext)) k x k' c :
  (∃ cs, <[k := hs_insert x (default [] (m !! k))]> m !! k' = Some cs ∧ c ∈ cs) ↔
    (k' = k ∧ c = x) ∨ ∃ cs, m !! k' = Some cs ∧ c ∈ cs.
Proof.
  destruct (decide (k' = k)) as [->|Hne]; simplify_map_eq; [|naive_solver].
  split.
  - intros (cs & [= <-] & [->|Hc]%elem_of_hs_insert); [by left; split|right].
    destruct (m !! k) as [cs|]; [by exists cs|]. by apply elem_of_nil in Hc.
  - intros Hc. eexists. split; [done|]. apply elem_of_hs_insert.
    destruct Hc as [[_ ->]|(cs & -> & Hc)]; [by left|by right].
Qed.

(** Inserting a better bid leaves other auctions alone, keeps the
    submissions the auction had replaced before, and keeps the one it replaces
    exactly when nothing else refers to it: not when it has been delivered, and not
    while a request that reads it is running. *)
Theorem insert_bid_kept s k c k' c' :
  kept (update_state (insert_bid k c) s) k' c' ↔
    (k' ≠ k ∧ kept s k' c') ∨
    (k' = k ∧ (c' = c ∨
       (∃ cs, other_submissions (state s) !! k = Some cs ∧ c' ∈ cs) ∨
       (∃ a, auctions (state s) !! k = Some a ∧ arc_val a = c' ∧ unreferenced s k a))).
Proof.
  unfold kept. cbn [update_state state].
  destruct (auctions (state s) !! k) as [a|] eqn:Hk; unfold insert_bid; rewrite Hk;
    cbn [mbind option_bind].
  2: { cbn [auctions other_submissions]. rewrite held_insert. cbn [arc_val].
       destruct (decide (k' = k)) as [->|Hne]; naive_solver. }
  set (st := Build_State _ _ _ _ _ _ _).
  pose proof (into_inner_replaced s k a c st Hk eq_refl eq_refl eq_refl) as Hinto.
  destruct (into_inner st a) as [old|]; cbn [st auctions other_submissions].
  - destruct (proj1 (Hinto old) eq_refl) as [<- Hun].
    rewrite held_insert, others_insert. cbn [arc_val].
    destruct (decide (k' = k)) as [->|Hne]; naive_solver.
  - assert (Hnot : ¬ unreferenced s k a).
    { intros Hun. pose proof (proj2 (Hinto (arc_val a)) (conj eq_refl Hun)) as Hn. discriminate Hn. }
    rewrite held_insert. cbn [arc_val]. destruct (decide (k' = k)) as [->|Hne]; naive_solver.
Qed.
End relay_data_properties.

(** * Examples *)

Section examples.
Import ToyInstances.

(** One order of iteration, and its opposite. *)
Definition toy_iteration : HashIteration := {|
  iter_map := λ V, map_to_list;
  iter_set := λ l, l;
|}.

Definition toy_iteration_back : HashIteration := {|
  iter_map := λ V m, rev (map_to_list m);
  iter_set := λ l, rev l;
|}.

#[local] Instance toy_iteration_laws : HashIterationLaws toy_iteration.
Proof. by split. Qed.

#[local] Instance toy_iteration_back_laws : HashIterationLaws toy_iteration_back.
Proof. split; intros; simpl; by rewrite <-Permutation_rev. Qed.

(** A second open auction, for slot 202 on top of block 41, and deliveries in both. *)
Definition toy_delivered : Shared :=
  let s := (run (on_payload_attributes {| event_proposer_index := 3;
    event_proposal_slot := 202; event_parent_block_hash := toy_hash 41 |}) toy_relay).1 in
  let s := submit_all toy_inner
    [(6000000, toy_submission 201 40 41 500); (9000000, toy_submission 202 41 50 300)] s in
  let s := (run (open_bid toy_inner toy_node (toy_blinded_block 201 40 41)) s).1 in
  (run (open_bid toy_inner toy_node (toy_blinded_block 202 41 50)) s).1.

Definition delivered_slots (r : Shared * result Error (list PayloadTrace)) : list N :=
  match r.2 with
  | Ok traces => map pt_slot traces
  | Err _ => []
  end.

Lemma get_delivered_payloads_spec_witness :
  delivered_slots (run (get_delivered_payloads (HI := toy_iteration)) toy_delivered)
    = [202; 201] ∧
  delivered_slots (run (get_delivered_payloads (HI := toy_iteration_back)) toy_delivered)
    = [202; 201].
Proof.
  assert (Hrun :
    delivered_slots (run (get_delivered_payloads (HI := toy_iteration)) toy_delivered)
      = [202; 201]) by (vm_compute; reflexivity).
  split; [exact Hrun|].
  destruct (get_delivered_payloads_spec toy_iteration toy_iteration_back toy_delivered)
    as [_ Heq].
  rewrite <-Heq. exact Hrun.
Defined.

Definition submission_values (r : Shared * result Error (list SubmissionTrace)) : list N :=
  match r.2 with
  | Ok traces => map st_value traces
  | Err _ => []
  end.

(** Submissions received six and eight milliseconds past the epoch. *)
Definition toy_two : Shared :=
  submit_all toy_inner
    [(6000000, toy_submission 201 40 41 500); (8000000, toy_submission 201 40 43 700)] toy_relay.

Lemma get_block_submissions_spec_witness :
  submission_values (run (get_block_submissions (HI := toy_iteration)) toy_two) = [700; 500] ∧
  ∃ l, run (get_block_submissions (HI := toy_iteration)) toy_two = (toy_two, Ok (map snd l)) ∧
    StronglySorted listed_before l.
Proof.
  split; [vm_compute; reflexivity|].
  destruct (get_block_submissions_spec toy_iteration toy_two) as (l & Hrun & Hsorted & _).
  exists l. split; [exact Hrun|exact Hsorted].
Defined.

(** The submission of 500 won its auction and was delivered; after a better one came
    in, the list of submissions no longer shows it. *)
Example toy_delivered_forgotten :
  submission_values
    (run (get_block_submissions (HI := toy_iteration))
       (submit_all toy_inner [(9000000, toy_submission 201 40 43 700)] toy_delivered))
    = [300; 700].
Proof. by vm_compute. Qed.

(** Two auctions of slot 201 with different parents: the submission that was received
    first is listed first, because its parent hash is greater. *)
Definition toy_forked : Shared :=
  let s := (run (on_payload_attributes {| event_proposer_index := 3;
    event_proposal_slot := 201; event_parent_block_hash := toy_hash 42 |}) toy_relay).1 in
  submit_all toy_inner
    [(6000000, toy_submission 201 42 43 500); (9000000, toy_submission 201 40 41 700)] s.

Example toy_listed_by_parent :
  match (run (get_block_submissions (HI := toy_iteration)) toy_forked).2 with
  | Ok traces => map (λ t, (st_slot t, st_timestamp_ms t)) traces
  | Err _ => []
  end = [(201, 6); (201, 9)].
Proof. by vm_compute. Qed.
End examples.
