(* ===== verification/RelayClient.v ===== *)
(** [mev-rs/src/relay.rs]: the relays named in a configuration.  A relay is
    addressed by a URL whose user name is the relay's public key.

    The URL library, the hexadecimal decoder and the decoder of public keys are
    parameters, the fields of [UrlParsing]. *)

From S2P Require Import Prelude.
From stdpp Require Import strings.
From S2P Require Import Consensus.
From S2P Require Import Toy.

Class UrlParsing `{CT : ConsensusTypes} (Url : Type) := {
  parse_url : string → option Url;
  username : Url → string;
  try_bytes_from_hex_str : string → option (list N);
  public_key_try_from : list N → option BlsPublicKey;
}.

Section relay_client.
Context `{CT : ConsensusTypes} {Url : Type}.

Record RelayEndpoint : Type := {
  endpoint_url : Url;
  endpoint_public_key : BlsPublicKey;
}.

(** The client of one relay. *)
Record Relay : Type := {
  relay_public_key : BlsPublicKey;
  relay_endpoint : Url;
}.

Definition relay_from (value : RelayEndpoint) : Relay :=
  {| relay_public_key := endpoint_public_key value; relay_endpoint := endpoint_url value |}.

(** [PartialEq for Relay] *)
Definition relay_eqb (a b : Relay) : bool :=
  bool_decide (relay_public_key a = relay_public_key b).
Context `{UP : !UrlParsing Url}.

(** [TryFrom<Url>] *)
Definition endpoint_try_from (url : Url) : option RelayEndpoint :=
  bytes ← try_bytes_from_hex_str (username url);
  public_key ← public_key_try_from bytes;
  Some {| endpoint_url := url; endpoint_public_key := public_key |}.

Definition parse_relay_endpoints (relay_urls : list string) : list RelayEndpoint :=
  foldl (λ relays relay_url,
    match parse_url relay_url with
    | Some url =>
        match endpoint_try_from url with
        | Some relay => relays ++ [relay]
        | None => relays
        end
    | None => relays
    end) [] relay_urls.
End relay_client.

Arguments Relay {CT} Url.
Arguments RelayEndpoint {CT} Url.

(** * Properties *)

Section relay_client_properties.
Context `{CT : ConsensusTypes} {Url : Type} `{UP : !UrlParsing Url}.

(** The endpoint one configured address stands for. *)
Definition endpoint_of (relay_url : string) : option (RelayEndpoint Url) :=
  parse_url relay_url ≫= endpoint_try_from.

(** The relays loaded are those of the addresses that parse, in the order
    of the configuration; an address that does not parse costs no other relay, and
    each relay's key is the one its address names. *)
Theorem parse_relay_endpoints_spec relay_urls :
  parse_relay_endpoints relay_urls = omap endpoint_of relay_urls ∧
  Forall (λ e, ∃ bytes, try_bytes_from_hex_str (username (endpoint_url e)) = Some bytes ∧
                        public_key_try_from bytes = Some (endpoint_public_key e))
    (parse_relay_endpoints relay_urls).
Proof.
  assert (Heq : parse_relay_endpoints relay_urls = omap endpoint_of relay_urls).
  { unfold parse_relay_endpoints. set (f := λ relays relay_url, _).
    enough (∀ acc, foldl f acc relay_urls = acc ++ omap endpoint_of relay_urls) as H
      by apply (H []).
    induction relay_urls as [|url urls IH]; intros acc; simpl; [by rewrite app_nil_r|].
    rewrite IH. unfold f, endpoint_of at 2. destruct (parse_url url) as [u|]; simpl; [|done].
    destruct (endpoint_try_from u) as [e|]; simpl; [|done]. by rewrite <-app_assoc. }
  split; [done|]. rewrite Heq. apply Forall_forall.
  intros e (url & _ & He)%list_elem_of_omap. unfold endpoint_of in He.
  apply bind_Some in He as (u & _ & He). unfold endpoint_try_from in He.
  apply bind_Some in He as (bytes & Hb & He). apply bind_Some in He as (k & Hk & He).
  simplify_eq/=. eauto.
Qed.
End relay_client_properties.
