(* ===== verification/Hashes.v ===== *)
(** The [Hash] implementations that the program writes by hand: of the auction contexts
    ([mev-relay-rs/src/auction_context.rs]), of the bids in them
    ([mev-rs/src/types/builder_bid.rs]) and of the clients of relays
    ([mev-rs/src/relay.rs]).

    A hasher is the sequence of the values that have been fed to it; a root that cannot be
    computed is a panic, [None].  What a hash table needs of its keys is that equal keys
    feed the hasher alike, which the relay's set of contexts and the maps keyed by relays
    rely on. *)

From S2P Require Import Prelude.
From S2P Require Import Consensus.
From S2P Require Import Types.
From S2P Require Import AuctionContext.
From S2P Require Import RelayClient.

(** The roots of the SSZ library: [hash_tree_root]. *)
Class Roots `{CT : ConsensusTypes} := {
  bid_hash_tree_root : BuilderBid → result ConsensusError Root;
  payload_hash_tree_root : ExecutionPayload → result ConsensusError Root;
  blobs_hash_tree_root : BlobsBundle → result ConsensusError Root;
}.

Section hashes.
Context `{CT : ConsensusTypes} `{RT : !Roots}.

(** The values that implement [Hash] in a library or by deriving it. *)
Inductive Fed : Type :=
| Fed_key (k : BlsPublicKey)
| Fed_signature (s : BlsSignature)
| Fed_root (r : Root)
| Fed_trace (t : BidTrace)
| Fed_duration (d : N)
| Fed_u256 (v : N)
| Fed_discriminant (n : nat).

Definition Hasher : Type := list Fed.

Definition feed (x : Fed) (state : Hasher) : Hasher := state ++ [x].

(** [hash_tree_root().expect(..)], fed to the hasher. *)
Definition feed_root (root : result ConsensusError Root) (state : Hasher) : option Hasher :=
  match root with
  | Ok root => Some (feed (Fed_root root) state)
  | Err _ => None
  end.

Definition BuilderBid_hash (self : BuilderBid) (state : Hasher) : option Hasher :=
  feed_root (bid_hash_tree_root self) state.

(** Derived: the fields in order. *)
Definition SignedBuilderBid_hash (self : SignedBuilderBid) (state : Hasher) : option Hasher :=
  state ← BuilderBid_hash (signed_bid_message self) state;
  Some (feed (Fed_signature (signed_bid_signature self)) state).

Definition bellatrix_AuctionContext_hash (self : bellatrix_AuctionContext) (state : Hasher)
    : option Hasher :=
  let state := feed (Fed_key (bellatrix_context_builder_public_key self)) state in
  let state := feed (Fed_trace (bellatrix_context_bid_trace self)) state in
  let state := feed (Fed_duration (bellatrix_context_receive_duration self)) state in
  state ← SignedBuilderBid_hash (bellatrix_context_signed_builder_bid self) state;
  state ← feed_root (payload_hash_tree_root (bellatrix_context_execution_payload self)) state;
  Some (feed (Fed_u256 (bellatrix_context_value self)) state).

Definition deneb_AuctionContext_hash (self : deneb_AuctionContext) (state : Hasher)
    : option Hasher :=
  let state := feed (Fed_key (deneb_context_builder_public_key self)) state in
  let state := feed (Fed_trace (deneb_context_bid_trace self)) state in
  let state := feed (Fed_duration (deneb_context_receive_duration self)) state in
  state ← SignedBuilderBid_hash (deneb_context_signed_builder_bid self) state;
  state ← feed_root (payload_hash_tree_root (deneb_context_execution_payload self)) state;
  let state := feed (Fed_u256 (deneb_context_value self)) state in
  feed_root (blobs_hash_tree_root (deneb_context_blobs_bundle self)) state.

(** Derived: the variant, then its value. *)
Definition AuctionContext_hash (self : AuctionContext) (state : Hasher) : option Hasher :=
  match self with
  | AuctionContext_Bellatrix inner =>
      bellatrix_AuctionContext_hash inner (feed (Fed_discriminant 0) state)
  | AuctionContext_Capella inner =>
      bellatrix_AuctionContext_hash inner (feed (Fed_discriminant 1) state)
  | AuctionContext_Deneb inner =>
      deneb_AuctionContext_hash inner (feed (Fed_discriminant 2) state)
  end.

Definition Relay_hash {Url} (self : Relay Url) (state : Hasher) : Hasher :=
  feed (Fed_key (relay_public_key self)) state.

(** * Properties *)

(** Relays are equal when their keys are, whatever their addresses, and then they are
    hashed alike; relays with different keys are not. *)
Lemma relay_hash_agrees {Url} (a b : Relay Url) state :
  relay_eqb a b = true ↔ Relay_hash a state = Relay_hash b state.
Proof.
  unfold relay_eqb, Relay_hash, feed. rewrite bool_decide_eq_true. split; [by intros ->|].
  intros [_ Heq]%app_inj_tail_iff. by injection Heq.
Qed.

(** The roots that are needed to hash a context. *)
Definition rooted (c : AuctionContext) : Prop :=
  is_ok (bid_hash_tree_root (signed_bid_message (signed_builder_bid c))) = true ∧
  is_ok (payload_hash_tree_root (execution_payload c)) = true ∧
  ∀ bundle, blobs_bundle c = Some bundle → is_ok (blobs_hash_tree_root bundle) = true.

(** Hashing a context panics only when one of its roots cannot be computed. *)
Theorem hash_panics c state : AuctionContext_hash c state = None ↔ ¬ rooted c.
Proof.
  unfold rooted. destruct c as [[]|[]|[]]; simpl;
    unfold bellatrix_AuctionContext_hash, deneb_AuctionContext_hash, SignedBuilderBid_hash,
      BuilderBid_hash, feed_root; simpl;
    destruct (bid_hash_tree_root _); simpl;
    try (split; [by intros _ [? _]|done]);
    destruct (payload_hash_tree_root _); simpl;
    try (split; [by intros _ (_ & ? & _)|done]);
    try (split; [done|]; intros []; by split_and!).
  destruct (blobs_hash_tree_root _) eqn:Hb; simpl; split; try done.
  - intros []. split_and!; [done..|]. intros ? [= <-]. by rewrite Hb.
  - intros _ (_ & _ & Hblobs). specialize (Hblobs _ eq_refl). by rewrite Hb in Hblobs.
Qed.
End hashes.
