(* ===== verification/RelayMux.v ===== *)
(** [mev-boost-rs/src/relay_mux.rs]: the proposer's side, which asks several relays
    for bids, offers the best one, and later opens it at the relays that offered it.

    The answers of the relays are the argument [gather] of a handler: asked with a
    list of relays, it gives each relay's answer ([None] for a timeout) in the order
    in which the answers arrive.  The random order in which tied bids are taken is the
    argument [shuffle].  A handler may also panic, or wait for ever: that is what an
    [Outcome] says. *)

From S2P Require Import Prelude.
From S2P Require Import Consensus.
From S2P Require Import Types.
From S2P Require Import Signing.
From S2P Require Import Tasks.
From S2P Require Import RelayClient.
From S2P Require Import AuctionContext.
From S2P Require Import RelayBlocks.
From S2P Require Import Toy.

#[local] Open Scope N_scope.

Definition AUCTION_LIFETIME : N := 2.

(** How a handler ends: with an answer, in a panic, or never. *)
Inductive Outcome (A : Type) : Type :=
| Answered (a : A)
| Panicked
| Waiting.

Arguments Answered {A} a.
Arguments Panicked {A}.
Arguments Waiting {A}.

Section relay_mux.
Context `{CF : ConsensusFunctions} `{BS : !BuilderSignable}.
(** The parsed address of a relay. *)
Context {Url : Type}.

Record AuctionContext : Type := {
  context_slot : N;
  context_relays : list (Relay Url);
}.

Definition validate_bid (bid : SignedBuilderBid) (public_key : BlsPublicKey)
    (context : ChainContext) : result Error unit :=
  let bid_public_key := bid_public_key (signed_bid_message bid) in
  if decide (bid_public_key ≠ public_key)
  then Err (Error_Boost (BidPublicKeyMismatch bid_public_key public_key))
  else map_err Error_Consensus
         (verify_signed_builder_data (signed_bid_message bid) public_key
            (signed_bid_signature bid) context).

Definition validate_payload (contents : AuctionContents) (expected_block_hash : Hash32)
    (expected_commitments : option (list KzgCommitment)) : result BoostError unit :=
  let provided_block_hash := payload_block_hash (contents_execution_payload contents) in
  if decide (expected_block_hash ≠ provided_block_hash)
  then Err (InvalidPayloadHash expected_block_hash provided_block_hash)
  else
    let provided_commitments := commitments <$> contents_blobs_bundle contents in
    match expected_commitments, provided_commitments with
    | Some expected, Some provided =>
        if decide (expected = provided) then Ok tt
        else Err (InvalidPayloadBlobs expected provided)
    | None, None => Ok tt
    | _, _ => Err InvalidPayloadUnexpectedBlobs
    end.

Definition select_best_bids (bids : list (nat * N)) : list nat :=
  (foldl (λ '(best_indices, max) '(index, value),
     match value ?= max with
     | Gt => ([index], value)
     | Eq => (best_indices ++ [index], max)
     | Lt => (best_indices, max)
     end) ([], 0) bids).1.

Record Inner : Type := {
  relays : list (Relay Url);
  mux_context : ChainContext;
}.

Record State : Type := {
  outstanding_bids : gmap Hash32 AuctionContext;
}.

(** [RelayMux::new] starts from the default state. *)
Definition new (relays : list (Relay Url)) (context : ChainContext) : Inner * State :=
  ({| relays := relays; mux_context := context |}, {| outstanding_bids := ∅ |}).

Definition on_slot (slot : N) : task State () :=
  let retain_slot := default 0 (checked_sub slot AUCTION_LIFETIME) in
  modify (λ st,
    {| outstanding_bids :=
         filter (λ '(_, auction), retain_slot ≤ context_slot auction) (outstanding_bids st) |}).

Definition get_context (key : Hash32) : task State (result Error AuctionContext) :=
  read (λ st, ok_or (outstanding_bids st !! key) (Error_Boost (MissingOpenBid key))).

(** The answers of the relays asked. *)
Definition Answers (A : Type) : Type := list (Relay Url) → list (Relay Url * option (result Error A)).

(** [buffer_unordered n] of the requests with these [answers], collected: [None] when it
    never ends.  With no room it never takes a request, and waits for ever. *)
Definition buffer_unordered {A} (n : nat) (answers : list A) : option (list A) :=
  match n with
  | O => None
  | S _ => Some answers
  end.

Definition register_validators (inner : Inner) (gather : Answers ())
    (registrations : list SignedValidatorRegistration) : task State (Outcome (result Error ())) :=
  match buffer_unordered (length (relays inner)) (gather (relays inner)) with
  | None => Done Waiting
  | Some results =>
      let responses :=
        omap (λ '(relay, response),
          match response with
          | Some (Ok _) => Some tt
          | Some (Err _) => None
          | None => None
          end) results in
      if decide (responses = []) then Done (Answered (Err (Error_Boost CouldNotRegister)))
      else Done (Answered (Ok tt))
  end.

(** The closure of the [filter_map] of [fetch_best_bid]. *)
Definition accept_bid (context : ChainContext)
    (answer : Relay Url * option (result Error SignedBuilderBid)) : option (Relay Url * SignedBuilderBid) :=
  match answer with
  | (relay, Some (Ok bid)) =>
      match validate_bid bid (relay_public_key relay) context with
      | Ok _ => Some (relay, bid)
      | Err _ => None
      end
  | _ => None
  end.

Definition bid_block_hash (bid : SignedBuilderBid) : Hash32 :=
  header_block_hash (bid_header (signed_bid_message bid)).

Definition fetch_best_bid (inner : Inner) (gather : Answers SignedBuilderBid)
    (shuffle : list nat → list nat) (auction_request : AuctionRequest)
    : task State (Outcome (result Error SignedBuilderBid)) :=
  match buffer_unordered (length (relays inner)) (gather (relays inner)) with
  | None => Done Waiting
  | Some results =>
  let bids := omap (accept_bid (mux_context inner)) results in
  if decide (bids = []) then Done (Answered (Err (NoBidPrepared auction_request)))
  else
    let best_bid_indices :=
      select_best_bids (imap (λ i '(_, bid), (i, bid_value (signed_bid_message bid))) bids) in
    let best_bid_indices := shuffle best_bid_indices in
    match best_bid_indices with
    | [] => Done Panicked
    | best_bid_index :: rest =>
        match bids !! best_bid_index, mapM (λ bid_index, bids !! bid_index) rest with
        | Some (best_relay, best_bid), Some rest_bids =>
            let best_block_hash := bid_block_hash best_bid in
            let best_relays :=
              best_relay ::
                (filter (λ '(_, bid), bid_block_hash bid = best_block_hash) rest_bids).*1 in
            let slot := slot auction_request in
            let auction_context := {| context_slot := slot; context_relays := best_relays |} in
            _ ← modify (λ st,
                  {| outstanding_bids :=
                       <[best_block_hash := auction_context]> (outstanding_bids st) |});
            Done (Answered (Ok best_bid))
        | _, _ => Done Panicked
        end
    end
  end.

(** The loop over the responses of [open_bid]. *)
Fixpoint first_valid_payload (expected_block_hash : Hash32)
    (expected_commitments : option (list KzgCommitment))
    (responses : list (result Error AuctionContents)) : option AuctionContents :=
  match responses with
  | [] => None
  | Ok auction_contents :: responses =>
      match validate_payload auction_contents expected_block_hash expected_commitments with
      | Ok _ => Some auction_contents
      | Err _ => first_valid_payload expected_block_hash expected_commitments responses
      end
  | Err _ :: responses => first_valid_payload expected_block_hash expected_commitments responses
  end.

(** A bid is remembered with at least one relay, so there is room for its requests. *)
Definition open_bid (gather : Answers AuctionContents) (signed_block : SignedBlindedBeaconBlock)
    : task State (result Error AuctionContents) :=
  let block := blinded_message signed_block in
  let expected_block_hash := header_block_hash (blinded_payload_header block) in
  context ←? get_context expected_block_hash;
  let responses := omap snd (gather (context_relays context)) in
  match first_valid_payload expected_block_hash (blinded_kzg_commitments block) responses with
  | Some auction_contents => Done (Ok auction_contents)
  | None => Done (Err (Error_Boost (MissingPayload expected_block_hash)))
  end.
End relay_mux.

Arguments AuctionContext {CT} Url.
Arguments Inner {CT} Url.
Arguments State {CT} Url.
Arguments Answers {CT} Url A.

(** * Properties *)

Section relay_mux_properties.
Context `{CF : ConsensusFunctions} `{BS : !BuilderSignable} {Url : Type}.
Implicit Types (inner : Inner Url) (st : State Url) (r : Relay Url) (b : SignedBuilderBid).

(** ** Selecting the best bids *)

Definition max_value (l : list (nat * N)) : N := foldr (λ '(_, v) m, v `max` m) 0 l.

Lemma max_value_snoc l i v : max_value (l ++ [(i, v)]) = max_value l `max` v.
Proof. induction l as [|[j w] l IH]; simpl; [lia|]. rewrite IH. lia. Qed.

Lemma max_value_le l i v : (i, v) ∈ l → v ≤ max_value l.
Proof.
  induction l as [|[j w] l IH]; [by intros ?%elem_of_nil|].
  intros [[= -> ->]|Hin]%elem_of_cons; simpl; [lia|]. specialize (IH Hin). lia.
Qed.

Lemma max_value_elem l : l ≠ [] → ∃ i, (i, max_value l) ∈ l.
Proof.
  induction l as [|[j w] l IH]; [done|]. intros _. simpl.
  destruct (decide (l = [])) as [->|Hne].
  { exists j. simpl. rewrite N.max_0_r. left. }
  destruct (IH Hne) as [i Hi].
  destruct (N.max_spec w (max_value l)) as [[_ ->]|[_ ->]]; [exists i; by right|exists j; left].
Qed.

(** [select_best_bids] returns the indices of exactly the bids with the
    highest value, in the order of the bids; ties are not broken. *)
Theorem select_best_bids_spec (bids : list (nat * N)) :
  select_best_bids bids = (filter (λ bid, bid.2 = max_value bids) bids).*1.
Proof.
  unfold select_best_bids.
  enough (∀ l, foldl (λ '(best_indices, max) '(index, value),
     match value ?= max with
     | Gt => ([index], value)
     | Eq => (best_indices ++ [index], max)
     | Lt => (best_indices, max)
     end) ([], 0) l = ((filter (λ bid, bid.2 = max_value l) l).*1, max_value l)) as H
    by (by rewrite H).
  induction l as [|[i v] l IH] using rev_ind; [done|].
  rewrite foldl_app, IH, max_value_snoc, filter_app. simpl.
  destruct (N.compare_spec v (max_value l)) as [->|Hlt|Hgt].
  - rewrite N.max_id, filter_cons_True, fmap_app by done. done.
  - rewrite N.max_l by lia. rewrite filter_cons_False by (simpl; lia). by rewrite app_nil_r.
  - rewrite N.max_r by lia. rewrite filter_cons_True by done.
    rewrite (filter_none _ l); [done|]. intros [j w] Hin%max_value_le. simpl. lia.
Qed.

(** ** Fetching the best bid *)

(** The relay [r] answered with the bid [b], and the bid is signed by that relay. *)
Definition offered inner (gather : Answers Url SignedBuilderBid) r b : Prop :=
  (r, Some (Ok b)) ∈ gather (relays inner) ∧
  bid_public_key (signed_bid_message b) = relay_public_key r ∧
  verify_signed_builder_data (signed_bid_message b) (relay_public_key r) (signed_bid_signature b)
    (mux_context inner) = Ok tt.

Lemma validate_bid_Ok b k ctx :
  validate_bid b k ctx = Ok tt ↔
  bid_public_key (signed_bid_message b) = k ∧
  verify_signed_builder_data (signed_bid_message b) k (signed_bid_signature b) ctx = Ok tt.
Proof. unfold validate_bid. case_decide; rewrite ?map_err_Ok; naive_solver. Qed.

Lemma elem_of_bids inner gather r b :
  (r, b) ∈ omap (accept_bid (mux_context inner)) (gather (relays inner)) ↔
  offered inner gather r b.
Proof.
  rewrite list_elem_of_omap. unfold offered. rewrite <-validate_bid_Ok. split.
  - intros ([r' [[b'|e]|]] & Hin & Ha); simpl in Ha; try done.
    destruct (validate_bid b' _ _) as [[]|] eqn:Hv; by simplify_eq.
  - intros [Hin Hv]. exists (r, Some (Ok b)). split; [done|]. simpl. by rewrite Hv.
Qed.

Definition value_of b : N := bid_value (signed_bid_message b).

(** The best bids are the indices of the bids no other bid exceeds. *)
Lemma elem_of_best_bids (bids : list (Relay Url * SignedBuilderBid)) i :
  i ∈ select_best_bids (imap (λ i '(_, bid), (i, bid_value (signed_bid_message bid))) bids) ↔
  ∃ r b, bids !! i = Some (r, b) ∧ ∀ r' b', (r', b') ∈ bids → value_of b' ≤ value_of b.
Proof.
  set (f := λ (i : nat) '(_, bid), (i, bid_value (signed_bid_message bid))).
  assert (Hf : ∀ j v, (j, v) ∈ imap f bids ↔ ∃ r b, bids !! j = Some (r, b) ∧ v = value_of b).
  { intros j v. rewrite list_elem_of_lookup. setoid_rewrite list_lookup_imap. split.
    - intros (j' & Hj). destruct (bids !! j') as [[r b]|] eqn:Hb; simplify_eq/=. eauto.
    - intros (r & b & Hb & ->). exists j. by rewrite Hb. }
  rewrite select_best_bids_spec, list_elem_of_fmap. split.
  - intros ([i' v] & -> & [Hv (r & b & Hb & ->)%Hf]%list_elem_of_filter). simpl in *.
    exists r, b. split; [done|]. intros r' b' [j Hj]%list_elem_of_lookup.
    rewrite Hv. apply (max_value_le _ j). apply Hf. eauto.
  - intros (r & b & Hb & Hmax). exists (i, value_of b). split; [done|].
    apply list_elem_of_filter. split; [|apply Hf; eauto]. simpl.
    assert (Hne : imap f bids ≠ []).
    { intros Hnil. assert (Hin : (i, value_of b) ∈ imap f bids) by (apply Hf; eauto).
      rewrite Hnil in Hin. by apply elem_of_nil in Hin. }
    destruct (max_value_elem _ Hne) as [j Hj]. pose proof Hj as Hj'.
    apply Hf in Hj' as (r' & b' & Hb' & Heq). apply N.le_antisymm.
    + apply (max_value_le _ i). apply Hf. eauto.
    + rewrite Heq. apply (Hmax r'). apply list_elem_of_lookup. eauto.
Qed.

(** The state after the bid [b] has been chosen for [request]. *)
Definition chosen st (request : AuctionRequest) b (rs : list (Relay Url)) : State Url :=
  {| outstanding_bids :=
       <[bid_block_hash b := {| context_slot := slot request; context_relays := rs |}]>
         (outstanding_bids st) |}.

Definition bids_of inner gather : list (Relay Url * SignedBuilderBid) :=
  omap (accept_bid (mux_context inner)) (gather (relays inner)).

(** Every index in a permutation of the best ones is in range. *)
Lemma best_bids_in_range (bids : list (Relay Url * SignedBuilderBid)) idx :
  idx ≡ₚ select_best_bids
    (imap (λ i '(_, bid), (i, bid_value (signed_bid_message bid))) bids) →
  Forall (λ i, is_Some (bids !! i)) idx.
Proof.
  intros Hperm. apply Forall_forall. intros i. rewrite Hperm.
  intros (r & b & -> & _)%elem_of_best_bids. eauto.
Qed.

Lemma best_bids_nonempty (bids : list (Relay Url * SignedBuilderBid)) :
  bids ≠ [] →
  select_best_bids (imap (λ i '(_, bid), (i, bid_value (signed_bid_message bid))) bids) ≠ [].
Proof.
  intros Hne. set (l := imap _ bids).
  assert (Hl : l ≠ []) by (unfold l; by destruct bids as [|[r b] bids]).
  destruct (max_value_elem l Hl) as [i Hi]. rewrite select_best_bids_spec. intros Hnil.
  assert (Hin : i ∈ (filter (λ bid : nat * N, bid.2 = max_value l) l).*1).
  { apply list_elem_of_fmap. exists (i, max_value l). split; [done|].
    by apply list_elem_of_filter. }
  rewrite Hnil in Hin. by apply elem_of_nil in Hin.
Qed.

(** The relays recorded with the chosen bid [b]: those that offered a best bid for
    the same block. *)
Lemma recorded_relays (bids : list (Relay Url * SignedBuilderBid)) best rest r b rest_bids :
  best :: rest ≡ₚ select_best_bids
    (imap (λ i '(_, bid), (i, bid_value (signed_bid_message bid))) bids) →
  bids !! best = Some (r, b) → mapM (λ i, bids !! i) rest = Some rest_bids →
  ∀ r', r' ∈ r :: (filter (λ '(_, bid), bid_block_hash bid = bid_block_hash b) rest_bids).*1 ↔
    ∃ b', (r', b') ∈ bids ∧ value_of b' = value_of b ∧ bid_block_hash b' = bid_block_hash b.
Proof.
  intros Hperm Hbest Hrest r'. apply mapM_Some in Hrest.
  assert (Hidx : ∀ i, i ∈ best :: rest ↔ ∃ r b, bids !! i = Some (r, b) ∧
    ∀ r' b', (r', b') ∈ bids → value_of b' ≤ value_of b).
  { intros i. rewrite Hperm. apply elem_of_best_bids. }
  assert (Hmax : ∀ r' b', (r', b') ∈ bids → value_of b' ≤ value_of b).
  { destruct (proj1 (Hidx best)) as (r0 & b0 & Hb0 & ?); [left|]. by simplify_eq. }
  rewrite elem_of_cons, list_elem_of_fmap. split.
  - intros [->|([r0 b0] & -> & [Hhash Hin]%list_elem_of_filter)].
    + exists b. split_and!; [apply list_elem_of_lookup; eauto|done..].
    + simpl. apply list_elem_of_lookup in Hin as [j Hj].
      destruct (Forall2_lookup_r _ _ _ _ _ Hrest Hj) as (i & Hi & Hb0).
      apply list_elem_of_lookup_2 in Hi.
      destruct (proj1 (Hidx i)) as (r1 & b1 & Hb1 & Hmax1); [by right|].
      rewrite Hb0 in Hb1. injection Hb1 as <- <-.
      exists b0. split_and!; [apply list_elem_of_lookup; eauto| |done].
      apply N.le_antisymm; [apply (Hmax r0)|apply (Hmax1 r)]; apply list_elem_of_lookup; eauto.
  - intros (b' & Hin & Hv & Hhash). apply list_elem_of_lookup in Hin as [i Hi].
    assert (Hi' : i ∈ best :: rest).
    { apply Hidx. exists r', b'. split; [done|]. intros r0 b0 H0. rewrite Hv. by apply (Hmax r0). }
    apply elem_of_cons in Hi' as [->|Hin]; [left; congruence|right].
    apply list_elem_of_lookup in Hin as [j Hj].
    destruct (Forall2_lookup_l _ _ _ _ _ Hrest Hj) as (entry & Hj' & Hentry).
    rewrite Hi in Hentry. injection Hentry as <-.
    exists (r', b'). split; [done|]. apply list_elem_of_filter.
    split; [done|]. by eapply list_elem_of_lookup_2.
Qed.

(** How [fetch_best_bid] ends: with a bid, the one it chose and the relays it
    remembered; without, when there was none to choose from; or never, when no relay is
    configured. *)
Definition fetch_outcome inner gather request st
    (out : State Url * Outcome (result Error SignedBuilderBid)) : Prop :=
  match out with
  | (st', Answered (Ok b)) =>
      relays inner ≠ [] ∧ ∃ rs, st' = chosen st request b rs ∧ rs ≠ [] ∧
        (∀ r, r ∈ rs ↔ ∃ b', offered inner gather r b' ∧ value_of b' = value_of b ∧
                             bid_block_hash b' = bid_block_hash b) ∧
        (∃ r, r ∈ rs ∧ offered inner gather r b) ∧
        (∀ r' b', offered inner gather r' b' → value_of b' ≤ value_of b)
  | (st', Answered (Err e)) =>
      relays inner ≠ [] ∧ st' = st ∧ e = NoBidPrepared request ∧ ∀ r b, ¬ offered inner gather r b
  | (_, Panicked) => False
  | (st', Waiting) => relays inner = [] ∧ st' = st
  end.

Lemma buffer_unordered_relays {A} inner (answers : list A) :
  buffer_unordered (length (relays inner)) answers
    = if decide (relays inner = []) then None else Some answers.
Proof. by destruct (relays inner). Qed.

Lemma fetch_best_bid_has_outcome inner gather shuffle request st :
  (∀ l, shuffle l ≡ₚ l) →
  fetch_outcome inner gather request st (run (fetch_best_bid inner gather shuffle request) st).
Proof.
  intros Hshuffle. unfold fetch_best_bid. rewrite buffer_unordered_relays.
  case_decide as Hrelays; [done|]. fold (bids_of inner gather).
  assert (Helem : ∀ r b, (r, b) ∈ bids_of inner gather ↔ offered inner gather r b)
    by (intros; apply elem_of_bids).
  revert Helem. generalize (bids_of inner gather). intros bids Helem.
  case_decide as Hnil; simpl.
  { split_and!; [done..|]. intros r b Hb%Helem. subst. by apply elem_of_nil in Hb. }
  pose proof (Hshuffle (select_best_bids
    (imap (λ i '(_, bid), (i, bid_value (signed_bid_message bid))) bids))) as Hperm.
  destruct (shuffle _) as [|best rest].
  { by apply Permutation_nil_l, eq_sym, best_bids_nonempty in Hperm. }
  pose proof (best_bids_in_range _ _ Hperm) as [[[r b] Hbest] Hrest]%Forall_cons.
  destruct (proj2 (mapM_is_Some (λ i, bids !! i) rest)) as [rest_bids Hbids]; [done|].
  rewrite Hbest, Hbids. simpl.
  pose proof (recorded_relays _ _ _ _ _ _ Hperm Hbest Hbids) as Hrec.
  setoid_rewrite <-Helem. split; [done|]. eexists. do 3 (split; [done|]). split.
  - exists r. split; [left|]. apply list_elem_of_lookup. eauto.
  - destruct (proj1 (elem_of_best_bids bids best)) as (r0 & b0 & Hb0 & Hmax);
      [rewrite <-Hperm; left|]. by simplify_eq.
Qed.

(** C18: [fetch_best_bid] never panics.  It returns a bid that one of the
    relays signed and that no valid bid it received exceeds, and remembers under its
    block hash exactly the relays that offered that block for that value; it
    succeeds exactly when some configured relay made a valid offer, and otherwise
    changes nothing; it waits for ever exactly when no relay is configured. *)
Theorem mux_fetch_best_bid_spec inner gather shuffle request st :
  (∀ l, shuffle l ≡ₚ l) →
  fetch_outcome inner gather request st (run (fetch_best_bid inner gather shuffle request) st) ∧
  (relays inner ≠ [] ∧ (∃ r b, offered inner gather r b) ↔
   ∃ b, (run (fetch_best_bid inner gather shuffle request) st).2 = Answered (Ok b)) ∧
  (relays inner = [] ↔
   (run (fetch_best_bid inner gather shuffle request) st).2 = Waiting).
Proof.
  intros Hshuffle.
  pose proof (fetch_best_bid_has_outcome inner gather shuffle request st Hshuffle) as Ho.
  split; [done|]. destruct (run _ _) as [st' [[b|e]| |]]; simpl in *; [|naive_solver..].
  destruct Ho as (? & rs & _ & _ & _ & (r & _ & Hr) & _). naive_solver.
Qed.

(** ** Opening a bid *)

(** The contents are those the signed block commits to. *)
Definition matches_block (block : SignedBlindedBeaconBlock) (contents : AuctionContents) : Prop :=
  payload_block_hash (contents_execution_payload contents)
    = header_block_hash (blinded_payload_header (blinded_message block)) ∧
  commitments <$> contents_blobs_bundle contents
    = blinded_kzg_commitments (blinded_message block).

Lemma validate_payload_Ok block contents :
  validate_payload contents (header_block_hash (blinded_payload_header (blinded_message block)))
    (blinded_kzg_commitments (blinded_message block)) = Ok tt ↔ matches_block block contents.
Proof.
  unfold validate_payload, matches_block. case_decide; [naive_solver|].
  destruct (contents_blobs_bundle contents), (blinded_kzg_commitments _); simpl;
    try case_decide; naive_solver.
Qed.

Lemma first_valid_payload_spec block responses :
  match first_valid_payload (header_block_hash (blinded_payload_header (blinded_message block)))
          (blinded_kzg_commitments (blinded_message block)) responses with
  | Some contents => Ok contents ∈ responses ∧ matches_block block contents
  | None => ∀ contents, Ok contents ∈ responses → ¬ matches_block block contents
  end.
Proof.
  induction responses as [|[contents|e] responses IH]; simpl.
  - by intros contents ?%elem_of_nil.
  - destruct (validate_payload _ _ _) as [[]|e] eqn:Hv.
    + split; [left|]. by apply validate_payload_Ok.
    + assert (¬ matches_block block contents) by (rewrite <-validate_payload_Ok; congruence).
      destruct (first_valid_payload _ _ _) as [c|].
      * destruct IH. split; [by right|done].
      * intros c [[= ->]|Hin]%elem_of_cons; [done|by apply IH].
  - destruct (first_valid_payload _ _ _) as [c|].
    + destruct IH. split; [by right|done].
    + intros c [?|Hin]%elem_of_cons; [done|by apply IH].
Qed.

(** [open_bid] asks the relays remembered with the block's hash, and
    returns only contents that match the signed block; when any of them answers
    with such contents it succeeds. *)
Theorem mux_open_bid_spec gather (block : SignedBlindedBeaconBlock) st :
  let hash := header_block_hash (blinded_payload_header (blinded_message block)) in
  match outstanding_bids st !! hash with
  | None => run (open_bid gather block) st = (st, Err (Error_Boost (MissingOpenBid hash)))
  | Some context =>
      (∃ contents r, run (open_bid gather block) st = (st, Ok contents) ∧ matches_block block contents ∧
         (r, Some (Ok contents)) ∈ gather (context_relays context)) ∨
      (run (open_bid gather block) st = (st, Err (Error_Boost (MissingPayload hash))) ∧
       ∀ r contents, (r, Some (Ok contents)) ∈ gather (context_relays context) →
         ¬ matches_block block contents)
  end.
Proof.
  simpl. destruct (outstanding_bids st !! _) as [context|]; simpl; [|done].
  pose proof (first_valid_payload_spec block (omap snd (gather (context_relays context)))) as Hf.
  destruct (first_valid_payload _ _ _) as [contents|]; [left|right].
  - destruct Hf as [([r x] & Hin & Hx)%list_elem_of_omap Hm]. simpl in Hx. subst x.
    by exists contents, r.
  - split; [done|]. intros r contents Hin. apply Hf, list_elem_of_omap. by eexists.
Qed.

(** ** Requests in any interleaving *)

Inductive Reply : Type :=
| Reply_slot
| Reply_registered (r : Outcome (result Error ()))
| Reply_bid (r : Outcome (result Error SignedBuilderBid))
| Reply_contents (r : result Error AuctionContents).

(** The relays that answer are among those asked. *)
Definition answers_asked {A} (gather : Answers Url A) : Prop :=
  ∀ rs r x, (r, x) ∈ gather rs → r ∈ rs.

(** Requests while the clock is at most two slots past [horizon].  Bids may be asked for
    about any slot, but when a relay answers with the block [hash] it is one from
    [horizon] on. *)
Inductive mux_request inner (hash : Hash32) (horizon : N) : task (State Url) Reply → Prop :=
| request_on_slot now :
    now ≤ horizon + 2 → mux_request inner hash horizon ((λ _, Reply_slot) <$> on_slot now)
| request_register gather registrations :
    mux_request inner hash horizon
      (Reply_registered <$> register_validators inner gather registrations)
| request_fetch gather shuffle request :
    answers_asked gather → (∀ l, shuffle l ≡ₚ l) →
    (∀ r b, offered inner gather r b → bid_block_hash b = hash → horizon ≤ slot request) →
    mux_request inner hash horizon (Reply_bid <$> fetch_best_bid inner gather shuffle request)
| request_open gather block :
    mux_request inner hash horizon (Reply_contents <$> open_bid gather block).

(** Every bid remembered can be opened at some relay, all of them configured. *)
Definition mux_ok inner st : Prop :=
  map_Forall (λ _ context, context_relays context ≠ [] ∧
    ∀ r, r ∈ context_relays context → r ∈ relays inner) (outstanding_bids st).

Definition open_at (horizon : N) st (hash : Hash32) : Prop :=
  ∃ context, outstanding_bids st !! hash = Some context ∧ horizon ≤ context_slot context.

Section keeping.
Context (inner : Inner Url) (hash : Hash32) (horizon : N).

Definition keeps_open st st' : Prop := open_at horizon st hash → open_at horizon st' hash.

#[local] Instance keeps_open_preorder : PreOrder keeps_open.
Proof. split; [intros st|intros st1 st2 st3]; unfold keeps_open; auto. Qed.

Lemma chosen_ok st request b rs :
  rs ≠ [] → (∀ r, r ∈ rs → r ∈ relays inner) →
  (bid_block_hash b = hash → horizon ≤ slot request) → mux_ok inner st →
  mux_ok inner (chosen st request b rs) ∧ keeps_open st (chosen st request b rs).
Proof.
  intros Hne Hrs Hslot Hst. split.
  - by apply map_Forall_insert_2.
  - intros (context & Hc & Hle). unfold open_at, chosen. simpl.
    destruct (decide (bid_block_hash b = hash)) as [Hh|Hh].
    + rewrite Hh, lookup_insert_eq. eauto.
    + rewrite lookup_insert_ne by done. eauto.
Qed.

Lemma mux_on_slot_safe now :
  now ≤ horizon + 2 → safe (mux_ok inner) keeps_open (on_slot now) (λ _, True).
Proof.
  intros Hnow. apply safe_modify. intros st Hst. split.
  - intros hash' context Hc. apply map_lookup_filter_Some in Hc as [Hc _]. by apply (Hst hash').
  - intros (context & Hc & Hle). exists context. split; [|done]. simpl.
    apply map_lookup_filter_Some. split; [done|].
    fold (saturating_sub now AUCTION_LIFETIME). rewrite saturating_sub_spec.
    unfold AUCTION_LIFETIME. lia.
Qed.

(** [fetch_best_bid] has at most one section, which records the chosen bid. *)
Lemma mux_fetch_best_bid_safe gather shuffle request :
  answers_asked gather → (∀ l, shuffle l ≡ₚ l) →
  (∀ r b, offered inner gather r b → bid_block_hash b = hash → horizon ≤ slot request) →
  safe (mux_ok inner) keeps_open (fetch_best_bid inner gather shuffle request) (λ _, True).
Proof.
  intros Hasked Hshuffle Hslot.
  assert (Hstep : ∀ st, mux_ok inner st →
    mux_ok inner (run (fetch_best_bid inner gather shuffle request) st).1 ∧
    keeps_open st (run (fetch_best_bid inner gather shuffle request) st).1).
  { intros st Hst.
    pose proof (fetch_best_bid_has_outcome inner gather shuffle request st Hshuffle) as Ho.
    destruct (run _ _) as [st' [[b|e]| |]]; [|by destruct Ho as (_ & -> & _)|done|by destruct Ho as (_ & ->)].
    destruct Ho as (_ & rs & -> & Hne & Hrs & (r & _ & Hr) & _). apply chosen_ok; [done| | |done].
    - intros r' (b' & [Hin _] & _)%Hrs. by eapply Hasked.
    - by eapply Hslot. }
  revert Hstep. unfold fetch_best_bid. destruct (buffer_unordered _ _); [|done]. case_decide; [done|].
  destruct (shuffle _) as [|best rest]; [done|].
  destruct (_ !! best) as [[r b]|]; [|done]. destruct (mapM _ rest); [|done].
  intros Hstep st Hst. by destruct (Hstep st Hst).
Qed.

Lemma mux_request_safe p :
  mux_request inner hash horizon p → safe (mux_ok inner) keeps_open p (λ _, True).
Proof.
  intros Hp. destruct Hp; apply safe_fmap.
  - by apply mux_on_slot_safe.
  - unfold register_validators. destruct (buffer_unordered _ _); [by case_decide|done].
  - by apply mux_fetch_best_bid_safe.
  - apply (safe_try _ _ _ _ (λ _, True)); [by apply safe_read; [apply _|]|done|].
    intros context _. by safe_match Hfirst.
Qed.
End keeping.

#[local] Existing Instance keeps_open_preorder.

(** C17: A bid that was offered stays available: however later requests interleave, until
    the clock is more than two slots past the bid's slot its block hash leads to at least
    one configured relay to open it at.  The only condition on the relays is that none of
    them answers a later request for an older slot with the same block: the multiplexer
    would then remember the block for the older slot. *)
Theorem offered_bid_stays_open inner gather shuffle request b st st' pl :
  answers_asked gather → (∀ l, shuffle l ≡ₚ l) → mux_ok inner st →
  run (fetch_best_bid inner gather shuffle request) st = (st', Answered (Ok b)) →
  steps (pool_step (mux_request inner (bid_block_hash b) (slot request))) (start st') pl →
  ∃ context, outstanding_bids (shared pl) !! bid_block_hash b = Some context ∧
    context_relays context ≠ [] ∧ ∀ r, r ∈ context_relays context → r ∈ relays inner.
Proof.
  intros Hasked Hshuffle Hst Hrun Hsteps.
  pose proof (fetch_best_bid_has_outcome inner gather shuffle request st Hshuffle) as Ho.
  rewrite Hrun in Ho. destruct Ho as (_ & rs & -> & Hne & Hrs & _).
  set (hash := bid_block_hash b) in *.
  destruct (chosen_ok inner hash (slot request) st request b rs) as [Hok _]; [done| |lia|done|].
  { intros r (b' & [Hin _] & _)%Hrs. by eapply Hasked. }
  destruct (pool_safe (mux_ok inner) (keeps_open hash (slot request)) _ (λ _, True) _ _
    (mux_request_safe inner hash (slot request)) (start_ok _ _ _ _ Hok) Hsteps) as [[Hpl _] HG].
  destruct HG as (context & Hc & _).
  - eexists. split; [apply lookup_insert_eq|done].
  - exists context. split; [done|]. by apply (Hpl hash).
Qed.

Definition accepted (answer : Relay Url * option (result Error ())) : bool :=
  match answer.2 with
  | Some (Ok _) => true
  | _ => false
  end.

(** Registering validators succeeds exactly when some relay accepts; with no relay
    configured it waits for ever. *)
Theorem mux_register_validators_spec inner gather registrations st :
  run (register_validators inner gather registrations) st =
    (st, if decide (relays inner = []) then Waiting
         else if existsb accepted (gather (relays inner))
         then Answered (Ok tt) else Answered (Err (Error_Boost CouldNotRegister))).
Proof.
  unfold register_validators. rewrite buffer_unordered_relays. case_decide; [done|].
  generalize (gather (relays inner)). intros l.
  induction l as [|[r [[[]|e]|]] l IH]; [done|done|exact IH|exact IH].
Qed.
End relay_mux_properties.

(** * Examples *)

Section examples.
Import ToyInstances.

Definition toy_relay_with (key : N) : Relay N :=
  {| relay_public_key := toy_pk key; relay_endpoint := key |}.

Definition toy_mux : Inner N * State N :=
  new (map toy_relay_with [1001; 1002; 1003; 1004]) (toy_network 32).

(** A bid of the relay with the given key, for the block [hash]. *)
Definition toy_bid (key hash val : N) : SignedBuilderBid := {|
  signed_bid_message := BuilderBid_Deneb {|
    deneb_bid_header := ExecutionPayloadHeader_Deneb
      (Build_toy_header 40 hash 1 : deneb_ExecutionPayloadHeader);
    deneb_bid_blob_kzg_commitments := [toy_commitment 8];
    deneb_bid_value := val;
    deneb_bid_public_key := toy_pk key;
  |};
  signed_bid_signature := toy_sig key (val + 7);
|}.

(** The answers arrive last relay first: the fourth offers the most, but under
    another relay's key; the third times out; the first two offer the same block. *)
Definition toy_answer (r : Relay N) : option (result Error SignedBuilderBid) :=
  match relay_endpoint r with
  | 1001 | 1002 => Some (Ok (toy_bid (relay_endpoint r) 41 500))
  | 1003 => None
  | _ => Some (Ok (toy_bid 1001 42 900))
  end.

Definition toy_gather : Answers N SignedBuilderBid :=
  λ rs, map (λ r, (r, toy_answer r)) (rev rs).

Definition toy_mux_request : AuctionRequest := {|
  slot := 201; parent_hash := toy_hash 40; public_key := toy_pk 1005;
|}.

Definition toy_fetch : State N * Outcome (result Error SignedBuilderBid) :=
  run (fetch_best_bid toy_mux.1 toy_gather (λ l, l) toy_mux_request) toy_mux.2.

Lemma mux_fetch_best_bid_spec_witness :
  toy_fetch.2 = Answered (Ok (toy_bid 1002 41 500)) ∧
  map relay_endpoint (default [] (context_relays <$> outstanding_bids toy_fetch.1 !! toy_hash 41))
    = [1002; 1001] ∧
  fetch_outcome toy_mux.1 toy_gather toy_mux_request toy_mux.2 toy_fetch.
Proof.
  split; [vm_compute; reflexivity|]. split; [vm_compute; reflexivity|].
  exact (proj1 (mux_fetch_best_bid_spec toy_mux.1 toy_gather (λ l, l) toy_mux_request toy_mux.2
    (λ l, reflexivity l))).
Defined.

Lemma toy_gather_asked : answers_asked toy_gather.
Proof.
  intros rs r x (r' & [= -> _] & Hin)%list_elem_of_fmap.
  by rewrite list_elem_of_In, <-in_rev, <-list_elem_of_In in Hin.
Qed.

(** The chosen bid can be opened two slots later, but is gone after that. *)
Lemma offered_bid_stays_open_witness :
  let later now := advance 0 (spawn ((λ _, Reply_slot) <$> on_slot now) (start toy_fetch.1)) in
  (∃ context, outstanding_bids (shared (later 203)) !! toy_hash 41 = Some context ∧
     context_relays context ≠ []) ∧
  bool_decide (is_Some (outstanding_bids (shared (later 204)) !! toy_hash 41)) = false.
Proof.
  cbv zeta. split; [|vm_compute; reflexivity].
  destruct (offered_bid_stays_open toy_mux.1 toy_gather (λ l, l) toy_mux_request
    (toy_bid 1002 41 500) toy_mux.2 toy_fetch.1
    (advance 0 (spawn ((λ _, Reply_slot) <$> on_slot 203) (start toy_fetch.1))))
    as (context & Hc & Hne & _).
  - exact toy_gather_asked.
  - reflexivity.
  - apply map_Forall_empty.
  - vm_compute. reflexivity.
  - eapply steps_trans; [|apply advance_steps]. apply spawn_steps. constructor. by vm_compute.
  - exists context. split; [exact Hc|exact Hne].
Defined.

(** A later request for slot 198 is answered with the same block: the clock of slot 201
    then drops it. *)
Example older_request_forgets_bid :
  let older := {| slot := 198; parent_hash := toy_hash 40; public_key := toy_pk 1005 |} in
  let st := (run (fetch_best_bid toy_mux.1 toy_gather (λ l, l) older) toy_fetch.1).1 in
  bool_decide (is_Some (outstanding_bids (run (on_slot 201) toy_fetch.1).1 !! toy_hash 41)) = true ∧
  bool_decide (is_Some (outstanding_bids (run (on_slot 201) st).1 !! toy_hash 41)) = false.
Proof. by vm_compute. Qed.
End examples.
