(* ===== verification/UnitTests.v ===== *)
(** The unit tests that the repository keeps beside its code, run on the model:
    [relay_mux.rs] in [mev-boost-rs/src], and [block_validation.rs], [relay.rs] and
    [types/builder_bid.rs] in [mev-rs/src].

    A test is an [option]: a failed assertion or an [unwrap] of an error is a panic,
    [None].  What a test draws at random is an argument.  The two tests over data of
    live relays check the decoders and the cryptography that are parameters here, and are
    left out. *)

From S2P Require Import Prelude.
From stdpp Require Import strings.
From S2P Require Import Consensus.
From S2P Require Import Types.
From S2P Require Import Signing.
From S2P Require Import BlockValidation.
From S2P Require Import RelayClient.
From S2P Require Import RelayMux.
From S2P Require Import Toy.

#[local] Open Scope N_scope.

(** [assert!] and [assert_eq!] *)
Definition assert (b : bool) : option unit := if b then Some tt else None.

Definition assert_eq {A} `{!EqDecision A} (left right : A) : option unit :=
  assert (bool_decide (left = right)).

Definition unwrap {E A} (r : result E A) : option A :=
  match r with
  | Ok a => Some a
  | Err _ => None
  end.

(** A [for] loop whose body may panic. *)
Fixpoint for_each {A} (body : A → option unit) (l : list A) : option unit :=
  match l with
  | [] => Some tt
  | a :: l => _ ← body a; for_each body l
  end.

Lemma for_each_ok {A} (body : A → option unit) l :
  for_each body l = Some tt ↔ Forall (λ a, body a = Some tt) l.
Proof.
  induction l as [|a l IH]; [done|]. rewrite Forall_cons, <-IH. simpl.
  destruct (body a) as [[]|]; naive_solver.
Qed.

(** ** The multiplexer *)

Definition test_cases : list (list N * list nat) := prod_map id (map N.to_nat) <$> [
  ([], []);
  ([1], [0]);
  ([1; 1], [0; 1]);
  ([1; 2], [1]);
  ([1; 2; 3], [2]);
  ([2; 3; 1], [1]);
  ([3; 2; 1], [0]);
  ([3; 2; 3; 1], [0; 2]);
  ([4; 3; 2; 3; 2; 2; 2; 1], [0]);
  ([4; 4; 3; 2; 3; 2; 2; 2; 1], [0; 1]);
  ([4; 3; 2; 3; 2; 2; 2; 1; 4], [0; 8]);
  ([3; 2; 3; 2; 2; 4; 2; 1; 4], [5; 8]);
  ([3; 2; 2; 2; 2; 1; 3; 4; 4], [7; 8])
].

Definition test_bid_selection_by_value (shuffle : list N → list N) : option unit :=
  for_each (λ '(input, expected),
    let best_bid_indices := select_best_bids (imap pair input) in
    _ ← assert_eq expected best_bid_indices;
    match best_bid_indices with
    | [] => Some tt
    | best_index :: _ => assert (bool_decide (is_Some (shuffle input !! best_index)))
    end) test_cases.

(** It passes however the inputs are shuffled. *)
Lemma test_bid_selection_by_value_passes shuffle :
  (∀ l, shuffle l ≡ₚ l) → test_bid_selection_by_value shuffle = Some tt.
Proof.
  intros Hshuffle. apply for_each_ok. repeat constructor; simpl; try done;
    rewrite bool_decide_eq_true_2; try done; apply lookup_lt_is_Some;
    rewrite Hshuffle; simpl; lia.
Qed.

(** ** Gas limits *)

Definition test_compute_preferred_gas_limit : option unit :=
  for_each (λ '(preferred, parent, computed),
    _ ← assert_eq (compute_preferred_gas_limit preferred parent) computed;
    assert (verify_limits computed parent)) [
  (30000000, 30000000, 30000000);
  (30029000, 30000000, 30029000);
  (30029300, 30000000, 30029295);
  (29970710, 30000000, 29970710);
  (29970700, 30000000, 29970705)
].

Example test_compute_preferred_gas_limit_passes : test_compute_preferred_gas_limit = Some tt.
Proof. vm_compute. reflexivity. Qed.

(** ** Addresses of relays *)

Section relay_tests.
Context `{CF : ConsensusFunctions} {Url : Type} `{UP : !UrlParsing Url}.

(** [{public_key:?}], and [Url::set_username] as it leaves the address. *)
Context (debug : BlsPublicKey → string) (set_username : Url → string → Url).
Context `{!EqDecision Url}.

Definition URL : string := "https://relay.com".

Definition parse_relay_endpoint (sk : SecretKey) : option unit :=
  let public_key := secret_key_public_key sk in
  url ← parse_url URL;
  let url := set_username url (debug public_key) in
  endpoint ← endpoint_try_from url;
  _ ← assert_eq (endpoint_url endpoint) url;
  assert_eq (endpoint_public_key endpoint) public_key.

Definition parse_relay_endpoint_missing_public_key : option unit :=
  url ← parse_url URL;
  _ ← endpoint_try_from url;
  Some tt.

(** The address parses and names no user; the name that is set is read back; and the text
    of a key decodes to the key. *)
Hypothesis parsed : ∃ url, parse_url URL = Some url ∧ username url = EmptyString.
Hypothesis username_set : ∀ url s, username (set_username url s) = s.
Hypothesis key_decodes : ∀ k, try_bytes_from_hex_str (debug k) ≫= public_key_try_from = Some k.
Hypothesis prefix_missing : try_bytes_from_hex_str "" = None.

Lemma parse_relay_endpoint_passes sk : parse_relay_endpoint sk = Some tt.
Proof using All.
  destruct parsed as (url & Hurl & _). unfold parse_relay_endpoint. rewrite Hurl. simpl.
  specialize (key_decodes (secret_key_public_key sk)).
  apply bind_Some in key_decodes as (bytes & Hbytes & Hkey).
  unfold endpoint_try_from. rewrite username_set, Hbytes. simpl. rewrite Hkey. simpl.
  unfold assert_eq. by rewrite !bool_decide_eq_true_2.
Qed.

(** The test is marked [should_panic], and it does. *)
Lemma parse_relay_endpoint_missing_public_key_panics :
  parse_relay_endpoint_missing_public_key = None.
Proof using All.
  destruct parsed as (url & Hurl & Hname). unfold parse_relay_endpoint_missing_public_key.
  rewrite Hurl. simpl. unfold endpoint_try_from. by rewrite Hname, prefix_missing.
Qed.
End relay_tests.

(** ** Signatures of bids *)

Section bid_tests.
Context `{CF : ConsensusFunctions} `{BS : !BuilderSignable}.

Definition test_builder_bid_signature `{!Signable bellatrix_BuilderBid}
    (header : ExecutionPayloadHeader) (context : ChainContext) (key : SecretKey)
    : option unit :=
  let public_key := secret_key_public_key key in
  let builder_bid := {|
    bellatrix_bid_header := header;
    bellatrix_bid_value := 234234;
    bellatrix_bid_public_key := public_key;
  |} in
  signature ← unwrap (sign_builder_message builder_bid key context);
  let signed_builder_bid := {|
    signed_bid_message := BuilderBid_Capella builder_bid;
    signed_bid_signature := signature;
  |} in
  _ ← unwrap (verify_signed_builder_data (signed_bid_message signed_builder_bid)
    (bid_public_key (signed_bid_message signed_builder_bid))
    (signed_bid_signature signed_builder_bid) context);
  Some tt.

(** The variant of a bid does not change what is signed. *)
Lemma test_builder_bid_signature_passes `{!Signable bellatrix_BuilderBid}
    `{!SignableLaws bellatrix_BuilderBid} header context key :
  (∀ (bid : bellatrix_BuilderBid) domain,
     compute_signing_root (BuilderBid_Capella bid) domain = compute_signing_root bid domain) →
  (∀ bid, is_ok (sign_builder_message (T:=bellatrix_BuilderBid) bid key context) = true) →
  test_builder_bid_signature header context key = Some tt.
Proof.
  intros Hroot Hsign. unfold test_builder_bid_signature.
  set (bid := Build_bellatrix_BuilderBid _ _ _). specialize (Hsign bid).
  destruct (sign_builder_message bid key context) as [sig|] eqn:Hsig; [|done]. simpl.
  apply sign_builder_message_verifies in Hsig. unfold verify_signed_builder_data in *.
  destruct (compute_builder_domain context) as [d|]; [|done]. simpl in *.
  by rewrite Hroot, Hsig.
Qed.
End bid_tests.
