(* ===== verification/BidBoard.v ===== *)
(** The multiplexer as a board of bids.

    The board is the specification: it lists, for each block hash, the slot of the auction
    and the relays that offered a bid for that block.  Bids are pinned to it, and expire.
    The multiplexer implements it under any interleaving of its requests, with any clock:
    its state is the board of some legal ledger, and its answers are true of that
    ledger. *)

From S2P Require Import Prelude.
From S2P Require Import Consensus.
From S2P Require Import Types.
From S2P Require Import Tasks.
From S2P Require Import Traces.
From S2P Require Import RelayClient.
From S2P Require Import RelayMux.
From S2P Require Import Toy.

#[local] Open Scope N_scope.

Section board.
Context `{CF : ConsensusFunctions} `{BS : !BuilderSignable} {Url : Type}.
(** The answers the relays give: to requests for bids, and to signed blocks. *)
Context (bid_answers : AuctionRequest → Answers Url SignedBuilderBid → Prop).
Context (contents_answers : SignedBlindedBeaconBlock → Answers Url AuctionContents → Prop).
Implicit Types (inner : Inner Url) (st : State Url) (r : Relay Url) (b : SignedBuilderBid).
Implicit Types (block : SignedBlindedBeaconBlock).

(** * The specification *)

Definition board : Type := gmap Hash32 (AuctionContext Url).

Inductive event : Type :=
| Pins (request : AuctionRequest) b (rs : list (Relay Url))
| Expires (now : N).

Definition board_step (bd : board) (e : event) : board :=
  match e with
  | Pins request b rs =>
      <[bid_block_hash b := {| context_slot := slot request; context_relays := rs |}]> bd
  | Expires now => filter (λ '(_, context), now ≤ context_slot context + 2) bd
  end.

#[local] Notation board_after := (after board_step ∅).
#[local] Notation moments := (moments board_step ∅).
Implicit Types (t : list event).

(** A bid is pinned with the relays that offered its block for its value, among answers
    of configured relays none of which offers more. *)
Definition best_offer inner request b (rs : list (Relay Url)) : Prop :=
  ∃ gather, bid_answers request gather ∧ answers_asked gather ∧ rs ≠ [] ∧
    (∀ r, r ∈ rs ↔ ∃ b', offered inner gather r b' ∧ value_of b' = value_of b ∧
                         bid_block_hash b' = bid_block_hash b) ∧
    (∃ r, r ∈ rs ∧ offered inner gather r b) ∧
    (∀ r' b', offered inner gather r' b' → value_of b' ≤ value_of b).

Definition legal inner t (e : event) : Prop :=
  match e with
  | Pins request b rs => best_offer inner request b rs
  | Expires _ => True
  end.

Definition pinned (hash : Hash32) (context : AuctionContext Url) (bd : board) : Prop :=
  bd !! hash = Some context.
Definition not_pinned (hash : Hash32) (bd : board) : Prop := bd !! hash = None.

Inductive Reply : Type :=
| Reply_other
| Reply_bid (request : AuctionRequest) (r : Outcome (result Error SignedBuilderBid))
| Reply_contents block (gather : Answers Url AuctionContents) (r : result Error AuctionContents).

(** What makes a reply right: a bid is pinned before it is offered; only a multiplexer
    without relays never answers; contents match the block, and come from a relay that offered the bid that was pinned under its hash. *)
Definition justified inner t (reply : Reply) : Prop :=
  match reply with
  | Reply_other => True
  | Reply_bid request (Answered (Ok b)) => ∃ rs, Pins request b rs ∈ t
  | Reply_bid request (Answered (Err e)) => e = NoBidPrepared request
  | Reply_bid _ Panicked => False
  | Reply_bid _ Waiting => relays inner = []
  | Reply_contents block gather answer =>
      let hash := header_block_hash (blinded_payload_header (blinded_message block)) in
      contents_answers block gather ∧
      match answer with
      | Ok contents =>
          matches_block block contents ∧
          ∃ request b rs r, bid_block_hash b = hash ∧ Pins request b rs ∈ t ∧
            moments [pinned hash {| context_slot := slot request; context_relays := rs |}] t ∧
            r ∈ rs ∧ (r, Some (Ok contents)) ∈ gather rs
      | Err e =>
          e = Error_Boost (MissingOpenBid hash) ∧ moments [not_pinned hash] t ∨
          e = Error_Boost (MissingPayload hash) ∧ ∃ context, moments [pinned hash context] t ∧
            ∀ r contents, (r, Some (Ok contents)) ∈ gather (context_relays context) →
              ¬ matches_block block contents
      end
  end.

(** ** Ledgers *)

Lemma board_justified_lasting inner : lasting (justified inner).
Proof.
  intros t t' reply [more ->]. assert (Hlater : ∀ Ps, moments Ps t → moments Ps (t ++ more)).
  { intros Ps HPs. by eapply moments_later, prefix_app_r. }
  destruct reply as [|request [[b|e]| |]|block gather [contents|e]]; simpl; try done.
  - intros (rs & ?). exists rs. apply elem_of_app. by left.
  - intros (? & ? & request & b & rs & r & ? & ? & ? & ? & ?). split; [done|]. split; [done|].
    exists request, b, rs, r. rewrite elem_of_app. auto 10.
  - intros [? [[? ?]|(? & context & ? & ?)]]; (split; [done|]); [left; auto|right; eauto].
Qed.

(** What is on the board was pinned. *)
Lemma board_pinned t hash context :
  pinned hash context (board_after t) →
  ∃ request b rs, bid_block_hash b = hash ∧ Pins request b rs ∈ t ∧
    context = {| context_slot := slot request; context_relays := rs |}.
Proof.
  revert context. induction t as [|e t IH] using rev_ind; intros context; [done|].
  rewrite after_snoc. unfold pinned. destruct e as [request b rs|now]; simpl.
  - intros [[<- <-]|[_ Hc]]%lookup_insert_Some.
    + exists request, b, rs. rewrite elem_of_app. split_and!; [done|right; left|done].
    + destruct (IH context Hc) as (request' & b' & rs' & ? & ? & ?).
      exists request', b', rs'. rewrite elem_of_app. auto.
  - intros [Hc _]%map_lookup_filter_Some.
    destruct (IH context Hc) as (request' & b' & rs' & ? & ? & ?).
    exists request', b', rs'. rewrite elem_of_app. auto.
Qed.

(** * The implementation *)

Record ledger_of inner st t : Prop := {
  ledger_board : outstanding_bids st = board_after t;
  ledger_legal : legal_ledger (legal inner) t;
}.

Lemma board_event inner st st' t e :
  ledger_of inner st t → legal inner t e →
  outstanding_bids st' = board_step (outstanding_bids st) e → ledger_of inner st' (t ++ [e]).
Proof.
  intros [Hb Hl] He Hst'. split; [|by apply legal_ledger_snoc]. by rewrite after_snoc, <-Hb.
Qed.

(** Any request, with any answers of the relays asked, and any clock. *)
Inductive board_request inner : task (State Url) Reply → Prop :=
| request_on_slot now : board_request inner ((λ _, Reply_other) <$> on_slot now)
| request_register gather registrations :
    board_request inner ((λ _, Reply_other) <$> register_validators inner gather registrations)
| request_fetch gather shuffle request :
    bid_answers request gather → answers_asked gather → (∀ l, shuffle l ≡ₚ l) →
    board_request inner (Reply_bid request <$> fetch_best_bid inner gather shuffle request)
| request_open gather block :
    contents_answers block gather → answers_asked gather →
    board_request inner (Reply_contents block gather <$> open_bid gather block).

#[local] Notation ensures_task inner := (ensures (λ _, True) (ledger_of inner)).

Lemma mux_on_slot_ensures inner now t : ensures_task inner (on_slot now) (λ _ _, True) t.
Proof.
  apply (ensures_event _ _ _ (Expires now)). intros st t' _ _ Hst _. split; [|done].
  apply (board_event inner st); [done..|]. simpl. apply map_filter_ext.
  intros hash context _. fold (saturating_sub now AUCTION_LIFETIME).
  rewrite saturating_sub_spec. unfold AUCTION_LIFETIME. lia.
Qed.

Lemma mux_fetch_best_bid_ensures inner gather shuffle request t :
  bid_answers request gather → answers_asked gather → (∀ l, shuffle l ≡ₚ l) →
  ensures_task inner (fetch_best_bid inner gather shuffle request)
    (λ t answer, justified inner t (Reply_bid request answer)) t.
Proof.
  intros Hanswers Hasked Hshuffle.
  pose proof (λ st, fetch_best_bid_has_outcome inner gather shuffle request st Hshuffle) as Hstep.
  revert Hstep. unfold fetch_best_bid. rewrite buffer_unordered_relays. case_decide; [done|].
  case_decide; [by intros; simpl|].
  destruct (shuffle _) as [|best rest]; [by intros H'; specialize (H' {| outstanding_bids := ∅ |})|].
  destruct (_ !! best) as [[r b]|]; [|by intros H'; specialize (H' {| outstanding_bids := ∅ |})].
  destruct (mapM _ rest) as [rest_bids|]; [|by intros H'; specialize (H' {| outstanding_bids := ∅ |})].
  intros Hstep st t' Hpre _ Hst _. specialize (Hstep st). simpl in Hstep.
  destruct Hstep as (_ & rs & Hchosen & Hne & Hrs & Hoffered & Hmax).
  exists [Pins request b rs]. split.
  - apply (board_event inner st); [done|by exists gather|]. simpl. by injection Hchosen.
  - exists rs. rewrite elem_of_app. right; left.
Qed.

Lemma mux_open_bid_ensures inner gather block t :
  contents_answers block gather → answers_asked gather →
  ensures_task inner (open_bid gather block)
    (λ t answer, justified inner t (Reply_contents block gather answer)) t.
Proof.
  intros Hanswers Hasked. set (hash := header_block_hash (blinded_payload_header (blinded_message block))).
  apply (ensures_try _ _ _ _ (λ t found,
    match found with
    | Ok context => moments [pinned hash context] t
    | Err e => e = Error_Boost (MissingOpenBid hash) ∧ moments [not_pinned hash] t
    end)).
  - apply ensures_read. intros st t' _ _ [Hb _]. fold hash.
    destruct (outstanding_bids st !! hash) as [context|] eqn:Hc; simpl; [|split; [done|]];
      apply moments_now; try done; unfold pinned, not_pinned; by rewrite <-Hb.
  - intros e t' _ He. split; [done|]. by left.
  - intros context t' _ Hpinned.
    pose proof (first_valid_payload_spec block (omap snd (gather (context_relays context)))) as Hf.
    cbv zeta. destruct (first_valid_payload _ _ (omap snd _)) as [contents|].
    all: simpl; fold hash; split; [done|].
    + destruct Hf as [([r x] & Hin & Hx)%list_elem_of_omap Hm]. simpl in Hx. subst x.
      split; [done|]. destruct Hpinned as (t0 & [more ->] & Hcontext & Hrest).
      destruct (board_pinned t0 hash context Hcontext) as (request & b & rs & Hhash & Hpins & ->).
      exists request, b, rs, r. rewrite elem_of_app. split_and!; [done|by left| |by eapply Hasked|done].
      exists t0. split_and!; [by apply prefix_app_r|done..].
    + right. split; [done|]. exists context. split; [done|]. intros r contents Hin.
      apply Hf, list_elem_of_omap. by eexists.
Qed.

Lemma board_request_ensures inner p :
  board_request inner p → ensures_task inner p (justified inner) [].
Proof.
  intros Hp. destruct Hp; apply ensures_fmap.
  - apply mux_on_slot_ensures.
  - unfold register_validators. destruct (buffer_unordered _ _); [by case_decide|done].
  - by apply mux_fetch_best_bid_ensures.
  - by apply mux_open_bid_ensures.
Qed.

Lemma new_board rs ctx : ledger_of (new rs ctx).1 (new rs ctx).2 [].
Proof. split; [done|apply legal_ledger_nil]. Qed.

(** The ledger [t] explains the multiplexer: it is legal and ends in its state, and it
    justifies every reply. *)
Definition explains inner t (pl : pool (State Url) Reply) : Prop :=
  legal_ledger (legal inner) t ∧ outstanding_bids (shared pl) = board_after t ∧
  Forall (justified inner t) (finished pl).

(** C8: The multiplexer implements the board.  Whatever requests arrive, however
    they interleave, whatever the relays answer, in whatever order, and whatever the
    clock says, there is a legal ledger that ends in the multiplexer's state and justifies
    its replies: every bid it offers was pinned as a best offer of the configured relays;
    contents it returns match the signed block and come from a relay that offered the bid
    pinned under the block's hash; when it returns none, no bid was pinned there, or no
    relay of the bid that was gave any.  And the ledger of any later moment continues
    it. *)
Theorem mux_refines_board (rs : list (Relay Url)) ctx pl :
  let '(inner, st0) := new rs ctx in
  steps (pool_step (board_request inner)) (start st0) pl →
  ∃ t, explains inner t pl ∧
    ∀ pl', steps (pool_step (board_request inner)) pl pl' →
      ∃ events, explains inner (t ++ events) pl'.
Proof.
  intros Hsteps. set (inner := (new rs ctx).1) in *.
  destruct (pool_has_simple_ledger (ledger_of inner) (board_request inner) (justified inner)
    (new rs ctx).2 pl (board_justified_lasting inner) (board_request_ensures inner) (new_board rs ctx) Hsteps)
    as (t & [? ?] & ? & Hlater).
  exists t. split; [done|]. intros pl' Hsteps'.
  destruct (Hlater pl' Hsteps') as (events & [? ?] & ?). by exists events.
Qed.
End board.

(** * Examples *)

Section examples.
Import ToyInstances.

(** No restriction on the answers. *)
Definition any_bids (request : AuctionRequest) (gather : Answers N SignedBuilderBid) : Prop := True.
Definition any_contents (block : SignedBlindedBeaconBlock) (gather : Answers N AuctionContents)
  : Prop := True.

(** A bid is fetched, and stays on the board until the clock is three slots later. *)
Definition toy_board_script : list (task (State N) (Reply (Url := N)) + nat) :=
  [inl (Reply_bid toy_mux_request <$> fetch_best_bid toy_mux.1 toy_gather (λ l, l) toy_mux_request);
   inr 0%nat; inr 0%nat].

Definition toy_expiry : list (task (State N) (Reply (Url := N)) + nat) :=
  [inl ((λ _, Reply_other) <$> on_slot 204); inr 0%nat; inr 0%nat].

Definition toy_board_pool : pool (State N) (Reply (Url := N)) := play toy_board_script (start toy_mux.2).

Lemma toy_board_steps : steps (pool_step (board_request any_bids any_contents toy_mux.1)) (start toy_mux.2) toy_board_pool.
Proof.
  apply play_steps. constructor; [|constructor; [exact I|constructor; [exact I|constructor]]].
  apply request_fetch; [exact I|exact toy_gather_asked|reflexivity].
Qed.

Lemma toy_expiry_steps :
  steps (pool_step (board_request any_bids any_contents toy_mux.1)) toy_board_pool (play toy_expiry toy_board_pool).
Proof.
  apply play_steps. constructor; [|constructor; [exact I|constructor; [exact I|constructor]]].
  apply request_on_slot.
Qed.

Lemma mux_refines_board_witness :
  ∃ t events, explains any_bids any_contents toy_mux.1 t toy_board_pool ∧
    explains any_bids any_contents toy_mux.1 (t ++ events) (play toy_expiry toy_board_pool) ∧
    (∃ rs, Pins toy_mux_request (toy_bid 1002 41 500) rs ∈ t) ∧
    after board_step ∅ (t ++ events) = (∅ : board (Url := N)).
Proof.
  destruct (mux_refines_board any_bids any_contents (map toy_relay_with [1001; 1002; 1003; 1004]) (toy_network 32)
    toy_board_pool toy_board_steps) as (t & Ht & Hlater).
  destruct (Hlater _ toy_expiry_steps) as (events & Hevents).
  exists t, events. split; [exact Ht|]. split; [exact Hevents|]. split.
  - destruct Ht as (_ & _ & Hfinished).
    assert (Hreply : finished toy_board_pool
      = [Reply_bid toy_mux_request (Answered (Ok (toy_bid 1002 41 500)))]) by (vm_compute; reflexivity).
    rewrite Hreply in Hfinished. apply Forall_cons in Hfinished as [H _]. exact H.
  - destruct Hevents as (_ & <- & _). vm_compute. reflexivity.
Defined.
End examples.
