(* ===== verification/Untagged.v ===== *)
(** The hand-written [Deserialize] of the three versioned types of [mev-rs/src/types/]:
    [BuilderBid], [SignedBidSubmission] and [AuctionContents].

    The types are serialized without a tag, so the variant is found by trying the
    decoders of the variants in turn.  The decoders and encoders of the variants are
    derived by [serde]; they are the fields of [Codec].  The module [capella] of each
    type re-exports the type of [bellatrix], so both variants have one codec. *)

From S2P Require Import Prelude.
From S2P Require Import Consensus.
From S2P Require Import Types.
From S2P Require Import Toy.

(** A JSON value, and what [serde] derives for the inner types of a versioned type:
    [Early] for Bellatrix and Capella, [Late] for Deneb. *)
Class Codec (Value Early Late : Type) := {
  decode_early : Value → option Early;
  decode_late : Value → option Late;
  encode_early : Early → Value;
  encode_late : Late → Value;
}.

(** What is encoded decodes to itself, and the encoding of an early variant lacks the
    field (the blobs or their commitments) a Deneb decoder requires. *)
Class CodecLaws {Value Early Late} (C : Codec Value Early Late) : Prop := {
  decode_encode_early x : decode_early (encode_early x) = Some x;
  decode_encode_late x : decode_late (encode_late x) = Some x;
  decode_late_early x : decode_late (encode_early x) = None;
}.

Inductive DecodeError : Set := NoVariant.

Section untagged.
Context `{CF : ConsensusFunctions} {Value : Type}.

Definition deserialize_builder_bid `{C : !Codec Value bellatrix_BuilderBid deneb_BuilderBid}
    (value : Value) : result DecodeError BuilderBid :=
  match decode_late value with
  | Some inner => Ok (BuilderBid_Deneb inner)
  | None =>
      match decode_early value with
      | Some inner => Ok (BuilderBid_Capella inner)
      | None =>
          match decode_early value with
          | Some inner => Ok (BuilderBid_Bellatrix inner)
          | None => Err NoVariant
          end
      end
  end.

Definition deserialize_bid_submission
    `{C : !Codec Value bellatrix_SignedBidSubmission deneb_SignedBidSubmission}
    (value : Value) : result DecodeError SignedBidSubmission :=
  match decode_late value with
  | Some inner => Ok (SignedBidSubmission_Deneb inner)
  | None =>
      match decode_early value with
      | Some inner => Ok (SignedBidSubmission_Capella inner)
      | None =>
          match decode_early value with
          | Some inner => Ok (SignedBidSubmission_Bellatrix inner)
          | None => Err NoVariant
          end
      end
  end.

Definition deserialize_auction_contents
    `{C : !Codec Value bellatrix_AuctionContents deneb_AuctionContents}
    (value : Value) : result DecodeError AuctionContents :=
  match decode_late value with
  | Some inner => Ok (AuctionContents_Deneb inner)
  | None =>
      match decode_early value with
      | Some inner => Ok (AuctionContents_Capella inner)
      | None =>
          match decode_early value with
          | Some inner => Ok (AuctionContents_Bellatrix inner)
          | None => Err NoVariant
          end
      end
  end.

(** [#[serde(untagged)]]: a variant is serialized as its inner value. *)
Definition serialize_builder_bid `{C : !Codec Value bellatrix_BuilderBid deneb_BuilderBid}
    (bid : BuilderBid) : Value :=
  match bid with
  | BuilderBid_Bellatrix inner => encode_early inner
  | BuilderBid_Capella inner => encode_early inner
  | BuilderBid_Deneb inner => encode_late inner
  end.

Definition serialize_bid_submission
    `{C : !Codec Value bellatrix_SignedBidSubmission deneb_SignedBidSubmission}
    (submission : SignedBidSubmission) : Value :=
  match submission with
  | SignedBidSubmission_Bellatrix inner => encode_early inner
  | SignedBidSubmission_Capella inner => encode_early inner
  | SignedBidSubmission_Deneb inner => encode_late inner
  end.

Definition serialize_auction_contents
    `{C : !Codec Value bellatrix_AuctionContents deneb_AuctionContents}
    (contents : AuctionContents) : Value :=
  match contents with
  | AuctionContents_Bellatrix inner => encode_early inner
  | AuctionContents_Capella inner => encode_early inner
  | AuctionContents_Deneb inner => encode_late inner
  end.
End untagged.

(** * Properties *)

Section untagged_properties.
Context `{CF : ConsensusFunctions} {Value : Type}.

(** What survives of a bid, a submission and contents: a Bellatrix one comes back as
    Capella. *)
Definition bid_decoded (bid : BuilderBid) : BuilderBid :=
  match bid with
  | BuilderBid_Bellatrix inner => BuilderBid_Capella inner
  | bid => bid
  end.

Definition submission_decoded (submission : SignedBidSubmission) : SignedBidSubmission :=
  match submission with
  | SignedBidSubmission_Bellatrix inner => SignedBidSubmission_Capella inner
  | submission => submission
  end.

Definition contents_decoded (contents : AuctionContents) : AuctionContents :=
  match contents with
  | AuctionContents_Bellatrix inner => AuctionContents_Capella inner
  | contents => contents
  end.

(** A bid that is serialized and read back is unchanged up to the name of
    its variant: Capella and Deneb bids come back as they were, and a Bellatrix bid
    comes back as a Capella bid with the same contents. *)
Theorem builder_bid_roundtrip
    `{C : !Codec Value bellatrix_BuilderBid deneb_BuilderBid, CL : !CodecLaws C}
    (bid : BuilderBid) :
  deserialize_builder_bid (serialize_builder_bid bid) = Ok (bid_decoded bid) ∧
  bid_header (bid_decoded bid) = bid_header bid ∧ bid_value (bid_decoded bid) = bid_value bid ∧
  bid_public_key (bid_decoded bid) = bid_public_key bid ∧
  bid_blob_kzg_commitments (bid_decoded bid) = bid_blob_kzg_commitments bid.
Proof.
  split; [|by destruct bid]. unfold deserialize_builder_bid.
  destruct bid; simpl; by rewrite ?decode_late_early, ?decode_encode_early, ?decode_encode_late.
Qed.

Lemma deserialize_serialize_bid_submission
    `{C : !Codec Value bellatrix_SignedBidSubmission deneb_SignedBidSubmission, CL : !CodecLaws C}
    (submission : SignedBidSubmission) :
  deserialize_bid_submission (serialize_bid_submission submission)
    = Ok (submission_decoded submission).
Proof.
  unfold deserialize_bid_submission.
  destruct submission; simpl;
    by rewrite ?decode_late_early, ?decode_encode_early, ?decode_encode_late.
Qed.

(** C34: A bid submission that is serialized and read back is unchanged up to the
    name of its variant: message, payload, signature and blobs are the same, and a
    Bellatrix submission comes back as a Capella one. *)
Theorem bid_submission_roundtrip
    `{C : !Codec Value bellatrix_SignedBidSubmission deneb_SignedBidSubmission, CL : !CodecLaws C}
    (submission : SignedBidSubmission) :
  deserialize_bid_submission (serialize_bid_submission submission)
    = Ok (submission_decoded submission) ∧
  submission_message (submission_decoded submission) = submission_message submission ∧
  submission_payload (submission_decoded submission) = submission_payload submission ∧
  submission_signature (submission_decoded submission) = submission_signature submission ∧
  submission_blobs_bundle (submission_decoded submission) = submission_blobs_bundle submission.
Proof. split; [apply deserialize_serialize_bid_submission|by destruct submission]. Qed.

(** Likewise for the contents of an auction. *)
Theorem auction_contents_roundtrip
    `{C : !Codec Value bellatrix_AuctionContents deneb_AuctionContents, CL : !CodecLaws C}
    (contents : AuctionContents) :
  deserialize_auction_contents (serialize_auction_contents contents)
    = Ok (contents_decoded contents) ∧
  contents_execution_payload (contents_decoded contents) = contents_execution_payload contents ∧
  contents_blobs_bundle (contents_decoded contents) = contents_blobs_bundle contents.
Proof.
  split; [|by destruct contents]. unfold deserialize_auction_contents.
  destruct contents; simpl;
    by rewrite ?decode_late_early, ?decode_encode_early, ?decode_encode_late.
Qed.

(** No input is ever read as a Bellatrix value: the last attempt of each
    decoder repeats the one before it, which has already failed. *)
Theorem never_bellatrix
    `{!Codec Value bellatrix_BuilderBid deneb_BuilderBid,
      !Codec Value bellatrix_SignedBidSubmission deneb_SignedBidSubmission,
      !Codec Value bellatrix_AuctionContents deneb_AuctionContents} (value : Value) :
  (∀ inner, deserialize_builder_bid value ≠ Ok (BuilderBid_Bellatrix inner)) ∧
  (∀ inner, deserialize_bid_submission value ≠ Ok (SignedBidSubmission_Bellatrix inner)) ∧
  (∀ inner, deserialize_auction_contents value ≠ Ok (AuctionContents_Bellatrix inner)).
Proof.
  unfold deserialize_builder_bid, deserialize_bid_submission, deserialize_auction_contents.
  split_and!; intros inner;
    (destruct (decode_late _); [discriminate|]); destruct (decode_early _); discriminate.
Qed.
End untagged_properties.

(** * Examples *)

Section examples.
Import ToyInstances.

(** Values that record which variant was encoded. *)
#[local] Instance toy_codec (Early Late : Type) : Codec (Early + Late) Early Late := {|
  decode_early v := match v with inl x => Some x | inr _ => None end;
  decode_late v := match v with inl _ => None | inr x => Some x end;
  encode_early := inl;
  encode_late := inr;
|}.

#[local] Instance toy_codec_laws Early Late : CodecLaws (toy_codec Early Late).
Proof. by split. Qed.

Definition toy_bellatrix_bid : bellatrix_BuilderBid := {|
  bellatrix_bid_header := ExecutionPayloadHeader_Bellatrix
    (Build_toy_header 40 41 1 : bellatrix_ExecutionPayloadHeader);
  bellatrix_bid_value := 500;
  bellatrix_bid_public_key := toy_pk 1001;
|}.

Lemma builder_bid_roundtrip_witness :
  deserialize_builder_bid (Value := bellatrix_BuilderBid + deneb_BuilderBid)
    (serialize_builder_bid (BuilderBid_Bellatrix toy_bellatrix_bid))
    = Ok (BuilderBid_Capella toy_bellatrix_bid).
Proof. apply (builder_bid_roundtrip (BuilderBid_Bellatrix toy_bellatrix_bid)). Defined.

Definition toy_early_submission : bellatrix_SignedBidSubmission := {|
  bellatrix_submission_message := {|
    trace_slot := 20; trace_parent_hash := toy_hash 40; trace_block_hash := toy_hash 41;
    trace_builder_public_key := toy_pk 1002; trace_proposer_public_key := toy_pk 1005;
    trace_proposer_fee_recipient := toy_address 77; trace_gas_limit := 30000000;
    trace_gas_used := 21000; trace_value := 500 |};
  bellatrix_submission_execution_payload :=
    ExecutionPayload_Bellatrix (Build_toy_payload 40 41 30000000 21000 1 : bellatrix_ExecutionPayload);
  bellatrix_submission_signature := toy_sig 1002 20507;
|}.

Lemma bid_submission_roundtrip_witness :
  deserialize_bid_submission
    (Value := bellatrix_SignedBidSubmission + deneb_SignedBidSubmission)
    (serialize_bid_submission (SignedBidSubmission_Bellatrix toy_early_submission))
    = Ok (SignedBidSubmission_Capella toy_early_submission).
Proof. apply (bid_submission_roundtrip (SignedBidSubmission_Bellatrix toy_early_submission)). Defined.

Lemma auction_contents_roundtrip_witness :
  deserialize_auction_contents (Value := bellatrix_AuctionContents + deneb_AuctionContents)
    (serialize_auction_contents
       (AuctionContents_Capella (bellatrix_submission_execution_payload toy_early_submission)))
    = Ok (AuctionContents_Capella (bellatrix_submission_execution_payload toy_early_submission)).
Proof.
  apply (auction_contents_roundtrip
    (AuctionContents_Capella (bellatrix_submission_execution_payload toy_early_submission))).
Defined.
End examples.
