(* ===== verification/Api.v ===== *)
(** [mev-rs/src/blinded_block_provider/] and [mev-rs/src/blinded_block_relayer/]: the
    builder API and the relay API over HTTP.

    A server is a [task] over the state of the service behind it: a request is routed,
    its parts are decoded, the service is asked, and its answer is encoded.  A client
    is a task over a [Transport], which carries a request and brings back a response.
    The formats of JSON and of text, and what the client library makes of a response,
    are parameters, the fields of [Http]; the encodings of the versioned types are
    those of [Untagged].  [None] is the answer of a handler that panics or waits for
    ever, and no response is sent. *)

From S2P Require Import Prelude.
From stdpp Require Import strings.
From S2P Require Import Consensus.
From S2P Require Import Types.
From S2P Require Import Tasks.
From S2P Require Import AuctionContext.
From S2P Require Import RelayBlocks.
From S2P Require Import Untagged.
From S2P Require Import Toy.

#[local] Open Scope N_scope.

(** * HTTP *)

Class HttpTypes `{CT : ConsensusTypes} := {
  Json : Type;
  (** [beacon_api_client::ApiError], the body of an error *)
  ErrorBody : Type;
  BlockSubmissionFilter : Type;
  DeliveredPayloadFilter : Type;
}.

(** [OTHER] is any method but these two and [HEAD], which a route for [GET] serves too. *)
Inductive Method : Set := GET | POST | OTHER.

#[export] Instance Method_eq : EqDecision Method.
Proof. solve_decision. Defined.

Section messages.
Context `{HT : HttpTypes}.

(** The segments of the path, the query, the consensus version header, and the body. *)
Record Request : Type := {
  request_method : Method;
  request_path : list string;
  request_query : option string;
  request_version : option Fork;
  request_body : option Json;
}.

Record Response : Type := {
  status : StatusCode;
  body : option Json;
}.
End messages.

Class Http `{HT : HttpTypes} := {
  (** the formats of text: [Display] and [Debug], and what the server reads *)
  display_slot : N → string;
  debug_hash : Hash32 → string;
  debug_key : BlsPublicKey → string;
  parse_slot : string → option N;
  parse_hash : string → option Hash32;
  parse_key : string → option BlsPublicKey;
  display_error : Error → string;
  (** the JSON of bodies; a versioned value carries the JSON of its data *)
  error_message : StatusCode → string → ErrorBody;
  error_to_json : ErrorBody → Json;
  error_from_json : Json → option ErrorBody;
  versioned_to_json : Fork → Json → Json;
  versioned_from_json : Json → option Json;
  signed_to_json : Json → BlsSignature → Json;
  signed_from_json : Json → option (Json * BlsSignature);
  registrations_to_json : list SignedValidatorRegistration → Json;
  registrations_from_json : Json → option (list SignedValidatorRegistration);
  block_to_json : SignedBlindedBeaconBlock → Json;
  block_from_json : Json → option SignedBlindedBeaconBlock;
  schedules_to_json : list ProposerSchedule → Json;
  schedules_from_json : Json → option (list ProposerSchedule);
  registration_to_json : SignedValidatorRegistration → Json;
  payload_traces_to_json : list PayloadTrace → Json;
  submission_traces_to_json : list SubmissionTrace → Json;
  (** the page at the root: [Html], the [Display] of a count, and the text of
      [ROOT_HTML_TRAILER], a script that shows the traces *)
  html : string → Json;
  display_count : nat → string;
  ROOT_HTML_TRAILER : string;
  (** what the server answers to a body, a path or a query it cannot read *)
  json_rejection : option Json → StatusCode;
  path_rejection : StatusCode;
  query_rejection : StatusCode;
  (** what a query asks for *)
  query_submissions : option string → option BlockSubmissionFilter;
  query_delivered : option string → option DeliveredPayloadFilter;
  query_key : option string → option BlsPublicKey;
  (** the client library: [api_error_or_ok], the answer of [get], the error made of a
      body, and the error of a body that cannot be read *)
  api_error_or_ok : Response → result ApiError unit;
  get_result {A} : (Json → option A) → Response → result ApiError A;
  into_api_error : ErrorBody → ApiError;
  http_error : ApiError;
}.

(** * The services behind a server *)

(** The traits of the source.  A method is a task over the service's state; [None] is
    a panic. *)
Section traits.
Context `{HT : HttpTypes} (R : Type).

Record BlindedBlockProvider : Type := {
  provider_register_validators :
    list SignedValidatorRegistration → task R (option (result Error ()));
  provider_fetch_best_bid : AuctionRequest → task R (option (result Error SignedBuilderBid));
  provider_open_bid : SignedBlindedBeaconBlock → task R (option (result Error AuctionContents));
}.

Record BlindedBlockRelayer : Type := {
  relayer_get_proposal_schedule : task R (option (result Error (list ProposerSchedule)));
  relayer_submit_bid : SignedBidSubmission → task R (option (result Error ()));
}.

Record BlindedBlockDataProvider : Type := {
  data_public_key : BlsPublicKey;
  data_registered_validators_count : task R nat;
  data_get_delivered_payloads :
    DeliveredPayloadFilter → task R (option (result Error (list PayloadTrace)));
  data_get_block_submissions :
    BlockSubmissionFilter → task R (option (result Error (list SubmissionTrace)));
  data_fetch_validator_registration :
    BlsPublicKey → task R (option (result Error SignedValidatorRegistration));
}.
End traits.

(** * Servers *)

Section server.
Context `{CF : ConsensusFunctions} `{HT : !HttpTypes} {HH : Http} {R : Type}.
Context `{CB : !Codec Json bellatrix_BuilderBid deneb_BuilderBid}.
Context `{CC : !Codec Json bellatrix_AuctionContents deneb_AuctionContents}.
Context `{CS : !Codec Json bellatrix_SignedBidSubmission deneb_SignedBidSubmission}.

(** [IntoResponse for Error] *)
Definition error_response (e : Error) : Response :=
  let message := display_error e in
  let code := error_into_response e in
  {| status := code; body := Some (error_to_json (error_message code message)) |}.

(** The response of a handler that returns a [Result]. *)
Definition respond {A} (encode : A → option Json) (answer : option (result Error A))
    : option Response :=
  (λ r, match r with
        | Ok a => {| status := OK; body := encode a |}
        | Err e => error_response e
        end) <$> answer.

Definition empty_body (_ : ()) : option Json := None.

Definition signed_bid_to_json (signed_bid : SignedBuilderBid) : Json :=
  signed_to_json (serialize_builder_bid (signed_bid_message signed_bid))
    (signed_bid_signature signed_bid).

Definition handle_status_check : task R (option Response) :=
  Done (Some {| status := OK; body := None |}).

(** [Json(..)]: the body, or a rejection. *)
Definition with_json {A} (decode : Json → option A) (req : Request)
    (f : A → task R (option Response)) : task R (option Response) :=
  match request_body req ≫= decode with
  | Some a => f a
  | None => Done (Some {| status := json_rejection (request_body req); body := None |})
  end.

Definition handle_validator_registration (builder : BlindedBlockProvider R)
    (registrations : list SignedValidatorRegistration) : task R (option Response) :=
  respond empty_body <$> provider_register_validators R builder registrations.

Definition handle_fetch_bid (builder : BlindedBlockProvider R) (auction_request : AuctionRequest)
    : task R (option Response) :=
  respond (λ signed_bid,
    let version := signed_bid_version signed_bid in
    Some (versioned_to_json version (signed_bid_to_json signed_bid)))
  <$> provider_fetch_best_bid R builder auction_request.

Definition handle_open_bid (builder : BlindedBlockProvider R) (block : SignedBlindedBeaconBlock)
    : task R (option Response) :=
  respond (λ auction_contents,
    let version := payload_version (contents_execution_payload auction_contents) in
    Some (versioned_to_json version (serialize_auction_contents auction_contents)))
  <$> provider_open_bid R builder block.

Definition quote : string := String (Ascii.ascii_of_nat 34) EmptyString.

(** The page at the root, up to its script. *)
Definition root_html (public_key registered_validators : string) : string :=
  ("
        <html>
        <head>
        <link
          rel=" ++ quote ++ "stylesheet" ++ quote ++ "
          href=" ++ quote ++ "https://cdn.jsdelivr.net/npm/@picocss/pico@2/css/pico.min.css" ++ quote ++ "
        />
        </head>
        <body>
        <header>
          <h1> mev-relay-rs </h1>
        </header>
        <main>
          <section>
          <p>relay public key: " ++ public_key ++ " </p>
          <p>registered validators: " ++ registered_validators ++ "</p>
          </section>
          <section>
    ")%string.

Definition handle_get_root (relay : BlindedBlockDataProvider R) : task R (option Response) :=
  count ← data_registered_validators_count R relay;
  let response := root_html (debug_key (data_public_key R relay)) (display_count count) in
  let response := (response ++ ROOT_HTML_TRAILER)%string in
  Done (Some {| status := OK; body := Some (html response) |}).

Definition handle_get_proposal_schedule (relay : BlindedBlockRelayer R) : task R (option Response) :=
  respond (λ schedules, Some (schedules_to_json schedules))
  <$> relayer_get_proposal_schedule R relay.

Definition handle_submit_bid (relay : BlindedBlockRelayer R)
    (signed_bid_submission : SignedBidSubmission) : task R (option Response) :=
  respond empty_body <$> relayer_submit_bid R relay signed_bid_submission.

Definition handle_get_proposer_payloads_delivered (relay : BlindedBlockDataProvider R)
    (filters : DeliveredPayloadFilter) : task R (option Response) :=
  respond (λ traces, Some (payload_traces_to_json traces))
  <$> data_get_delivered_payloads R relay filters.

Definition handle_get_builder_blocks_received (relay : BlindedBlockDataProvider R)
    (filters : BlockSubmissionFilter) : task R (option Response) :=
  respond (λ traces, Some (submission_traces_to_json traces))
  <$> data_get_block_submissions R relay filters.

Definition handle_get_validator_registration (relay : BlindedBlockDataProvider R)
    (public_key : BlsPublicKey) : task R (option Response) :=
  respond (λ registration, Some (registration_to_json registration))
  <$> data_fetch_validator_registration R relay public_key.

(** [Query(..)]: what the query asks for, or a rejection. *)
Definition with_query {A} (decode : option string → option A) (req : Request)
    (f : A → task R (option Response)) : task R (option Response) :=
  match decode (request_query req) with
  | Some a => f a
  | None => Done (Some {| status := query_rejection; body := None |})
  end.

(** A route for one method; another method is not allowed. *)
Definition on_method (method : Method) (req : Request) (handler : task R (option Response))
    : task R (option Response) :=
  if decide (request_method req = method) then handler
  else Done (Some {| status := METHOD_NOT_ALLOWED; body := None |}).

Definition submission_from_json (json : Json) : option SignedBidSubmission :=
  match deserialize_bid_submission json with
  | Ok submission => Some submission
  | Err _ => None
  end.

(** [Path(auction_request)] *)
Definition path_request (slot_segment parent_hash_segment public_key_segment : string)
    : option AuctionRequest :=
  slot ← parse_slot slot_segment;
  parent_hash ← parse_hash parent_hash_segment;
  public_key ← parse_key public_key_segment;
  Some {| slot := slot; parent_hash := parent_hash; public_key := public_key |}.

Definition status_path : list string := ["eth"; "v1"; "builder"; "status"].
Definition validators_path : list string := ["eth"; "v1"; "builder"; "validators"].
Definition blinded_blocks_path : list string := ["eth"; "v1"; "builder"; "blinded_blocks"].
Definition header_prefix : list string := ["eth"; "v1"; "builder"; "header"].
Definition schedule_path : list string := ["relay"; "v1"; "builder"; "validators"].
Definition submit_path : list string := ["relay"; "v1"; "builder"; "blocks"].
Definition delivered_path : list string :=
  ["relay"; "v1"; "data"; "bidtraces"; "proposer_payload_delivered"].
Definition received_path : list string :=
  ["relay"; "v1"; "data"; "bidtraces"; "builder_blocks_received"].
Definition registration_path : list string := ["relay"; "v1"; "data"; "validator_registration"].

(** The router of [blinded_block_provider]; [None] when no route matches.  A parameter of a
    route matches a segment that is not empty. *)
Definition route_provider (builder : BlindedBlockProvider R) (req : Request)
    : option (task R (option Response)) :=
  if decide (request_path req = status_path) then Some (on_method GET req handle_status_check)
  else if decide (request_path req = validators_path) then
    Some (on_method POST req (with_json registrations_from_json req
      (handle_validator_registration builder)))
  else if decide (request_path req = blinded_blocks_path) then
    Some (on_method POST req (with_json block_from_json req (handle_open_bid builder)))
  else
    match drop 4 (request_path req) with
    | [slot_segment; parent_hash_segment; public_key_segment] =>
        if decide (take 4 (request_path req) = header_prefix ∧ slot_segment ≠ "" ∧
                   parent_hash_segment ≠ "" ∧ public_key_segment ≠ "") then
          Some (on_method GET req
            match path_request slot_segment parent_hash_segment public_key_segment with
            | Some auction_request => handle_fetch_bid builder auction_request
            | None => Done (Some {| status := path_rejection; body := None |})
            end)
        else None
    | _ => None
    end.

(** The further routes of [blinded_block_relayer]. *)
Definition route_relayer (relay : BlindedBlockRelayer R) (data : BlindedBlockDataProvider R)
    (req : Request) : option (task R (option Response)) :=
  if decide (request_path req = []) then Some (on_method GET req (handle_get_root data))
  else if decide (request_path req = schedule_path) then
    Some (on_method GET req (handle_get_proposal_schedule relay))
  else if decide (request_path req = submit_path) then
    Some (on_method POST req (with_json submission_from_json req (handle_submit_bid relay)))
  else if decide (request_path req = delivered_path) then
    Some (on_method GET req (with_query query_delivered req
      (handle_get_proposer_payloads_delivered data)))
  else if decide (request_path req = received_path) then
    Some (on_method GET req (with_query query_submissions req
      (handle_get_builder_blocks_received data)))
  else if decide (request_path req = registration_path) then
    Some (on_method GET req (with_query query_key req
      (handle_get_validator_registration data)))
  else None.

Definition not_found : task R (option Response) :=
  Done (Some {| status := NOT_FOUND; body := None |}).

(** The two servers. *)
Definition serve_provider (builder : BlindedBlockProvider R) (req : Request)
    : task R (option Response) :=
  default not_found (route_provider builder req).

Definition serve_relay (builder : BlindedBlockProvider R) (relay : BlindedBlockRelayer R)
    (data : BlindedBlockDataProvider R) (req : Request) : task R (option Response) :=
  default not_found
    match route_provider builder req with
    | Some handler => Some handler
    | None => route_relayer relay data req
    end.
End server.

(** * Clients *)

Section client.
Context `{CF : ConsensusFunctions} `{HT : !HttpTypes} {HH : Http} {R : Type}.
Context `{CB : !Codec Json bellatrix_BuilderBid deneb_BuilderBid}.
Context `{CC : !Codec Json bellatrix_AuctionContents deneb_AuctionContents}.
Context `{CS : !Codec Json bellatrix_SignedBidSubmission deneb_SignedBidSubmission}.

(** A request that fails on its way has the error of the client library. *)
Definition Transport : Type := Request → task R (result ApiError Response).

Definition lift_api {A} (r : result ApiError A) : result Error A := map_err Error_Api r.

Definition http_get (api : Transport) (path : list string) : task R (result Error Response) :=
  lift_api <$> api {| request_method := GET; request_path := path; request_query := None;
                      request_version := None; request_body := None |}.

Definition http_post (api : Transport) (path : list string) (body : Json)
    : task R (result Error Response) :=
  lift_api <$> api {| request_method := POST; request_path := path; request_query := None;
                      request_version := None; request_body := Some body |}.

(** [response.json::<ApiResult<T>>()]: an untagged sum of the data and an error. *)
Definition api_result {A} (decode : Json → option A) (response : Response) : result Error A :=
  match body response with
  | Some json =>
      match decode json with
      | Some a => Ok a
      | None =>
          match error_from_json json with
          | Some err => Err (Error_Api (into_api_error err))
          | None => Err (Error_Api http_error)
          end
      end
  | None => Err (Error_Api http_error)
  end.

Definition signed_bid_from_json (json : Json) : option SignedBuilderBid :=
  ' (message, signature) ← signed_from_json json;
  match deserialize_builder_bid message with
  | Ok message =>
      Some {| signed_bid_message := message; signed_bid_signature := signature |}
  | Err _ => None
  end.

Definition contents_from_json (json : Json) : option AuctionContents :=
  match deserialize_auction_contents json with
  | Ok contents => Some contents
  | Err _ => None
  end.

(** [VersionedValue<T>]: the version is read and not used. *)
Definition versioned {A} (decode : Json → option A) (json : Json) : option A :=
  versioned_from_json json ≫= decode.

Definition check_status (api : Transport) : task R (result Error ()) :=
  response ←? http_get api status_path;
  Done (lift_api (api_error_or_ok response)).

Definition register_validators (api : Transport)
    (registrations : list SignedValidatorRegistration) : task R (result Error ()) :=
  response ←? http_post api validators_path (registrations_to_json registrations);
  Done (lift_api (api_error_or_ok response)).

Definition fetch_best_bid (api : Transport) (auction_request : AuctionRequest)
    : task R (result Error SignedBuilderBid) :=
  let target := header_prefix ++
    [display_slot (slot auction_request); debug_hash (parent_hash auction_request);
     debug_key (public_key auction_request)] in
  response ←? http_get api target;
  if decide (status response = NO_CONTENT) then Done (Err (NoBidPrepared auction_request))
  else Done (api_result (versioned signed_bid_from_json) response).

Definition open_bid (api : Transport) (signed_block : SignedBlindedBeaconBlock)
    : task R (result Error AuctionContents) :=
  response ←? lift_api <$> api {|
    request_method := POST;
    request_path := blinded_blocks_path;
    request_query := None;
    request_version := Some (signed_blinded_version signed_block);
    request_body := Some (block_to_json signed_block);
  |};
  Done (api_result (versioned contents_from_json) response).

(** [BlindedBlockRelayer for Client] *)
Definition get_proposal_schedule (api : Transport) : task R (result Error (list ProposerSchedule)) :=
  response ←? http_get api schedule_path;
  Done (lift_api (get_result schedules_from_json response)).

Definition submit_bid (api : Transport) (signed_submission : SignedBidSubmission)
    : task R (result Error ()) :=
  response ←? http_post api submit_path (serialize_bid_submission signed_submission);
  Done (lift_api (api_error_or_ok response)).
End client.

Arguments Transport {CT HT} R.

(** * Properties *)

(** What is written is not empty, and is read back; a body of data is not one of an error; and what the
    client library documents of the status codes. *)
Class HttpLaws `{CT : ConsensusTypes} {HT : HttpTypes} (HH : Http) : Prop := {
  display_slot_nonempty n : display_slot n ≠ "";
  debug_hash_nonempty h : debug_hash h ≠ "";
  debug_key_nonempty k : debug_key k ≠ "";
  slot_roundtrip n : parse_slot (display_slot n) = Some n;
  hash_roundtrip h : parse_hash (debug_hash h) = Some h;
  key_roundtrip k : parse_key (debug_key k) = Some k;
  error_roundtrip e : error_from_json (error_to_json e) = Some e;
  versioned_roundtrip v json : versioned_from_json (versioned_to_json v json) = Some json;
  versioned_not_error e : versioned_from_json (error_to_json e) = None;
  signed_roundtrip json sig : signed_from_json (signed_to_json json sig) = Some (json, sig);
  registrations_roundtrip l : registrations_from_json (registrations_to_json l) = Some l;
  block_roundtrip b : block_from_json (block_to_json b) = Some b;
  schedules_roundtrip l : schedules_from_json (schedules_to_json l) = Some l;
  schedules_not_error e : schedules_from_json (error_to_json e) = None;
  ok_response b : api_error_or_ok {| status := OK; body := b |} = Ok tt;
  bad_request_response e :
    api_error_or_ok {| status := BAD_REQUEST; body := Some (error_to_json e) |}
      = Err (into_api_error e);
  get_ok {A} (decode : Json → option A) json a :
    decode json = Some a → get_result decode {| status := OK; body := Some json |} = Ok a;
  get_bad_request {A} (decode : Json → option A) e :
    decode (error_to_json e) = None →
    get_result decode {| status := BAD_REQUEST; body := Some (error_to_json e) |}
      = Err (into_api_error e);
}.

Section api_properties.
Context `{CF : ConsensusFunctions} `{HT : !HttpTypes} {HH : Http} {HL : HttpLaws HH}.
Context `{CB : !Codec Json bellatrix_BuilderBid deneb_BuilderBid, CBL : !CodecLaws CB}.
Context `{CC : !Codec Json bellatrix_AuctionContents deneb_AuctionContents, CCL : !CodecLaws CC}.
Context `{CS : !Codec Json bellatrix_SignedBidSubmission deneb_SignedBidSubmission, CSL : !CodecLaws CS}.
Context {R : Type} (builder : BlindedBlockProvider R) (relay : BlindedBlockRelayer R)
  (data : BlindedBlockDataProvider R) (lost : ApiError).

(** The client's requests reach the server and its responses come back; [lost] is the
    error when there is none. *)
Definition loopback (serve : Request → task R (option Response)) : Transport R :=
  λ req, (λ response, match response with Some response => Ok response | None => Err lost end)
         <$> serve req.

Lemma run_fmap {A B} (f : A → B) (p : task R A) s :
  run (f <$> p) s = let '(s', a) := run p s in (s', f a).
Proof. unfold fmap, task_fmap. pose proof (run_bind p (λ a, Done (f a)) s) as H. exact H. Qed.

Notation api := (loopback (serve_relay builder relay data)).

(** An error of the service as the client sees it. *)
Definition error_arrives (e : Error) : Error :=
  Error_Api (into_api_error (error_message BAD_REQUEST (display_error e))).

Definition answer_arrives {A} (decoded : A → A) (answer : option (result Error A)) : result Error A :=
  match answer with
  | Some (Ok a) => Ok (decoded a)
  | Some (Err e) => Err (error_arrives e)
  | None => Err (Error_Api lost)
  end.

Definition signed_bid_decoded (signed_bid : SignedBuilderBid) : SignedBuilderBid :=
  {| signed_bid_message := bid_decoded (signed_bid_message signed_bid);
     signed_bid_signature := signed_bid_signature signed_bid |}.

(** The answer to a request for a bid. *)
Definition bid_arrives (auction_request : AuctionRequest)
    (answer : option (result Error SignedBuilderBid)) : result Error SignedBuilderBid :=
  match answer with
  | Some (Err (NoBidPrepared _)) => Err (NoBidPrepared auction_request)
  | _ => answer_arrives signed_bid_decoded answer
  end.

(** An answer other than that there is no bid. *)
Definition bid_is_prepared {A} (p : task R (option (result Error A))) s : Prop :=
  ∀ auction_request, (run p s).2 ≠ Some (Err (NoBidPrepared auction_request)).

Lemma header_routed auction_request :
  serve_relay builder relay data {|
    request_method := GET;
    request_path := header_prefix ++
      [display_slot (slot auction_request); debug_hash (parent_hash auction_request);
       debug_key (public_key auction_request)];
    request_query := None; request_version := None; request_body := None |}
  = handle_fetch_bid builder auction_request.
Proof.
  unfold serve_relay, route_provider. cbn [request_path header_prefix app].
  rewrite !decide_False by done. cbn [drop take].
  rewrite decide_True by auto using display_slot_nonempty, debug_hash_nonempty, debug_key_nonempty.
  unfold path_request. rewrite slot_roundtrip, hash_roundtrip, key_roundtrip.
  by destruct auction_request.
Qed.

Lemma post_routed path body (handler : task R (option Response)) :
  serve_relay builder relay data
    {| request_method := POST; request_path := path; request_query := None;
       request_version := None; request_body := Some body |} = handler →
  ∀ s, run (http_post api path body) s =
    let '(s', response) := run handler s in
    (s', match response with Some response => Ok response | None => Err (Error_Api lost) end).
Proof.
  intros Hroute s. unfold http_post. rewrite run_fmap. unfold loopback. rewrite run_fmap, Hroute.
  by destruct (run handler s) as [s' [response|]].
Qed.

(** What each request of a client amounts to. *)
Lemma client_fetch_best_bid auction_request s :
  run (fetch_best_bid api auction_request) s =
    let '(s', answer) := run (provider_fetch_best_bid R builder auction_request) s in
    (s', bid_arrives auction_request answer).
Proof.
  unfold fetch_best_bid, http_get. rewrite run_try, run_fmap. unfold loopback. rewrite run_fmap.
  rewrite header_routed. unfold handle_fetch_bid. rewrite run_fmap.
  destruct (run _ s) as [s' [[bid|e]|]]; simpl; [| |done].
  - unfold api_result. simpl. unfold versioned. rewrite versioned_roundtrip. simpl.
    unfold signed_bid_from_json, signed_bid_to_json. rewrite signed_roundtrip. simpl.
    by rewrite (proj1 (builder_bid_roundtrip (signed_bid_message bid))).
  - destruct e; simpl; try done; unfold api_result, versioned; simpl;
      by rewrite versioned_not_error, error_roundtrip.
Qed.

Lemma error_is_bad_request e :
  (∀ auction_request, e ≠ NoBidPrepared auction_request) → error_into_response e = BAD_REQUEST.
Proof. destruct e; try done. intros He. by destruct (He r). Qed.

Lemma acknowledged (p : task R (option (result Error ()))) s :
  bid_is_prepared p s →
  let '(s', response) := run (respond empty_body <$> p) s in
  match response with
  | Some response => lift_api (api_error_or_ok response)
  | None => Err (Error_Api lost)
  end = answer_arrives id (run p s).2 ∧ s' = (run p s).1.
Proof.
  unfold bid_is_prepared. rewrite run_fmap. destruct (run p s) as [s' [[[]|e]|]]; simpl; intros He.
  - by rewrite ok_response.
  - unfold error_response. rewrite error_is_bad_request by (intros r ->; by apply (He r)).
    by rewrite bad_request_response.
  - done.
Qed.

Lemma post_acknowledged path body (p : task R (option (result Error ()))) s :
  serve_relay builder relay data
    {| request_method := POST; request_path := path; request_query := None;
       request_version := None; request_body := Some body |} = (respond empty_body <$> p) →
  bid_is_prepared p s →
  run (response ←? http_post api path body; Done (lift_api (api_error_or_ok response))) s =
    let '(s', answer) := run p s in (s', answer_arrives id answer).
Proof.
  intros Hroute Hp. rewrite run_try, (post_routed _ _ _ Hroute).
  pose proof (acknowledged p s Hp) as H. destruct (run (respond empty_body <$> p) s) as [s' response].
  destruct H as [Ha ->]. destruct (run p s) as [s1 answer]. simpl in *. rewrite <-Ha.
  by destruct response.
Qed.

Lemma client_open_bid block s :
  bid_is_prepared (provider_open_bid R builder block) s →
  run (open_bid api block) s =
    let '(s', answer) := run (provider_open_bid R builder block) s in
    (s', answer_arrives contents_decoded answer).
Proof.
  unfold bid_is_prepared. intros Hopen. unfold open_bid. rewrite run_try, run_fmap.
  unfold loopback. rewrite run_fmap. unfold serve_relay, route_provider. simpl.
  unfold on_method, with_json. simpl. rewrite block_roundtrip. unfold handle_open_bid.
  rewrite run_fmap. destruct (run _ s) as [s' [[contents|e]|]]; simpl; [| |done];
    unfold api_result; simpl; unfold versioned.
  - rewrite versioned_roundtrip. simpl. unfold contents_from_json.
    by rewrite (proj1 (auction_contents_roundtrip contents)).
  - rewrite versioned_not_error, error_roundtrip. simpl.
    by rewrite error_is_bad_request by (intros r ->; by apply (Hopen r)).
Qed.

Lemma client_register_validators registrations s :
  bid_is_prepared (provider_register_validators R builder registrations) s →
  run (register_validators api registrations) s =
    let '(s', answer) := run (provider_register_validators R builder registrations) s in
    (s', answer_arrives id answer).
Proof.
  apply post_acknowledged. unfold serve_relay, route_provider. simpl.
  unfold on_method, with_json. simpl. by rewrite registrations_roundtrip.
Qed.

Lemma client_submit_bid submission s :
  bid_is_prepared (relayer_submit_bid R relay (submission_decoded submission)) s →
  run (submit_bid api submission) s =
    let '(s', answer) := run (relayer_submit_bid R relay (submission_decoded submission)) s in
    (s', answer_arrives id answer).
Proof.
  apply post_acknowledged. unfold serve_relay, route_provider. simpl.
  unfold on_method, with_json, submission_from_json. simpl.
  by rewrite (deserialize_serialize_bid_submission submission).
Qed.

Lemma client_get_proposal_schedule s :
  bid_is_prepared (relayer_get_proposal_schedule R relay) s →
  run (get_proposal_schedule api) s =
    let '(s', answer) := run (relayer_get_proposal_schedule R relay) s in
    (s', answer_arrives id answer).
Proof.
  unfold bid_is_prepared. intros Hschedule. unfold get_proposal_schedule, http_get.
  rewrite run_try, run_fmap. unfold loopback. rewrite run_fmap.
  unfold serve_relay, route_provider. simpl. unfold on_method. simpl.
  unfold handle_get_proposal_schedule. rewrite run_fmap.
  destruct (run _ s) as [s' [[schedules|e]|]]; simpl; [| |done].
  - by rewrite (get_ok schedules_from_json _ schedules) by apply schedules_roundtrip.
  - unfold error_response. rewrite error_is_bad_request by (intros r ->; by apply (Hschedule r)).
    by rewrite get_bad_request by apply schedules_not_error.
Qed.

(** C20: The clients and the servers of both APIs together are the services
    themselves.  For each request the state of the service changes exactly as if it had
    been called directly.  A bid, the contents of an auction, an acknowledgement and a
    schedule arrive as they are, up to the name of a variant; that no bid is prepared,
    an answer without content, arrives as just that; and any other error arrives as an
    error of the API. *)
Theorem services_over_http auction_request block registrations submission s :
  bid_is_prepared (provider_open_bid R builder block) s →
  bid_is_prepared (provider_register_validators R builder registrations) s →
  bid_is_prepared (relayer_submit_bid R relay (submission_decoded submission)) s →
  bid_is_prepared (relayer_get_proposal_schedule R relay) s →
  run (fetch_best_bid api auction_request) s =
    (let '(s', answer) := run (provider_fetch_best_bid R builder auction_request) s in
     (s', bid_arrives auction_request answer)) ∧
  run (open_bid api block) s =
    (let '(s', answer) := run (provider_open_bid R builder block) s in
     (s', answer_arrives contents_decoded answer)) ∧
  run (register_validators api registrations) s =
    (let '(s', answer) := run (provider_register_validators R builder registrations) s in
     (s', answer_arrives id answer)) ∧
  run (submit_bid api submission) s =
    (let '(s', answer) := run (relayer_submit_bid R relay (submission_decoded submission)) s in
     (s', answer_arrives id answer)) ∧
  run (get_proposal_schedule api) s =
    (let '(s', answer) := run (relayer_get_proposal_schedule R relay) s in
     (s', answer_arrives id answer)).
Proof.
  intros. auto 6 using client_fetch_best_bid, client_open_bid, client_register_validators,
    client_submit_bid, client_get_proposal_schedule.
Qed.

(** The answer of a server to a request that reaches no service. *)
Definition rejected (code : StatusCode) (p : task R (option Response)) : Prop :=
  p = Done (Some {| status := code; body := None |}).

Lemma on_method_rejected method req (handler : task R (option Response)) :
  request_method req ≠ method → rejected METHOD_NOT_ALLOWED (on_method method req handler).
Proof. intros Hne. unfold rejected, on_method. by rewrite decide_False. Qed.

Lemma with_json_rejected {A} (decode : Json → option A) req (f : A → task R (option Response)) :
  request_body req ≫= decode = None →
  rejected (json_rejection (request_body req)) (with_json decode req f).
Proof. unfold rejected, with_json. by intros ->. Qed.

Lemma with_query_rejected {A} (decode : option string → option A) req
    (f : A → task R (option Response)) :
  decode (request_query req) = None → rejected query_rejection (with_query decode req f).
Proof. unfold rejected, with_query. by intros ->. Qed.

(** The two APIs: the method and the pattern of each path. *)
Inductive Segment : Type :=
| Literal (segment : string)
| Capture.

Definition api_paths : list (Method * list Segment) := [
  (GET, []);
  (GET, [Literal "eth"; Literal "v1"; Literal "builder"; Literal "status"]);
  (POST, [Literal "eth"; Literal "v1"; Literal "builder"; Literal "validators"]);
  (GET, [Literal "eth"; Literal "v1"; Literal "builder"; Literal "header";
         Capture; Capture; Capture]);
  (POST, [Literal "eth"; Literal "v1"; Literal "builder"; Literal "blinded_blocks"]);
  (GET, [Literal "relay"; Literal "v1"; Literal "builder"; Literal "validators"]);
  (POST, [Literal "relay"; Literal "v1"; Literal "builder"; Literal "blocks"]);
  (GET, [Literal "relay"; Literal "v1"; Literal "data"; Literal "bidtraces";
         Literal "proposer_payload_delivered"]);
  (GET, [Literal "relay"; Literal "v1"; Literal "data"; Literal "bidtraces";
         Literal "builder_blocks_received"]);
  (GET, [Literal "relay"; Literal "v1"; Literal "data"; Literal "validator_registration"])].

Definition segment_matches (pattern : Segment) (segment : string) : Prop :=
  match pattern with
  | Literal literal => segment = literal
  | Capture => segment ≠ ""
  end.

Definition path_matches : list Segment → list string → Prop := Forall2 segment_matches.

Lemma path_matches_nil path : path_matches [] path ↔ path = [].
Proof. split; [apply Forall2_nil_inv_l|by intros ->; constructor]. Qed.

Lemma path_matches_cons pattern patterns path :
  path_matches (pattern :: patterns) path ↔
  ∃ segment rest, path = segment :: rest ∧ segment_matches pattern segment ∧ path_matches patterns rest.
Proof.
  unfold path_matches. split.
  - intros (segment & rest & ? & ? & ->)%Forall2_cons_inv_l. eauto.
  - intros (segment & rest & -> & ? & ?). by constructor.
Qed.

(** The paths the routers know are those of the APIs. *)
Lemma no_route req :
  (∀ method pattern, (method, pattern) ∈ api_paths → ¬ path_matches pattern (request_path req)) →
  serve_relay builder relay data req = not_found.
Proof.
  destruct req as [method path query version body]. simpl. intros Hno.
  assert (Hpath : ∀ method pattern, (method, pattern) ∈ api_paths → path_matches pattern path → False)
    by (intros; by eapply Hno).
  clear Hno. unfold serve_relay, route_provider, route_relayer. cbn [request_path].
  assert (Hlit : ∀ i method literals, api_paths !! i = Some (method, Literal <$> literals) →
    path ≠ literals).
  { intros i m literals Hi ->. eapply Hpath; [by eapply list_elem_of_lookup_2|].
    unfold path_matches. clear. by induction literals; constructor. }
  rewrite (decide_False (P := path = status_path)) by (by eapply (Hlit 1%nat)).
  rewrite (decide_False (P := path = validators_path)) by (by eapply (Hlit 2%nat)).
  rewrite (decide_False (P := path = blinded_blocks_path)) by (by eapply (Hlit 4%nat)).
  rewrite (decide_False (P := path = [])) by (by eapply (Hlit 0%nat _ [])).
  rewrite (decide_False (P := path = schedule_path)) by (by eapply (Hlit 5%nat)).
  rewrite (decide_False (P := path = submit_path)) by (by eapply (Hlit 6%nat)).
  rewrite (decide_False (P := path = delivered_path)) by (by eapply (Hlit 7%nat)).
  rewrite (decide_False (P := path = received_path)) by (by eapply (Hlit 8%nat)).
  rewrite (decide_False (P := path = registration_path)) by (by eapply (Hlit 9%nat)).
  destruct (drop 4 path) as [|a [|b [|c [|d rest]]]] eqn:Hdrop; try done.
  case_decide as Hheader; [|done]. destruct Hheader as (Htake & Ha & Hb & Hc).
  exfalso. eapply Hpath; [by apply (list_elem_of_lookup_2 _ 3)|].
  rewrite <-(take_drop 4 path), Htake, Hdrop. by repeat constructor.
Qed.

(** Another method than the one of the path. *)
Lemma wrong_method req method pattern :
  (method, pattern) ∈ api_paths → path_matches pattern (request_path req) →
  request_method req ≠ method → rejected METHOD_NOT_ALLOWED (serve_relay builder relay data req).
Proof.
  destruct req as [m path query version body]. simpl. intros Hin Hpath Hm.
  unfold api_paths in Hin. rewrite !elem_of_cons, elem_of_nil in Hin.
  destruct_or! Hin; try done; injection Hin as -> ->;
    repeat (apply path_matches_cons in Hpath as (? & ? & -> & ? & Hpath); simplify_eq/=);
    apply path_matches_nil in Hpath as ->; unfold serve_relay, route_provider, route_relayer;
    cbn [request_path]; rewrite ?decide_False by done; cbn [drop take];
    rewrite ?decide_True by done; by apply on_method_rejected.
Qed.

(** C27: A request that the server cannot make sense of never reaches a service: a path
    that none of the APIs' paths matches is not found; a path of the APIs with another
    method than its own is not allowed; and a body, a path or a query that cannot be read
    is rejected. *)
Theorem bad_requests_rejected req :
  ((∀ method pattern, (method, pattern) ∈ api_paths → ¬ path_matches pattern (request_path req)) →
   rejected NOT_FOUND (serve_relay builder relay data req)) ∧
  (∀ method pattern, (method, pattern) ∈ api_paths → path_matches pattern (request_path req) →
   request_method req ≠ method →
   rejected METHOD_NOT_ALLOWED (serve_relay builder relay data req)) ∧
  (request_method req = POST →
   request_path req = validators_path ∧ request_body req ≫= registrations_from_json = None ∨
   request_path req = blinded_blocks_path ∧ request_body req ≫= block_from_json = None ∨
   request_path req = submit_path ∧ request_body req ≫= submission_from_json = None →
   rejected (json_rejection (request_body req)) (serve_relay builder relay data req)) ∧
  (∀ slot_segment hash_segment key_segment,
   request_method req = GET → slot_segment ≠ "" → hash_segment ≠ "" → key_segment ≠ "" →
   request_path req = header_prefix ++ [slot_segment; hash_segment; key_segment] →
   path_request slot_segment hash_segment key_segment = None →
   rejected path_rejection (serve_relay builder relay data req)) ∧
  (request_method req = GET →
   request_path req = delivered_path ∧ query_delivered (request_query req) = None ∨
   request_path req = received_path ∧ query_submissions (request_query req) = None ∨
   request_path req = registration_path ∧ query_key (request_query req) = None →
   rejected query_rejection (serve_relay builder relay data req)).
Proof.
  split_and!.
  - intros Hno. unfold rejected. by rewrite no_route.
  - intros method pattern. apply wrong_method.
  - destruct req as [method path query version body]. simpl.
    intros -> [[-> Hbody]|[[-> Hbody]|[-> Hbody]]];
      (etransitivity; [|by eapply (with_json_rejected _ {| request_body := body |}), Hbody]); reflexivity.
  - destruct req as [method path query version body]. simpl.
    intros slot_segment hash_segment key_segment -> Hs Hh Hk -> Hpath.
    unfold rejected, serve_relay, route_provider. cbn [request_path header_prefix app].
    rewrite !decide_False by done. cbn [drop take]. rewrite decide_True by done.
    unfold on_method. simpl. by rewrite Hpath.
  - destruct req as [method path query version body]. simpl.
    intros -> [[-> Hquery]|[[-> Hquery]|[-> Hquery]]];
      (etransitivity; [|by eapply (with_query_rejected _ {| request_query := query |}), Hquery]);
      reflexivity.
Qed.
End api_properties.

(** * Examples *)

Module ToyApi.
Import ToyInstances.

Inductive toy_json : Type :=
| toy_error_json (code : StatusCode) (message : string)
| toy_versioned_json (version : Fork) (data : toy_json)
| toy_signed_json (message : toy_json) (signature : BlsSignature)
| toy_early_bid (bid : bellatrix_BuilderBid)
| toy_late_bid (bid : deneb_BuilderBid)
| toy_early_contents (contents : bellatrix_AuctionContents)
| toy_late_contents (contents : deneb_AuctionContents)
| toy_early_submission (submission : bellatrix_SignedBidSubmission)
| toy_late_submission (submission : deneb_SignedBidSubmission)
| toy_registrations_json (registrations : list SignedValidatorRegistration)
| toy_block_json (block : SignedBlindedBeaconBlock)
| toy_schedules_json (schedules : list ProposerSchedule)
| toy_page (text : string)
| toy_traces_json.

(** A number as that many letters. *)
Fixpoint toy_unary (n : nat) : string :=
  match n with
  | O => EmptyString
  | S n => String (Ascii.ascii_of_nat 120) (toy_unary n)
  end.

Lemma toy_unary_length n : String.length (toy_unary n) = n.
Proof. induction n; simpl; auto. Qed.

Definition toy_display (n : N) : string := String (Ascii.ascii_of_nat 35) (toy_unary (N.to_nat n)).
Definition toy_parse (s : string) : option N :=
  match s with
  | EmptyString => None
  | String _ letters => Some (N.of_nat (String.length letters))
  end.

Lemma toy_display_roundtrip n : toy_parse (toy_display n) = Some n.
Proof. unfold toy_parse, toy_display. by rewrite toy_unary_length, N2Nat.id. Qed.

#[export] Instance toy_http_types : HttpTypes := {|
  Json := toy_json; ErrorBody := StatusCode * string;
  BlockSubmissionFilter := unit; DeliveredPayloadFilter := unit;
|}.

Definition toy_api_error (code : StatusCode) : ApiError :=
  match code with BAD_REQUEST => 4 | _ => 9 end.

#[export] Instance toy_http : Http := {|
  display_slot := toy_display;
  debug_hash := toy_display : Hash32 → string;
  debug_key := toy_display : BlsPublicKey → string;
  parse_slot := toy_parse;
  parse_hash := toy_parse : string → option Hash32;
  parse_key := toy_parse : string → option BlsPublicKey;
  display_error _ := "error";
  error_message code message := (code, message) : ErrorBody;
  error_to_json e := toy_error_json e.1 e.2 : Json;
  error_from_json (j : Json) :=
    match j with toy_error_json c m => Some ((c, m) : ErrorBody) | _ => None end;
  versioned_to_json v j := toy_versioned_json v j : Json;
  versioned_from_json (j : Json) :=
    match j with toy_versioned_json _ j => Some (j : Json) | _ => None end;
  signed_to_json j sig := toy_signed_json j sig : Json;
  signed_from_json (j : Json) :=
    match j with toy_signed_json j sig => Some (j : Json, sig) | _ => None end;
  registrations_to_json l := toy_registrations_json l : Json;
  registrations_from_json (j : Json) :=
    match j with toy_registrations_json l => Some l | _ => None end;
  block_to_json b := toy_block_json b : Json;
  block_from_json (j : Json) := match j with toy_block_json b => Some b | _ => None end;
  schedules_to_json l := toy_schedules_json l : Json;
  schedules_from_json (j : Json) := match j with toy_schedules_json l => Some l | _ => None end;
  registration_to_json _ := toy_traces_json : Json;
  payload_traces_to_json _ := toy_traces_json : Json;
  submission_traces_to_json _ := toy_traces_json : Json;
  html text := toy_page text : Json;
  display_count count := toy_unary count;
  ROOT_HTML_TRAILER := "</html>";
  json_rejection _ := UNPROCESSABLE_ENTITY;
  path_rejection := BAD_REQUEST;
  query_rejection := BAD_REQUEST;
  query_submissions _ := Some (tt : BlockSubmissionFilter);
  query_delivered _ := Some (tt : DeliveredPayloadFilter);
  query_key query := query ≫= toy_parse;
  api_error_or_ok r :=
    match status r with
    | OK => Ok tt
    | _ =>
        match body r with
        | Some (toy_error_json c _) => Err (toy_api_error c)
        | _ => Err (9 : ApiError)
        end
    end;
  get_result A decode r :=
    match body r ≫= decode, body r with
    | Some a, _ => Ok a
    | None, Some (toy_error_json c _) => Err (toy_api_error c)
    | None, _ => Err (9 : ApiError)
    end;
  into_api_error e := toy_api_error e.1;
  http_error := (9 : ApiError);
|}.

#[export] Instance toy_http_laws : HttpLaws toy_http.
Proof.
  split; try done; try apply toy_display_roundtrip.
  - by intros [].
  - intros A decode json a. simpl. by intros ->.
  - intros A decode e. simpl. by intros ->.
Qed.

#[export] Instance toy_bid_codec : Codec Json bellatrix_BuilderBid deneb_BuilderBid := {|
  decode_early (j : Json) := match j with toy_early_bid bid => Some bid | _ => None end;
  decode_late (j : Json) := match j with toy_late_bid bid => Some bid | _ => None end;
  encode_early := toy_early_bid : _ → Json;
  encode_late := toy_late_bid : _ → Json;
|}.

#[export] Instance toy_contents_codec :
  Codec Json bellatrix_AuctionContents deneb_AuctionContents := {|
  decode_early (j : Json) := match j with toy_early_contents c => Some c | _ => None end;
  decode_late (j : Json) := match j with toy_late_contents c => Some c | _ => None end;
  encode_early := toy_early_contents : _ → Json;
  encode_late := toy_late_contents : _ → Json;
|}.

#[export] Instance toy_submission_codec :
  Codec Json bellatrix_SignedBidSubmission deneb_SignedBidSubmission := {|
  decode_early (j : Json) := match j with toy_early_submission s => Some s | _ => None end;
  decode_late (j : Json) := match j with toy_late_submission s => Some s | _ => None end;
  encode_early := toy_early_submission : _ → Json;
  encode_late := toy_late_submission : _ → Json;
|}.

#[export] Instance toy_bid_codec_laws : CodecLaws toy_bid_codec.
Proof. by split. Qed.
#[export] Instance toy_contents_codec_laws : CodecLaws toy_contents_codec.
Proof. by split. Qed.
#[export] Instance toy_submission_codec_laws : CodecLaws toy_submission_codec.
Proof. by split. Qed.

(** A service that counts its registrations and has a bid for even slots. *)
Definition toy_signed_bid : SignedBuilderBid := {|
  signed_bid_message := BuilderBid_Bellatrix toy_bellatrix_bid;
  signed_bid_signature := toy_sig 1001 500;
|}.

Definition toy_service : BlindedBlockProvider N := {|
  provider_register_validators registrations :=
    _ ← modify (λ count, count + N.of_nat (length registrations));
    Done (Some (Ok ()));
  provider_fetch_best_bid auction_request :=
    Done (Some (if N.even (slot auction_request) then Ok toy_signed_bid
                else Err (NoBidPrepared auction_request)));
  provider_open_bid _ := Done (Some (Err (Error_Relay InvalidSignedBlindedBeaconBlock)));
|}.

Definition toy_relayer : BlindedBlockRelayer N := {|
  relayer_get_proposal_schedule := Done (Some (Ok []));
  relayer_submit_bid _ := Done None;
|}.

Definition toy_data : BlindedBlockDataProvider N := {|
  data_public_key := toy_pk 1001;
  data_registered_validators_count := read N.to_nat;
  data_get_delivered_payloads _ := Done (Some (Ok []));
  data_get_block_submissions _ := Done (Some (Ok []));
  data_fetch_validator_registration k := Done (Some (Err (Error_Relay (ValidatorNotRegistered k))));
|}.

Definition toy_lost : ApiError := 0.

Definition toy_api : Transport N := loopback toy_lost (serve_relay toy_service toy_relayer toy_data).

Definition toy_ask (slot : N) : AuctionRequest :=
  {| slot := slot; parent_hash := toy_hash 40; public_key := toy_pk 5 |}.

(** A Bellatrix bid arrives as a Capella bid, no bid as no bid, and a block that does
    not open as an error. *)
Lemma services_over_http_witness :
  run (fetch_best_bid toy_api (toy_ask 2)) 0
    = (0, Ok {| signed_bid_message := BuilderBid_Capella toy_bellatrix_bid;
                signed_bid_signature := toy_sig 1001 500 |}) ∧
  run (fetch_best_bid toy_api (toy_ask 3)) 0 = (0, Err (NoBidPrepared (toy_ask 3))) ∧
  run (open_bid toy_api (toy_blinded_block 201 40 41)) 0 = (0, Err (Error_Api (4 : ApiError))).
Proof.
  destruct (services_over_http toy_service toy_relayer toy_data toy_lost (toy_ask 2)
      (toy_blinded_block 201 40 41) [] (toy_submission 201 40 41 500) 0) as (Hbid & Hopen & _);
    [intros r; vm_compute; discriminate..|].
  destruct (services_over_http toy_service toy_relayer toy_data toy_lost (toy_ask 3)
      (toy_blinded_block 201 40 41) [] (toy_submission 201 40 41 500) 0) as (Hnone & _);
    [intros r; vm_compute; discriminate..|].
  split; [exact Hbid|]. split; [exact Hnone|exact Hopen].
Defined.

(** A path of the relay API with the wrong method, an empty segment, which no route
    matches, and a query without a key. *)
Definition toy_request_to (method : Method) (path : list string) : Request := {|
  request_method := method; request_path := path; request_query := None;
  request_version := None; request_body := None;
|}.

Lemma bad_requests_rejected_witness :
  rejected METHOD_NOT_ALLOWED (serve_relay toy_service toy_relayer toy_data
    (toy_request_to POST delivered_path)) ∧
  rejected NOT_FOUND (serve_relay toy_service toy_relayer toy_data
    (toy_request_to GET (header_prefix ++ [""; "#"; "#"]))) ∧
  rejected query_rejection (serve_relay toy_service toy_relayer toy_data
    (toy_request_to GET registration_path)).
Proof.
  split; [|split].
  - apply (proj1 (proj2 (bad_requests_rejected toy_service toy_relayer toy_data
      (toy_request_to POST delivered_path))) GET (Literal <$> delivered_path)); [|repeat constructor|done].
    by apply (list_elem_of_lookup_2 _ 7).
  - apply (proj1 (bad_requests_rejected toy_service toy_relayer toy_data
      (toy_request_to GET (header_prefix ++ [""; "#"; "#"])))).
    intros method pattern Hin Hpath. simpl in Hpath.
    unfold api_paths in Hin. rewrite !elem_of_cons, elem_of_nil in Hin.
    destruct_or! Hin; try done; injection Hin as -> ->;
      repeat (apply path_matches_cons in Hpath as (? & ? & ? & ? & Hpath); simplify_eq/=);
      try done; by apply path_matches_nil in Hpath.
  - apply (bad_requests_rejected toy_service toy_relayer toy_data (toy_request_to GET registration_path));
      [done|]. right. right. by split.
Defined.
End ToyApi.
