(* ===== verification/Execution.v ===== *)
(** The data of the execution client.

    The builder runs inside the execution client [reth], whose code is not part of the
    repository.  Its blocks, transactions and built payloads are the types of this
    file; its functions (the state database and the virtual machine, the transaction
    pool, the roots of a block) are the fields of [ExecutionFunctions], and the
    documented behaviour that theorems rely on is [ExecutionLaws].

    [B256] and [Bytes32] are both arrays of 32 bytes and [Address] and
    [ExecutionAddress] both arrays of 20; they are one type each, [Hash32] and
    [ExecutionAddress].  [Bytes] is a list of bytes, and a byte is a number below
    256. *)

From S2P Require Import Prelude.
From S2P Require Import Consensus.
From S2P Require Import Types.
From S2P Require Import Toy.

#[local] Open Scope N_scope.

Class ExecutionTypes `{CT : ConsensusTypes} := {
  LogsBloom : Type;
  TransactionSigned : Type;
  (** [encoded_2718] of a transaction *)
  encoded_2718 : TransactionSigned → list N;
}.

(** The eight bytes of a [PayloadId]. *)
Definition PayloadId : Type := list N.

Section withdrawal.
Context `{CT : ConsensusTypes}.

Record Withdrawal : Type := {
  withdrawal_index : N;
  withdrawal_validator_index : N;
  withdrawal_address : ExecutionAddress;
  withdrawal_amount : N;
}.
End withdrawal.

Section execution.
Context `{ET : ExecutionTypes}.

Record Header : Type := {
  header_parent : Hash32;
  header_ommers_hash : Hash32;
  header_beneficiary : ExecutionAddress;
  header_state_root : Hash32;
  header_transactions_root : Hash32;
  header_receipts_root : Hash32;
  header_withdrawals_root : option Hash32;
  header_logs_bloom : LogsBloom;
  header_difficulty : N;
  header_number : N;
  header_gas_limit : N;
  header_gas_used : N;
  header_timestamp : N;
  header_mix_hash : Hash32;
  header_nonce : N;
  header_base_fee_per_gas : option N;
  header_blob_gas_used : option N;
  header_excess_blob_gas : option N;
  header_parent_beacon_block_root : option Hash32;
  header_requests_root : option Hash32;
  header_extra_data : list N;
}.

(** A block with its hash; [ommers] and [requests] are always empty here. *)
Record SealedBlock : Type := {
  sealed_hash : Hash32;
  sealed_header : Header;
  sealed_transactions : list TransactionSigned;
  sealed_withdrawals : option (list Withdrawal);
}.

Record BlobTransactionSidecar : Type := {
  sidecar_commitments : list KzgCommitment;
  sidecar_proofs : list KzgProof;
  sidecar_blobs : list Blob;
}.

(** A built block with its identifier, fees and blobs. *)
Record EthBuiltPayload : Type := {
  built_id : PayloadId;
  built_block : SealedBlock;
  built_fees : N;
  built_sidecars : list BlobTransactionSidecar;
}.
End execution.

(** * What the payload builder calls *)

Class ExecutionTerms `{ET : ExecutionTypes} := {
  (** the state of the chain at a block, [State] over it, and what [State] collects *)
  StateProvider : Type;
  Db : Type;
  BundleState : Type;
  StateDiff : Type;
  CachedReads : Type;
  (** the configuration of the virtual machine and of one transaction *)
  CfgEnv : Type;
  TxEnv : Type;
  Log : Type;
  (** the pool's transactions and its iterator over the best ones *)
  PoolTransaction : Type;
  BestTransactions : Type;
  (** the signer of the builder's own transactions *)
  Signer : Type;
  TxSignature : Type;
  InternalError : Type;
}.

Section execution_terms.
Context `{EX : ExecutionTerms}.

Record BlockEnv : Type := {
  env_number : N;
  env_coinbase : ExecutionAddress;
  env_timestamp : N;
  env_gas_limit : N;
  env_basefee : N;
  env_difficulty : N;
  env_prevrandao : option Hash32;
  env_blob_gasprice : option N;
}.

Record NextBlockEnvAttributes : Type := {
  next_timestamp : N;
  next_suggested_fee_recipient : ExecutionAddress;
  next_prev_randao : Hash32;
}.

Inductive InvalidTransaction : Type :=
| NonceTooLow
| InvalidTransaction_Other (e : InternalError).

Inductive EVMError : Type :=
| EVMError_Transaction (e : InvalidTransaction)
| EVMError_Other (e : InternalError).

(** The errors of the builder; [BlockGasLimitExceeded] and [MissingBuildState] are
    boxed in [PayloadBuilderError::Other] in the source. *)
Inductive PayloadBuilderError : Type :=
| EvmExecutionError (e : EVMError)
| Internal (e : InternalError)
| MissingParentBlock (hash : Hash32)
| MissingBuildState
| BlockGasLimitExceeded (gas_used gas_limit : N).

Record ExecutionResult : Type := {
  result_gas_used : N;
  result_is_success : bool;
  result_logs : list Log;
}.

Record Receipt : Type := {
  receipt_tx_type : N;
  receipt_success : bool;
  receipt_cumulative_gas_used : N;
  receipt_logs : list Log;
}.

Record ExecutionOutcome : Type := {
  outcome_bundle : BundleState;
  outcome_receipts : list (list (option Receipt));
  outcome_first_block : N;
}.

Record AccountInfo : Type := {
  account_nonce : N;
  account_is_empty_code_hash : bool;
}.

Record TxEip1559 : Type := {
  tx_chain_id : N;
  tx_nonce : N;
  tx_gas_limit : N;
  tx_max_fee_per_gas : N;
  tx_max_priority_fee_per_gas : N;
  tx_to : ExecutionAddress;
  tx_value : N;
  tx_input : list N;
}.

Inductive BuildOutcome : Type :=
| Better (payload : EthBuiltPayload) (cached_reads : CachedReads)
| Aborted (fees : N) (cached_reads : CachedReads)
| Cancelled.
End execution_terms.

Class ExecutionFunctions `{EX : ExecutionTerms} := {
  (** [StateProviderFactory] and [State] *)
  state_by_block_hash : Hash32 → result InternalError StateProvider;
  open_state : StateProvider → Db;
  open_state_cached : StateProvider → CachedReads → Db;
  open_state_on : StateProvider → BundleState → Db;
  cached_reads_of : Db → CachedReads;
  empty_cached_reads : CachedReads;
  load_cache_account : ExecutionAddress → Db → result InternalError (Db * option AccountInfo);
  commit : StateDiff → Db → Db;
  merge_transitions : Db → Db;
  take_bundle : Db → BundleState;
  state_root : StateProvider → ExecutionOutcome → result InternalError Hash32;
  (** the virtual machine *)
  next_cfg_and_block_env : Header → NextBlockEnvAttributes → CfgEnv * BlockEnv;
  transact : CfgEnv → BlockEnv → TxEnv → Db → Db * result EVMError (ExecutionResult * StateDiff);
  fill_tx_env : TransactionSigned → ExecutionAddress → TxEnv;
  pre_block_beacon_root_contract_call :
    CfgEnv → BlockEnv → option Hash32 → Db → Db * result InternalError unit;
  commit_withdrawals :
    N → list Withdrawal → Db → result InternalError (Db * (option Hash32 * option (list Withdrawal)));
  is_cancun_active_at_timestamp : N → bool;
  calc_excess_blob_gas : N → N → N;
  MAX_DATA_GAS_PER_BLOCK : N;
  (** the pool *)
  best_transactions_with_attributes : N → option N → BestTransactions;
  next : BestTransactions → option (PoolTransaction * BestTransactions);
  mark_invalid : PoolTransaction → BestTransactions → BestTransactions;
  skip_blobs : BestTransactions → BestTransactions;
  pool_gas_limit : PoolTransaction → N;
  to_recovered_transaction : PoolTransaction → TransactionSigned * ExecutionAddress;
  get_all_blobs_exact : list Hash32 → result InternalError (list BlobTransactionSidecar);
  (** transactions; [eip4844_blob_gas] is [as_eip4844] with [blob_gas] *)
  tx_hash : TransactionSigned → Hash32;
  tx_type : TransactionSigned → N;
  eip4844_blob_gas : TransactionSigned → option N;
  effective_tip_per_gas : TransactionSigned → N → option N;
  signer_address : Signer → ExecutionAddress;
  signature_hash : TxEip1559 → Hash32;
  sign_hash_sync : Signer → Hash32 → option TxSignature;
  from_transaction_and_signature : TxEip1559 → TxSignature → TransactionSigned;
  (** blocks *)
  hash_slow : Header → Hash32;
  calculate_transaction_root : list TransactionSigned → Hash32;
  receipts_by_block : ExecutionOutcome → N → list (option Receipt);
  receipts_root_slow : ExecutionOutcome → N → option Hash32;
  block_logs_bloom : ExecutionOutcome → N → option LogsBloom;
  empty_logs_bloom : LogsBloom;
  EMPTY_OMMER_ROOT_HASH : Hash32;
  EMPTY_TRANSACTIONS : Hash32;
  EMPTY_RECEIPTS : Hash32;
  BEACON_NONCE : N;
  is_better_payload : option EthBuiltPayload → N → bool;
}.

(** A transaction uses at most the gas its sender allowed; an outcome has roots for the
    block whose receipts it holds, and hands these receipts out; a payload is better
    when its fees are higher. *)
Class ExecutionLaws `{EF : ExecutionFunctions} : Prop := {
  transact_pool_gas cfg env pool_tx tx sender db db' r diff :
    to_recovered_transaction pool_tx = (tx, sender) →
    transact cfg env (fill_tx_env tx sender) db = (db', Ok (r, diff)) →
    result_gas_used r ≤ pool_gas_limit pool_tx;
  transact_own_gas cfg env tx signature sender db db' r diff :
    transact cfg env (fill_tx_env (from_transaction_and_signature tx signature) sender) db
      = (db', Ok (r, diff)) →
    result_gas_used r ≤ tx_gas_limit tx;
  receipts_by_block_single bundle rs n :
    receipts_by_block {| outcome_bundle := bundle; outcome_receipts := [rs];
                         outcome_first_block := n |} n = rs;
  receipts_root_single bundle rs n :
    is_Some (receipts_root_slow {| outcome_bundle := bundle; outcome_receipts := [rs];
                                   outcome_first_block := n |} n);
  logs_bloom_single bundle rs n :
    is_Some (block_logs_bloom {| outcome_bundle := bundle; outcome_receipts := [rs];
                                 outcome_first_block := n |} n);
  is_better_payload_spec best fees :
    is_better_payload best fees = true ↔ ∀ payload, best = Some payload → built_fees payload < fees;
}.

(** * Examples *)

Module ToyExecution.
Import ToyInstances.

#[export] Instance toy_execution : ExecutionTypes := {|
  LogsBloom := N;
  TransactionSigned := list N;
  encoded_2718 := λ t, t;
|}.

(** A Deneb block with one transaction. *)
Definition toy_block (parent hash : N) : SealedBlock := {|
  sealed_hash := toy_hash hash;
  sealed_header := {|
    header_parent := toy_hash parent; header_ommers_hash := toy_hash 0;
    header_beneficiary := toy_address 9;
    header_state_root := toy_hash 1; header_transactions_root := toy_hash 4;
    header_receipts_root := toy_hash 2; header_withdrawals_root := None;
    header_logs_bloom := 0%N : LogsBloom; header_difficulty := 0;
    header_number := 17; header_gas_limit := 30000000; header_gas_used := 21000;
    header_timestamp := 2412; header_mix_hash := toy_hash 3; header_nonce := 0;
    header_base_fee_per_gas := Some 7;
    header_blob_gas_used := Some 0; header_excess_blob_gas := Some 0;
    header_parent_beacon_block_root := None; header_requests_root := None;
    header_extra_data := [];
  |};
  sealed_transactions := [[1; 2; 3] : TransactionSigned];
  sealed_withdrawals := Some [];
|}.

(** A client in which a transaction is a list of numbers: its gas limit, the gas it
    uses (none when its nonce is too low), its tip, one more than its blob gas (or
    zero), and its recipient and value.  Account [99] is a contract.  The pool is a
    list. *)
#[export] Instance toy_terms : ExecutionTerms := {|
  StateProvider := N; Db := N; BundleState := N; StateDiff := N; CachedReads := unit;
  CfgEnv := unit; TxEnv := list N; Log := unit;
  PoolTransaction := list N; BestTransactions := list (list N);
  Signer := N; TxSignature := N; InternalError := N;
|}.

Definition toy_field (i : nat) (tx : list N) : N := default 0 (tx !! i).

Definition toy_tx_gas_limit (tx : list N) : N := N.min (toy_field 0 tx) 100000000.

Definition toy_blob_gas (tx : list N) : option N := checked_sub (N.min (toy_field 3 tx) 1000000) 1.

Definition toy_transact (tx : list N) (db : N)
    : N * result EVMError (ExecutionResult * N) :=
  if decide (toy_field 1 tx = 0) then (db, Err (EVMError_Transaction NonceTooLow))
  else (db, Ok ({| result_gas_used := N.min (toy_tx_gas_limit tx) (toy_field 1 tx);
                   result_is_success := true; result_logs := [] |}, 1)).

Definition toy_client_of (pool : list (list N)) : ExecutionFunctions := {|
  state_by_block_hash h := Ok h : result InternalError StateProvider;
  open_state p := p : Db; open_state_cached p _ := p : Db; open_state_on p b := (p + b : Db);
  cached_reads_of _ := tt : CachedReads; empty_cached_reads := tt : CachedReads;
  load_cache_account a db := Ok (db, Some {|
    account_nonce := 5; account_is_empty_code_hash := negb (a =? 99) |});
  commit diff db := (db + diff : Db); merge_transitions db := db; take_bundle db := db : BundleState;
  state_root p o := Ok (p + outcome_bundle o) : result InternalError Hash32;
  next_cfg_and_block_env h a := (tt : CfgEnv, {|
    env_number := header_number h + 1; env_coinbase := next_suggested_fee_recipient a;
    env_timestamp := next_timestamp a; env_gas_limit := header_gas_limit h; env_basefee := 7;
    env_difficulty := 0; env_prevrandao := Some (next_prev_randao a); env_blob_gasprice := Some 1 |});
  transact _ _ := toy_transact;
  fill_tx_env tx _ := tx;
  pre_block_beacon_root_contract_call _ _ _ db := (db, Ok tt);
  commit_withdrawals _ ws db := Ok (db, (Some (N.of_nat (length ws) : Hash32), Some ws));
  is_cancun_active_at_timestamp t := 1000 <? t;
  calc_excess_blob_gas a b := a + b - 393216;
  MAX_DATA_GAS_PER_BLOCK := 786432;
  best_transactions_with_attributes _ _ := pool;
  next best := match best : list (list N) with [] => None | tx :: best => Some (tx, best) end;
  mark_invalid _ best := best;
  skip_blobs best := filter (λ tx, toy_blob_gas tx = None) (best : list (list N));
  pool_gas_limit := toy_tx_gas_limit;
  to_recovered_transaction tx := (tx : TransactionSigned, toy_address 7);
  get_all_blobs_exact hs := Ok (map (λ h, {|
    sidecar_commitments := [toy_commitment h]; sidecar_proofs := [(h : KzgProof)];
    sidecar_blobs := [(h : Blob)] |}) hs);
  tx_hash tx := (toy_field 2 tx : Hash32);
  tx_type tx := toy_field 3 tx;
  eip4844_blob_gas := toy_blob_gas;
  effective_tip_per_gas tx _ := Some (toy_field 2 tx);
  signer_address s := toy_address s;
  signature_hash tx := (tx_value tx : Hash32);
  sign_hash_sync s h := Some (s + h : TxSignature);
  from_transaction_and_signature tx _ :=
    [tx_gas_limit tx; 21000; 0; 0; tx_to tx; tx_value tx] : list N;
  hash_slow h := (header_gas_used h : Hash32);
  calculate_transaction_root txs := (N.of_nat (length txs) : Hash32);
  receipts_by_block o n :=
    if n =? outcome_first_block o then default [] (head (outcome_receipts o)) else [];
  receipts_root_slow o n :=
    if n =? outcome_first_block o
    then Some (N.of_nat (length (default [] (head (outcome_receipts o)))) : Hash32) else None;
  block_logs_bloom o n := if n =? outcome_first_block o then Some (0 : LogsBloom) else None;
  empty_logs_bloom := 0 : LogsBloom;
  EMPTY_OMMER_ROOT_HASH := toy_hash 0; EMPTY_TRANSACTIONS := toy_hash 0; EMPTY_RECEIPTS := toy_hash 0;
  BEACON_NONCE := 0;
  is_better_payload best fees :=
    match best with Some payload => built_fees payload <? fees | None => true end;
|}.

#[export] Instance toy_client : ExecutionFunctions :=
  toy_client_of [[50000; 30000; 2; 0]; [60000; 0; 1; 0]; [21000; 21000; 3; 131073]].

Lemma toy_transact_gas tx db db' r diff :
  toy_transact tx db = (db', Ok (r, diff)) → result_gas_used r ≤ toy_tx_gas_limit tx.
Proof. unfold toy_transact. case_decide; intros [= _ <- _]. simpl. lia. Qed.

Lemma toy_client_of_laws pool : @ExecutionLaws _ _ _ (toy_client_of pool).
Proof.
  split; simpl.
  - intros cfg env pool_tx tx sender db db' r diff [= <- <-]. apply toy_transact_gas.
  - intros cfg env tx signature sender db db' r diff H. apply toy_transact_gas in H.
    unfold toy_tx_gas_limit, toy_field in H. simpl in H. lia.
  - intros. by rewrite N.eqb_refl.
  - intros. rewrite N.eqb_refl. eauto.
  - intros. rewrite N.eqb_refl. eauto.
  - intros [payload|] fees; rewrite ?N.ltb_lt; naive_solver.
Qed.

#[export] Instance toy_client_laws : ExecutionLaws := toy_client_of_laws _.
End ToyExecution.
