(* ===== verification/Attributes.v ===== *)
(** [mev-build-rs/src/payload/attributes.rs]: the attributes of a payload to build,
    and the identifiers under which the builder keeps them apart.

    SHA-256 and the RLP encoding of withdrawals
    are parameters, the fields of [Hashing]. *)

From S2P Require Import Prelude.
From S2P Require Import Consensus.
From S2P Require Import Execution.
From S2P Require Import Toy.

#[local] Open Scope N_scope.

(** [u64::to_be_bytes] *)
Definition to_be_bytes (n : N) : list N :=
  map (λ i, (n / 256 ^ i) `mod` 256) [7; 6; 5; 4; 3; 2; 1; 0].

(** The number eight bytes stand for, most significant first. *)
Definition from_be_bytes (bytes : list N) : N := foldl (λ acc b, acc * 256 + b) 0 bytes.

(** One more byte: the quotients by powers of 256 are successive divisions. *)
Lemma div_pow_succ n k : n / 256 ^ (N.succ k) = n / 256 ^ k / 256.
Proof. rewrite N.pow_succ_r', N.mul_comm. apply eq_sym, N.Div0.div_div. Qed.

Lemma from_be_bytes_step n k j :
  j = N.succ k → n / 256 ^ j * 256 + (n / 256 ^ k) `mod` 256 = n / 256 ^ k.
Proof. intros ->. rewrite div_pow_succ. pose proof (N.div_mod' (n / 256 ^ k) 256). lia. Qed.

Lemma to_be_bytes_roundtrip n : n < u64_mod → from_be_bytes (to_be_bytes n) = n.
Proof.
  intros Hn. unfold from_be_bytes, to_be_bytes. cbn [map foldl].
  rewrite (N.mod_small (n / 256 ^ 7)) by (apply N.Div0.div_lt_upper_bound; exact Hn).
  rewrite N.mul_0_l, N.add_0_l.
  rewrite (from_be_bytes_step n 6 7), (from_be_bytes_step n 5 6), (from_be_bytes_step n 4 5),
    (from_be_bytes_step n 3 4), (from_be_bytes_step n 2 3), (from_be_bytes_step n 1 2),
    (from_be_bytes_step n 0 1) by done.
  apply N.div_1_r.
Qed.

Lemma to_be_bytes_inj a b :
  a < u64_mod → b < u64_mod → to_be_bytes a = to_be_bytes b → a = b.
Proof.
  intros Ha Hb Heq. rewrite <-(to_be_bytes_roundtrip a Ha), <-(to_be_bytes_roundtrip b Hb).
  by rewrite Heq.
Qed.

(** What the payload identifiers are computed with. *)
Class Hashing `{CT : ConsensusTypes} := {
  b256_bytes : Hash32 → list N;
  address_bytes : ExecutionAddress → list N;
  rlp_encode_withdrawals : list Withdrawal → list N;
  sha256 : list N → list N;
}.

(** An address has 20 bytes, which determine it. *)
Class HashingLaws `{CT : ConsensusTypes} (H : Hashing) : Prop := {
  address_bytes_length a : length (address_bytes a) = 20%nat;
  address_bytes_inj a b : address_bytes a = address_bytes b → a = b;
}.

Section attributes.
Context `{CT : ConsensusTypes} {HS : Hashing}.

(** The fields of [rpc::PayloadAttributes] the program reads. *)
Record PayloadAttributes : Type := {
  rpc_timestamp : N;
  rpc_prev_randao : Hash32;
  rpc_suggested_fee_recipient : ExecutionAddress;
  rpc_withdrawals : option (list Withdrawal);
  rpc_parent_beacon_block_root : option Hash32;
}.

Record EthPayloadBuilderAttributes : Type := {
  attributes_id : PayloadId;
  attributes_parent : Hash32;
  attributes_timestamp : N;
  attributes_suggested_fee_recipient : ExecutionAddress;
  attributes_prev_randao : Hash32;
  attributes_withdrawals : list Withdrawal;
  attributes_parent_beacon_block_root : option Hash32;
}.

(** [bidder] is the sending end of a channel, by its identity. *)
Record ProposalAttributes : Type := {
  proposer_gas_limit : N;
  proposer_fee_recipient : ExecutionAddress;
  bidder : N;
}.

Record BuilderPayloadBuilderAttributes : Type := {
  inner : EthPayloadBuilderAttributes;
  proposal : option ProposalAttributes;
}.

(** [PayloadId::new(out.as_slice()[..8])] *)
Definition first_eight (out : list N) : PayloadId := take 8 out.

Definition payload_id (parent : Hash32) (attributes : PayloadAttributes) : PayloadId :=
  let hasher := b256_bytes parent in
  let hasher := hasher ++ to_be_bytes (rpc_timestamp attributes) in
  let hasher := hasher ++ b256_bytes (rpc_prev_randao attributes) in
  let hasher := hasher ++ address_bytes (rpc_suggested_fee_recipient attributes) in
  let hasher :=
    match rpc_withdrawals attributes with
    | Some withdrawals => hasher ++ rlp_encode_withdrawals withdrawals
    | None => hasher
    end in
  let hasher :=
    match rpc_parent_beacon_block_root attributes with
    | Some parent_beacon_block => hasher ++ b256_bytes parent_beacon_block
    | None => hasher
    end in
  first_eight (sha256 hasher).

(** What [mix_proposal_into_payload_id] hashes. *)
Definition mix_preimage (payload_id : PayloadId) (proposal : ProposalAttributes) : list N :=
  payload_id ++ to_be_bytes (proposer_gas_limit proposal)
    ++ address_bytes (proposer_fee_recipient proposal).

Definition mix_proposal_into_payload_id (payload_id : PayloadId) (proposal : ProposalAttributes)
    : PayloadId :=
  first_eight (sha256 (mix_preimage payload_id proposal)).

Definition new (parent : Hash32) (attributes : PayloadAttributes)
    : BuilderPayloadBuilderAttributes :=
  let id := payload_id parent attributes in
  let inner := {|
    attributes_id := id;
    attributes_parent := parent;
    attributes_timestamp := rpc_timestamp attributes;
    attributes_suggested_fee_recipient := rpc_suggested_fee_recipient attributes;
    attributes_prev_randao := rpc_prev_randao attributes;
    attributes_withdrawals := default [] (rpc_withdrawals attributes);
    attributes_parent_beacon_block_root := rpc_parent_beacon_block_root attributes;
  |} in
  {| inner := inner; proposal := None |}.

Definition set_id (id : PayloadId) (a : EthPayloadBuilderAttributes)
    : EthPayloadBuilderAttributes := {|
  attributes_id := id;
  attributes_parent := attributes_parent a;
  attributes_timestamp := attributes_timestamp a;
  attributes_suggested_fee_recipient := attributes_suggested_fee_recipient a;
  attributes_prev_randao := attributes_prev_randao a;
  attributes_withdrawals := attributes_withdrawals a;
  attributes_parent_beacon_block_root := attributes_parent_beacon_block_root a;
|}.

Definition attach_proposal (self : BuilderPayloadBuilderAttributes) (proposal : ProposalAttributes)
    : BuilderPayloadBuilderAttributes :=
  let id := mix_proposal_into_payload_id (attributes_id (inner self)) proposal in
  {| inner := set_id id (inner self); proposal := Some proposal |}.

(** [PayloadBuilderAttributes::payload_id] and [timestamp]. *)
Definition payload_id_of (a : BuilderPayloadBuilderAttributes) : PayloadId :=
  attributes_id (inner a).
Definition timestamp_of (a : BuilderPayloadBuilderAttributes) : N :=
  attributes_timestamp (inner a).
End attributes.

(** * Properties *)

Section attributes_properties.
Context `{CT : ConsensusTypes} {HS : Hashing} `{HL : !HashingLaws HS}.

(** The bytes that are hashed for an auction determine the payload it
    builds on, the gas limit and the fee recipient: two auctions share an identifier
    only if they agree on these, or if the hash collides.  The proposer's key is not
    among them. *)
Theorem mix_preimage_inj (id id' : PayloadId) (p p' : ProposalAttributes) :
  length id = length id' →
  proposer_gas_limit p < u64_mod → proposer_gas_limit p' < u64_mod →
  mix_preimage id p = mix_preimage id' p' →
  id = id' ∧ proposer_gas_limit p = proposer_gas_limit p' ∧
  proposer_fee_recipient p = proposer_fee_recipient p'.
Proof.
  intros Hlen Hg Hg' Heq. unfold mix_preimage in Heq.
  apply app_inj_1 in Heq as [-> Heq]; [|done].
  apply app_inj_1 in Heq as [Hgas Haddr]; [|done].
  split_and!; [done|by apply to_be_bytes_inj|by apply address_bytes_inj].
Qed.

(** Attaching a proposal changes the identifier and nothing else of the attributes. *)
Lemma attach_proposal_spec a p :
  proposal (attach_proposal a p) = Some p ∧
  payload_id_of (attach_proposal a p) = mix_proposal_into_payload_id (payload_id_of a) p ∧
  set_id (payload_id_of a) (inner (attach_proposal a p)) = inner a.
Proof. by destruct a as [[] ?]. Qed.
End attributes_properties.

(** * Examples *)

Module ToyHashing.
Import ToyInstances.

(** A 20-byte address, 32-byte words, and a hash that keeps what it is given. *)
Definition toy_repeat (n : nat) (x : N) : list N := repeat x n.

#[export] Instance toy_hashing : Hashing := {|
  b256_bytes := toy_repeat 32 : Hash32 → list N;
  address_bytes := toy_repeat 20 : ExecutionAddress → list N;
  rlp_encode_withdrawals := map withdrawal_index;
  sha256 := λ bytes, [foldl (λ acc b, (acc * 31 + b + 1) `mod` 1000003) 7 bytes];
|}.

#[export] Instance toy_hashing_laws : HashingLaws toy_hashing.
Proof.
  split.
  - done.
  - intros a b Heq. by injection Heq.
Qed.

Lemma mix_preimage_inj_witness :
  let p := {| proposer_gas_limit := 30000000; proposer_fee_recipient := toy_address 77;
              bidder := 1 |} in
  let p' := {| proposer_gas_limit := 30000000; proposer_fee_recipient := toy_address 77;
               bidder := 2 |} in
  mix_preimage [5] p = mix_preimage [5] p' ∧ proposer_fee_recipient p = proposer_fee_recipient p'.
Proof.
  cbv zeta. split; [reflexivity|].
  apply (mix_preimage_inj [5] [5]
    {| proposer_gas_limit := 30000000; proposer_fee_recipient := toy_address 77; bidder := 1 |}
    {| proposer_gas_limit := 30000000; proposer_fee_recipient := toy_address 77; bidder := 2 |});
    reflexivity.
Defined.
End ToyHashing.
