(* ===== verification/PayloadBuilder.v ===== *)
(** [mev-build-rs/src/payload/builder.rs]: building a block from the best transactions
    of the pool, and appending to a built block the transaction that pays the
    proposer.

    The state of a [PayloadBuilder] behind its mutex is the map of the execution
    outcomes of its builds; the fields that never change are [Inner].  The number of
    transactions the pool's iterator yields is not known in advance, so the loop takes
    fuel, and [packing_terminates] states when there is enough.  A panic is
    [Panics]. *)

From S2P Require Import Prelude.
From S2P Require Import Consensus.
From S2P Require Import Types.
From S2P Require Import BlockValidation.
From S2P Require Import Execution.
From S2P Require Import Attributes.
From S2P Require Import Toy.

#[local] Open Scope N_scope.

Definition BASE_TX_GAS_LIMIT : N := 21000.
Definition PAYMENT_TO_CONTRACT_GAS_LIMIT : N := 100000.

Section builder.
Context `{ET : ExecutionTypes} {HS : Hashing} {EX : ExecutionTerms} {EF : ExecutionFunctions}.

Record PayloadFinalizerConfig : Type := {
  finalizer_fee_recipient : ExecutionAddress;
  finalizer_cfg_env : CfgEnv;
  finalizer_block_env : BlockEnv;
}.

Record Inner : Type := {
  signer : Signer;
  builder_fee_recipient : ExecutionAddress;
  chain_id : N;
}.

(** [execution_outcomes] *)
Definition Outcomes : Type := gmap PayloadId ExecutionOutcome.

(** [PayloadBuilder::new]: no outcome is kept yet. *)
Definition new (signer : Signer) (fee_recipient : ExecutionAddress) (chain_id : N)
    : Inner * Outcomes :=
  ({| signer := signer; builder_fee_recipient := fee_recipient; chain_id := chain_id |}, ∅).

Record PayloadConfig : Type := {
  parent_block : SealedBlock;
  extra_data : list N;
  config_attributes : BuilderPayloadBuilderAttributes;
}.

(** The transaction with its signer. *)
Definition make_payment_transaction (signer : Signer) (config : PayloadFinalizerConfig)
    (chain_id nonce gas_limit max_fee_per_gas value : N)
    : outcome PayloadBuilderError (TransactionSigned * ExecutionAddress) :=
  let tx := {|
    tx_chain_id := chain_id;
    tx_nonce := nonce;
    tx_gas_limit := gas_limit;
    tx_max_fee_per_gas := max_fee_per_gas;
    tx_max_priority_fee_per_gas := 0;
    tx_to := finalizer_fee_recipient config;
    tx_value := value;
    tx_input := [];
  |} in
  signature ←! unwrap (sign_hash_sync signer (signature_hash tx));
  Returns (Ok (from_transaction_and_signature tx signature, signer_address signer)).

Definition set_env_gas_limit (gas_limit : N) (env : BlockEnv) : BlockEnv := {|
  env_number := env_number env;
  env_coinbase := env_coinbase env;
  env_timestamp := env_timestamp env;
  env_gas_limit := gas_limit;
  env_basefee := env_basefee env;
  env_difficulty := env_difficulty env;
  env_prevrandao := env_prevrandao env;
  env_blob_gasprice := env_blob_gasprice env;
|}.

Definition set_env_coinbase (coinbase : ExecutionAddress) (env : BlockEnv) : BlockEnv := {|
  env_number := env_number env;
  env_coinbase := coinbase;
  env_timestamp := env_timestamp env;
  env_gas_limit := env_gas_limit env;
  env_basefee := env_basefee env;
  env_difficulty := env_difficulty env;
  env_prevrandao := env_prevrandao env;
  env_blob_gasprice := env_blob_gasprice env;
|}.

(** The header after the payment. *)
Definition paid_header (header : Header) (state_root transactions_root receipts_root : Hash32)
    (logs_bloom : LogsBloom) (gas_used gas_limit : N) : Header := {|
  header_parent := header_parent header;
  header_ommers_hash := header_ommers_hash header;
  header_beneficiary := header_beneficiary header;
  header_state_root := state_root;
  header_transactions_root := transactions_root;
  header_receipts_root := receipts_root;
  header_withdrawals_root := header_withdrawals_root header;
  header_logs_bloom := logs_bloom;
  header_difficulty := header_difficulty header;
  header_number := header_number header;
  header_gas_limit := gas_limit;
  header_gas_used := gas_used;
  header_timestamp := header_timestamp header;
  header_mix_hash := header_mix_hash header;
  header_nonce := header_nonce header;
  header_base_fee_per_gas := header_base_fee_per_gas header;
  header_blob_gas_used := header_blob_gas_used header;
  header_excess_blob_gas := header_excess_blob_gas header;
  header_parent_beacon_block_root := header_parent_beacon_block_root header;
  header_requests_root := header_requests_root header;
  header_extra_data := header_extra_data header;
|}.

(** [Block::seal_slow] *)
Definition seal_slow (header : Header) (transactions : list TransactionSigned)
    (withdrawals : option (list Withdrawal)) : SealedBlock := {|
  sealed_hash := hash_slow header;
  sealed_header := header;
  sealed_transactions := transactions;
  sealed_withdrawals := withdrawals;
|}.

Definition lift {A} (r : result InternalError A) : outcome PayloadBuilderError A :=
  Returns (map_err Internal r).

(** The gas limit of the payment: enough for a transfer, or for a contract. *)
Definition payment_gas_limit (recipient : option AccountInfo) : N :=
  let is_empty_code_hash := default false (account_is_empty_code_hash <$> recipient) in
  if is_empty_code_hash then BASE_TX_GAS_LIMIT else PAYMENT_TO_CONTRACT_GAS_LIMIT.

Definition append_payment (execution_outcome : ExecutionOutcome) (signer : Signer)
    (config : PayloadFinalizerConfig) (chain_id : N) (block : SealedBlock) (value : N)
    : outcome PayloadBuilderError SealedBlock :=
  let header := sealed_header block in
  state_provider ←! lift (state_by_block_hash (header_parent header));
  let db := open_state_on state_provider (outcome_bundle execution_outcome) in
  ' (db, signer_account) ←! lift (load_cache_account (signer_address signer) db);
  let nonce := default 0 (account_nonce <$> signer_account) in
  ' (db, proposer_fee_recipient_account) ←!
    lift (load_cache_account (finalizer_fee_recipient config) db);
  let gas_limit := payment_gas_limit proposer_fee_recipient_account in
  let max_fee_per_gas := default 0 (header_base_fee_per_gas header) in
  ' (payment_tx, sender) ←!
    make_payment_transaction signer config chain_id nonce gas_limit max_fee_per_gas value;
  let tx_env := fill_tx_env payment_tx sender in
  let env := set_env_gas_limit
    (u256_add (env_gas_limit (finalizer_block_env config)) gas_limit)
    (finalizer_block_env config) in
  let '(db, executed) := transact (finalizer_cfg_env config) env tx_env db in
  ' (result, state) ←! Returns (map_err EvmExecutionError executed);
  let db := commit state db in
  let gas_limit := u64_add (header_gas_limit header) (result_gas_used result) in
  let cumulative_gas_used := u64_add (header_gas_used header) (result_gas_used result) in
  if decide (gas_limit < cumulative_gas_used)
  then Returns (Err (BlockGasLimitExceeded cumulative_gas_used (header_gas_limit header)))
  else
    let receipt := {|
      receipt_tx_type := tx_type payment_tx;
      receipt_success := result_is_success result;
      receipt_cumulative_gas_used := cumulative_gas_used;
      receipt_logs := result_logs result;
    |} in
    let transactions := sealed_transactions block ++ [payment_tx] in
    let db := merge_transitions db in
    let block_number := header_number header in
    let receipts := receipts_by_block execution_outcome block_number ++ [Some receipt] in
    let execution_outcome := {|
      outcome_bundle := take_bundle db;
      outcome_receipts := [receipts];
      outcome_first_block := block_number;
    |} in
    receipts_root ←! unwrap (receipts_root_slow execution_outcome block_number);
    logs_bloom ←! unwrap (block_logs_bloom execution_outcome block_number);
    state_root ←! lift (state_root state_provider execution_outcome);
    let transactions_root := calculate_transaction_root transactions in
    let header := paid_header header state_root transactions_root receipts_root logs_bloom
                    cumulative_gas_used gas_limit in
    Returns (Ok (seal_slow header transactions (sealed_withdrawals block))).

Definition cfg_and_block_env (self : Inner) (payload_config : PayloadConfig)
    : CfgEnv * BlockEnv :=
  let attributes := Attributes.inner (config_attributes payload_config) in
  let next_attributes := {|
    next_timestamp := attributes_timestamp attributes;
    next_suggested_fee_recipient := attributes_suggested_fee_recipient attributes;
    next_prev_randao := attributes_prev_randao attributes;
  |} in
  let '(cfg_env, block_env) :=
    next_cfg_and_block_env (sealed_header (parent_block payload_config)) next_attributes in
  let block_env :=
    match proposal (config_attributes payload_config) with
    | Some proposal_attributes =>
        let gas_limit := compute_preferred_gas_limit (proposer_gas_limit proposal_attributes)
          (header_gas_limit (sealed_header (parent_block payload_config))) in
        set_env_gas_limit (u256_sub gas_limit PAYMENT_TO_CONTRACT_GAS_LIMIT) block_env
    | None => block_env
    end in
  (cfg_env, set_env_coinbase (builder_fee_recipient self) block_env).

Definition get_build_execution_outcome (payload_id : PayloadId) (outcomes : Outcomes)
    : Outcomes * option ExecutionOutcome :=
  (delete payload_id outcomes, outcomes !! payload_id).

Definition finalize_payload (self : Inner) (payload_id : PayloadId) (block : SealedBlock)
    (payment_amount : N) (config : PayloadFinalizerConfig) (outcomes : Outcomes)
    : Outcomes * outcome PayloadBuilderError EthBuiltPayload :=
  let '(outcomes, execution_outcome) := get_build_execution_outcome payload_id outcomes in
  (outcomes,
   execution_outcome ←! Returns (ok_or execution_outcome MissingBuildState);
   block ←! append_payment execution_outcome (signer self) config (chain_id self) block
              payment_amount;
   Returns (Ok {| built_id := payload_id; built_block := block; built_fees := payment_amount;
                  built_sidecars := [] |})).

(** The payload that is sent to the auctioneer, if any. *)
Definition finalize_payload_and_dispatch (self : Inner) (payload : EthBuiltPayload)
    (payment_amount : N) (config : PayloadFinalizerConfig) (outcomes : Outcomes)
    : Outcomes * outcome PayloadBuilderError EthBuiltPayload :=
  let blob_sidecars := built_sidecars payload in
  let '(outcomes, finalized) :=
    finalize_payload self (built_id payload) (built_block payload) payment_amount config outcomes in
  (outcomes,
   payload ←! finalized;
   Returns (Ok {| built_id := built_id payload; built_block := built_block payload;
                  built_fees := built_fees payload;
                  built_sidecars := built_sidecars payload ++ blob_sidecars |})).

(** ** Packing transactions *)

Record PackState : Type := {
  cumulative_gas_used : N;
  sum_blob_gas_used : N;
  total_fees : N;
  pack_db : Db;
  best_txs : BestTransactions;
  executed_txs : list TransactionSigned;
  receipts : list (option Receipt);
}.

Definition set_pack_db (db : Db) (st : PackState) : PackState := {|
  cumulative_gas_used := cumulative_gas_used st;
  sum_blob_gas_used := sum_blob_gas_used st;
  total_fees := total_fees st;
  pack_db := db;
  best_txs := best_txs st;
  executed_txs := executed_txs st;
  receipts := receipts st;
|}.

Definition set_best_txs (best : BestTransactions) (st : PackState) : PackState := {|
  cumulative_gas_used := cumulative_gas_used st;
  sum_blob_gas_used := sum_blob_gas_used st;
  total_fees := total_fees st;
  pack_db := pack_db st;
  best_txs := best;
  executed_txs := executed_txs st;
  receipts := receipts st;
|}.

(** Count the blob gas of an executed transaction, and stop offering blob transactions
    when the block is full of blobs. *)
Definition add_blob_gas (tx : TransactionSigned) (st : PackState) : PackState :=
  match eip4844_blob_gas tx with
  | None => st
  | Some tx_blob_gas =>
      let sum_blob_gas_used := u64_add (sum_blob_gas_used st) tx_blob_gas in
      {| cumulative_gas_used := cumulative_gas_used st;
         sum_blob_gas_used := sum_blob_gas_used;
         total_fees := total_fees st;
         pack_db := pack_db st;
         best_txs := if decide (sum_blob_gas_used = MAX_DATA_GAS_PER_BLOCK)
                     then skip_blobs (best_txs st) else best_txs st;
         executed_txs := executed_txs st;
         receipts := receipts st |}
  end.

(** The end of the loop's body, for a transaction that was executed. *)
Definition record_executed (base_fee : N) (tx : TransactionSigned) (result : ExecutionResult)
    (st : PackState) : outcome PayloadBuilderError PackState :=
  let st := add_blob_gas tx st in
  let gas_used := result_gas_used result in
  let cumulative_gas_used := u64_add (cumulative_gas_used st) gas_used in
  let receipt := {|
    receipt_tx_type := tx_type tx;
    receipt_success := result_is_success result;
    receipt_cumulative_gas_used := cumulative_gas_used;
    receipt_logs := result_logs result;
  |} in
  miner_fee ←! unwrap (effective_tip_per_gas tx base_fee);
  Returns (Ok {|
    cumulative_gas_used := cumulative_gas_used;
    sum_blob_gas_used := sum_blob_gas_used st;
    total_fees := u256_add (total_fees st) (u256_mul miner_fee gas_used);
    pack_db := pack_db st;
    best_txs := best_txs st;
    executed_txs := executed_txs st ++ [tx];
    receipts := receipts st ++ [Some receipt];
  |}).

(** Whether an EIP-4844 transaction no longer fits. *)
Definition blobs_exceed (st : PackState) (tx : TransactionSigned) : bool :=
  match eip4844_blob_gas tx with
  | Some tx_blob_gas =>
      bool_decide (MAX_DATA_GAS_PER_BLOCK < u64_add (sum_blob_gas_used st) tx_blob_gas)
  | None => false
  end.

(** The body of the loop; [None] when the job was cancelled. *)
Definition pack_tx (cfg_env : CfgEnv) (block_env : BlockEnv) (block_gas_limit base_fee : N)
    (is_cancelled : bool) (pool_tx : PoolTransaction) (st : PackState)
    : outcome PayloadBuilderError (option PackState) :=
  let skip st := set_best_txs (mark_invalid pool_tx (best_txs st)) st in
  if decide (block_gas_limit < u64_add (cumulative_gas_used st) (pool_gas_limit pool_tx))
  then Returns (Ok (Some (skip st)))
  else if is_cancelled then Returns (Ok None)
  else
    let '(tx, tx_signer) := to_recovered_transaction pool_tx in
    if blobs_exceed st tx then Returns (Ok (Some (skip st)))
    else
      let '(db, executed) := transact cfg_env block_env (fill_tx_env tx tx_signer) (pack_db st) in
      let st := set_pack_db db st in
      match executed with
      | Err (EVMError_Transaction NonceTooLow) => Returns (Ok (Some st))
      | Err (EVMError_Transaction _) => Returns (Ok (Some (skip st)))
      | Err err => Returns (Err (EvmExecutionError err))
      | Ok (result, state) =>
          st ←! record_executed base_fee tx result (set_pack_db (commit state db) st);
          Returns (Ok (Some st))
      end.

(** The [while let] loop; [cancel n] is the answer of [is_cancelled] in the [n]th
    iteration. *)
Fixpoint pack (fuel : nat) (cfg_env : CfgEnv) (block_env : BlockEnv) (block_gas_limit base_fee : N)
    (cancel : nat → bool) (n : nat) (st : PackState)
    : outcome PayloadBuilderError (option PackState) :=
  match fuel with
  | O => OutOfFuel
  | S fuel =>
      match next (best_txs st) with
      | None => Returns (Ok (Some st))
      | Some (pool_tx, best) =>
          packed ←! pack_tx cfg_env block_env block_gas_limit base_fee (cancel n) pool_tx
                     (set_best_txs best st);
          match packed with
          | None => Returns (Ok None)
          | Some st => pack fuel cfg_env block_env block_gas_limit base_fee cancel (S n) st
          end
      end
  end.

(** ** Building *)

Record BuildArguments : Type := {
  args_cached_reads : CachedReads;
  args_config : PayloadConfig;
  args_cancel : nat → bool;
  args_best_payload : option EthBuiltPayload;
}.

Definition block_gas_limit_of (block_env : BlockEnv) : N :=
  default u64_max (to_u64 (env_gas_limit block_env)).

(** The excess blob gas of a block after [parent], when the block has blobs. *)
Definition excess_blob_gas_after (parent : Header) (timestamp : N) : option N :=
  if is_cancun_active_at_timestamp timestamp then
    if is_cancun_active_at_timestamp (header_timestamp parent) then
      let parent_excess_blob_gas := default 0 (header_excess_blob_gas parent) in
      let parent_blob_gas_used := default 0 (header_blob_gas_used parent) in
      Some (calc_excess_blob_gas parent_excess_blob_gas parent_blob_gas_used)
    else Some (calc_excess_blob_gas 0 0)
  else None.

Definition built_header (config : PayloadConfig) (block_env : BlockEnv)
    (base_fee block_gas_limit gas_used : N) (state_root transactions_root receipts_root : Hash32)
    (withdrawals_root : option Hash32) (logs_bloom : LogsBloom)
    (blob_gas_used excess_blob_gas : option N) : Header :=
  let attributes := Attributes.inner (config_attributes config) in {|
  header_parent := sealed_hash (parent_block config);
  header_ommers_hash := EMPTY_OMMER_ROOT_HASH;
  header_beneficiary := env_coinbase block_env;
  header_state_root := state_root;
  header_transactions_root := transactions_root;
  header_receipts_root := receipts_root;
  header_withdrawals_root := withdrawals_root;
  header_logs_bloom := logs_bloom;
  header_difficulty := 0;
  header_number := u64_add (header_number (sealed_header (parent_block config))) 1;
  header_gas_limit := block_gas_limit;
  header_gas_used := gas_used;
  header_timestamp := attributes_timestamp attributes;
  header_mix_hash := attributes_prev_randao attributes;
  header_nonce := BEACON_NONCE;
  header_base_fee_per_gas := Some base_fee;
  header_blob_gas_used := blob_gas_used;
  header_excess_blob_gas := excess_blob_gas;
  header_parent_beacon_block_root := attributes_parent_beacon_block_root attributes;
  header_requests_root := None;
  header_extra_data := extra_data config;
|}.

(** The part of [default_ethereum_payload_builder] after the loop. *)
Definition seal_payload (config : PayloadConfig) (block_env : BlockEnv)
    (base_fee block_gas_limit block_number : N) (state_provider : StateProvider) (st : PackState)
    : outcome PayloadBuilderError (BuildOutcome * option ExecutionOutcome) :=
  let attributes := Attributes.inner (config_attributes config) in
  let timestamp := attributes_timestamp attributes in
  ' (db, (withdrawals_root, withdrawals)) ←!
    lift (commit_withdrawals timestamp (attributes_withdrawals attributes) (pack_db st));
  let db := merge_transitions db in
  let execution_outcome := {|
    outcome_bundle := take_bundle db;
    outcome_receipts := [receipts st];
    outcome_first_block := block_number;
  |} in
  receipts_root ←! unwrap (receipts_root_slow execution_outcome block_number);
  logs_bloom ←! unwrap (block_logs_bloom execution_outcome block_number);
  state_root ←! lift (state_root state_provider execution_outcome);
  let transactions_root := calculate_transaction_root (executed_txs st) in
  let cancun := is_cancun_active_at_timestamp timestamp in
  blob_sidecars ←!
    (if cancun
     then lift (get_all_blobs_exact
            (map tx_hash (filter (λ tx, is_Some (eip4844_blob_gas tx)) (executed_txs st))))
     else Returns (Ok []));
  let excess_blob_gas := excess_blob_gas_after (sealed_header (parent_block config)) timestamp in
  let blob_gas_used := if cancun then Some (sum_blob_gas_used st) else None in
  let header := built_header config block_env base_fee block_gas_limit (cumulative_gas_used st)
    state_root transactions_root receipts_root withdrawals_root logs_bloom blob_gas_used
    excess_blob_gas in
  let payload := {|
    built_id := payload_id_of (config_attributes config);
    built_block := seal_slow header (executed_txs st) withdrawals;
    built_fees := total_fees st;
    built_sidecars := blob_sidecars;
  |} in
  Returns (Ok (Better payload (cached_reads_of db), Some execution_outcome)).

Definition default_ethereum_payload_builder (fuel : nat) (cfg_env : CfgEnv) (block_env : BlockEnv)
    (args : BuildArguments)
    : outcome PayloadBuilderError (BuildOutcome * option ExecutionOutcome) :=
  let config := args_config args in
  let attributes := Attributes.inner (config_attributes config) in
  state_provider ←! lift (state_by_block_hash (sealed_hash (parent_block config)));
  let db := open_state_cached state_provider (args_cached_reads args) in
  let block_gas_limit := block_gas_limit_of block_env in
  base_fee ←! unwrap (to_u64 (env_basefee block_env));
  let best_txs := best_transactions_with_attributes base_fee
    ((λ gasprice, gasprice `mod` u64_mod) <$> env_blob_gasprice block_env) in
  block_number ←! unwrap (to_u64 (env_number block_env));
  let '(db, called) := pre_block_beacon_root_contract_call cfg_env block_env
    (attributes_parent_beacon_block_root attributes) db in
  _ ←! lift called;
  packed ←! pack fuel cfg_env block_env block_gas_limit base_fee (args_cancel args) 0 {|
    cumulative_gas_used := 0; sum_blob_gas_used := 0; total_fees := 0;
    pack_db := db; best_txs := best_txs; executed_txs := []; receipts := [] |};
  match packed with
  | None => Returns (Ok (Cancelled, None))
  | Some st =>
      if is_better_payload (args_best_payload args) (total_fees st)
      then seal_payload config block_env base_fee block_gas_limit block_number state_provider st
      else Returns (Ok (Aborted (total_fees st) (cached_reads_of (pack_db st)), None))
  end.

Definition try_build (fuel : nat) (self : Inner) (args : BuildArguments) (outcomes : Outcomes)
    : Outcomes * outcome PayloadBuilderError BuildOutcome :=
  let payload_id := payload_id_of (config_attributes (args_config args)) in
  let '(cfg_env, block_env) := cfg_and_block_env self (args_config args) in
  match default_ethereum_payload_builder fuel cfg_env block_env args with
  | Returns (Ok (built, bundle)) =>
      (match bundle with
       | Some bundle => <[payload_id := bundle]> outcomes
       | None => outcomes
       end, Returns (Ok built))
  | Returns (Err e) => (outcomes, Returns (Err e))
  | Panics => (outcomes, Panics)
  | OutOfFuel => (outcomes, OutOfFuel)
  end.

Definition build_empty_payload (self : Inner) (config : PayloadConfig)
    : outcome PayloadBuilderError EthBuiltPayload :=
  let attributes := Attributes.inner (config_attributes config) in
  let timestamp := attributes_timestamp attributes in
  let '(cfg_env, block_env) := cfg_and_block_env self config in
  state ←! lift (state_by_block_hash (sealed_hash (parent_block config)));
  let db := open_state state in
  base_fee ←! unwrap (to_u64 (env_basefee block_env));
  block_number ←! unwrap (to_u64 (env_number block_env));
  let block_gas_limit := block_gas_limit_of block_env in
  let '(db, called) := pre_block_beacon_root_contract_call cfg_env block_env
    (attributes_parent_beacon_block_root attributes) db in
  _ ←! lift called;
  ' (db, (withdrawals_root, withdrawals)) ←!
    lift (commit_withdrawals timestamp (attributes_withdrawals attributes) db);
  let db := merge_transitions db in
  let execution_outcome := {|
    outcome_bundle := take_bundle db;
    outcome_receipts := [];
    outcome_first_block := block_number;
  |} in
  state_root ←! lift (state_root state execution_outcome);
  let excess_blob_gas := excess_blob_gas_after (sealed_header (parent_block config)) timestamp in
  let blob_gas_used := if is_cancun_active_at_timestamp timestamp then Some 0 else None in
  let header := built_header config block_env base_fee block_gas_limit 0 state_root
    EMPTY_TRANSACTIONS EMPTY_RECEIPTS withdrawals_root empty_logs_bloom blob_gas_used
    excess_blob_gas in
  Returns (Ok {|
    built_id := payload_id_of (config_attributes config);
    built_block := seal_slow header [] withdrawals;
    built_fees := 0;
    built_sidecars := [];
  |}).
End builder.

Arguments Outcomes {_ _ _}.

(** * Properties *)

Section builder_properties.
Context `{CF : ConsensusFunctions} `{ET : !ExecutionTypes} {HS : Hashing}.
Context {EX : ExecutionTerms} {EF : ExecutionFunctions} `{EL : !ExecutionLaws}.
Implicit Types (st : PackState) (best : BestTransactions).

(** ** Termination of the loop *)

(** The iterator yields finitely many transactions, whichever of them are rejected. *)
Inductive runs_dry : BestTransactions → Prop :=
| runs_dry_intro best :
    (∀ tx best', next best = Some (tx, best') → runs_dry best') →
    (∀ tx best', next best = Some (tx, best') → runs_dry (mark_invalid tx best')) →
    (∀ tx best', next best = Some (tx, best') → runs_dry (skip_blobs best')) →
    runs_dry best.

(** What one iteration does to the iterator. *)
Lemma pack_tx_best cfg env limit fee cancelled pool_tx st st' :
  pack_tx cfg env limit fee cancelled pool_tx st = Returns (Ok (Some st')) →
  best_txs st' = best_txs st ∨ best_txs st' = mark_invalid pool_tx (best_txs st) ∨
  best_txs st' = skip_blobs (best_txs st).
Proof.
  unfold pack_tx. case_decide; [intros [= <-]; by right; left|].
  destruct cancelled; [done|]. destruct (to_recovered_transaction pool_tx) as [tx sender].
  destruct (blobs_exceed st tx); [intros [= <-]; by right; left|].
  destruct (transact _ _ _ _) as [db [[result diff]|[[]|]]]; try done.
  - intros Hrun. inv_outcome Hrun. injection Hrun as <-. unfold record_executed in Hstep.
    inv_outcome Hstep. injection Hstep as <-. unfold add_blob_gas. simpl.
    destruct (eip4844_blob_gas tx); simpl; [case_decide|]; eauto.
  - intros [= <-]. by left.
  - intros [= <-]. by right; left.
Qed.

Lemma lift_enough {A} (r : result InternalError A) : lift r ≠ OutOfFuel.
Proof. done. Qed.
#[local] Hint Resolve lift_enough : outcome.

Lemma record_executed_enough fee tx result st : record_executed fee tx result st ≠ OutOfFuel.
Proof. unfold record_executed. eauto with outcome. Qed.
#[local] Hint Resolve record_executed_enough : outcome.

Lemma pack_tx_enough cfg env limit fee cancelled pool_tx st :
  pack_tx cfg env limit fee cancelled pool_tx st ≠ OutOfFuel.
Proof.
  unfold pack_tx. case_decide; [done|]. destruct cancelled; [done|].
  destruct (to_recovered_transaction pool_tx). destruct (blobs_exceed _ _); [done|].
  destruct (transact _ _ _ _) as [db [[result diff]|[[]|]]]; eauto with outcome.
Qed.

Lemma seal_payload_enough config env fee limit number provider st :
  seal_payload config env fee limit number provider st ≠ OutOfFuel.
Proof.
  unfold seal_payload. apply outcome_bind_enough; [done|]. intros (db & root & withdrawals).
  repeat (apply outcome_bind_enough; [auto with outcome|intros]); [|done].
  by destruct (is_cancun_active_at_timestamp _).
Qed.

Lemma pack_enough cfg env limit fee cancel st n :
  runs_dry (best_txs st) →
  ∃ fuel, ∀ more, (fuel ≤ more)%nat → pack more cfg env limit fee cancel n st ≠ OutOfFuel.
Proof.
  intros Hdry. remember (best_txs st) as best eqn:Hbest. revert st n Hbest.
  induction Hdry as [best _ IHnext _ IHmark _ IHskip]. intros st n ->.
  destruct (next (best_txs st)) as [[pool_tx best']|] eqn:Hnext.
  2: { exists 1%nat. intros [|more] Hle; [lia|]. simpl. by rewrite Hnext. }
  destruct (pack_tx cfg env limit fee (cancel n) pool_tx (set_best_txs best' st))
    as [[[st'|]|e]| |] eqn:Hpack.
  - assert (Hrec : ∃ fuel, ∀ more, (fuel ≤ more)%nat →
      pack more cfg env limit fee cancel (S n) st' ≠ OutOfFuel).
    { apply pack_tx_best in Hpack. simpl in Hpack.
      destruct Hpack as [Heq|[Heq|Heq]]; eauto. }
    destruct Hrec as [fuel Hfuel]. exists (S fuel). intros [|more] Hle; [lia|]. simpl.
    rewrite Hnext, Hpack. simpl. apply Hfuel. lia.
  - exists 1%nat. intros [|more] Hle; [lia|]. simpl. by rewrite Hnext, Hpack.
  - exists 1%nat. intros [|more] Hle; [lia|]. simpl. by rewrite Hnext, Hpack.
  - exists 1%nat. intros [|more] Hle; [lia|]. simpl. by rewrite Hnext, Hpack.
  - by apply pack_tx_enough in Hpack.
Qed.

(** C19: If the pool's iterator runs dry, the loop over it ends: with enough fuel
    the builder never runs out of it. *)
Theorem packing_terminates cfg env args :
  (∀ base_fee blob_fee, runs_dry (best_transactions_with_attributes base_fee blob_fee)) →
  ∃ fuel, ∀ more, (fuel ≤ more)%nat →
    default_ethereum_payload_builder more cfg env args ≠ OutOfFuel.
Proof.
  intros Hdry. unfold default_ethereum_payload_builder.
  destruct (lift (state_by_block_hash _)) as [[provider|e]| |] eqn:Hstate; [|by exists 0%nat..|done].
  simpl. destruct (to_u64 (env_basefee env)) as [base_fee|]; [|by exists 0%nat]. simpl.
  destruct (to_u64 (env_number env)) as [number|]; [|by exists 0%nat]. simpl.
  destruct (pre_block_beacon_root_contract_call _ _ _ _) as [db [[]|e]]; [|by exists 0%nat].
  simpl. destruct (pack_enough cfg env (block_gas_limit_of env) base_fee (args_cancel args) {|
    cumulative_gas_used := 0; sum_blob_gas_used := 0; total_fees := 0; pack_db := db;
    best_txs := best_transactions_with_attributes base_fee
      ((λ gasprice, gasprice `mod` u64_mod) <$> env_blob_gasprice env);
    executed_txs := []; receipts := [] |} 0) as [fuel Hfuel]; [apply Hdry|].
  exists fuel. intros more Hle. apply outcome_bind_enough; [by apply Hfuel|].
  intros [st|]; [|done]. destruct (is_better_payload _ _); [|done]. apply seal_payload_enough.
Qed.

(** ** What the loop packs *)

(** Gas limits and blob sizes are far from overflowing. *)
Record pool_in_range (limit : N) : Prop := {
  pool_gas_in_range pool_tx : limit + pool_gas_limit pool_tx < u64_mod;
  pool_blobs_in_range tx blob_gas :
    eip4844_blob_gas tx = Some blob_gas → MAX_DATA_GAS_PER_BLOCK + blob_gas < u64_mod;
}.

(** The gas the receipts account for, and the tips the transactions pay for it. *)
Definition tip_step (fee : N) (acc : option (N * N)) (entry : TransactionSigned * option Receipt)
    : option (N * N) :=
  ' (gas, total) ← acc;
  receipt ← entry.2;
  tip ← effective_tip_per_gas entry.1 fee;
  Some (receipt_cumulative_gas_used receipt,
        total + tip * (receipt_cumulative_gas_used receipt - gas)).

Definition gas_and_tips (fee : N) (txs : list TransactionSigned) (rs : list (option Receipt))
    : option (N * N) :=
  foldl (tip_step fee) (Some (0, 0)) (zip txs rs).

Definition blob_gas_of (txs : list TransactionSigned) : N :=
  foldr (λ tx sum, default 0 (eip4844_blob_gas tx) + sum) 0 txs.

Lemma blob_gas_snoc txs tx :
  blob_gas_of (txs ++ [tx]) = blob_gas_of txs + default 0 (eip4844_blob_gas tx).
Proof. unfold blob_gas_of. induction txs as [|tx' txs IH]; simpl in *; lia. Qed.

Lemma gas_and_tips_snoc fee txs rs tx r :
  length txs = length rs →
  gas_and_tips fee (txs ++ [tx]) (rs ++ [r]) = tip_step fee (gas_and_tips fee txs rs) (tx, r).
Proof.
  intros Hlen. unfold gas_and_tips.
  by rewrite (zip_with_app pair txs [tx] rs [r]) by done; rewrite foldl_app.
Qed.

(** A receipt for each transaction, gas and blobs within the limits and accounted for,
    and the tips summed up (in 256 bits). *)
Record packed_ok (limit fee : N) st : Prop := {
  packed_receipts : length (executed_txs st) = length (receipts st);
  packed_gas : cumulative_gas_used st ≤ limit;
  packed_blobs : sum_blob_gas_used st ≤ MAX_DATA_GAS_PER_BLOCK;
  packed_blob_gas : sum_blob_gas_used st = blob_gas_of (executed_txs st);
  packed_tips : ∃ tips,
    gas_and_tips fee (executed_txs st) (receipts st) = Some (cumulative_gas_used st, tips) ∧
    total_fees st = tips `mod` u256_mod;
}.

Lemma packed_ok_frame limit fee db best st :
  packed_ok limit fee st → packed_ok limit fee (set_best_txs best (set_pack_db db st)).
Proof. by intros []. Qed.

Lemma add_blob_gas_fields tx st :
  cumulative_gas_used (add_blob_gas tx st) = cumulative_gas_used st ∧
  total_fees (add_blob_gas tx st) = total_fees st ∧
  executed_txs (add_blob_gas tx st) = executed_txs st ∧
  receipts (add_blob_gas tx st) = receipts st ∧
  sum_blob_gas_used (add_blob_gas tx st) =
    match eip4844_blob_gas tx with
    | Some blob_gas => u64_add (sum_blob_gas_used st) blob_gas
    | None => sum_blob_gas_used st
    end.
Proof. unfold add_blob_gas. by destruct (eip4844_blob_gas tx). Qed.

Lemma blobs_exceed_false limit st tx :
  pool_in_range limit → sum_blob_gas_used st ≤ MAX_DATA_GAS_PER_BLOCK → blobs_exceed st tx = false →
  match eip4844_blob_gas tx with
  | Some blob_gas => u64_add (sum_blob_gas_used st) blob_gas
  | None => sum_blob_gas_used st
  end = sum_blob_gas_used st + default 0 (eip4844_blob_gas tx) ∧
  sum_blob_gas_used st + default 0 (eip4844_blob_gas tx) ≤ MAX_DATA_GAS_PER_BLOCK.
Proof.
  intros Hrange Hsum. unfold blobs_exceed.
  destruct (eip4844_blob_gas tx) as [blob_gas|] eqn:Hblob; simpl; [|lia].
  pose proof (pool_blobs_in_range _ Hrange _ _ Hblob). rewrite u64_add_small by lia.
  intros Hle%bool_decide_eq_false. split; [done|lia].
Qed.

Lemma record_executed_ok limit fee tx result st st' :
  pool_in_range limit → packed_ok limit fee st → blobs_exceed st tx = false →
  cumulative_gas_used st + result_gas_used result ≤ limit → limit < u64_mod →
  record_executed fee tx result st = Returns (Ok st') →
  packed_ok limit fee st'.
Proof.
  intros Hrange [Hlen Hgas Hblobs Hblob (tips & Htips & Hfees)] Hexceed Hfits Hlimit Hrun.
  unfold record_executed in Hrun. inv_outcome Hrun. apply unwrap_Ok in Hstep as Htip.
  injection Hrun as <-.
  destruct (add_blob_gas_fields tx st) as (Hc & Ht & He & Hr & Hs).
  destruct (blobs_exceed_false _ _ _ Hrange Hblobs Hexceed) as [Hsum Hle].
  rewrite Hsum in Hs. rewrite Hc, Ht, He, Hr, Hs.
  rewrite u64_add_small by lia. split; simpl.
  - rewrite !length_app. simpl. lia.
  - done.
  - done.
  - rewrite blob_gas_snoc. lia.
  - eexists. rewrite gas_and_tips_snoc by done. rewrite Htips. simpl. rewrite Htip. simpl.
    split; [done|]. rewrite Hfees. unfold u256_add, u256_mul.
    rewrite N.Div0.add_mod_idemp_l, N.Div0.add_mod_idemp_r.
    by replace (cumulative_gas_used st + result_gas_used result - cumulative_gas_used st)
      with (result_gas_used result) by lia.
Qed.

Lemma pack_tx_ok limit fee cfg env cancelled pool_tx st st' :
  pool_in_range limit → packed_ok limit fee st →
  pack_tx cfg env limit fee cancelled pool_tx st = Returns (Ok (Some st')) →
  packed_ok limit fee st'.
Proof.
  intros Hrange Hok. pose proof (pool_gas_in_range _ Hrange pool_tx) as Hgas.
  pose proof (packed_gas _ _ _ Hok) as Hcum. unfold pack_tx. rewrite u64_add_small by lia.
  case_decide as Hfull; [intros [= <-]; by apply (packed_ok_frame _ _ (pack_db st))|].
  destruct cancelled; [done|]. destruct (to_recovered_transaction pool_tx) as [tx sender] eqn:Htx.
  destruct (blobs_exceed st tx) eqn:Hexceed;
    [intros [= <-]; by apply (packed_ok_frame _ _ (pack_db st))|].
  destruct (transact _ _ _ _) as [db [[result diff]|[[]|]]] eqn:Hrun; try done.
  - intros Hpack. inv_outcome Hpack. injection Hpack as <-.
    pose proof (transact_pool_gas _ _ _ _ _ _ _ _ _ Htx Hrun) as Hused.
    eapply record_executed_ok in Hstep; [done|done| |done| |]; [|simpl; lia..].
    by apply (packed_ok_frame _ _ (commit diff db) (best_txs st)).
  - intros [= <-]. by apply (packed_ok_frame _ _ db (best_txs st)).
  - intros [= <-]. by apply (packed_ok_frame _ _ db).
Qed.

Lemma pack_ok limit fee cfg env cancel fuel n st st' :
  pool_in_range limit → packed_ok limit fee st →
  pack fuel cfg env limit fee cancel n st = Returns (Ok (Some st')) →
  packed_ok limit fee st'.
Proof.
  intros Hrange. revert n st. induction fuel as [|fuel IH]; intros n st Hok; simpl; [done|].
  destruct (next (best_txs st)) as [[pool_tx best]|]; [|by intros [= <-]].
  intros Hrun. inv_outcome Hrun. destruct a as [st''|]; [|done].
  eapply IH; [|done]. eapply pack_tx_ok; [done| |done].
  by apply (packed_ok_frame _ _ (pack_db st)).
Qed.

(** What has been drawn from the pool: the transactions the iterator offered on the way
    from [start] to [best], in order. *)
Inductive drawn_from (start : BestTransactions) : BestTransactions → list PoolTransaction → Prop :=
| drawn_nothing : drawn_from start start []
| drawn_next best best' pool_tx drawn :
    drawn_from start best drawn → next best = Some (pool_tx, best') →
    drawn_from start best' (drawn ++ [pool_tx])
| drawn_invalid best pool_tx drawn :
    drawn_from start best drawn → drawn_from start (mark_invalid pool_tx best) drawn
| drawn_without_blobs best drawn :
    drawn_from start best drawn → drawn_from start (skip_blobs best) drawn.

Definition recovered (pool_tx : PoolTransaction) : TransactionSigned :=
  (to_recovered_transaction pool_tx).1.

(** The executed transactions are among those drawn, in the order in which they were. *)
Definition packed_from (start : BestTransactions) st : Prop :=
  ∃ drawn, drawn_from start (best_txs st) drawn ∧
    executed_txs st `sublist_of` (recovered <$> drawn).

Lemma pack_tx_executed cfg env limit fee cancelled pool_tx st st' :
  pack_tx cfg env limit fee cancelled pool_tx st = Returns (Ok (Some st')) →
  executed_txs st' = executed_txs st ∨ executed_txs st' = executed_txs st ++ [recovered pool_tx].
Proof.
  unfold pack_tx, recovered. case_decide; [intros [= <-]; by left|].
  destruct cancelled; [done|]. destruct (to_recovered_transaction pool_tx) as [tx sender].
  destruct (blobs_exceed st tx); [intros [= <-]; by left|].
  destruct (transact _ _ _ _) as [db [[result diff]|[[]|]]]; try done.
  - intros Hrun. inv_outcome Hrun. injection Hrun as <-. unfold record_executed in Hstep.
    inv_outcome Hstep. injection Hstep as <-. right. simpl.
    by rewrite (proj1 (proj2 (proj2 (add_blob_gas_fields tx _)))).
  - intros [= <-]. by left.
  - intros [= <-]. by left.
Qed.

Lemma pack_tx_from start cfg env limit fee cancelled pool_tx best st st' :
  packed_from start st → next (best_txs st) = Some (pool_tx, best) →
  pack_tx cfg env limit fee cancelled pool_tx (set_best_txs best st) = Returns (Ok (Some st')) →
  packed_from start st'.
Proof.
  intros (drawn & Hdrawn & Hsub) Hnext Hpack. exists (drawn ++ [pool_tx]). split.
  - pose proof (drawn_next _ _ _ _ _ Hdrawn Hnext) as Hbest.
    destruct (pack_tx_best _ _ _ _ _ _ _ _ Hpack) as [-> |[-> | ->]]; by try constructor.
  - rewrite fmap_app. destruct (pack_tx_executed _ _ _ _ _ _ _ _ Hpack) as [-> | ->]; simpl.
    + by apply sublist_inserts_r.
    + by apply sublist_app.
Qed.

Lemma pack_from start limit fee cfg env cancel fuel n st st' :
  packed_from start st → pack fuel cfg env limit fee cancel n st = Returns (Ok (Some st')) →
  packed_from start st'.
Proof.
  revert n st. induction fuel as [|fuel IH]; intros n st Hfrom; simpl; [done|].
  destruct (next (best_txs st)) as [[pool_tx best]|] eqn:Hnext; [|by intros [= <-]].
  intros Hrun. inv_outcome Hrun. destruct a as [st''|]; [|done].
  eapply IH; [|done]. by eapply pack_tx_from.
Qed.

Lemma block_gas_limit_lt env : block_gas_limit_of env < u64_mod.
Proof. unfold block_gas_limit_of, to_u64. case_decide; simpl; [done|]. done. Qed.

(** C15: A payload the builder returns holds transactions that the pool's iterator offered
    for the block's fees, in that order; their gas is within the limit of the block and
    their blobs are within the limit of the protocol; there is a receipt for each; the fees
    it claims are the tips its transactions pay over the gas of their receipts; it has
    higher fees than the best payload so far; and it extends the parent it was asked to
    extend.  The gas limits and the blobs of transactions are assumed too small for the
    64-bit sums to overflow ([pool_in_range]). *)
Theorem built_payload_spec fuel cfg env args payload reads outcome :
  pool_in_range (block_gas_limit_of env) →
  default_ethereum_payload_builder fuel cfg env args
    = Returns (Ok (Better payload reads, outcome)) →
  let config := args_config args in
  let block := built_block payload in
  let header := sealed_header block in
  (∃ best drawn,
    drawn_from (best_transactions_with_attributes (env_basefee env)
      ((λ gasprice, gasprice `mod` u64_mod) <$> env_blob_gasprice env)) best drawn ∧
    sealed_transactions block `sublist_of` (recovered <$> drawn)) ∧
  (∃ rs tips bundle,
    outcome = Some {| outcome_bundle := bundle; outcome_receipts := [rs];
                      outcome_first_block := env_number env |} ∧
    length rs = length (sealed_transactions block) ∧
    gas_and_tips (env_basefee env) (sealed_transactions block) rs
      = Some (header_gas_used header, tips) ∧
    built_fees payload = tips `mod` u256_mod) ∧
  header_gas_limit header = block_gas_limit_of env ∧
  header_gas_used header ≤ header_gas_limit header ∧
  blob_gas_of (sealed_transactions block) ≤ MAX_DATA_GAS_PER_BLOCK ∧
  header_parent header = sealed_hash (parent_block config) ∧
  header_timestamp header = timestamp_of (config_attributes config) ∧
  built_id payload = payload_id_of (config_attributes config) ∧
  sealed_hash block = hash_slow header ∧
  (∀ current, args_best_payload args = Some current → built_fees current < built_fees payload).
Proof.
  intros Hrange Hrun. cbv zeta. unfold default_ethereum_payload_builder in Hrun.
  inv_outcome Hrun. inv_outcome Hrun. inv_outcome Hrun.
  apply unwrap_Ok in Hstep0 as Hfee, Hstep1 as Hnumber.
  destruct (pre_block_beacon_root_contract_call _ _ _ _) as [db called]. inv_outcome Hrun.
  inv_outcome Hrun. destruct a3 as [st|]; [|done].
  destruct (is_better_payload _ _) eqn:Hbetter; [|done].
  pose proof (proj1 (is_better_payload_spec _ _) Hbetter) as Hmore.
  assert (Hok : packed_ok (block_gas_limit_of env) a0 st).
  { refine (pack_ok _ _ _ _ _ _ _ _ _ Hrange _ Hstep3).
    split; simpl; try lia. exists 0. by rewrite N.Div0.mod_0_l. }
  destruct Hok as [Hlen Hgas Hblobs Hblob (tips & Htips & Hfees)].
  set (start := best_transactions_with_attributes _ _) in *.
  assert (Hfrom : packed_from start st).
  { eapply pack_from, Hstep3. exists []. by split; [constructor|]. }
  destruct Hfrom as (drawn & Hdrawn & Hsub).
  unfold seal_payload in Hrun. inv_outcome Hrun. destruct a3 as [db' [root withdrawals]].
  do 4 inv_outcome Hrun. injection Hrun as <- _ <-. simpl.
  assert (Hto : ∀ x y, to_u64 x = Some y → x = y).
  { unfold to_u64. intros x y. case_decide; congruence. }
  apply Hto in Hfee as <-, Hnumber as <-.
  split_and!; try done; [by exists (best_txs st), drawn| |lia].
  exists (receipts st), tips. eexists. by rewrite Hlen.
Qed.

(** ** What a build reports *)

Lemma pack_uncancelled fuel cfg env limit fee n st :
  pack fuel cfg env limit fee (λ _, false) n st ≠ Returns (Ok None).
Proof.
  revert n st. induction fuel as [|fuel IH]; intros n st; simpl; [done|].
  destruct (next (best_txs st)) as [[pool_tx best]|]; [|done]. intros Hrun. inv_outcome Hrun.
  destruct a as [st'|]; [by apply IH in Hrun|].
  unfold pack_tx in Hstep. case_decide; [done|].
  destruct (to_recovered_transaction pool_tx). destruct (blobs_exceed _ _); [done|].
  destruct (transact _ _ _ _) as [db [[result diff]|[[]|]]]; try done. by inv_outcome Hstep.
Qed.

Lemma default_builder_Better fuel cfg env args payload reads built :
  default_ethereum_payload_builder fuel cfg env args = Returns (Ok (Better payload reads, built)) →
  is_Some built ∧
  built_id payload = payload_id_of (config_attributes (args_config args)) ∧
  header_parent (sealed_header (built_block payload)) = sealed_hash (parent_block (args_config args)) ∧
  ∀ current, args_best_payload args = Some current → built_fees current < built_fees payload.
Proof.
  intros Hrun. unfold default_ethereum_payload_builder in Hrun. do 3 inv_outcome Hrun.
  destruct (pre_block_beacon_root_contract_call _ _ _ _) as [db called]. do 2 inv_outcome Hrun.
  destruct a3 as [st|]; [|done]. destruct (is_better_payload _ _) eqn:Hbetter; [|done].
  pose proof (proj1 (is_better_payload_spec _ _) Hbetter).
  unfold seal_payload in Hrun. inv_outcome Hrun. destruct a3 as [db' [root withdrawals]].
  do 4 inv_outcome Hrun. injection Hrun as <- _ <-. eauto.
Qed.

Lemma default_builder_uncancelled fuel cfg env args built :
  args_cancel args = (λ _, false) →
  default_ethereum_payload_builder fuel cfg env args ≠ Returns (Ok (Cancelled, built)).
Proof.
  intros Hcancel Hrun. unfold default_ethereum_payload_builder in Hrun. do 3 inv_outcome Hrun.
  destruct (pre_block_beacon_root_contract_call _ _ _ _) as [db called]. do 2 inv_outcome Hrun.
  rewrite Hcancel in Hstep3. destruct a3 as [st|]; [|by apply pack_uncancelled in Hstep3].
  destruct (is_better_payload _ _); [|done]. unfold seal_payload in Hrun. inv_outcome Hrun.
  destruct a3 as [db' [root withdrawals]]. by do 4 inv_outcome Hrun.
Qed.

(** A build that is not cancelled says so, and a better payload it returns has the
    job's identifier, greater fees than the one it had to beat, and its execution
    outcome in the map. *)
Lemma try_build_Ok fuel self args outcomes outcomes' reported :
  try_build fuel self args outcomes = (outcomes', Returns (Ok reported)) →
  let id := payload_id_of (config_attributes (args_config args)) in
  match reported with
  | Better payload _ =>
      built_id payload = id ∧ is_Some (outcomes' !! id) ∧
      header_parent (sealed_header (built_block payload))
        = sealed_hash (parent_block (args_config args)) ∧
      ∀ current, args_best_payload args = Some current → built_fees current < built_fees payload
  | Aborted _ _ => True
  | Cancelled => args_cancel args ≠ λ _, false
  end.
Proof.
  unfold try_build. destruct (cfg_and_block_env _ _) as [cfg env].
  destruct (default_ethereum_payload_builder _ _ _ _) as [[[built bundle]|e]| |] eqn:Hbuild; try done.
  intros [= <- <-]. destruct built as [payload reads|fees reads|]; [|done|].
  - apply default_builder_Better in Hbuild as ([outcome ->] & Hid & Hparent & Hmore).
    split_and!; [done| |done..]. eexists. apply (lookup_insert_eq (M:=gmap PayloadId)).
  - intros Hcancel. by apply default_builder_uncancelled in Hbuild.
Qed.

(** ** The payment *)

(** A block with its payment. *)
Record paid (sg : Signer) (config : PayloadFinalizerConfig) (chain value : N)
    (block block' : SealedBlock) (tx : TxEip1559) (used : N) : Prop := {
  paid_signature : ∃ signature, sign_hash_sync sg (signature_hash tx) = Some signature ∧
    sealed_transactions block'
      = sealed_transactions block ++ [from_transaction_and_signature tx signature];
  paid_to : tx_to tx = finalizer_fee_recipient config;
  paid_value : tx_value tx = value;
  paid_chain : tx_chain_id tx = chain;
  paid_used : used ≤ tx_gas_limit tx;
  paid_gas_limit : ∃ db db' account,
    load_cache_account (finalizer_fee_recipient config) db = Ok (db', account) ∧
    tx_gas_limit tx = payment_gas_limit account;
  paid_gas : header_gas_used (sealed_header block')
    = u64_add (header_gas_used (sealed_header block)) used;
  paid_limit : header_gas_limit (sealed_header block')
    = u64_add (header_gas_limit (sealed_header block)) used;
  paid_root : header_transactions_root (sealed_header block')
    = calculate_transaction_root (sealed_transactions block');
  paid_parent : header_parent (sealed_header block') = header_parent (sealed_header block);
  paid_number : header_number (sealed_header block') = header_number (sealed_header block);
  paid_timestamp : header_timestamp (sealed_header block') = header_timestamp (sealed_header block);
  paid_withdrawals : sealed_withdrawals block' = sealed_withdrawals block;
  paid_hash : sealed_hash block' = hash_slow (sealed_header block');
}.

Lemma payment_gas_limit_le account : payment_gas_limit account ≤ PAYMENT_TO_CONTRACT_GAS_LIMIT.
Proof. unfold payment_gas_limit. by destruct (default false _). Qed.

(** What [append_payment] does up to its check of the gas. *)
Lemma append_payment_Ok outcome sg config chain block value block' :
  append_payment outcome sg config chain block value = Returns (Ok block') →
  ∃ tx used, paid sg config chain value block block' tx used.
Proof.
  unfold append_payment, make_payment_transaction, lift. intros Hrun.
  inv_outcome Hrun. inv_outcome Hrun. destruct a0 as [db signer_account].
  inv_outcome Hrun. destruct a0 as [db' account]. inv_outcome Hrun.
  destruct a0 as [payment_tx sender].
  inv_outcome Hstep2. apply unwrap_Ok in Hstep3. injection Hstep2 as <- <-.
  destruct (transact _ _ _ _) as [db'' executed] eqn:Hexec. inv_outcome Hrun.
  destruct a1 as [result diff]. destruct executed as [r|e]; [|done]. injection Hstep2 as ->.
  case_decide; [done|]. do 3 inv_outcome Hrun. injection Hrun as <-.
  exists {| tx_chain_id := chain; tx_nonce := default 0 (account_nonce <$> signer_account);
            tx_gas_limit := payment_gas_limit account;
            tx_max_fee_per_gas := default 0 (header_base_fee_per_gas (sealed_header block));
            tx_max_priority_fee_per_gas := 0; tx_to := finalizer_fee_recipient config;
            tx_value := value; tx_input := [] |}, (result_gas_used result).
  split; simpl; try done.
  - by eauto.
  - by apply transact_own_gas in Hexec.
  - destruct (load_cache_account (finalizer_fee_recipient config) db) eqn:Hload; [|done].
    injection Hstep1 as ->. by eauto.
Qed.

Lemma lift_Err {A} (r : result InternalError A) e : lift r = Returns (Err e) → ∃ i, e = Internal i.
Proof. destruct r; intros [= <-]; eauto. Qed.

Lemma append_payment_gas_check outcome sg config chain block value gas_used gas_limit :
  header_gas_used (sealed_header block) ≤ header_gas_limit (sealed_header block) →
  header_gas_limit (sealed_header block) + PAYMENT_TO_CONTRACT_GAS_LIMIT < u64_mod →
  append_payment outcome sg config chain block value
    ≠ Returns (Err (BlockGasLimitExceeded gas_used gas_limit)).
Proof.
  intros Hle Hrange Hrun. unfold append_payment, make_payment_transaction in Hrun.
  apply outcome_bind_Err in Hrun as [[? [=]]%lift_Err|(provider & _ & Hrun)].
  apply outcome_bind_Err in Hrun as [[? [=]]%lift_Err|([db signer_account] & _ & Hrun)].
  apply outcome_bind_Err in Hrun as [[? [=]]%lift_Err|([db' account] & _ & Hrun)].
  apply outcome_bind_Err in Hrun as [Hrun|([tx sender] & Htx & Hrun)].
  { apply outcome_bind_Err in Hrun as [Hrun|(? & _ & ?)]; [|done].
    unfold unwrap in Hrun. by case_match. }
  inv_outcome Htx. injection Htx as <- <-.
  destruct (transact _ _ _ _) as [db'' [[result diff]|e]] eqn:Hexec; [|done].
  apply outcome_bind_Err in Hrun as [Hrun|(executed & Hres & Hrun)]; [done|].
  injection Hres as <-.
  apply transact_own_gas in Hexec. simpl in Hexec. pose proof (payment_gas_limit_le account).
  rewrite !u64_add_small in Hrun by lia. rewrite decide_False in Hrun by lia.
  repeat (apply outcome_bind_Err in Hrun as [Hrun|(? & _ & Hrun)];
    [first [unfold unwrap in Hrun; by case_match|by apply lift_Err in Hrun as [? [=]]]|]).
  done.
Qed.

(** C16: On a block that is within its gas limit, [append_payment] keeps the block and adds one transaction at its end: a
    signed transfer of the bid's value to the proposer's fee recipient, with at most
    the gas reserved for it.  Gas used and gas limit both grow by what it used, so the
    check of the one against the other, meant to verify the reserved gas, never
    fails. *)
Theorem append_payment_spec outcome sg config chain block value :
  header_gas_used (sealed_header block) ≤ header_gas_limit (sealed_header block) →
  header_gas_limit (sealed_header block) + PAYMENT_TO_CONTRACT_GAS_LIMIT < u64_mod →
  (∀ gas_used gas_limit, append_payment outcome sg config chain block value
     ≠ Returns (Err (BlockGasLimitExceeded gas_used gas_limit))) ∧
  ∀ block', append_payment outcome sg config chain block value = Returns (Ok block') →
    ∃ tx used, paid sg config chain value block block' tx used ∧
      used ≤ PAYMENT_TO_CONTRACT_GAS_LIMIT ∧
      header_gas_used (sealed_header block') = header_gas_used (sealed_header block) + used ∧
      header_gas_limit (sealed_header block') = header_gas_limit (sealed_header block) + used ∧
      header_gas_used (sealed_header block') ≤ header_gas_limit (sealed_header block').
Proof.
  intros Hle Hrange. split; [intros; by apply append_payment_gas_check|].
  intros block' Hrun. apply append_payment_Ok in Hrun as (tx & used & Hpaid).
  exists tx, used. split; [done|].
  destruct (paid_gas_limit _ _ _ _ _ _ _ _ Hpaid) as (? & ? & account & _ & Hgas).
  pose proof (payment_gas_limit_le account). pose proof (paid_used _ _ _ _ _ _ _ _ Hpaid).
  rewrite (paid_gas _ _ _ _ _ _ _ _ Hpaid), (paid_limit _ _ _ _ _ _ _ _ Hpaid).
  rewrite !u64_add_small by lia. lia.
Qed.

(** ** The gas limit of a finalized block *)

Lemma env_gas_limit_for self config p :
  proposal (config_attributes config) = Some p →
  env_gas_limit (cfg_and_block_env self config).2 =
    u256_sub (compute_preferred_gas_limit (proposer_gas_limit p)
      (header_gas_limit (sealed_header (parent_block config)))) PAYMENT_TO_CONTRACT_GAS_LIMIT.
Proof.
  intros Hp. unfold cfg_and_block_env. rewrite Hp. by destruct (next_cfg_and_block_env _ _).
Qed.

Lemma preferred_bounds preferred parent :
  gas_limit_in_range parent → preferred < u64_mod →
  parent - parent / GAS_BOUND_DIVISOR < compute_preferred_gas_limit preferred parent
    < parent + parent / GAS_BOUND_DIVISOR.
Proof.
  intros Hrange Hp. rewrite compute_preferred_gas_limit_exact by done.
  pose proof (parent_step_bounds _ Hrange).
  destruct (N.compare_spec preferred parent); lia.
Qed.

Lemma built_payload_limit fuel cfg env args payload reads built :
  default_ethereum_payload_builder fuel cfg env args = Returns (Ok (Better payload reads, built)) →
  header_gas_limit (sealed_header (built_block payload)) = block_gas_limit_of env.
Proof.
  intros Hrun. unfold default_ethereum_payload_builder in Hrun. do 3 inv_outcome Hrun.
  destruct (pre_block_beacon_root_contract_call _ _ _ _) as [db called]. do 2 inv_outcome Hrun.
  destruct a3 as [st|]; [|done]. destruct (is_better_payload _ _); [|done].
  unfold seal_payload in Hrun. inv_outcome Hrun. destruct a3 as [db' [root withdrawals]].
  do 4 inv_outcome Hrun. by injection Hrun as <- _ _.
Qed.

(** C38: The builder reserves the gas of a payment to a contract, but after the
    payment the gas limit grows only by what the payment used.  So when the proposer is
    paid at an ordinary account, and the parent's gas limit is between one and forty million,
    the finalized block breaks the protocol's rule on gas limits, whatever the
    proposer prefers. *)
Theorem transfer_payment_breaks_gas_limit fuel self args p payload reads built sg config chain value
    block' outcome :
  let parent := header_gas_limit (sealed_header (parent_block (args_config args))) in
  1000000 ≤ parent ≤ 40000000 →
  proposal (config_attributes (args_config args)) = Some p →
  proposer_gas_limit p < u64_mod →
  default_ethereum_payload_builder fuel (cfg_and_block_env self (args_config args)).1
    (cfg_and_block_env self (args_config args)).2 args = Returns (Ok (Better payload reads, built)) →
  (∀ db db' account, load_cache_account (finalizer_fee_recipient config) db = Ok (db', account) →
     account_is_empty_code_hash <$> account = Some true) →
  append_payment outcome sg config chain (built_block payload) value = Returns (Ok block') →
  verify_limits (header_gas_limit (sealed_header block')) parent = false.
Proof.
  intros parent Hparent Hp Hpref Hbuilt Heoa Hrun.
  apply append_payment_Ok in Hrun as (tx & used & Hpaid).
  destruct (paid_gas_limit _ _ _ _ _ _ _ _ Hpaid) as (db & db' & account & Hload & Hgas).
  apply Heoa in Hload. pose proof (paid_used _ _ _ _ _ _ _ _ Hpaid) as Hused.
  assert (Hbase : tx_gas_limit tx = BASE_TX_GAS_LIMIT).
  { rewrite Hgas. unfold payment_gas_limit. destruct account as [[nonce []]|]; try done. }
  rewrite (paid_limit _ _ _ _ _ _ _ _ Hpaid).
  rewrite (built_payload_limit _ _ _ _ _ _ _ Hbuilt).
  unfold block_gas_limit_of. rewrite (env_gas_limit_for _ _ p Hp).
  fold parent. unfold BASE_TX_GAS_LIMIT, PAYMENT_TO_CONTRACT_GAS_LIMIT in *.
  assert (Hrange : gas_limit_in_range parent).
  { split; unfold GAS_BOUND_DIVISOR, u64_mod; [lia|].
    pose proof (N.Div0.div_le_upper_bound parent 1024 40000 ltac:(lia)). lia. }
  pose proof (preferred_bounds _ _ Hrange Hpref) as Hbounds.
  pose proof (N.Div0.div_le_upper_bound parent GAS_BOUND_DIVISOR 39500
    ltac:(unfold GAS_BOUND_DIVISOR; lia)) as Hstep.
  rewrite u256_sub_small by (unfold u256_mod; lia).
  unfold to_u64. rewrite decide_True by (unfold u64_mod; lia). simpl.
  rewrite u64_add_small by (unfold u64_mod; lia).
  apply not_true_is_false. intros Hverify. apply (verify_limits_spec _ _ Hrange) in Hverify. lia.
Qed.
End builder_properties.

(** * Examples *)

Module ToyBuilder.
Import ToyInstances.
Import ToyHashing.
Import ToyExecution.

(** A block on top of a parent with a gas limit of thirty million, for a proposer that
    is content with that limit and paid at an ordinary account. *)
Definition toy_builder : Inner :=
  {| signer := (3 : Signer); builder_fee_recipient := toy_address 9; chain_id := 1 |}.

Definition toy_rpc : PayloadAttributes := {|
  rpc_timestamp := 2412;
  rpc_prev_randao := toy_hash 3;
  rpc_suggested_fee_recipient := toy_address 9;
  rpc_withdrawals := Some [];
  rpc_parent_beacon_block_root := None;
|}.

Definition toy_proposal : ProposalAttributes := {|
  proposer_gas_limit := 30000000; proposer_fee_recipient := toy_address 77; bidder := 0 |}.

Definition toy_config : PayloadConfig := {|
  parent_block := toy_block 40 41;
  extra_data := [];
  config_attributes := attach_proposal (Attributes.new (toy_hash 41) toy_rpc) toy_proposal;
|}.

Definition toy_reads : CachedReads := tt.
Definition toy_signer : Signer := 3.

Definition toy_args : BuildArguments := {|
  args_cached_reads := toy_reads; args_config := toy_config; args_cancel := λ _, false;
  args_best_payload := None;
|}.

Definition toy_env : CfgEnv * BlockEnv := cfg_and_block_env toy_builder toy_config.

Definition toy_finalizer (recipient : N) : PayloadFinalizerConfig := {|
  finalizer_fee_recipient := toy_address recipient;
  finalizer_cfg_env := toy_env.1; finalizer_block_env := toy_env.2;
|}.

Definition toy_payload_built : EthBuiltPayload :=
  match default_ethereum_payload_builder 10 toy_env.1 toy_env.2 toy_args with
  | Returns (Ok (Better payload _, _)) => payload
  | _ => {| built_id := []; built_block := toy_block 0 0; built_fees := 0; built_sidecars := [] |}
  end.

Definition toy_outcome : ExecutionOutcome :=
  match default_ethereum_payload_builder 10 toy_env.1 toy_env.2 toy_args with
  | Returns (Ok (_, Some outcome)) => outcome
  | _ => {| outcome_bundle := 0 : BundleState; outcome_receipts := []; outcome_first_block := 0 |}
  end.

Definition toy_paid_block : SealedBlock :=
  match append_payment toy_outcome toy_signer (toy_finalizer 77) 1 (built_block toy_payload_built)
          500 with
  | Returns (Ok block) => block
  | _ => toy_block 0 0
  end.

(** Two of the three transactions are packed, and the proposer is paid. *)
Lemma toy_build : ∃ payload outcome block,
  default_ethereum_payload_builder 10 toy_env.1 toy_env.2 toy_args
    = Returns (Ok (Better payload toy_reads, Some outcome)) ∧
  append_payment outcome toy_signer (toy_finalizer 77) 1 (built_block payload) 500
    = Returns (Ok block) ∧
  built_fees payload = 2 * 30000 + 3 * 21000 ∧
  header_gas_used (sealed_header (built_block payload)) = 51000 ∧
  header_gas_limit (sealed_header (built_block payload)) = 29900000 ∧
  header_gas_limit (sealed_header block) = 29921000.
Proof.
  exists toy_payload_built, toy_outcome, toy_paid_block.
  do 5 (split; [vm_compute; reflexivity|]). vm_compute. reflexivity.
Qed.

Lemma toy_runs_dry (best : list (list N)) : runs_dry best.
Proof.
  remember (length best) as n eqn:Hn. revert best Hn.
  induction n as [n IH] using lt_wf_ind. intros best ->.
  assert (Hshort : ∀ tx (best' : list (list N)), next (best : BestTransactions) = Some (tx, best') →
    (length best' < length best)%nat).
  { intros tx best'. destruct best; [discriminate|]. intros [= _ <-]. apply Nat.lt_succ_diag_r. }
  constructor; intros tx best' Hnext; apply Hshort in Hnext; eapply IH; try reflexivity.
  - exact Hnext.
  - exact Hnext.
  - eapply Nat.le_lt_trans; [apply length_filter|exact Hnext].
Qed.

Lemma packing_terminates_witness :
  ∃ fuel, ∀ more, (fuel ≤ more)%nat →
    default_ethereum_payload_builder more toy_env.1 toy_env.2 toy_args ≠ OutOfFuel.
Proof. apply packing_terminates. intros. apply toy_runs_dry. Defined.

Lemma toy_pool_in_range limit : limit ≤ 30000000 → pool_in_range limit.
Proof.
  intros Hlimit. split.
  - intros tx. change (limit + toy_tx_gas_limit tx < u64_mod). unfold toy_tx_gas_limit, u64_mod. lia.
  - intros tx blob_gas H. change (toy_blob_gas tx = Some blob_gas) in H.
    change (786432 + blob_gas < u64_mod). unfold toy_blob_gas, checked_sub in H.
    case_decide; [|done]. injection H as <-. unfold u64_mod. lia.
Qed.

Lemma built_payload_spec_witness :
  ∃ payload outcome,
    default_ethereum_payload_builder 10 toy_env.1 toy_env.2 toy_args
      = Returns (Ok (Better payload toy_reads, Some outcome)) ∧
    (∃ best drawn,
      drawn_from (best_transactions_with_attributes (env_basefee toy_env.2)
        ((λ gasprice, gasprice `mod` u64_mod) <$> env_blob_gasprice toy_env.2)) best drawn ∧
      sealed_transactions (built_block payload) `sublist_of` (recovered <$> drawn)) ∧
    header_gas_used (sealed_header (built_block payload))
      ≤ header_gas_limit (sealed_header (built_block payload)).
Proof.
  destruct toy_build as (payload & outcome & block & Hbuild & _). exists payload, outcome.
  assert (Hrange : pool_in_range (block_gas_limit_of toy_env.2)).
  { apply toy_pool_in_range. vm_compute. discriminate. }
  destruct (built_payload_spec 10 toy_env.1 toy_env.2 toy_args payload toy_reads (Some outcome)
    Hrange Hbuild) as (Hfrom & _ & _ & Hle & _).
  split; [exact Hbuild|]. split; [exact Hfrom|exact Hle].
Defined.

Lemma append_payment_spec_witness :
  ∃ outcome block block' tx used,
    append_payment outcome toy_signer (toy_finalizer 77) 1 block 500 = Returns (Ok block') ∧
    paid toy_signer (toy_finalizer 77) 1 500 block block' tx used.
Proof.
  destruct toy_build as (payload & outcome & block' & _ & Hpaid & _ & Hused & Hlimit & _).
  destruct (append_payment_spec outcome toy_signer (toy_finalizer 77) 1 (built_block payload) 500)
    as [_ Hok].
  - rewrite Hused, Hlimit. discriminate.
  - rewrite Hlimit. reflexivity.
  - destruct (Hok block' Hpaid) as (tx & used & Htx & _).
    exists outcome, (built_block payload), block', tx, used. split; [exact Hpaid|exact Htx].
Defined.

(** The parent's limit is 30000000; the finalized block's is 29921000. *)
Lemma transfer_payment_breaks_gas_limit_witness :
  ∃ block, header_gas_limit (sealed_header block) = 29921000 ∧
    verify_limits (header_gas_limit (sealed_header block)) 30000000 = false.
Proof.
  destruct toy_build as (payload & outcome & block & Hbuild & Hpaid & _ & _ & _ & Hlimit).
  exists block. split; [exact Hlimit|].
  refine (transfer_payment_breaks_gas_limit 10 toy_builder toy_args toy_proposal payload
    toy_reads (Some outcome) toy_signer (toy_finalizer 77) 1 500 block outcome _ _ _ Hbuild _ Hpaid).
  - vm_compute. split; discriminate.
  - reflexivity.
  - reflexivity.
  - intros db db' account H. injection H as _ <-. reflexivity.
Defined.
End ToyBuilder.
