(* ===== verification/Bidder.v ===== *)
(** [mev-build-rs/src/bidder/]: how much of a payload's revenue the builder bids.

    An [f64] is a [spec_float], the Standard Library's model of IEEE 754 numbers, and
    its operations are those of that model.  The conversion of an [f64] to a 256-bit
    integer belongs to the integer library; it is a parameter, the field of
    [FloatConversion], and [None] is its panic. *)

From Stdlib Require Import Floats.SpecFloat.
From S2P Require Import Prelude.

#[local] Open Scope N_scope.

(** * Floating-point numbers *)

Definition f64 : Type := spec_float.
Definition f64_mul : f64 → f64 → f64 := SFmul 53 1024.
Definition f64_zero : f64 := S754_zero false.
Definition f64_one : f64 := S754_finite false 4503599627370496 (-52).
Definition f64_hundred : f64 := S754_finite false 7036874417766400 (-46).

(** [f64::clamp] *)
Definition f64_clamp (lo hi x : f64) : f64 :=
  let x := if SFltb x lo then lo else x in
  if SFltb hi x then hi else x.

(** [U256::from(f64)]: the nearest integer; not-a-number has none. *)
Class FloatConversion : Type := {
  U256_from_f64 : f64 → option N;
}.

Section bidder.
Context {FC : FloatConversion}.

(** ** [strategies/basic.rs] *)

Record Config : Type := {
  config_bid_percent : option f64;
  config_subsidy_wei : option N;
}.

Record BasicStrategy : Type := {
  bid_percent : f64;
  subsidy_wei : N;
}.

Definition new (config : Config) : BasicStrategy := {|
  bid_percent := f64_clamp f64_zero f64_one (default f64_one (config_bid_percent config));
  subsidy_wei := default 0 (config_subsidy_wei config);
|}.

(** [None] when the conversion panics. *)
Definition compute_value (self : BasicStrategy) (current_revenue : N) : option N :=
  percent ← U256_from_f64 (f64_mul (bid_percent self) f64_hundred);
  let value := u256_mul current_revenue percent / 100 in
  Some (u256_add value (subsidy_wei self)).

Definition run (self : BasicStrategy) (current_revenue : N) : option (option N) :=
  value ← compute_value self current_revenue;
  Some (Some value).

(** ** [service.rs]

    The updates of an auction, in the order they are received: the revenue, and
    whether the job still waits for the answer when it is sent.  The result is the
    answers that arrive. *)
Fixpoint bid_loop (strategy : BasicStrategy) (revenue_updates : list (N * bool))
    : option (list (option N)) :=
  match revenue_updates with
  | [] => Some []
  | (current_revenue, waiting) :: revenue_updates =>
      value ← run strategy current_revenue;
      if (waiting : bool) then
        answers ← bid_loop strategy revenue_updates;
        Some (value :: answers)
      else Some []
  end.

Definition start_bid (config : Config) (revenue_updates : list (N * bool))
    : option (list (option N)) :=
  bid_loop (new config) revenue_updates.
End bidder.

(** * Properties *)

(** The integer is at most a half away from the number, which is not negative. *)
Definition is_nearest (x : f64) (n : N) : Prop :=
  match x with
  | S754_zero _ => n = 0
  | S754_finite false m e =>
      (2 * Z.abs (Zpos m * 2 ^ (e `max` 0) - Z.of_N n * 2 ^ ((- e) `max` 0)) ≤ 2 ^ ((- e) `max` 0))%Z
  | _ => False
  end.

(** What is documented of the conversion, where the bidder relies on it. *)
Class FloatConversionLaws (FC : FloatConversion) : Prop := {
  from_f64_nearest x n : U256_from_f64 x = Some n → is_nearest x n;
  from_f64_hundred : U256_from_f64 f64_hundred = Some 100;
  from_f64_nan : U256_from_f64 S754_nan = None;
}.

(** The fraction is between zero and one, or not a number. *)
Definition is_fraction (x : f64) : Prop :=
  x = S754_nan ∨ SFleb f64_zero x = true ∧ SFleb x f64_one = true.

(** The strategy's percentage, as the integer it is rounded to. *)
Definition percent_of `{FC : FloatConversion} (self : BasicStrategy) : option N :=
  U256_from_f64 (f64_mul (bid_percent self) f64_hundred).

Lemma SFcompare_swap x y : SFcompare y x = CompOpp <$> SFcompare x y.
Proof.
  destruct x as [[]|[]| |[] m e], y as [[]|[]| |[] m' e']; try done; simpl;
    rewrite (Z.compare_antisym e e'), (eq_sym (Pos.compare_cont_antisym m m' Eq) : Pos.compare_cont Eq m' m = _);
    destruct (e ?= e')%Z, (Pos.compare_cont Eq m m'); done.
Qed.

Lemma SFleb_not_ltb x y : x ≠ S754_nan → y ≠ S754_nan → SFltb y x = false → SFleb x y = true.
Proof.
  intros Hx Hy. unfold SFltb, SFleb. rewrite (SFcompare_swap x y).
  destruct (SFcompare x y) as [[]|] eqn:E; try done.
  destruct x as [| | |[] ? ?], y as [| | |[] ? ?]; done.
Qed.

Lemma clamp_fraction x : is_fraction (f64_clamp f64_zero f64_one x).
Proof.
  unfold f64_clamp. destruct (SFltb x f64_zero) eqn:Hlo; [by right|].
  destruct (SFltb f64_one x) eqn:Hhi; [by right|].
  assert (x = S754_nan ∨ x ≠ S754_nan) as [|Hx] by (destruct x; auto); [by left|].
  right; split; apply SFleb_not_ltb; done.
Qed.

Section bidder_properties.
Context {FC : FloatConversion} {FL : FloatConversionLaws FC}.
Implicit Types (self : BasicStrategy) (config : Config).

Lemma new_fraction config : is_fraction (bid_percent (new config)).
Proof. apply clamp_fraction. Qed.

Lemma compute_value_small self p revenue :
  percent_of self = Some p → p ≤ 100 → revenue * 100 < u256_mod →
  revenue + subsidy_wei self < u256_mod →
  compute_value self revenue = Some (revenue * p / 100 + subsidy_wei self).
Proof.
  intros Hp Hle Hrev Hsum. unfold compute_value. fold (percent_of self). rewrite Hp. simpl.
  assert (revenue * p / 100 ≤ revenue) by (apply N.Div0.div_le_upper_bound; nia).
  rewrite u256_mul_small by nia. rewrite u256_add_small by lia. done.
Qed.

(** The answers when every update is still waited for. *)
Lemma bid_loop_waiting strategy (value : N → N) revenues :
  Forall (λ r, run strategy r = Some (Some (value r))) revenues →
  bid_loop strategy ((., true) <$> revenues) = Some (Some ∘ value <$> revenues).
Proof. induction 1 as [|r revenues Hr _ IH]; [done|]. csimpl. by rewrite Hr, IH. Qed.

(** The first update whose job no longer waits ends the auction: the later ones are
    not read. *)
Lemma bid_loop_gone strategy (value : N → N) revenues r rest :
  Forall (λ r, run strategy r = Some (Some (value r))) (revenues ++ [r]) →
  bid_loop strategy (((., true) <$> revenues) ++ (r, false) :: rest)
  = Some (Some ∘ value <$> revenues).
Proof.
  intros [Hall [Hr _]%Forall_cons]%Forall_app.
  induction Hall as [|r' revenues Hr' _ IH]; csimpl; [by rewrite Hr|]. by rewrite Hr', IH.
Qed.

(** C29: The bidder answers the updates of an auction in order, each with a share of its
    revenue plus the subsidy.  The share is not the configured fraction but a whole number
    of percent: the nearest to a hundred times the fraction.  When it is at most a hundred,
    the bid is between the subsidy and the revenue plus the subsidy, and a payload with a
    greater revenue never gets a smaller bid.  The bidder stops at the first update whose
    job no longer waits for the answer, whatever comes after.  The revenues are assumed
    small enough for a hundred times each of them to fit in 256 bits. *)
Theorem start_bid_spec config p revenues r rest :
  percent_of (new config) = Some p → p ≤ 100 →
  Forall (λ r, r * 100 < u256_mod ∧ r + subsidy_wei (new config) < u256_mod) (revenues ++ [r]) →
  let value r := r * p / 100 + subsidy_wei (new config) in
  is_nearest (f64_mul (bid_percent (new config)) f64_hundred) p ∧
  start_bid config ((., true) <$> revenues) = Some (Some ∘ value <$> revenues) ∧
  start_bid config (((., true) <$> revenues) ++ (r, false) :: rest)
  = Some (Some ∘ value <$> revenues) ∧
  (∀ r, subsidy_wei (new config) ≤ value r ≤ r + subsidy_wei (new config)) ∧
  (∀ r r', r ≤ r' → value r ≤ value r').
Proof.
  intros Hp Hle Hall value.
  assert (Hrun : Forall (λ r, run (new config) r = Some (Some (value r))) (revenues ++ [r])).
  { eapply Forall_impl; [exact Hall|]. intros x [??].
    unfold run. by rewrite (compute_value_small _ p). }
  split_and!.
  - by apply from_f64_nearest.
  - apply bid_loop_waiting. by apply Forall_app in Hrun as [? _].
  - by apply bid_loop_gone.
  - intros x. unfold value. split; [apply N.le_add_l|]. apply N.add_le_mono_r.
    apply N.Div0.div_le_upper_bound. nia.
  - intros x y Hxy. unfold value. apply N.add_le_mono_r.
    apply N.Div0.div_le_mono. nia.
Qed.

(** Without a configuration the bidder bids all of the revenue. *)
Lemma default_percent : percent_of (new {| config_bid_percent := None; config_subsidy_wei := None |}) = Some 100.
Proof. unfold percent_of. rewrite <-from_f64_hundred. by vm_compute. Qed.

(** A configured percentage is clamped between zero and one, except
    not-a-number, which stays: then the bidder panics at its first update and never
    answers. *)
Theorem bid_percent_clamped config revenue waiting rest :
  (bid_percent (new config) = S754_nan ↔ config_bid_percent config = Some S754_nan) ∧
  is_fraction (bid_percent (new config)) ∧
  (config_bid_percent config = Some S754_nan →
   start_bid config ((revenue, waiting) :: rest) = None).
Proof.
  assert (Hnan : config_bid_percent config = Some S754_nan → bid_percent (new config) = S754_nan).
  { intros E. unfold new. simpl. by rewrite E. }
  split_and!; [split; [|done]|apply new_fraction|].
  - unfold new, f64_clamp. simpl. destruct (config_bid_percent config) as [x|]; simpl; [|by vm_compute].
    case_match; [by vm_compute|]. case_match; [done|]. by intros ->.
  - intros E. unfold start_bid. simpl. unfold run, compute_value. rewrite (Hnan E). simpl.
    by rewrite from_f64_nan.
Qed.
End bidder_properties.

(** ** A concrete conversion *)

Module ToyBidder.
(** Nearest integer, halves upwards. *)
Definition toy_from_f64 (x : f64) : option N :=
  match x with
  | S754_zero _ => Some 0
  | S754_finite false m e =>
      Some (if decide (0 ≤ e)%Z then N.shiftl (Npos m) (Z.to_N e)
            else (N.shiftr (Npos m) (Z.to_N (- e - 1)) + 1) / 2)
  | _ => None
  end.

#[export] Instance toy_float : FloatConversion := {| U256_from_f64 := toy_from_f64 |}.

Lemma toy_from_f64_nearest x n : toy_from_f64 x = Some n → is_nearest x n.
Proof.
  destruct x as [s| | |[] m e]; intros [= <-]; [done|]. unfold is_nearest.
  destruct (decide (0 ≤ e)%Z) as [He|He].
  - rewrite Z.max_l, (Z.max_r (- e)) by lia.
    rewrite N.shiftl_mul_pow2, N2Z.inj_mul, N2Z.inj_pow, Z2N.id by done. simpl. lia.
  - rewrite Z.max_r, (Z.max_l (- e)) by lia. set (k := (- e - 1)%Z).
    replace (- e)%Z with (Z.succ k) by (unfold k; lia).
    rewrite Z.pow_succ_r, N.shiftr_div_pow2 by (unfold k; lia).
    rewrite N2Z.inj_div, N2Z.inj_add, N2Z.inj_div, N2Z.inj_pow, Z2N.id by (unfold k; lia). simpl.
    assert (0 < 2 ^ k)%Z by (apply Z.pow_pos_nonneg; [done|unfold k; lia]).
    pose proof (Z.div_mod (Zpos m) (2 ^ k) ltac:(lia)). pose proof (Z.mod_pos_bound (Zpos m) (2 ^ k) ltac:(lia)).
    set (q := (Zpos m / 2 ^ k)%Z) in *. pose proof (Z.div_mod (q + 1) 2 ltac:(lia)).
    pose proof (Z.mod_pos_bound (q + 1) 2 ltac:(lia)). nia.
Qed.

#[export] Instance toy_float_laws : FloatConversionLaws toy_float.
Proof. split; [exact toy_from_f64_nearest|reflexivity..]. Qed.

(** Nine tenths of the revenue and a subsidy of seven. *)
Definition toy_config : Config := {|
  config_bid_percent := Some (S754_finite false 8106479329266893 (-53));
  config_subsidy_wei := Some 7;
|}.

Definition toy_nan_config : Config := {|
  config_bid_percent := Some S754_nan;
  config_subsidy_wei := None;
|}.

Example toy_bids :
  start_bid toy_config [(1000, true); (2000, true); (1, false); (5, true)]
  = Some [Some 907; Some 1807].
Proof. vm_compute. reflexivity. Qed.

(** A fraction of [0.995] is rounded to a hundred percent: the builder bids all of its
    revenue, and keeps nothing. *)
Definition toy_rounded_config : Config := {|
  config_bid_percent := Some (S754_finite false 8962163258467287 (-53));
  config_subsidy_wei := None;
|}.

Example toy_rounded_bid : start_bid toy_rounded_config [(1000, true)] = Some [Some 1000].
Proof. vm_compute. reflexivity. Qed.

Lemma start_bid_spec_witness :
  start_bid toy_config [(1000, true); (2000, true)] = Some [Some 907; Some 1807] ∧
  start_bid toy_config [(1000, true); (2000, true); (1, false); (5, true)]
  = Some [Some 907; Some 1807].
Proof.
  pose proof (start_bid_spec toy_config 90 [1000; 2000] 1 [(5, true)]) as H.
  destruct H as (_ & H1 & H2 & _).
  - vm_compute. reflexivity.
  - vm_compute. discriminate.
  - repeat constructor.
  - split; [exact H1|exact H2].
Defined.

Lemma bid_percent_clamped_witness :
  start_bid toy_nan_config [(1000, true)] = None ∧
  bid_percent (new toy_nan_config) = S754_nan.
Proof.
  destruct (bid_percent_clamped toy_nan_config 1000 true []) as ([_ H] & _ & H').
  split; [apply H'; reflexivity|apply H; reflexivity].
Defined.
End ToyBidder.
