(* ===== verification/PayloadJob.v ===== *)
(** [mev-build-rs/src/payload/job.rs]: the job that improves a payload until its
    deadline and bids for it.

    A job talks to three kinds of tasks over [oneshot] channels: the builds it spawns,
    the bidder, and the tasks that finalize a payload.  A channel is known by its
    number; [next_channel] is the number of the next one.  What the timers and the
    channels report when the job is polled is the argument [polled]; what the job
    spawns is a list of effects, in order.  [System] puts the job together with its
    tasks, and [system_step] is their interleaving. *)

From S2P Require Import Prelude.
From S2P Require Import Consensus.
From S2P Require Import Types.
From S2P Require Import BlockValidation.
From S2P Require Import Execution.
From S2P Require Import Attributes.
From S2P Require Import PayloadBuilder.
From S2P Require Import Bidder.
From S2P Require Import Toy.

#[local] Open Scope N_scope.

Definition ChannelId : Type := N.

(** The sender of a channel was dropped. *)
Inductive RecvError : Type := RecvError_Closed.

Section job.
Context `{ET : ExecutionTypes} {HS : Hashing} {EX : ExecutionTerms} {EF : ExecutionFunctions}.
Context `{CF : !ConsensusFunctions}.

Record BidUpdate : Type := {
  value_rx : ChannelId;
  bid_payload : option EthBuiltPayload;
}.

(** Without the handles of the client, the pool, the executor and the timers.  The handle
    of a pending build's [Cancelled] flag goes with its channel: dropping it sets the flag,
    which is [DropHandle]. *)
Record PayloadJob : Type := {
  config : PayloadConfig;
  best_payload : option EthBuiltPayload;
  pending_block : option ChannelId;
  cached_reads : option CachedReads;
  pending_bid_update : option BidUpdate;
  next_channel : ChannelId;
}.

Definition set_best_payload best (this : PayloadJob) : PayloadJob := {|
  config := config this;
  best_payload := best;
  pending_block := pending_block this;
  cached_reads := cached_reads this;
  pending_bid_update := pending_bid_update this;
  next_channel := next_channel this;
|}.

Definition set_pending_block pending (this : PayloadJob) : PayloadJob := {|
  config := config this;
  best_payload := best_payload this;
  pending_block := pending;
  cached_reads := cached_reads this;
  pending_bid_update := pending_bid_update this;
  next_channel := next_channel this;
|}.

Definition set_cached_reads reads (this : PayloadJob) : PayloadJob := {|
  config := config this;
  best_payload := best_payload this;
  pending_block := pending_block this;
  cached_reads := reads;
  pending_bid_update := pending_bid_update this;
  next_channel := next_channel this;
|}.

Definition set_pending_bid_update update (this : PayloadJob) : PayloadJob := {|
  config := config this;
  best_payload := best_payload this;
  pending_block := pending_block this;
  cached_reads := cached_reads this;
  pending_bid_update := update;
  next_channel := next_channel this;
|}.

(** [oneshot::channel()] *)
Definition new_channel (this : PayloadJob) : ChannelId * PayloadJob :=
  (next_channel this, {|
    config := config this;
    best_payload := best_payload this;
    pending_block := pending_block this;
    cached_reads := cached_reads this;
    pending_bid_update := pending_bid_update this;
    next_channel := next_channel this + 1;
  |}).

Inductive JobEffect : Type :=
| SpawnFinalize (payload : EthBuiltPayload) (value_to_bid : N) (config : PayloadFinalizerConfig)
| SpawnBuild (tx : ChannelId) (cached_reads : CachedReads) (best_payload : option EthBuiltPayload)
| SpawnBid (value_tx : ChannelId) (bidder : N) (fees : N)
| SpawnEmpty (tx : ChannelId)
| ResetInterval
| DropHandle (build : ChannelId).

(** What is ready when the job is polled: the deadline, the number of ticks of the
    interval, and the channels. *)
Record Polled : Type := {
  deadline_reached : bool;
  ticks : nat;
  poll_value : ChannelId → Poll (result RecvError (option N));
  poll_build : ChannelId → Poll (result PayloadBuilderError BuildOutcome);
}.

(** [BidUpdate::poll], which takes the payload out of the update; [None] when it panics. *)
Definition BidUpdate_poll (polled : Poll (result RecvError (option N))) (this : BidUpdate)
    : option (BidUpdate * Poll (result RecvError (option (EthBuiltPayload * N)))) :=
  match polled with
  | Pending => Some (this, Pending)
  | Ready (Ok maybe_value) =>
      match maybe_value with
      | Some value =>
          payload ← bid_payload this;
          Some ({| value_rx := value_rx this; bid_payload := None |},
                Ready (Ok (Some (payload, value))))
      | None => Some (this, Ready (Ok None))
      end
  | Ready (Err err) => Some (this, Ready (Err err))
  end.

(** The task that finalizes a payload the bidder has put a value on. *)
Definition finalize_effects (builder : Inner) (this : PayloadJob)
    (maybe_dispatch : option (EthBuiltPayload * N)) : list JobEffect :=
  match maybe_dispatch with
  | Some (payload, value_to_bid) =>
      match proposal (config_attributes (config this)) with
      | Some proposal =>
          let '(cfg_env, block_env) := cfg_and_block_env builder (config this) in
          [SpawnFinalize payload value_to_bid {|
             finalizer_fee_recipient := proposer_fee_recipient proposal;
             finalizer_cfg_env := cfg_env;
             finalizer_block_env := block_env |}]
      | None => []
      end
  | None => []
  end.

(** The part of [poll] on pending bids; [Ready] when the job is over. *)
Definition poll_bids (builder : Inner) (polled : Polled) (this : PayloadJob)
    : option (PayloadJob * list JobEffect * Poll (result PayloadBuilderError unit)) :=
  match pending_bid_update this with
  | None => Some (this, [], Pending)
  | Some fut =>
      let this := set_pending_bid_update None this in
      ' (fut, update) ← BidUpdate_poll (poll_value polled (value_rx fut)) fut;
      match update with
      | Pending => Some (set_pending_bid_update (Some fut) this, [], Pending)
      | Ready (Ok maybe_dispatch) =>
          Some (this, finalize_effects builder this maybe_dispatch, Pending)
      | Ready (Err _) => Some (this, [], Ready (Ok tt))
      end
  end.

(** The part of [poll] on the interval. *)
Fixpoint poll_interval (ticks : nat) (this : PayloadJob) : PayloadJob * list JobEffect :=
  match ticks with
  | O => (this, [])
  | S ticks =>
      match pending_block this with
      | Some _ => poll_interval ticks this
      | None =>
          let '(tx, this) := new_channel this in
          let reads := default empty_cached_reads (cached_reads this) in
          let this := set_cached_reads None this in
          let effect := SpawnBuild tx reads (best_payload this) in
          let '(this, effects) := poll_interval ticks (set_pending_block (Some tx) this) in
          (this, effect :: effects)
      end
  end.

(** The bid for a better payload. *)
Definition start_bid_update (payload : EthBuiltPayload) (this : PayloadJob)
    : PayloadJob * list JobEffect :=
  match proposal (config_attributes (config this)) with
  | Some proposal =>
      let '(value_tx, this) := new_channel this in
      (set_pending_bid_update
         (Some {| value_rx := value_tx; bid_payload := Some payload |}) this,
       [SpawnBid value_tx (bidder proposal) (built_fees payload)])
  | None => (this, [])
  end.

(** The part of [poll] on the pending block, which is dropped when it is done; [None] when
    it panics. *)
Definition poll_pending_block (polled : Polled) (this : PayloadJob)
    : option (PayloadJob * list JobEffect) :=
  match pending_block this with
  | None => Some (this, [])
  | Some fut =>
      let this := set_pending_block None this in
      match poll_build polled fut with
      | Ready (Ok outcome) =>
          match outcome with
          | Better payload reads =>
              let this := set_cached_reads (Some reads) this in
              let this := set_best_payload (Some payload) this in
              let '(this, effects) := start_bid_update payload this in
              Some (this, ResetInterval :: effects ++ [DropHandle fut])
          | Aborted _ reads =>
              Some (set_cached_reads (Some reads) this, [ResetInterval; DropHandle fut])
          | Cancelled => None
          end
      | Ready (Err _) => Some (this, [DropHandle fut])
      | Pending => Some (set_pending_block (Some fut) this, [])
      end
  end.

Definition poll (builder : Inner) (polled : Polled) (this : PayloadJob)
    : option (PayloadJob * list JobEffect * Poll (result PayloadBuilderError unit)) :=
  if deadline_reached polled then Some (this, [], Ready (Ok tt))
  else
    ' (this, effects_bids, over) ← poll_bids builder polled this;
    match over with
    | Ready result => Some (this, effects_bids, Ready result)
    | Pending =>
        let '(this, effects_interval) := poll_interval (ticks polled) this in
        ' (this, effects_block) ← poll_pending_block polled this;
        Some (this, effects_bids ++ effects_interval ++ effects_block, Pending)
    end.

(** [PayloadJob::best_payload] *)
Definition get_best_payload (builder : Inner) (this : PayloadJob)
    : outcome PayloadBuilderError EthBuiltPayload :=
  match best_payload this with
  | Some payload => Returns (Ok payload)
  | None => build_empty_payload builder (config this)
  end.

Definition payload_attributes (this : PayloadJob) : BuilderPayloadBuilderAttributes :=
  config_attributes (config this).

Inductive KeepPayloadJobAlive : Type := KeepAlive_Yes | KeepAlive_No.

(** What [resolve] waits for: the best payload, a build under way, an empty block. *)
Record ResolveBestPayload : Type := {
  resolve_best_payload : option EthBuiltPayload;
  maybe_better : option ChannelId;
  empty_payload : option ChannelId;
}.

Definition resolve (this : PayloadJob)
    : PayloadJob * list JobEffect * (ResolveBestPayload * KeepPayloadJobAlive) :=
  let best := best_payload this in
  let better := pending_block this in
  let this := set_pending_block None (set_best_payload None this) in
  match best with
  | Some _ =>
      (this, [],
       ({| resolve_best_payload := best; maybe_better := better; empty_payload := None |},
        KeepAlive_No))
  | None =>
      let '(tx, this) := new_channel this in
      (this, [SpawnEmpty tx],
       ({| resolve_best_payload := best; maybe_better := better; empty_payload := Some tx |},
        KeepAlive_No))
  end.
End job.

(** * The job and its tasks *)

Section system.
Context `{ET : ExecutionTypes} {HS : Hashing} {EX : ExecutionTerms}.
Context {FC : FloatConversion}.

(** A build: under way with the reads and the payload it was started with, done, or
    lost with its task. *)
Inductive Build : Type :=
| Building (cached_reads : CachedReads) (best_payload : option EthBuiltPayload)
| BuildSent (reported : result PayloadBuilderError BuildOutcome)
| BuildLost.

Inductive Bid : Type :=
| BidAnswered (value : option N)
| BidClosed.

Record Finalizer : Type := {
  finalizer_payload : EthBuiltPayload;
  finalizer_value : N;
  finalizer_config : PayloadFinalizerConfig;
}.

(** [sys_job] is [None] once the job is over.  [sys_cancelled] has the builds whose handle
    was dropped, [sys_resolved] what [resolve] has returned and still exists.  A bid update is in [sys_sends] until
    its task has sent it, then in the bidder's queue; [sys_bids] has the channels the
    bidder has answered or dropped. *)
Record System : Type := {
  sys_job : option PayloadJob;
  sys_builds : gmap ChannelId Build;
  sys_cancelled : gset ChannelId;
  sys_resolved : list ResolveBestPayload;
  sys_sends : list (ChannelId * N);
  sys_queue : list (ChannelId * N);
  sys_bidding : bool;
  sys_bids : gmap ChannelId Bid;
  sys_finalizers : list Finalizer;
  sys_outcomes : Outcomes;
  sys_dispatched : list EthBuiltPayload;
}.

Definition polled_value (s : System) (i : ChannelId) : Poll (result RecvError (option N)) :=
  match sys_bids s !! i with
  | None => Pending
  | Some (BidAnswered value) => Ready (Ok value)
  | Some BidClosed => Ready (Err RecvError_Closed)
  end.

(** [channel_closed] is the error a lost build is reported with. *)
Definition polled_build (channel_closed : PayloadBuilderError) (s : System) (i : ChannelId)
    : Poll (result PayloadBuilderError BuildOutcome) :=
  match sys_builds s !! i with
  | Some (BuildSent reported) => Ready reported
  | Some BuildLost => Ready (Err channel_closed)
  | Some (Building _ _) | None => Pending
  end.

(** The executor starts a task, or a handle is dropped. *)
Definition spawn (s : System) (effect : JobEffect) : System := {|
  sys_job := sys_job s;
  sys_builds :=
    match effect with
    | SpawnBuild tx reads best => <[tx := Building reads best]> (sys_builds s)
    | _ => sys_builds s
    end;
  sys_cancelled :=
    match effect with
    | DropHandle i => {[i]} ∪ sys_cancelled s
    | _ => sys_cancelled s
    end;
  sys_resolved := sys_resolved s;
  sys_sends :=
    match effect with
    | SpawnBid value_tx _ fees => sys_sends s ++ [(value_tx, fees)]
    | _ => sys_sends s
    end;
  sys_queue := sys_queue s;
  sys_bidding := sys_bidding s;
  sys_bids := sys_bids s;
  sys_finalizers :=
    match effect with
    | SpawnFinalize payload value config =>
        sys_finalizers s ++ [{| finalizer_payload := payload; finalizer_value := value;
                                finalizer_config := config |}]
    | _ => sys_finalizers s
    end;
  sys_outcomes := sys_outcomes s;
  sys_dispatched := sys_dispatched s;
|}.

Definition set_job job (s : System) : System := {|
  sys_job := job; sys_builds := sys_builds s; sys_cancelled := sys_cancelled s;
  sys_resolved := sys_resolved s; sys_sends := sys_sends s;
  sys_queue := sys_queue s; sys_bidding := sys_bidding s; sys_bids := sys_bids s;
  sys_finalizers := sys_finalizers s; sys_outcomes := sys_outcomes s;
  sys_dispatched := sys_dispatched s;
|}.

Definition set_resolved resolved (s : System) : System := {|
  sys_job := sys_job s; sys_builds := sys_builds s; sys_cancelled := sys_cancelled s;
  sys_resolved := resolved; sys_sends := sys_sends s;
  sys_queue := sys_queue s; sys_bidding := sys_bidding s; sys_bids := sys_bids s;
  sys_finalizers := sys_finalizers s; sys_outcomes := sys_outcomes s;
  sys_dispatched := sys_dispatched s;
|}.

(** A pending build that is dropped, if any. *)
Definition drop_handle (pending : option ChannelId) (s : System) : System :=
  match pending with
  | Some i => spawn s (DropHandle i)
  | None => s
  end.

(** A job that is over is dropped. *)
Definition after_poll (job : PayloadJob) (over : Poll (result PayloadBuilderError unit))
    (s : System) : System :=
  match over with
  | Pending => set_job (Some job) s
  | Ready _ => set_job None (drop_handle (pending_block job) s)
  end.

(** The receiver of a bid's value exists. *)
Definition bid_awaited (s : System) (i : ChannelId) : Prop :=
  ∃ job update, sys_job s = Some job ∧ pending_bid_update job = Some update ∧ value_rx update = i.

#[export] Instance bid_awaited_dec s i : Decision (bid_awaited s i).
Proof.
  unfold bid_awaited.
  destruct (sys_job s) as [job|]; [|right; naive_solver].
  destruct (pending_bid_update job) as [update|] eqn:E; [|right; naive_solver].
  destruct (decide (value_rx update = i)); [left|right]; naive_solver.
Defined.

(** Channels whose sender is dropped. *)
Definition close_bids (dropped : list (ChannelId * N)) (bids : gmap ChannelId Bid)
    : gmap ChannelId Bid :=
  foldr (λ '(i, _), <[i := BidClosed]>) bids dropped.

Definition task_sends (i : ChannelId) (fees : N) (sends : list (ChannelId * N)) (s : System)
    : System := {|
  sys_job := sys_job s; sys_builds := sys_builds s; sys_cancelled := sys_cancelled s;
  sys_resolved := sys_resolved s; sys_sends := sends;
  sys_queue := if sys_bidding s then sys_queue s ++ [(i, fees)] else sys_queue s;
  sys_bidding := sys_bidding s;
  sys_bids := if sys_bidding s then sys_bids s else <[i := BidClosed]> (sys_bids s);
  sys_finalizers := sys_finalizers s; sys_outcomes := sys_outcomes s;
  sys_dispatched := sys_dispatched s;
|}.

(** One iteration of the bidder: it stops when it panics, or when nobody waits for its
    answer; its queue is then dropped. *)
Definition bidder_answers (strategy : BasicStrategy) (i : ChannelId) (fees : N)
    (queue : list (ChannelId * N)) (s : System) : System :=
  let answered := if decide (bid_awaited s i) then run strategy fees else None in
  {| sys_job := sys_job s; sys_builds := sys_builds s; sys_cancelled := sys_cancelled s;
     sys_resolved := sys_resolved s; sys_sends := sys_sends s;
     sys_queue := match answered with Some _ => queue | None => [] end;
     sys_bidding := match answered with Some _ => true | None => false end;
     sys_bids :=
       match answered with
       | Some value => <[i := BidAnswered value]> (sys_bids s)
       | None => close_bids ((i, fees) :: queue) (sys_bids s)
       end;
     sys_finalizers := sys_finalizers s; sys_outcomes := sys_outcomes s;
     sys_dispatched := sys_dispatched s |}.

Definition build_done (i : ChannelId) (build : Build) (outcomes : Outcomes) (s : System)
    : System := {|
  sys_job := sys_job s; sys_builds := <[i := build]> (sys_builds s);
  sys_cancelled := sys_cancelled s; sys_resolved := sys_resolved s; sys_sends := sys_sends s;
  sys_queue := sys_queue s; sys_bidding := sys_bidding s; sys_bids := sys_bids s;
  sys_finalizers := sys_finalizers s; sys_outcomes := outcomes;
  sys_dispatched := sys_dispatched s;
|}.

Definition finalizer_done (finalizers : list Finalizer) (outcomes : Outcomes)
    (dispatched : option EthBuiltPayload) (s : System) : System := {|
  sys_job := sys_job s; sys_builds := sys_builds s; sys_cancelled := sys_cancelled s;
  sys_resolved := sys_resolved s; sys_sends := sys_sends s;
  sys_queue := sys_queue s; sys_bidding := sys_bidding s; sys_bids := sys_bids s;
  sys_finalizers := finalizers; sys_outcomes := outcomes;
  sys_dispatched := sys_dispatched s ++ option_list dispatched;
|}.

(** The payload a finalizer's task sends to the auctioneer, if any. *)
Definition dispatched_by (finalized : outcome PayloadBuilderError EthBuiltPayload)
    : option EthBuiltPayload :=
  match finalized with
  | Returns (Ok payload) => Some payload
  | _ => None
  end.

(** How a build's task ends. *)
Definition build_reported (built : outcome PayloadBuilderError BuildOutcome) : option Build :=
  match built with
  | Returns reported => Some (BuildSent reported)
  | Panics => Some BuildLost
  | OutOfFuel => None
  end.

(** The state of the chain and the pool change while the job runs: [view] says which
    the tasks may see. *)
Context (view : ExecutionFunctions → Prop).
Context (builder : Inner) (the_config : PayloadConfig) (strategy : BasicStrategy).

Definition build_arguments (reads : CachedReads) (best : option EthBuiltPayload)
    (cancel : nat → bool) : BuildArguments :=
  {| args_cached_reads := reads; args_config := the_config; args_cancel := cancel;
     args_best_payload := best |}.

(** A build may see that it is cancelled only once the handle on it is dropped.  The job
    holds the handle of the build it waits for; [resolve] moves it to the future it
    returns, which may be dropped at any time. *)
Inductive system_step : System → System → Prop :=
| step_poll (EF : ExecutionFunctions) s job polled job' effects over channel_closed :
    view EF →
    sys_job s = Some job →
    poll_value polled = polled_value s →
    poll_build polled = polled_build channel_closed s →
    poll builder polled job = Some (job', effects, over) →
    system_step s (foldl spawn (after_poll job' over s) effects)
| step_resolve s job job' effects resolved alive :
    sys_job s = Some job →
    resolve job = (job', effects, (resolved, alive)) →
    system_step s (foldl spawn
      (set_job None (drop_handle (pending_block job')
         (set_resolved (resolved :: sys_resolved s) s))) effects)
| step_resolved s resolved rest1 rest2 :
    sys_resolved s = rest1 ++ resolved :: rest2 →
    system_step s (drop_handle (maybe_better resolved) (set_resolved (rest1 ++ rest2) s))
| step_build (EF : ExecutionFunctions) s i reads best cancel fuel outcomes' built build :
    view EF →
    sys_builds s !! i = Some (Building reads best) →
    (i ∉ sys_cancelled s → cancel = λ _, false) →
    try_build fuel builder (build_arguments reads best cancel) (sys_outcomes s)
      = (outcomes', built) →
    build_reported built = Some build →
    system_step s (build_done i build outcomes' s)
| step_send s i fees sends1 sends2 :
    sys_sends s = sends1 ++ (i, fees) :: sends2 →
    system_step s (task_sends i fees (sends1 ++ sends2) s)
| step_bid s i fees queue :
    sys_bidding s = true →
    sys_queue s = (i, fees) :: queue →
    system_step s (bidder_answers strategy i fees queue s)
| step_finalize (EF : ExecutionFunctions) s fin finalizers1 finalizers2 outcomes' finalized :
    view EF →
    sys_finalizers s = finalizers1 ++ fin :: finalizers2 →
    finalize_payload_and_dispatch builder (finalizer_payload fin) (finalizer_value fin)
      (finalizer_config fin) (sys_outcomes s) = (outcomes', finalized) →
    system_step s (finalizer_done (finalizers1 ++ finalizers2) outcomes'
                     (dispatched_by finalized) s).

Definition job_started (reads : option CachedReads) : PayloadJob := {|
  config := the_config;
  best_payload := None;
  pending_block := None;
  cached_reads := reads;
  pending_bid_update := None;
  next_channel := 0;
|}.

Definition system_started (reads : option CachedReads) (outcomes : Outcomes) : System := {|
  sys_job := Some (job_started reads);
  sys_builds := ∅; sys_cancelled := ∅; sys_resolved := []; sys_sends := []; sys_queue := []; sys_bidding := true; sys_bids := ∅;
  sys_finalizers := []; sys_outcomes := outcomes; sys_dispatched := [];
|}.

Definition reachable (s : System) : Prop :=
  ∃ reads outcomes, steps system_step (system_started reads outcomes) s.
End system.


(** * Properties *)

Section job_properties.
Context `{ET : ExecutionTypes} {HS : Hashing} {EX : ExecutionTerms}.
Context {FC : FloatConversion}.
Context (view : ExecutionFunctions → Prop) (view_laws : ∀ EF, view EF → ExecutionLaws).
Context (builder : Inner) (the_config : PayloadConfig) (strategy : BasicStrategy).
Implicit Types (s : System) (job : PayloadJob) (payload : EthBuiltPayload).

Notation step := (system_step view builder the_config strategy).
Notation the_id := (payload_id_of (config_attributes the_config)).

(** ** What the parts of [poll] do *)

Lemma poll_interval_spec {EF : ExecutionFunctions} ticks job :
  poll_interval ticks job =
    match pending_block job, ticks with
    | None, S _ =>
        (set_pending_block (Some (next_channel job)) (set_cached_reads None (new_channel job).2),
         [SpawnBuild (next_channel job) (default empty_cached_reads (cached_reads job))
            (best_payload job)])
    | _, _ => (job, [])
    end.
Proof.
  assert (Hsome : ∀ n j i, pending_block j = Some i → poll_interval n j = (j, [])).
  { intros n j i Hi. induction n as [|n IH]; simpl; [done|]. by rewrite Hi. }
  destruct (pending_block job) as [i|] eqn:Hi; [by eapply Hsome|].
  destruct ticks as [|ticks]; simpl; [done|]. rewrite Hi. by erewrite Hsome.
Qed.

(** ** The invariant *)

(** The payload is one of this job: it has the job's identifier and extends the job's
    parent. *)
Definition of_job payload : Prop :=
  built_id payload = the_id ∧
  header_parent (sealed_header (built_block payload)) = sealed_hash (parent_block the_config).

(** A better payload is built by this job and beats the one it was compared with. *)
Definition improves (best : option EthBuiltPayload) payload : Prop :=
  of_job payload ∧
  ∀ current, best = Some current → built_fees current < built_fees payload.

Definition build_ok (best : option EthBuiltPayload) (build : Build) : Prop :=
  match build with
  | Building _ compared => compared = best
  | BuildSent (Ok (Better payload _)) => improves best payload
  | BuildSent (Ok Cancelled) => False
  | BuildSent _ | BuildLost => True
  end.

(** The bidder's answer to the revenue of a payload. *)
Definition bid_for payload (value : N) : Prop :=
  of_job payload ∧ run strategy (built_fees payload) = Some (Some value).

Definition update_ok s (update : BidUpdate) : Prop :=
  ∃ payload, bid_payload update = Some payload ∧ of_job payload ∧
    (∀ fees, (value_rx update, fees) ∈ sys_sends s ++ sys_queue s → fees = built_fees payload) ∧
    (∀ value, sys_bids s !! value_rx update = Some (BidAnswered (Some value)) →
       bid_for payload value).

Definition channel_used s (i : ChannelId) : Prop :=
  is_Some (sys_builds s !! i) ∨ is_Some (sys_bids s !! i) ∨ i ∈ (sys_sends s ++ sys_queue s).*1.

Record job_ok s job : Prop := {
  ok_config : config job = the_config;
  ok_pending i : pending_block job = Some i →
    ∃ build, sys_builds s !! i = Some build ∧ build_ok (best_payload job) build;
  ok_single i reads best : sys_builds s !! i = Some (Building reads best) →
    pending_block job = Some i;
  ok_update update : pending_bid_update job = Some update →
    value_rx update < next_channel job ∧ update_ok s update;
  ok_fresh i : channel_used s i → i < next_channel job;
  ok_handle i : pending_block job = Some i → i ∉ sys_cancelled s;
  ok_cancelled i : i ∈ sys_cancelled s → i < next_channel job;
  ok_unresolved : sys_resolved s = [];
}.

(** A payload is finalized for the proposer of the auction, with the value the bidder
    answered to its fees. *)
Definition finalizer_ok (fin : Finalizer) : Prop :=
  bid_for (finalizer_payload fin) (finalizer_value fin) ∧
  ∃ proposal, Attributes.proposal (config_attributes the_config) = Some proposal ∧
    finalizer_fee_recipient (finalizer_config fin) = proposer_fee_recipient proposal.

(** A dispatched payload is a block of the job with the payment of a bid at its end, to
    the proposer of the auction. *)
Definition dispatched_ok payload : Prop :=
  of_job payload ∧
  ∃ (EF : ExecutionFunctions) fees config proposal block tx used, view EF ∧
    run strategy fees = Some (Some (built_fees payload)) ∧
    Attributes.proposal (config_attributes the_config) = Some proposal ∧
    finalizer_fee_recipient config = proposer_fee_recipient proposal ∧
    paid (signer builder) config (chain_id builder) (built_fees payload) block
      (built_block payload) tx used.

Record system_ok s : Prop := {
  ok_job job : sys_job s = Some job → job_ok s job;
  ok_finalizers : Forall finalizer_ok (sys_finalizers s);
  ok_dispatched : Forall dispatched_ok (sys_dispatched s);
}.

Lemma system_ok_over s : system_ok s → system_ok (set_job None s).
Proof. intros [_ ? ?]. by split. Qed.

Lemma drop_handle_ok s job i :
  system_ok s → sys_job s = Some job → pending_block job ≠ Some i → i < next_channel job →
  system_ok (spawn s (DropHandle i)).
Proof.
  intros Hok Hjob Hne Hlt. destruct (ok_job s Hok job Hjob) as [Hconf Hpend Hsing Hupd Hfresh Hheld Hgone Hres].
  destruct Hok as [_ Hfin Hdisp]. split; [|done..]. intros job'. simpl. rewrite Hjob. intros [= <-].
  split; simpl; try done.
  - intros j Hj. apply not_elem_of_union. split; [|by apply Hheld].
    rewrite elem_of_singleton. congruence.
  - intros j [->%elem_of_singleton|Hj]%elem_of_union; [done|by apply Hgone].
Qed.

(** Without a job, a dropped handle changes nothing that matters. *)
Lemma drop_over_ok s pending : system_ok s → system_ok (set_job None (drop_handle pending s)).
Proof. intros [_ Hfin Hdisp]. by destruct pending. Qed.

Lemma poll_bids_ok {EF : ExecutionFunctions} polled s job :
  system_ok s → sys_job s = Some job → poll_value polled = polled_value s →
  ∃ job' effects over, poll_bids builder polled job = Some (job', effects, over) ∧
    system_ok (foldl spawn (set_job (Some job') s) effects) ∧
    sys_builds (foldl spawn (set_job (Some job') s) effects) = sys_builds s ∧
    best_payload job' = best_payload job ∧
    pending_block job' = pending_block job.
Proof.
  intros Hok Hjob Hpoll. destruct (ok_job s Hok job Hjob) as [Hconf Hpend Hsing Hupd Hfresh Hheld Hgone Hres].
  assert (Hclear : system_ok (set_job (Some (set_pending_bid_update None job)) s)).
  { destruct Hok as [_ Hfin Hdisp]. split; [|done..]. intros ? [= <-]. by split. }
  unfold poll_bids. destruct (pending_bid_update job) as [fut|] eqn:Hfut.
  2: { do 3 eexists. split_and!; [done| |done..].
       simpl. destruct Hok as [_ Hfin Hdisp]. split; [|done..]. intros ? [= <-].
       split; try done. by rewrite Hfut. }
  destruct (Hupd fut eq_refl) as [_ (payload & Hpay & Hid & _ & Hans)].
  rewrite Hpoll. unfold polled_value. destruct (sys_bids s !! value_rx fut) as [[value|]|] eqn:Hbid;
    simpl.
  - destruct value as [value|]; simpl.
    + rewrite Hpay. simpl. do 3 eexists. split; [done|]. rewrite Hconf.
      destruct (proposal _) as [the_proposal|] eqn:Hprop; [|by split_and!].
      destruct (cfg_and_block_env _ _) as [cfg env]. split_and!; [|done..].
      simpl. destruct Hclear as [Hjob' Hfin Hdisp]. split; [|apply Forall_app; split; [done|]|done].
      * intros ? [= <-]. by destruct (Hjob' _ eq_refl).
      * constructor; [|done]. split; [by apply Hans|]. by exists the_proposal.
    + by do 3 eexists.
  - by do 3 eexists.
  - do 3 eexists. split_and!; [done| |done..]. simpl.
    destruct Hok as [_ Hfin Hdisp]. split; [|done..]. intros ? [= <-]. by split.
Qed.
Lemma poll_interval_ok {EF : ExecutionFunctions} n s job :
  system_ok (set_job (Some job) s) →
  let '(job', effects) := poll_interval n job in
  system_ok (foldl spawn (set_job (Some job') s) effects) ∧
  best_payload job' = best_payload job ∧
  (∀ i, is_Some (sys_builds s !! i) →
     sys_builds (foldl spawn (set_job (Some job') s) effects) !! i = sys_builds s !! i).
Proof.
  intros Hok. rewrite poll_interval_spec.
  destruct (pending_block job) as [i|] eqn:Hpending; [by split_and!|].
  destruct n as [|n]; [by split_and!|]. simpl.
  destruct (ok_job _ Hok job eq_refl) as [Hconf Hpend Hsing Hupd Hfresh Hheld Hgone Hres].
  assert (Hnone : sys_builds s !! next_channel job = None).
  { apply eq_None_not_Some. intros Hsome. assert (next_channel job < next_channel job); [|lia].
    apply Hfresh. by left. }
  split_and!; [|done|].
  - destruct Hok as [_ Hfin Hdisp]. split; [|done..]. intros ? [= <-]. split; simpl; try done.
    + intros i [= <-]. exists (Building (default empty_cached_reads (cached_reads job)) (best_payload job)).
      by rewrite lookup_insert_eq.
    + intros i reads best. rewrite lookup_insert_Some. intros [[-> _]|[_ Hi]]; [done|].
      apply Hsing in Hi. congruence.
    + intros update Hu. destruct (Hupd update Hu) as [Hlt Hu']. split; [lia|done].
    + intros i [Hi|Hi]; simpl in *.
      * rewrite lookup_insert_is_Some in Hi. destruct Hi as [->|[_ Hi]]; [lia|].
        assert (i < next_channel job); [|lia]. apply Hfresh. by left.
      * assert (i < next_channel job); [|lia]. apply Hfresh. by right.
    + intros i [= <-] Hin%Hgone. simpl in Hin. lia.
    + intros i Hin%Hgone. simpl in Hin. lia.
  - intros i [b Hi]. rewrite lookup_insert_ne; [done|congruence].
Qed.

Lemma start_bid_update_ok s job payload :
  system_ok (set_job (Some job) s) → of_job payload →
  let '(job', effects) := start_bid_update payload job in
  system_ok (foldl spawn (set_job (Some job') s) effects) ∧
  best_payload job' = best_payload job ∧ pending_block job' = pending_block job ∧
  next_channel job ≤ next_channel job'.
Proof.
  intros Hok Hid. unfold start_bid_update.
  destruct (proposal _) as [the_proposal|]; [|done]. simpl. split; [|split_and!; [done..|lia]].
  destruct (ok_job _ Hok job eq_refl) as [Hconf Hpend Hsing Hupd Hfresh Hheld Hgone Hres].
  assert (Hunused : ¬ channel_used s (next_channel job)).
  { intros Hused. apply Hfresh in Hused. lia. }
  destruct Hok as [_ Hfin Hdisp]. split; [|done..]. intros ? [= <-]. split; simpl; try done.
  - intros update [= <-]. simpl. split; [lia|]. exists payload. simpl. split_and!; try done.
    + intros fees. rewrite <-app_assoc, !elem_of_app, list_elem_of_singleton.
      intros [Hin|[[= ->]|Hin]]; [|done|]; destruct Hunused; right; right; simpl;
        apply (list_elem_of_fmap_2 fst) in Hin; rewrite fmap_app, elem_of_app; auto.
    + intros value Hbid. destruct Hunused. right; left. eauto.
  - intros i Hused. destruct (decide (i = next_channel job)) as [->|Hne]; [lia|].
    assert (i < next_channel job); [|lia]. apply Hfresh.
    destruct Hused as [?|[?|Hin]]; [by left|by right; left|]. right; right. simpl in *.
    rewrite !fmap_app, !elem_of_app in *. simpl in Hin.
    rewrite list_elem_of_singleton in Hin. naive_solver.
  - intros i Hin%Hgone. simpl in Hin. lia.
Qed.

Lemma spawn_set_job (job : option PayloadJob) effects s :
  foldl spawn (set_job job s) effects = set_job job (foldl spawn s effects).
Proof. revert s. induction effects as [|effect effects IH]; intros s; simpl; [done|]. by rewrite <-IH. Qed.

Lemma spawn_bids s effects :
  sys_bids (foldl spawn s effects) = sys_bids s ∧
  sys_bidding (foldl spawn s effects) = sys_bidding s ∧
  sys_job (foldl spawn s effects) = sys_job s.
Proof. revert s. induction effects as [|effect effects IH]; intros s; [done|]. exact (IH (spawn s effect)). Qed.

Lemma poll_pending_block_ok {EF : ExecutionFunctions} channel_closed polled s job :
  system_ok (set_job (Some job) s) →
  (∀ i, pending_block job = Some i → poll_build polled i = polled_build channel_closed s i) →
  ∃ job' effects, poll_pending_block polled job = Some (job', effects) ∧
    system_ok (foldl spawn (set_job (Some job') s) effects) ∧
    (best_payload job' = best_payload job ∨
     ∃ payload, best_payload job' = Some payload ∧ improves (best_payload job) payload).
Proof.
  intros Hok Hpoll. destruct (ok_job _ Hok job eq_refl) as [Hconf Hpend Hsing Hupd Hfresh Hheld Hgone Hres].
  unfold poll_pending_block. destruct (pending_block job) as [fut|] eqn:Hfut.
  2: { do 2 eexists. split_and!; [done|exact Hok|by left]. }
  destruct (Hpend fut eq_refl) as (build & Hbuild & Hreported).
  rewrite (Hpoll fut eq_refl). unfold polled_build. simpl in Hbuild. rewrite Hbuild.
  assert (Hidle : (∀ reads best, build ≠ Building reads best) → ∀ reads best,
    system_ok (set_job (Some (set_best_payload best
      (set_cached_reads reads (set_pending_block None job)))) s)).
  { intros Hdone reads best. destruct Hok as [_ Hfin Hdisp]. split; [|done..]. intros ? [= <-].
    split; try done. simpl. intros i reads' best' Hi. pose proof (Hsing _ _ _ Hi) as [= ->].
    simpl in Hi. rewrite Hbuild in Hi. injection Hi as ->. by destruct (Hdone reads' best'). }
  destruct build as [reads best|[[payload reads|fees reads|]|e]|]; simpl in Hreported; try done.
  - do 2 eexists. split_and!; [done| |by left]. simpl.
    destruct Hok as [_ Hfin Hdisp]. split; [|done..]. intros ? [= <-]. by split.
  - pose proof (start_bid_update_ok s _ payload
      (Hidle ltac:(done) (Some reads) (Some payload)) (proj1 Hreported)) as Hstart.
    destruct (start_bid_update payload _) as [job' effects].
    destruct Hstart as (Hok' & Hbest & Hpending & Hnext). do 2 eexists. split_and!; [done| |].
    + simpl. rewrite foldl_app. simpl.
      apply (drop_handle_ok _ job'); [exact Hok'|exact (proj2 (proj2 (spawn_bids _ effects)))| |].
      * by rewrite Hpending.
      * eapply N.lt_le_trans; [|exact Hnext]. apply Hfresh. left. simpl. rewrite Hbuild. eauto.
    + right. rewrite Hbest. eauto.
  - do 2 eexists. split_and!; [done| |by left].
    apply (drop_handle_ok _ (set_cached_reads (Some reads) (set_pending_block None job)));
      [by apply (Hidle ltac:(done) (Some reads) (best_payload job))|done..|].
    apply Hfresh. left. simpl. rewrite Hbuild. eauto.
  - do 2 eexists. split_and!; [done| |by left].
    apply (drop_handle_ok _ (set_pending_block None job));
      [by apply (Hidle ltac:(done) (cached_reads job) (best_payload job))|done..|].
    apply Hfresh. left. simpl. rewrite Hbuild. eauto.
  - do 2 eexists. split_and!; [done| |by left].
    apply (drop_handle_ok _ (set_pending_block None job));
      [by apply (Hidle ltac:(done) (cached_reads job) (best_payload job))|done..|].
    apply Hfresh. left. simpl. rewrite Hbuild. eauto.
Qed.


Lemma poll_bids_over {EF : ExecutionFunctions} polled job job' effects over :
  poll_bids builder polled job = Some (job', effects, over) →
  (over ≠ Pending ↔ ∃ update err, pending_bid_update job = Some update ∧
     poll_value polled (value_rx update) = Ready (Err err)) ∧
  (over ≠ Pending → over = Ready (Ok tt) ∧ effects = []) ∧
  pending_block job' = pending_block job ∧ next_channel job' = next_channel job.
Proof.
  unfold poll_bids. destruct (pending_bid_update job) as [fut|] eqn:Hfut.
  2: { intros [= <- <- <-]. naive_solver. }
  assert (Hnot : (∀ err, poll_value polled (value_rx fut) ≠ Ready (Err err)) →
    (Pending : Poll (result PayloadBuilderError unit)) ≠ Pending ↔
    ∃ update err, Some fut = Some update ∧ poll_value polled (value_rx update) = Ready (Err err)).
  { intros Hno. split; [done|]. intros (update & err & [= <-] & Herr). by apply Hno in Herr. }
  unfold BidUpdate_poll.
  destruct (poll_value polled (value_rx fut)) as [|[[value|]|err]] eqn:Hv; simpl;
    [|destruct (bid_payload fut); [simpl|done]| |]; intros [= <- <- <-];
    (split_and!; [|done..]); try (by apply Hnot).
  split; [eauto|done].
Qed.

(** The best payload stays, or a better one takes its place. *)
Definition best_step (best best' : option EthBuiltPayload) : Prop :=
  best' = best ∨ ∃ payload, best' = Some payload ∧ improves best payload.

Lemma poll_ok {EF : ExecutionFunctions} channel_closed polled s job :
  system_ok s → sys_job s = Some job →
  poll_value polled = polled_value s → poll_build polled = polled_build channel_closed s →
  ∃ job' effects over, poll builder polled job = Some (job', effects, over) ∧
    system_ok (foldl spawn (after_poll job' over s) effects) ∧
    best_step (best_payload job) (best_payload job').
Proof.
  intros Hok Hjob Hvalue Hbuild. unfold poll. destruct (deadline_reached polled).
  { do 3 eexists. split_and!; [done| |by left]. by apply drop_over_ok. }
  destruct (poll_bids_ok polled s job Hok Hjob Hvalue)
    as (job1 & effects1 & over & Hbids & Hok1 & Hbuilds1 & Hbest1 & Hpending1). rewrite Hbids. simpl.
  destruct over as [|r].
  2: { do 3 eexists. split_and!; [done| |by left].
       apply poll_bids_over in Hbids as (_ & Hdone & _). destruct (Hdone ltac:(done)) as [_ ->].
       by apply drop_over_ok. }
  rewrite spawn_set_job in Hok1, Hbuilds1. simpl in Hbuilds1.
  pose proof (poll_interval_ok (ticks polled) _ job1 Hok1) as Hinterval.
  pose proof (poll_interval_spec (ticks polled) job1) as Hspec.
  destruct (poll_interval (ticks polled) job1) as [job2 effects2].
  destruct Hinterval as (Hok2 & Hbest2 & Hbuilds2). rewrite spawn_set_job in Hok2.
  destruct (poll_pending_block_ok channel_closed polled _ job2 Hok2)
    as (job3 & effects3 & -> & Hok3 & Hbest3).
  - intros i Hi. rewrite Hbuild. unfold polled_build. rewrite spawn_set_job in Hbuilds2.
    simpl in Hbuilds2. destruct (sys_builds s !! i) as [build|] eqn:Hold.
    + rewrite Hbuilds2; rewrite Hbuilds1, Hold; eauto.
    + destruct (pending_block job1) as [j|] eqn:Hj.
      * destruct (ok_job s Hok job Hjob) as [_ Hpend _ _ _ _ _ _]. symmetry in Hpending1.
        destruct (Hpend j Hpending1) as (build & Hbuild' & _). injection Hspec as -> _. congruence.
      * destruct (ticks polled); injection Hspec as -> ->; [congruence|].
        simpl in Hi. injection Hi as <-. simpl. by rewrite lookup_insert_eq.
  - simpl. do 3 eexists. split_and!; [done| |].
    + unfold after_poll. by rewrite !foldl_app, !spawn_set_job, <-spawn_set_job in *.
    + unfold best_step. rewrite <-Hbest1, <-Hbest2. exact Hbest3.
Qed.
(** ** Each task keeps the invariant *)

Lemma build_done_ok {EF : ExecutionFunctions} s i reads best cancel fuel outcomes' built build :
  view EF → system_ok s →
  sys_builds s !! i = Some (Building reads best) →
  (i ∉ sys_cancelled s → cancel = λ _, false) →
  try_build fuel builder (build_arguments the_config reads best cancel) (sys_outcomes s)
    = (outcomes', built) →
  build_reported built = Some build →
  system_ok (build_done i build outcomes' s).
Proof using view_laws.
  intros Hview [Hjobs Hfin Hdisp] Hi Hcancel Htry Hreported. apply view_laws in Hview.
  split; [|done..]. simpl. intros job Hjob. specialize (Hjobs job Hjob).
  destruct Hjobs as [Hconf Hpend Hsing Hupd Hfresh Hheld Hgone Hres].
  assert (Hdone : ∀ reads' best', build ≠ Building reads' best').
  { destruct built; simpl in Hreported; congruence. }
  split; simpl; try done.
  - intros j Hj. rewrite (Hsing i reads best Hi) in Hj. injection Hj as <-.
    exists build. split; [apply lookup_insert_eq|].
    destruct (Hpend i (Hsing i reads best Hi)) as (? & Hi' & Hcompared).
    rewrite Hi in Hi'. injection Hi' as <-. simpl in Hcompared. subst best.
    destruct built as [[reported|e]| |]; try done; injection Hreported as <-; simpl; try done.
    apply try_build_Ok in Htry. simpl in Htry.
    destruct reported as [payload reads'|fees reads'|]; [|done|].
    + by destruct Htry as (Hid & _ & Hparent & Hmore).
    + apply Htry, Hcancel, Hheld. by eapply Hsing.
  - intros j reads' best' Hj. apply lookup_insert_Some in Hj as [[_ Hj]|[_ Hj]]; [|eauto].
    by apply Hdone in Hj.
  - intros j Hused. apply Hfresh. destruct Hused as [Hj|?]; [|by right]. left. simpl in Hj.
    apply lookup_insert_is_Some in Hj as [<-|[_ Hj]]; eauto.
Qed.

Lemma task_sends_ok s i fees sends1 sends2 :
  system_ok s → sys_sends s = sends1 ++ (i, fees) :: sends2 →
  system_ok (task_sends i fees (sends1 ++ sends2) s).
Proof.
  intros [Hjobs Hfin Hdisp] Hsends. split; [|done..]. simpl. intros job Hjob.
  destruct (Hjobs job Hjob) as [Hconf Hpend Hsing Hupd Hfresh Hheld Hgone Hres].
  split; simpl; try done.
  - intros update Hu. destruct (Hupd update Hu) as (Hlt & payload & Hpay & Hid & Hfees & Hans).
    split; [done|]. exists payload. split_and!; try done; simpl.
    + intros fees' Hin. apply Hfees. rewrite Hsends. destruct (sys_bidding s); set_solver.
    + intros value Hbid. apply Hans. destruct (sys_bidding s); [done|].
      apply lookup_insert_Some in Hbid as [[_ ?]|[_ ?]]; done.
  - intros j Hused. apply Hfresh. destruct Hused as [?|[Hj|Hj]]; simpl in *.
    + by left.
    + destruct (sys_bidding s); [by right; left|].
      apply lookup_insert_is_Some in Hj as [<-|[_ Hj]]; [|by right; left].
      right; right. rewrite Hsends, !fmap_app. set_solver.
    + right; right. rewrite Hsends. rewrite !fmap_app in *. destruct (sys_bidding s); set_solver.
Qed.

Lemma lookup_close_bids dropped bids i bid :
  close_bids dropped bids !! i = Some bid →
  bids !! i = Some bid ∨ bid = BidClosed ∧ i ∈ dropped.*1.
Proof.
  induction dropped as [|[j fees] dropped IH]; simpl; [by left|].
  intros [[<- <-]|[_ H]]%lookup_insert_Some; [right; set_solver|].
  destruct (IH H) as [|[-> ?]]; [by left|right; set_solver].
Qed.

Lemma bidder_answers_ok s i fees queue :
  system_ok s → sys_queue s = (i, fees) :: queue →
  system_ok (bidder_answers strategy i fees queue s).
Proof.
  intros [Hjobs Hfin Hdisp] Hqueue. split; [|done..]. simpl. intros job Hjob.
  destruct (Hjobs job Hjob) as [Hconf Hpend Hsing Hupd Hfresh Hheld Hgone Hres].
  split; simpl; try done.
  - intros update Hu. destruct (Hupd update Hu) as (Hlt & payload & Hpay & Hid & Hfees & Hans).
    split; [done|]. exists payload. split_and!; try done; simpl.
    + intros fees' Hin. apply Hfees. rewrite Hqueue.
      destruct (if decide _ then _ else _); set_solver.
    + intros value. destruct (if decide _ then _ else _) as [answer|] eqn:Hrun.
      * intros [[-> [= ->]]|[_ Hbid]]%lookup_insert_Some; [|by apply Hans].
        split; [done|]. case_decide; [|done].
        rewrite <-(Hfees fees); [done|]. rewrite Hqueue. set_solver.
      * intros [Hbid|[? _]]%(lookup_close_bids ((i, fees) :: queue)); [by apply Hans|done].
  - intros j Hused. apply Hfresh. destruct Hused as [?|[[bid Hj]|Hj]]; simpl in *; [by left| |].
    + destruct (if decide _ then _ else _) as [answer|].
      * apply lookup_insert_Some in Hj as [[<- _]|[_ Hj]]; [|right; left; eauto].
        right; right. rewrite Hqueue, fmap_app. set_solver.
      * apply (lookup_close_bids ((i, fees) :: queue)) in Hj as [Hj|[_ Hj]]; [right; left; eauto|].
        right; right. rewrite Hqueue, fmap_app. set_solver.
    + right; right. rewrite Hqueue. rewrite !fmap_app in *.
      destruct (if decide _ then _ else _); set_solver.
Qed.

Lemma finalize_dispatched {EF : ExecutionFunctions} {EL : ExecutionLaws} fin outcomes outcomes'
    finalized payload :
  view EF → finalizer_ok fin →
  finalize_payload_and_dispatch builder (finalizer_payload fin) (finalizer_value fin)
    (finalizer_config fin) outcomes = (outcomes', finalized) →
  dispatched_by finalized = Some payload → dispatched_ok payload.
Proof.
  intros Hview [[[Hid Hparent] Hrun] (p & Hp & Hrecipient)].
  unfold finalize_payload_and_dispatch, finalize_payload. simpl.
  intros [= _ <-] Hdispatched. unfold dispatched_by in Hdispatched.
  destruct (outcome_bind _ _) as [[dispatched|e]| |] eqn:Hfin; try done.
  injection Hdispatched as ->. inv_outcome Hfin.
  destruct (ok_or _ _); [|done]. inv_outcome Hstep. injection Hstep as <-. injection Hfin as <-.
  apply append_payment_Ok in Hstep0 as (tx & used & Hpaid). split.
  - split; [done|]. simpl. by rewrite (paid_parent _ _ _ _ _ _ _ _ Hpaid).
  - by exists EF, (built_fees (finalizer_payload fin)), (finalizer_config fin), p,
      (built_block (finalizer_payload fin)), tx, used.
Qed.

Lemma step_ok s s' :
  system_ok s → step s s' →
  system_ok s' ∧ ∀ job', sys_job s' = Some job' →
    ∃ job, sys_job s = Some job ∧ best_step (best_payload job) (best_payload job').
Proof using view_laws.
  intros Hok Hstep. inversion Hstep as [EF ? job polled job' effects over closed Hview Hjob Hv Hb Hpoll
    |? job job' effects resolved alive Hjob Hresolve|? resolved rest1 rest2 Hresolved
    |EF ? i reads best cancel fuel outcomes' built build Hview Hi Hcancel Htry Hrep
    |? i fees sends1 sends2 Hsends|? i fees queue Hbidding Hqueue
    |EF ? fin fins1 fins2 outcomes' finalized Hview Hfins Hrun]; subst.
  - destruct (poll_ok closed polled s job Hok Hjob Hv Hb)
      as (? & ? & ? & Hpoll' & Hok' & Hbest). rewrite Hpoll in Hpoll'. injection Hpoll' as <- <- <-.
    split; [done|]. unfold after_poll. destruct over; rewrite spawn_set_job; simpl; intros ? [= <-]. eauto.
  - rewrite spawn_set_job. split; [|done].
    assert (Hover : sys_finalizers (foldl spawn (set_resolved (resolved :: sys_resolved s) s) effects)
        = sys_finalizers s ∧ pending_block job' = None ∧
      sys_dispatched (foldl spawn (set_resolved (resolved :: sys_resolved s) s) effects)
        = sys_dispatched s).
    { unfold resolve in Hresolve. by destruct (best_payload job); injection Hresolve as <- <- _ _. }
    destruct Hover as (Hfins & -> & Hdisps). destruct Hok as [_ Hfin Hdisp].
    split; simpl; [done|by rewrite Hfins|by rewrite Hdisps].
  - destruct (sys_job s) as [job|] eqn:Hjob.
    { destruct (ok_job s Hok job Hjob) as [_ _ _ _ _ _ _ Hnone]. rewrite Hnone in Hresolved.
      by destruct rest1. }
    destruct Hok as [_ Hfin Hdisp].
    destruct (maybe_better resolved); (split; [split; [|done..]|]; simpl; by rewrite Hjob).
  - split; [by eapply build_done_ok|]. simpl. intros job ->. exists job. split; [done|by left].
  - split; [by apply task_sends_ok|]. simpl. intros job ->. exists job. split; [done|by left].
  - split; [by apply bidder_answers_ok|]. simpl. intros job ->. exists job. split; [done|by left].
  - split; [|simpl; intros job ->; exists job; split; [done|by left]].
    destruct Hok as [Hjobs Hfin Hdisp]. rewrite Hfins in Hfin.
    apply Forall_app in Hfin as [Hfin1 [Hfin Hfin2]%Forall_cons].
    split; simpl; [|by apply Forall_app|apply Forall_app; split; [done|]].
    + intros job Hjob. by destruct (Hjobs job Hjob).
    + destruct (dispatched_by finalized) as [payload|] eqn:Hd; simpl; [|done].
      pose proof (view_laws EF Hview). constructor; [|done]. by eapply finalize_dispatched.
Qed.

Lemma started_ok reads outcomes : system_ok (system_started the_config reads outcomes).
Proof.
  split; [|done..]. intros job [= <-]. split; simpl; try done.
  intros i [[? Hi]|[[? Hi]|Hi]]; simpl in Hi; set_solver.
Qed.

Lemma reachable_ok s : reachable view builder the_config strategy s → system_ok s.
Proof using view_laws.
  intros (reads & outcomes & Hsteps).
  refine (steps_invariant _ system_ok _ _ _ (started_ok reads outcomes) Hsteps).
  intros s1 s2 Hok Hstep. by apply step_ok in Hstep as [? _].
Qed.
(** ** What a poll does *)

Definition answers_of (polled : Polled) job (effects : list JobEffect) : Prop :=
  ∀ payload value config, SpawnFinalize payload value config ∈ effects →
    ∃ update, pending_bid_update job = Some update ∧
      poll_value polled (value_rx update) = Ready (Ok (Some value)).

Definition no_finalizer (effects : list JobEffect) : Prop :=
  ∀ payload value config, SpawnFinalize payload value config ∉ effects.

Definition new_update job job' : Prop :=
  ∀ update, pending_bid_update job' = Some update →
    pending_bid_update job = Some update ∨ next_channel job ≤ value_rx update.

Lemma start_bid_update_effects payload job :
  let '(job', effects) := start_bid_update payload job in
  no_finalizer effects ∧ new_update job job'.
Proof.
  unfold start_bid_update, no_finalizer, new_update.
  destruct (proposal _); simpl; (split; [set_solver|]).
  - intros update [= <-]. by right.
  - by left.
Qed.

Lemma poll_bids_effects {EF : ExecutionFunctions} polled job job' effects over :
  poll_bids builder polled job = Some (job', effects, over) →
  answers_of polled job effects ∧ next_channel job' = next_channel job ∧
  ∀ update, pending_bid_update job' = Some update → pending_bid_update job = Some update.
Proof.
  unfold poll_bids, answers_of. destruct (pending_bid_update job) as [fut|] eqn:Hfut.
  2: { intros [= <- <- _]. rewrite Hfut. set_solver. }
  unfold BidUpdate_poll.
  destruct (poll_value polled (value_rx fut)) as [|[[value|]|e]] eqn:Hv; simpl;
    [intros [= <- <- _]; set_solver| |intros [= <- <- _]; set_solver..].
  destruct (bid_payload fut); [|done]. simpl. intros [= <- <- _].
  split_and!; [|done..]. destruct (proposal _); [|set_solver].
  destruct (cfg_and_block_env _ _). intros ? ? ?. rewrite list_elem_of_singleton.
  intros [= _ -> _]. eauto.
Qed.

Lemma poll_pending_block_effects {EF : ExecutionFunctions} polled job job' effects :
  poll_pending_block polled job = Some (job', effects) →
  no_finalizer effects ∧ new_update job job'.
Proof.
  unfold poll_pending_block, no_finalizer, new_update.
  destruct (pending_block job) as [fut|]; [|intros [= <- <-]; set_solver].
  destruct (poll_build polled fut) as [|[[payload reads|fees reads|]|e]]; simpl; try done;
    try (intros [= <- <-]; set_solver).
  match goal with |- context [start_bid_update payload ?j] =>
    pose proof (start_bid_update_effects payload j) as Hstart;
    destruct (start_bid_update payload j) as [job2 effects2] end.
  destruct Hstart as [Hno Hnew]. intros [= <- <-]. split; [|exact Hnew].
  intros p v c. unfold no_finalizer in Hno. set_solver.
Qed.

Lemma poll_interval_effects {EF : ExecutionFunctions} n job :
  let '(job', effects) := poll_interval n job in
  no_finalizer effects ∧ next_channel job ≤ next_channel job' ∧
  pending_bid_update job' = pending_bid_update job.
Proof.
  rewrite poll_interval_spec. unfold no_finalizer.
  destruct (pending_block job), n; simpl; split_and!; try done; try lia; set_solver.
Qed.

(** Only an answered update is finalized, and an update that appears has a new channel. *)
Lemma poll_effects {EF : ExecutionFunctions} polled job job' effects over :
  poll builder polled job = Some (job', effects, over) →
  answers_of polled job effects ∧ new_update job job'.
Proof.
  unfold poll, new_update.
  destruct (deadline_reached polled); [intros [= <- <- _]; split; [intros ???; set_solver|auto]|].
  destruct (poll_bids builder polled job) as [[[job1 effects1] over1]|] eqn:Hbids; [|done]. simpl.
  apply poll_bids_effects in Hbids as (Hfin1 & Hnext1 & Hupd1).
  destruct over1; [|intros [= <- <- _]; auto].
  pose proof (poll_interval_effects (ticks polled) job1) as Hinterval.
  destruct (poll_interval (ticks polled) job1) as [job2 effects2].
  destruct Hinterval as (Hno2 & Hnext2 & Hupd2).
  destruct (poll_pending_block polled job2) as [[job3 effects3]|] eqn:Hblock; [|done]. simpl.
  apply poll_pending_block_effects in Hblock as [Hno3 Hnew3]. intros [= <- <- _]. split.
  - intros p v c Hin. apply (Hfin1 p v c). rewrite !elem_of_app in Hin.
    destruct Hin as [|[Hin|Hin]]; [done|by apply Hno2 in Hin|by apply Hno3 in Hin].
  - intros update Hu. destruct (Hnew3 update Hu) as [Hu'|?]; [|right; lia].
    left. apply Hupd1. congruence.
Qed.
Lemma poll_pending_block_waits {EF : ExecutionFunctions} polled job job' effects i :
  poll_pending_block polled job = Some (job', effects) → pending_block job = Some i →
  is_Some (pending_block job') ∨ ∃ reported, poll_build polled i = Ready reported.
Proof.
  unfold poll_pending_block. intros Hblock Hi. rewrite Hi in Hblock.
  destruct (poll_build polled i) as [|reported]; [|eauto]. injection Hblock as <- _. eauto.
Qed.

(** C14: A job has at most one build under way, and it is compared with the best
    payload of the moment; every payload that is finalized is finalized with the value
    the bidder answered to its fees, for the fee recipient of the auction's proposer;
    and every payload that reaches the auctioneer carries the job's identifier, extends
    the job's parent, and ends in a payment of such a value to that recipient. *)
Theorem job_bids_spec s :
  reachable view builder the_config strategy s →
  (∀ job i j reads best reads' best', sys_job s = Some job →
     sys_builds s !! i = Some (Building reads best) →
     sys_builds s !! j = Some (Building reads' best') →
     i = j ∧ best = best_payload job) ∧
  Forall finalizer_ok (sys_finalizers s) ∧
  Forall dispatched_ok (sys_dispatched s).
Proof using view_laws.
  intros [Hjobs Hfin Hdisp]%reachable_ok. split_and!; [|done..].
  intros job i j reads best reads' best' Hjob Hi Hj.
  destruct (Hjobs job Hjob) as [_ Hpend Hsing _ _ _ _ _].
  pose proof (Hsing _ _ _ Hi) as Hpi. pose proof (Hsing _ _ _ Hj) as Hpj. split; [congruence|].
  destruct (Hpend i Hpi) as (build & Hi' & Hok). rewrite Hi in Hi'. by injection Hi' as <-.
Qed.

(** C21: Polling a job never panics.  The payload of a bid update, which is taken out when
    the bidder's answer arrives, is there whenever the job polls the update; and a build
    the job waits for never reports that it was cancelled, because the job holds the
    handle that would cancel it. *)
Theorem poll_never_panics {EF : ExecutionFunctions} channel_closed polled s job :
  reachable view builder the_config strategy s →
  sys_job s = Some job →
  poll_value polled = polled_value s → poll_build polled = polled_build channel_closed s →
  is_Some (poll builder polled job).
Proof using view_laws.
  intros Hok%reachable_ok Hjob Hv Hb.
  destruct (poll_ok channel_closed polled s job Hok Hjob Hv Hb) as (? & ? & ? & -> & _). eauto.
Qed.

(** What a run does to the best payload. *)
Definition best_grows s s' : Prop :=
  ∀ job', sys_job s' = Some job' → ∃ job, sys_job s = Some job ∧
    ∀ payload, best_payload job = Some payload →
      ∃ payload', best_payload job' = Some payload' ∧
        (payload' = payload ∨ built_fees payload < built_fees payload').

Lemma best_grows_trans s1 s2 s3 : best_grows s1 s2 → best_grows s2 s3 → best_grows s1 s3.
Proof.
  intros H12 H23 job3 Hjob3. destruct (H23 job3 Hjob3) as (job2 & Hjob2 & Hb23).
  destruct (H12 job2 Hjob2) as (job1 & Hjob1 & Hb12). exists job1. split; [done|].
  intros p1 Hp1. destruct (Hb12 p1 Hp1) as (p2 & Hp2 & Hle12).
  destruct (Hb23 p2 Hp2) as (p3 & Hp3 & Hle23). exists p3. split; [done|].
  destruct Hle12 as [->|], Hle23 as [->|]; auto. right. lia.
Qed.

(** C25: The best payload of a job is only ever replaced by one with greater
    fees. *)
Theorem best_payload_increases s s' :
  reachable view builder the_config strategy s → steps step s s' → best_grows s s'.
Proof using view_laws.
  intros Hok%reachable_ok Hsteps.
  enough (system_ok s' ∧ best_grows s s') by naive_solver.
  revert Hok. induction Hsteps as [s|s1 s2 s3 _ IH Hstep]; intros Hok.
  - split; [done|]. intros job Hjob. exists job. split; [done|]. eauto.
  - destruct (IH Hok) as [Hok2 Hgrows]. destruct (step_ok s2 s3 Hok2 Hstep) as [Hok3 Hbest].
    split; [done|]. apply (best_grows_trans s1 s2 s3); [done|]. intros job' Hjob'.
    destruct (Hbest job' Hjob') as (job & Hjob & [->|(p & -> & _ & Hmore)]);
      exists job; (split; [done|]); eauto.
Qed.

(** The bidder is gone and no answer is on its way. *)
Definition silent s : Prop :=
  sys_bidding s = false ∧
  ∀ job update value, sys_job s = Some job → pending_bid_update job = Some update →
    sys_bids s !! value_rx update ≠ Some (BidAnswered value).

Lemma spawn_finalizers s effects :
  no_finalizer effects → sys_finalizers (foldl spawn s effects) = sys_finalizers s.
Proof.
  revert s. induction effects as [|effect effects IH]; intros s Hno; [done|]. simpl.
  rewrite IH; [|intros p v c ?; apply (Hno p v c); set_solver].
  destruct effect as [p v c| | | | |]; try done. destruct (Hno p v c). set_solver.
Qed.

Lemma drop_handle_frame pending s :
  sys_job (drop_handle pending s) = sys_job s ∧ sys_bids (drop_handle pending s) = sys_bids s ∧
  sys_bidding (drop_handle pending s) = sys_bidding s ∧
  sys_finalizers (drop_handle pending s) = sys_finalizers s.
Proof. by destruct pending. Qed.

Lemma after_poll_frame job over s :
  sys_bids (after_poll job over s) = sys_bids s ∧
  sys_bidding (after_poll job over s) = sys_bidding s ∧
  sys_finalizers (after_poll job over s) = sys_finalizers s ∧
  sys_job (after_poll job over s) = match over with Pending => Some job | Ready _ => None end.
Proof. destruct over; [done|]. simpl. by destruct (drop_handle_frame (pending_block job) s) as (_ & ? & ? & ?). Qed.

Lemma silent_step s s' :
  system_ok s → silent s → step s s' → silent s' ∧ sys_finalizers s' ⊆ sys_finalizers s.
Proof.
  intros Hok [Hbidding Hbids] Hstep.
  inversion Hstep as [EF ? job polled job' effects over closed Hview Hjob Hv Hb Hpoll
    |? job job' effects resolved alive Hjob Hresolve|? resolved rest1 rest2 Hresolved
    |EF ? i reads best cancel fuel outcomes' built build Hview Hi Hcancel Htry Hrep
    |? i fees sends1 sends2 Hsends|? i fees queue Hbidding' Hqueue
    |EF ? fin fins1 fins2 outcomes' finalized Hview Hfins Hrun]; subst.
  - apply poll_effects in Hpoll as [Hanswers Hnew]. split.
    + destruct (after_poll_frame job' over s) as (Hsame & Hsame' & _ & Hover).
      unfold silent. destruct (spawn_bids (after_poll job' over s) effects) as (-> & -> & ->).
      rewrite Hsame, Hsame', Hover. split; [done|].
      intros job2 update value Hjob2 Hu. destruct over; [injection Hjob2 as <-|done].
      destruct (Hnew update Hu) as [Hold|Hlt]; [by apply (Hbids job)|].
      intros Hbid. destruct (ok_job s Hok job Hjob) as [_ _ _ _ Hfresh _ _ _].
      assert (value_rx update < next_channel job); [|lia]. apply Hfresh. right; left. eauto.
    + rewrite spawn_finalizers; [by rewrite (proj1 (proj2 (proj2 (after_poll_frame job' over s))))|].
      intros p v c Hin. destruct (Hanswers p v c Hin) as (update & Hu & Hvalue). rewrite Hv in Hvalue.
      unfold polled_value in Hvalue. destruct (sys_bids s !! value_rx update) as [[]|] eqn:Hbid; try done.
      by apply (Hbids job update value).
  - split.
    + unfold silent. destruct (spawn_bids (set_job None (drop_handle (pending_block job')
        (set_resolved (resolved :: sys_resolved s) s))) effects) as (-> & -> & ->). simpl.
      by destruct (drop_handle_frame (pending_block job') (set_resolved (resolved :: sys_resolved s) s))
        as (_ & -> & -> & _).
    + rewrite spawn_finalizers.
      * simpl. by destruct (drop_handle_frame (pending_block job')
          (set_resolved (resolved :: sys_resolved s) s)) as (_ & _ & _ & ->).
      * unfold resolve in Hresolve. destruct (best_payload job); injection Hresolve as <- <- _ _;
          intros ? ? ?; set_solver.
  - unfold silent. by destruct (drop_handle_frame (maybe_better resolved)
      (set_resolved (rest1 ++ rest2) s)) as (-> & -> & -> & ->).
  - by split; [split|].
  - split; [|done]. split; [done|]. simpl. rewrite Hbidding. intros job update value Hjob Hu.
    intros [[_ ?]|[_ Hbid]]%lookup_insert_Some; [done|]. by apply (Hbids job update value).
  - congruence.
  - split; [by split|]. simpl. rewrite Hfins. set_solver.
Qed.

(** C39: When a better payload replaces one whose bid the bidder has not answered
    yet, the answer comes too late: nobody waits for it any more, so the bidder stops
    and, unless it has answered already, the newer payload is not bid for either.
    Whatever runs afterwards, the job finalizes no payload any more. *)
Theorem overtaken_bid_ends_auction s job update i fees queue s' :
  reachable view builder the_config strategy s →
  sys_job s = Some job → pending_bid_update job = Some update →
  sys_bidding s = true → sys_queue s = (i, fees) :: queue →
  value_rx update ≠ i → sys_bids s !! value_rx update = None →
  steps step (bidder_answers strategy i fees queue s) s' →
  sys_bidding s' = false ∧ sys_finalizers s' ⊆ sys_finalizers s.
Proof using view_laws.
  intros Hok%reachable_ok Hjob Hu Hbidding Hqueue Hne Hnone Hsteps.
  assert (Hsilent : silent (bidder_answers strategy i fees queue s)).
  { assert (Hgone : ¬ bid_awaited s i).
    { intros (job' & update' & Hjob' & Hu' & Hrx). congruence. }
    unfold silent, bidder_answers. simpl. rewrite decide_False by done. split; [done|].
    intros ? ? value. rewrite Hjob. intros [= <-]. rewrite Hu. intros [= <-] Hbid.
    apply (lookup_close_bids ((i, fees) :: queue)) in Hbid as [|[? _]]; congruence. }
  enough (system_ok s' ∧ silent s' ∧ sys_finalizers s' ⊆ sys_finalizers s) as (_ & [? _] & ?) by done.
  refine (steps_invariant step (λ s', system_ok s' ∧ silent s' ∧ sys_finalizers s' ⊆ sys_finalizers s)
    _ _ _ _ Hsteps).
  - intros s1 s2 (Hok1 & Hsilent1 & Hsub) Hstep.
    destruct (silent_step s1 s2 Hok1 Hsilent1 Hstep). destruct (step_ok s1 s2 Hok1 Hstep) as [? _].
    split_and!; [done..|]. by etrans.
  - split_and!; [by apply bidder_answers_ok|done|done].
Qed.

(** C40: All payloads of a job have the same identifier, and the execution outcome
    of a build is kept under it.  So when two payloads of a job are to be finalized and
    no build ends in between, the first takes the outcome, whichever payload it belongs
    to, and the second fails. *)
Theorem second_finalization_fails {EF EF' : ExecutionFunctions} s first second outcomes first' outcomes' second' :
  reachable view builder the_config strategy s →
  first ∈ sys_finalizers s → second ∈ sys_finalizers s →
  @finalize_payload_and_dispatch _ _ _ EF builder (finalizer_payload first)
    (finalizer_value first) (finalizer_config first) (sys_outcomes s) = (outcomes, first') →
  @finalize_payload_and_dispatch _ _ _ EF' builder (finalizer_payload second)
    (finalizer_value second) (finalizer_config second) outcomes = (outcomes', second') →
  second' = Returns (Err MissingBuildState).
Proof using view_laws.
  intros [_ Hfin _]%reachable_ok Hfirst Hsecond. rewrite Forall_forall in Hfin.
  destruct (Hfin _ Hfirst) as [[[Hid1 _] _] _]. destruct (Hfin _ Hsecond) as [[[Hid2 _] _] _].
  unfold finalize_payload_and_dispatch, finalize_payload, get_build_execution_outcome. simpl.
  rewrite Hid1, Hid2. intros [= <- _] [= _ <-].
  assert (Htaken : delete the_id (sys_outcomes s) !! the_id = None)
    by exact (lookup_delete_eq (M:=gmap PayloadId) (sys_outcomes s) the_id).
  by rewrite Htaken.
Qed.

(** C26: A job is over exactly when its deadline is reached or the bidder has
    dropped the bid it waits for; then it ends without an error and starts nothing.
    Otherwise, after a tick of the interval, it waits for a build, unless the build it
    waited for is done. *)
Theorem poll_spec {EF : ExecutionFunctions} polled job job' effects over :
  poll builder polled job = Some (job', effects, over) →
  let dropped := ∃ update err, pending_bid_update job = Some update ∧
    poll_value polled (value_rx update) = Ready (Err err) in
  (over ≠ Pending ↔ deadline_reached polled = true ∨ dropped) ∧
  (over ≠ Pending → over = Ready (Ok tt) ∧ effects = []) ∧
  (over = Pending → ticks polled ≠ O →
     is_Some (pending_block job') ∨
     ∃ i reported, (pending_block job = Some i ∨ i = next_channel job) ∧
       poll_build polled i = Ready reported).
Proof.
  intros Hpoll dropped. unfold poll in Hpoll.
  destruct (deadline_reached polled) eqn:Hdeadline.
  { injection Hpoll as <- <- <-. naive_solver. }
  destruct (poll_bids builder polled job) as [[[job1 effects1] over1]|] eqn:Hbids; [|done].
  apply poll_bids_over in Hbids as (Hover & Hready & Hpending & Hnext). simpl in Hpoll.
  destruct over1 as [|r].
  2: { injection Hpoll as <- <- <-. destruct (Hready ltac:(done)) as [-> ->].
       split_and!; [|done..]. split; [intros _; right; by apply Hover|done]. }
  rewrite poll_interval_spec in Hpoll.
  assert (Hdone : over = Pending) by (destruct (pending_block job1), (ticks polled);
    destruct (poll_pending_block _ _) as [[]|]; naive_solver).
  split_and!; [|by rewrite Hdone|].
  { split; [by rewrite Hdone|]. intros [?|Hdrop]; [done|]. by apply Hover in Hdrop. }
  intros _ Hticks. rewrite <-Hpending, <-Hnext.
  destruct (pending_block job1) as [i|] eqn:Hi; [|destruct (ticks polled); [done|]].
  - destruct (poll_pending_block polled job1) as [[job3 effects3]|] eqn:Hblock; [|done].
    injection Hpoll as <- _ _.
    destruct (poll_pending_block_waits _ _ _ _ _ Hblock Hi) as [?|[r ?]]; [by left|].
    right. exists i, r. auto.
  - destruct (poll_pending_block polled _) as [[job3 effects3]|] eqn:Hblock; [|done].
    injection Hpoll as <- _ _.
    destruct (poll_pending_block_waits _ _ _ _ _ Hblock eq_refl) as [?|[r ?]]; [by left|].
    right. exists (next_channel job1), r. auto.
Qed.
End job_properties.

(** * Runs *)

(** A schedule of the job and its tasks, with the client each of them sees; the tasks
    that wait are taken in order. *)
Section schedule.
Context `{ET : ExecutionTypes} {HS : Hashing} {EX : ExecutionTerms}.
Context {FC : FloatConversion}.
Context (view : ExecutionFunctions → Prop).
Context (builder : Inner) (the_config : PayloadConfig) (strategy : BasicStrategy).
Context (channel_closed : PayloadBuilderError) (fuel : nat).

Inductive Action : Type :=
| DoPoll (deadline : bool) (ticks : nat)
| DoBuild (i : ChannelId)
| DoSend
| DoBid
| DoFinalize.

Definition polled_now (deadline : bool) (n : nat) (s : System) : Polled := {|
  deadline_reached := deadline; ticks := n;
  poll_value := polled_value s; poll_build := polled_build channel_closed s;
|}.

Definition exec (EF : ExecutionFunctions) (action : Action) (s : System) : option System :=
  match action with
  | DoPoll deadline n =>
      job ← sys_job s;
      ' (job', effects, over) ← poll builder (polled_now deadline n s) job;
      Some (foldl spawn (after_poll job' over s) effects)
  | DoBuild i =>
      match sys_builds s !! i with
      | Some (Building reads best) =>
          let '(outcomes', built) :=
            try_build fuel builder (build_arguments the_config reads best (λ _, false))
              (sys_outcomes s) in
          build ← build_reported built;
          Some (build_done i build outcomes' s)
      | _ => None
      end
  | DoSend =>
      match sys_sends s with
      | (i, fees) :: sends => Some (task_sends i fees sends s)
      | [] => None
      end
  | DoBid =>
      match sys_bidding s, sys_queue s with
      | true, (i, fees) :: queue => Some (bidder_answers strategy i fees queue s)
      | _, _ => None
      end
  | DoFinalize =>
      match sys_finalizers s with
      | fin :: finalizers =>
          let '(outcomes', finalized) :=
            finalize_payload_and_dispatch builder (finalizer_payload fin) (finalizer_value fin)
              (finalizer_config fin) (sys_outcomes s) in
          Some (finalizer_done finalizers outcomes' (dispatched_by finalized) s)
      | [] => None
      end
  end.

Fixpoint exec_all (schedule : list (ExecutionFunctions * Action)) (s : System) : option System :=
  match schedule with
  | [] => Some s
  | (EF, action) :: schedule => s ← exec EF action s; exec_all schedule s
  end.

Lemma exec_sound EF action s s' :
  view EF → exec EF action s = Some s' → system_step view builder the_config strategy s s'.
Proof.
  intros Hview. destruct action as [deadline n|i| | |]; simpl.
  - destruct (sys_job s) as [job|] eqn:Hjob; [|done]. simpl.
    destruct (poll _ _ _) as [[[job' effects] over]|] eqn:Hpoll; [|done].
    intros [= <-]. by eapply (step_poll view builder the_config strategy EF _ _ (polled_now deadline n s)).
  - destruct (sys_builds s !! i) as [[reads best| |]|] eqn:Hi; try done.
    destruct (try_build _ _ _ _) as [outcomes' built] eqn:Htry.
    destruct (build_reported built) as [build|] eqn:Hrep; [|done]. intros [= <-].
    by eapply (step_build view builder the_config strategy EF).
  - destruct (sys_sends s) as [|[i fees] sends] eqn:Hsends; [done|]. intros [= <-].
    by apply (step_send view builder the_config strategy s i fees []).
  - destruct (sys_bidding s) eqn:Hbidding; [|done].
    destruct (sys_queue s) as [|[i fees] queue] eqn:Hqueue; [done|]. intros [= <-].
    by constructor.
  - destruct (sys_finalizers s) as [|fin finalizers] eqn:Hfins; [done|].
    destruct (finalize_payload_and_dispatch builder (finalizer_payload fin) (finalizer_value fin)
      (finalizer_config fin) (sys_outcomes s)) as [outcomes' finalized] eqn:Hrun.
    intros [= <-]. by eapply (step_finalize view builder the_config strategy EF _ _ []).
Qed.

Lemma exec_all_app schedule1 schedule2 s :
  exec_all (schedule1 ++ schedule2) s = s' ← exec_all schedule1 s; exec_all schedule2 s'.
Proof.
  revert s. induction schedule1 as [|[EF action] schedule1 IH]; intros s; [done|]. simpl.
  destruct (exec EF action s) as [s1|]; [|done]. apply IH.
Qed.

Lemma exec_all_sound schedule s s' :
  Forall (λ entry, view entry.1) schedule → exec_all schedule s = Some s' →
  steps (system_step view builder the_config strategy) s s'.
Proof.
  intros Hviews. revert s. induction Hviews as [|[EF action] schedule Hview _ IH]; intros s; simpl.
  - intros [= <-]. constructor.
  - destruct (exec EF action s) as [s1|] eqn:Hexec; [|done]. simpl. intros Hrun.
    eapply steps_trans; [|by apply IH]. eapply steps_cons; [constructor|].
    by eapply exec_sound.
Qed.
End schedule.

(** * Examples *)

Module ToyJob.
Import ToyInstances.
Import ToyHashing.
Import ToyExecution.
Import ToyBuilder.
Import ToyBidder.

(** The pool gets a transaction with a higher tip while the job runs. *)
Definition toy_pool_later : ExecutionFunctions :=
  toy_client_of [[50000; 30000; 2; 0]; [40000; 40000; 9; 0]; [21000; 21000; 3; 131073]].

Definition toy_view (EF : ExecutionFunctions) : Prop := EF = toy_client ∨ EF = toy_pool_later.

Lemma toy_view_laws EF : toy_view EF → @ExecutionLaws _ _ _ EF.
Proof. intros [->| ->]; apply toy_client_of_laws. Qed.

Definition toy_strategy : BasicStrategy := new ToyBidder.toy_config.

Definition toy_closed : PayloadBuilderError := MissingBuildState.

Definition toy_start : System := system_started ToyBuilder.toy_config None ∅.

Definition toy_exec (schedule : list (bool * Action)) : option System :=
  exec_all toy_builder ToyBuilder.toy_config toy_strategy toy_closed 10
    ((λ '(later, action), (if (later : bool) then toy_pool_later else toy_client, action)) <$> schedule)
    toy_start.

Lemma toy_exec_reachable schedule s :
  toy_exec schedule = Some s →
  reachable toy_view toy_builder ToyBuilder.toy_config toy_strategy s.
Proof.
  intros Hrun. exists None, ∅. eapply exec_all_sound; [|exact Hrun].
  apply Forall_fmap, Forall_forall. intros [[] action] _; [by right|by left].
Qed.

Lemma toy_exec_steps schedule1 schedule2 s s' :
  toy_exec schedule1 = Some s → toy_exec (schedule1 ++ schedule2) = Some s' →
  steps (system_step toy_view toy_builder ToyBuilder.toy_config toy_strategy) s s'.
Proof.
  unfold toy_exec. rewrite fmap_app, exec_all_app. intros ->. simpl. apply exec_all_sound.
  apply Forall_fmap, Forall_forall. intros [[] action] _; [by right|by left].
Qed.

#[local] Opaque toy_exec.

(** Two builds end before the bidder sees the first bid. *)
Definition toy_overtaken_schedule : list (bool * Action) :=
  [(false, DoPoll false 1); (false, DoBuild 0); (false, DoPoll false 0); (true, DoPoll false 1);
   (true, DoBuild 2); (true, DoSend); (true, DoPoll false 0)].

(** The second build ends before the first payload is finalized. *)
Definition toy_stale_schedule : list (bool * Action) :=
  [(false, DoPoll false 1); (false, DoBuild 0); (false, DoPoll false 0); (true, DoPoll false 1);
   (true, DoBuild 2); (true, DoSend); (true, DoBid); (true, DoPoll false 0);
   (true, DoSend); (true, DoBid); (true, DoPoll false 0)].

(** What the examples say about a state. *)
Definition toy_summary (s : System) :=
  (value_rx <$> (sys_job s ≫= pending_bid_update), sys_bidding s, sys_queue s,
   bool_decide (is_Some (sys_bids s !! 3)),
   (λ fin, (built_fees (finalizer_payload fin), finalizer_value fin)) <$> sys_finalizers s,
   built_fees <$> (sys_job s ≫= best_payload)).

Lemma toy_summarized schedule summary :
  toy_summary <$> toy_exec schedule = Some summary →
  ∃ s, toy_exec schedule = Some s ∧ toy_summary s = summary.
Proof. intros Hrun. apply fmap_Some in Hrun as (s & Hs & Heq). eauto. Qed.

Lemma toy_overtaken_facts : ∃ s job update,
  toy_exec toy_overtaken_schedule = Some s ∧ sys_job s = Some job ∧
  pending_bid_update job = Some update ∧ sys_bidding s = true ∧
  sys_queue s = [(1, 123000)] ∧ value_rx update = 3 ∧ sys_bids s !! 3 = None ∧
  sys_finalizers s = [].
Proof.
  destruct (toy_summarized toy_overtaken_schedule
    (Some 3, true, [(1, 123000)], false, [], Some 483000)) as (s & Hrun & Hs).
  { vm_compute. reflexivity. }
  unfold toy_summary in Hs. injection Hs as Hrx Hbidding Hqueue Hbid Hfin Hbest.
  apply fmap_Some in Hrx as (update & Hupdate & Hrx).
  apply bind_Some in Hupdate as (job & Hjob & Hupdate).
  apply bool_decide_eq_false, eq_None_not_Some in Hbid. apply fmap_nil_inv in Hfin.
  exists s, job, update. rewrite Hqueue. auto 10.
Qed.

Lemma overtaken_bid_ends_auction_witness : ∃ s, 
  reachable toy_view toy_builder ToyBuilder.toy_config toy_strategy s ∧
  sys_bidding (bidder_answers toy_strategy 1 123000 [] s) = false ∧
  sys_finalizers (bidder_answers toy_strategy 1 123000 [] s) ⊆ [].
Proof.
  destruct toy_overtaken_facts
    as (s & job & update & Hrun & Hjob & Hupdate & Hbidding & Hqueue & Hrx & Hbid & Hfin).
  pose proof (toy_exec_reachable _ _ Hrun) as Hreach. exists s. split; [exact Hreach|].
  rewrite <-Hfin.
  refine (overtaken_bid_ends_auction toy_view toy_view_laws toy_builder ToyBuilder.toy_config
    toy_strategy s job update 1 123000 [] _ Hreach Hjob Hupdate Hbidding Hqueue _ _ _).
  - rewrite Hrx. discriminate.
  - rewrite Hrx. exact Hbid.
  - constructor.
Defined.

Lemma two_finalizers fins fees1 value1 fees2 value2 :
  (λ fin, (built_fees (finalizer_payload fin), finalizer_value fin)) <$> fins
    = [(fees1, value1); (fees2, value2)] →
  ∃ first second, fins = [first; second] ∧
    built_fees (finalizer_payload first) = fees1 ∧ finalizer_value first = value1 ∧
    built_fees (finalizer_payload second) = fees2 ∧ finalizer_value second = value2.
Proof. destruct fins as [|first [|second [|]]]; try done. intros [= <- <- <- <-]. eauto 10. Qed.

Lemma toy_stale_facts : ∃ s first second,
  toy_exec toy_stale_schedule = Some s ∧ sys_finalizers s = [first; second] ∧
  built_fees (finalizer_payload first) = 123000 ∧ finalizer_value first = 110707 ∧
  built_fees (finalizer_payload second) = 483000 ∧ finalizer_value second = 434707.
Proof.
  destruct (toy_summarized toy_stale_schedule
    (None, true, [], true, [(123000, 110707); (483000, 434707)], Some 483000)) as (s & Hrun & Hs).
  { vm_compute. reflexivity. }
  unfold toy_summary in Hs. injection Hs as _ _ _ _ Hfin _.
  apply two_finalizers in Hfin as (first & second & Hfins & H1 & H2 & H3 & H4).
  exists s, first, second. auto 10.
Qed.

(** The payload that was overtaken is paid over the outcome of the other one, which is
    then lost. *)
Lemma second_finalization_fails_witness : ∃ s first second outcomes first' outcomes' second',
  reachable toy_view toy_builder ToyBuilder.toy_config toy_strategy s ∧
  sys_finalizers s = [first; second] ∧
  finalize_payload_and_dispatch toy_builder (finalizer_payload first)
    (finalizer_value first) (finalizer_config first) (sys_outcomes s) = (outcomes, first') ∧
  finalize_payload_and_dispatch toy_builder (finalizer_payload second)
    (finalizer_value second) (finalizer_config second) outcomes = (outcomes', second') ∧
  second' = Returns (Err MissingBuildState).
Proof.
  destruct toy_stale_facts as (s & first & second & Hrun & Hfins & _).
  pose proof (toy_exec_reachable _ _ Hrun) as Hreach.
  destruct (finalize_payload_and_dispatch toy_builder (finalizer_payload first)
    (finalizer_value first) (finalizer_config first) (sys_outcomes s)) as [outcomes first'] eqn:H1.
  destruct (finalize_payload_and_dispatch toy_builder (finalizer_payload second)
    (finalizer_value second) (finalizer_config second) outcomes) as [outcomes' second'] eqn:H2.
  exists s, first, second, outcomes, first', outcomes', second'.
  split; [exact Hreach|]. split; [exact Hfins|]. split; [exact H1|]. split; [exact H2|].
  refine (second_finalization_fails toy_view toy_view_laws toy_builder ToyBuilder.toy_config
    toy_strategy s first second outcomes first' outcomes' second' Hreach _ _ H1 H2);
    rewrite Hfins; [left|right; left].
Defined.

Lemma job_bids_spec_witness : ∃ s,
  reachable toy_view toy_builder ToyBuilder.toy_config toy_strategy s ∧
  length (sys_finalizers s) = 2%nat ∧
  Forall (finalizer_ok ToyBuilder.toy_config toy_strategy) (sys_finalizers s).
Proof.
  destruct toy_stale_facts as (s & first & second & Hrun & Hfins & _).
  pose proof (toy_exec_reachable _ _ Hrun) as Hreach. exists s. split; [exact Hreach|].
  split; [rewrite Hfins; reflexivity|].
  exact (proj1 (proj2 (job_bids_spec toy_view toy_view_laws toy_builder ToyBuilder.toy_config
    toy_strategy s Hreach))).
Defined.

Lemma poll_never_panics_witness : ∃ s job,
  reachable toy_view toy_builder ToyBuilder.toy_config toy_strategy s ∧
  is_Some (poll toy_builder (polled_now toy_closed false 1 s) job).
Proof.
  destruct toy_overtaken_facts as (s & job & update & Hrun & Hjob & _).
  pose proof (toy_exec_reachable _ _ Hrun) as Hreach. exists s, job. split; [exact Hreach|].
  exact (poll_never_panics toy_view toy_view_laws toy_builder ToyBuilder.toy_config toy_strategy
    toy_closed (polled_now toy_closed false 1 s) s job Hreach Hjob eq_refl eq_refl).
Defined.

(** The first build's payload is replaced by the second's. *)
Lemma toy_improves : ∃ s s',
  toy_exec (take 3 toy_overtaken_schedule) = Some s ∧
  steps (system_step toy_view toy_builder ToyBuilder.toy_config toy_strategy) s s' ∧
  built_fees <$> (sys_job s ≫= best_payload) = Some 123000 ∧
  built_fees <$> (sys_job s' ≫= best_payload) = Some 483000.
Proof.
  destruct (toy_summarized toy_overtaken_schedule
    (Some 3, true, [(1, 123000)], false, [], Some 483000)) as (s' & Hrun' & Hs').
  { vm_compute. reflexivity. }
  destruct (toy_summarized (take 3 toy_overtaken_schedule)
    (Some 1, true, [], false, [], Some 123000)) as (s & Hrun & Hs).
  { vm_compute. reflexivity. }
  exists s, s'. split; [exact Hrun|]. unfold toy_summary in Hs, Hs'.
  injection Hs as _ _ _ _ _ ->. injection Hs' as _ _ _ _ _ ->.
  split; [|split; reflexivity].
  exact (toy_exec_steps _ (drop 3 toy_overtaken_schedule) s s' Hrun Hrun').
Qed.

Lemma best_payload_increases_witness : ∃ s s',
  reachable toy_view toy_builder ToyBuilder.toy_config toy_strategy s ∧
  built_fees <$> (sys_job s ≫= best_payload) = Some 123000 ∧
  built_fees <$> (sys_job s' ≫= best_payload) = Some 483000 ∧
  best_grows s s'.
Proof.
  destruct toy_improves as (s & s' & Hrun & Hsteps & Hbefore & Hafter).
  pose proof (toy_exec_reachable _ _ Hrun) as Hreach.
  exists s, s'. split; [exact Hreach|]. split; [exact Hbefore|]. split; [exact Hafter|].
  exact (best_payload_increases toy_view toy_view_laws toy_builder ToyBuilder.toy_config
    toy_strategy s s' Hreach Hsteps).
Defined.

Lemma poll_spec_witness : ∃ job' effects over,
  poll toy_builder (polled_now toy_closed true 1 toy_start)
    (job_started ToyBuilder.toy_config None) = Some (job', effects, over) ∧ over = Ready (Ok tt).
Proof.
  do 3 eexists. split; [reflexivity|].
  refine (proj1 (proj1 (proj2 (poll_spec toy_builder (polled_now toy_closed true 1 toy_start)
    (job_started ToyBuilder.toy_config None) _ _ _ eq_refl)) _)).
  discriminate.
Defined.
End ToyJob.
