(* ===== verification/JobGenerator.v ===== *)
(** [mev-build-rs/src/payload/job_generator.rs]: the job for the attributes of a
    payload, its deadline, and the state it may start from; and
    [mev-build-rs/src/payload/service_builder.rs]: where the generator and the payload
    builder get their configuration.

    A [Duration] is a number of nanoseconds, whose operations panic when they overflow;
    an [Instant] is a number of nanoseconds since some origin. *)

From S2P Require Import Prelude.
From S2P Require Import Consensus.
From S2P Require Import Execution.
From S2P Require Import Attributes.
From S2P Require Import PayloadBuilder.
From S2P Require Import PayloadJob.
From S2P Require Import Toy.

#[local] Open Scope N_scope.

(** * Durations *)

Definition duration_mod : N := u64_mod * 1000000000.

Definition checked_duration (d : N) : option N := if decide (d < duration_mod) then Some d else None.
Definition duration_add (d d' : N) : option N := checked_duration (d + d').
Definition duration_mul (d : N) (times : N) : option N := checked_duration (d * times).

Lemma checked_duration_small d : d < duration_mod → checked_duration d = Some d.
Proof. intros. unfold checked_duration. by rewrite decide_True. Qed.

(** * What the generator calls *)

Section generator_data.
Context `{ET : ExecutionTypes} {EX : ExecutionTerms}.

Record Block : Type := {
  block_header : Header;
  block_transactions : list TransactionSigned;
  block_withdrawals : option (list Withdrawal);
}.

(** A change of the canonical state: the hash of its new tip and, for each account
    that was touched, what is known of it and the present values of its storage. *)
Record CanonStateNotification : Type := {
  committed_tip : Hash32;
  bundle_accounts : list (ExecutionAddress * (option AccountInfo * list (N * N)));
}.
End generator_data.

Class GeneratorFunctions `{EX : ExecutionTerms} := {
  latest_block : result InternalError (option Block);
  find_block_by_hash : Hash32 → result InternalError (option Block);
  hash_is_zero : Hash32 → bool;
  (** the time until a timestamp in seconds, as of some instant *)
  duration_until : N → N → N;
  insert_account : ExecutionAddress → AccountInfo → list (N * N) → CachedReads → CachedReads;
}.

Section generator.
Context `{ET : ExecutionTypes} {HS : Hashing} {EX : ExecutionTerms} {EF : ExecutionFunctions}.
Context {GF : GeneratorFunctions}.

Record PayloadJobGeneratorConfig : Type := {
  extradata : list N;
  max_gas_limit : N;
  interval : N;
  deadline : N;
  max_payload_tasks : N;
}.

Record PrecachedState : Type := {
  precached_block : Hash32;
  precached_reads : CachedReads;
}.

Record PayloadJobGenerator : Type := {
  generator_config : PayloadJobGeneratorConfig;
  pre_cached : option PrecachedState;
}.

Definition with_builder (config : PayloadJobGeneratorConfig) : PayloadJobGenerator :=
  {| generator_config := config; pre_cached := None |}.

(** [None] when it panics. *)
Definition max_job_duration (self : PayloadJobGenerator) (now unix_timestamp : N) : option N :=
  let deadline := deadline (generator_config self) in
  at_most ← duration_mul deadline 3;
  duration_add deadline (N.min (duration_until unix_timestamp now) at_most).

Definition job_deadline (self : PayloadJobGenerator) (now unix_timestamp : N) : option N :=
  duration ← max_job_duration self now unix_timestamp;
  Some (now + duration).

Definition maybe_pre_cached (self : PayloadJobGenerator) (parent : Hash32) : option CachedReads :=
  pc ← pre_cached self;
  if decide (precached_block pc = parent) then Some (precached_reads pc) else None.

(** [Block::seal] *)
Definition seal (hash : Hash32) (block : Block) : SealedBlock := {|
  sealed_hash := hash;
  sealed_header := block_header block;
  sealed_transactions := block_transactions block;
  sealed_withdrawals := block_withdrawals block;
|}.

(** The block to build on. *)
Definition find_parent (attributes : BuilderPayloadBuilderAttributes)
    : outcome PayloadBuilderError SealedBlock :=
  let parent := attributes_parent (inner attributes) in
  if hash_is_zero parent then
    block ←! lift latest_block;
    block ←! Returns (ok_or block (MissingParentBlock parent));
    Returns (Ok (seal_slow (block_header block) (block_transactions block) (block_withdrawals block)))
  else
    block ←! lift (find_block_by_hash parent);
    block ←! Returns (ok_or block (MissingParentBlock parent));
    Returns (Ok (seal parent block)).

(** The job, and the instant at which it ends. *)
Definition new_payload_job (self : PayloadJobGenerator) (now : N)
    (attributes : BuilderPayloadBuilderAttributes)
    : outcome PayloadBuilderError (PayloadJob * N) :=
  parent_block ←! find_parent attributes;
  until ←!
    match proposal attributes with
    | Some _ => unwrap (job_deadline self now (timestamp_of attributes))
    | None => Returns (Ok now)
    end;
  let config := {|
    parent_block := parent_block;
    extra_data := extradata (generator_config self);
    config_attributes := attributes;
  |} in
  let cached_reads := maybe_pre_cached self (sealed_hash parent_block) in
  Returns (Ok (job_started config cached_reads, until)).

Definition on_new_state (self : PayloadJobGenerator) (new_state : CanonStateNotification)
    : PayloadJobGenerator :=
  let cached := foldl (λ cached '(addr, (info, storage)),
    match info with
    | Some info => insert_account addr info storage cached
    | None => cached
    end) empty_cached_reads (bundle_accounts new_state) in
  {| generator_config := generator_config self;
     pre_cached := Some {| precached_block := committed_tip new_state;
                           precached_reads := cached |} |}.

(** ** [service_builder.rs] *)

Record BuilderConfig : Type := {
  builder_config_fee_recipient : option ExecutionAddress;
  builder_config_extra_data : option (list N);
  execution_mnemonic : list N;
}.

Record PayloadServiceBuilder : Type := {
  service_extra_data : option (list N);
  service_signer : Signer;
  service_fee_recipient : ExecutionAddress;
}.

(** [signer_from_mnemonic] is what the wallet library makes of the words. *)
Definition try_from {E} (signer_from_mnemonic : list N → result E Signer) (value : BuilderConfig)
    : result E PayloadServiceBuilder :=
  signer ← signer_from_mnemonic (execution_mnemonic value);
  let fee_recipient := default (signer_address signer) (builder_config_fee_recipient value) in
  Ok {| service_extra_data := builder_config_extra_data value; service_signer := signer;
        service_fee_recipient := fee_recipient |}.

(** The generator and the builder of [spawn_payload_service]; [conf] is the client's
    own configuration of its payload builder. *)
Definition spawn_payload_service (self : PayloadServiceBuilder) (chain_id : N)
    (conf : PayloadJobGeneratorConfig) : PayloadJobGenerator * (Inner * Outcomes) :=
  let payload_job_config := {|
    extradata := default (extradata conf) (service_extra_data self);
    max_gas_limit := max_gas_limit conf;
    interval := interval conf;
    deadline := deadline conf;
    max_payload_tasks := max_payload_tasks conf;
  |} in
  (with_builder payload_job_config,
   PayloadBuilder.new (service_signer self) (service_fee_recipient self) chain_id).
End generator.

(** * Properties *)

Section generator_properties.
Context `{ET : ExecutionTypes} {HS : Hashing} {EX : ExecutionTerms} {EF : ExecutionFunctions}.
Context {GF : GeneratorFunctions}.
Implicit Types (self : PayloadJobGenerator) (attributes : BuilderPayloadBuilderAttributes).

Lemma job_deadline_spec self now timestamp :
  let d := deadline (generator_config self) in
  d * 4 < duration_mod →
  job_deadline self now timestamp = Some (now + d + N.min (duration_until timestamp now) (d * 3)).
Proof.
  intros d Hd. unfold job_deadline, max_job_duration, duration_mul, duration_add. fold d.
  rewrite (checked_duration_small (d * 3)) by lia. simpl.
  rewrite checked_duration_small by lia. simpl. f_equal. lia.
Qed.

(** What the client answers when it is asked for the block with the hash [named], or for
    the latest block when the hash is zero. *)
Definition looks_up (named : Hash32) (answer : result InternalError (option Block)) : Prop :=
  hash_is_zero named = false ∧ find_block_by_hash named = answer ∨
  hash_is_zero named = true ∧ latest_block = answer.

(** The block the client found: sealed under the hash that names it, or under its own. *)
Record named_block (named : Hash32) (parent : SealedBlock) : Prop := {
  named_found : ∃ block, looks_up named (Ok (Some block)) ∧
    sealed_header parent = block_header block ∧
    sealed_transactions parent = block_transactions block ∧
    sealed_withdrawals parent = block_withdrawals block;
  named_hash : hash_is_zero named = false → sealed_hash parent = named;
  latest_hash : hash_is_zero named = true → sealed_hash parent = hash_slow (sealed_header parent);
}.

Definition lookup_error (named : Hash32) (e : PayloadBuilderError) : Prop :=
  e = MissingParentBlock named ∧ looks_up named (Ok None) ∨
  ∃ e', e = Internal e' ∧ looks_up named (Err e').

Lemma find_parent_spec attributes :
  let named := attributes_parent (inner attributes) in
  match find_parent attributes with
  | Returns (Ok parent) => named_block named parent
  | Returns (Err e) => lookup_error named e
  | _ => False
  end.
Proof.
  simpl. unfold find_parent, lookup_error, looks_up.
  destruct (hash_is_zero _) eqn:Hzero.
  - destruct latest_block as [[block|]|e] eqn:Hlatest; simpl; [|auto|eauto 6].
    split; simpl; [|by rewrite Hzero|done]. exists block. unfold looks_up. auto.
  - destruct (find_block_by_hash _) as [[block|]|e] eqn:Hfind; simpl; [|auto|eauto 6].
    split; simpl; [|done|by rewrite Hzero]. exists block. unfold looks_up. auto.
Qed.

(** C30: A new job extends the block the client finds under the hash its attributes name,
    or the client's latest block when that hash is zero; it starts without a payload, a
    build or a bid, and starts from the state of the last notification only if that is the
    state of its parent.  A job without a proposal is over at once; a job with one ends
    after the configured deadline and at most four times that, and exactly the deadline
    after the start of its slot when the clocks agree.  The only errors are the client's,
    and that it knows no such block. *)
Theorem new_payload_job_spec self now attributes :
  let d := deadline (generator_config self) in
  d * 4 < duration_mod →
  (∀ job until, new_payload_job self now attributes = Returns (Ok (job, until)) →
    named_block (attributes_parent (inner attributes)) (parent_block (config job)) ∧
    config_attributes (config job) = attributes ∧
    extra_data (config job) = extradata (generator_config self) ∧
    job = job_started (config job) (cached_reads job) ∧
    (∀ reads, cached_reads job = Some reads →
       ∃ pc, pre_cached self = Some pc ∧ precached_reads pc = reads ∧
         precached_block pc = sealed_hash (parent_block (config job))) ∧
    (proposal attributes = None → until = now) ∧
    (is_Some (proposal attributes) →
       now + d ≤ until ≤ now + 4 * d ∧
       (duration_until (timestamp_of attributes) now ≤ 3 * d →
        until = now + d + duration_until (timestamp_of attributes) now))) ∧
  (∀ e, new_payload_job self now attributes = Returns (Err e) →
    lookup_error (attributes_parent (inner attributes)) e) ∧
  new_payload_job self now attributes ≠ Panics.
Proof.
  intros d Hd. unfold new_payload_job.
  assert (Huntil : match proposal attributes with
    | Some _ => unwrap (job_deadline self now (timestamp_of attributes))
    | None => Returns (Ok now)
    end = Returns (Ok (if proposal attributes
      then now + d + N.min (duration_until (timestamp_of attributes) now) (d * 3) else now))
      :> outcome PayloadBuilderError N).
  { destruct (proposal attributes); [|done]. by rewrite job_deadline_spec. }
  rewrite Huntil. clear Huntil. pose proof (find_parent_spec attributes) as Hfound. split_and!.
  - intros job until Hrun. inv_outcome Hrun. rewrite Hstep in Hfound.
    simpl in Hrun. injection Hrun as <- <-.
    split_and!; try done; simpl.
    + unfold maybe_pre_cached. intros reads Hreads.
      destruct (pre_cached self) as [pc|]; [|done]. simpl in Hreads. case_decide; [|done]. naive_solver.
    + by intros ->.
    + intros [p ->]. lia.
  - intros e Hrun. destruct (find_parent attributes) as [[parent|e']| |]; try done.
    by injection Hrun as <-.
  - by destruct (find_parent attributes) as [[]| |].
Qed.

(** The builder is paid at the configured address, or at the one its mnemonic gives,
    which is also the one that pays the proposers. *)
Lemma try_from_fee_recipient {E} (from_mnemonic : list N → result E Signer) value service :
  try_from from_mnemonic value = Ok service →
  from_mnemonic (execution_mnemonic value) = Ok (service_signer service) ∧
  service_fee_recipient service
    = default (signer_address (service_signer service)) (builder_config_fee_recipient value).
Proof. unfold try_from. destruct (from_mnemonic _); [|done]. by intros [= <-]. Qed.

(** After a notification, a job on the new tip starts from the accounts it
    brought, in their order and without those that were deleted, and a job on any other
    block starts from nothing, whatever was known before. *)
Theorem on_new_state_spec self new_state parent :
  maybe_pre_cached (on_new_state self new_state) parent =
    if decide (committed_tip new_state = parent)
    then Some (foldl (λ cached '(addr, info, storage), insert_account addr info storage cached)
           empty_cached_reads
           (omap (λ '(addr, (info, storage)), info ← info; Some (addr, info, storage))
              (bundle_accounts new_state)))
    else None.
Proof.
  unfold maybe_pre_cached, on_new_state. simpl. case_decide; [|done]. f_equal.
  generalize empty_cached_reads. induction (bundle_accounts new_state) as [|[addr [[info|] storage]] l IH];
    intros reads; simpl; auto.
Qed.
End generator_properties.

(** * Examples *)

Module ToyGenerator.
Import ToyInstances.
Import ToyHashing.
Import ToyExecution.
Import ToyBuilder.

Definition toy_chain_block (block : SealedBlock) : Block := {|
  block_header := sealed_header block;
  block_transactions := sealed_transactions block;
  block_withdrawals := sealed_withdrawals block;
|}.

(** A chain of one block, whose hash is 41; account information is not kept. *)
#[export] Instance toy_generator_functions : GeneratorFunctions := {|
  latest_block := Ok (Some (toy_chain_block (toy_block 40 41)));
  find_block_by_hash h := Ok (if (h : N) =? 41 then Some (toy_chain_block (toy_block 40 41)) else None);
  hash_is_zero h := (h : N) =? 0;
  duration_until timestamp now := timestamp * 1000000000 - now;
  insert_account _ _ _ reads := reads;
|}.

(** A deadline of twelve seconds. *)
Definition toy_generator : PayloadJobGenerator := with_builder {|
  extradata := [7]; max_gas_limit := 30000000; interval := 500000000; deadline := 12000000000;
  max_payload_tasks := 3;
|}.

(** Two seconds before the slot, the job gets the deadline and two seconds. *)
Lemma new_payload_job_spec_witness : ∃ job until,
  new_payload_job toy_generator 2410000000000 (config_attributes ToyBuilder.toy_config)
    = Returns (Ok (job, until)) ∧
  until = 2410000000000 + 12000000000 + 2000000000 ∧
  sealed_hash (parent_block (config job)) = toy_hash 41 ∧
  named_block (toy_hash 41) (parent_block (config job)).
Proof.
  destruct (new_payload_job_spec toy_generator 2410000000000
    (config_attributes ToyBuilder.toy_config)) as [Hok _]; [reflexivity|].
  eexists _, _. split; [reflexivity|].
  destruct (Hok _ _ eq_refl) as (Hnamed & _ & _ & _ & _ & _ & Huntil).
  split; [|split; [reflexivity|exact Hnamed]]. apply Huntil; [by eexists|discriminate].
Defined.
End ToyGenerator.
