(* ===== verification/Compat.v ===== *)
(** [mev-build-rs/src/compat.rs]: turning the execution client's block into the
    payload and the blobs of the builder API.

    A conversion the source unwraps is a [panics] outcome when it fails: [None] here.
    Arrays of a fixed number of bytes (hashes, addresses, the bloom filter,
    commitments, proofs and blobs) have one type on both sides. *)

From S2P Require Import Prelude.
From S2P Require Import Consensus.
From S2P Require Import Types.
From S2P Require Import Execution.
From S2P Require Import Toy.

#[local] Open Scope N_scope.

(** [mev-build-rs/src/error.rs] *)
Inductive BuildError `{CT : ConsensusTypes} : Type :=
| UnsupportedFork (fork : Fork)
| BuildError_Consensus (e : ConsensusError)
| BuildError_PayloadBuilder
| BuildError_Signer.

Section deneb.
Context `{ET : ExecutionTypes}.

(** The struct [deneb::ExecutionPayload], field by field. *)
Record DenebPayload : Type := {
  deneb_parent_hash : Hash32;
  deneb_fee_recipient : ExecutionAddress;
  deneb_state_root : Hash32;
  deneb_receipts_root : Hash32;
  deneb_logs_bloom : LogsBloom;
  deneb_prev_randao : Hash32;
  deneb_block_number : N;
  deneb_gas_limit : N;
  deneb_gas_used : N;
  deneb_timestamp : N;
  deneb_extra_data : list N;
  deneb_base_fee_per_gas : N;
  deneb_block_hash : Hash32;
  deneb_transactions : list (list N);
  deneb_withdrawals : list Withdrawal;
  deneb_blob_gas_used : N;
  deneb_excess_blob_gas : N;
}.
End deneb.

(** The constructor of the library's payload and the limits of its lists. *)
Class PayloadTypes `{ET : ExecutionTypes} := {
  make_deneb_payload : DenebPayload → deneb_ExecutionPayload;
  MAX_EXTRA_DATA_BYTES : N;
  MAX_BYTES_PER_TRANSACTION : N;
  MAX_TRANSACTIONS_PER_PAYLOAD : N;
  MAX_WITHDRAWALS_PER_PAYLOAD : N;
  MAX_BLOB_COMMITMENTS_PER_BLOCK : N;
  (** the [SimpleSerializeError] of a list that is too long *)
  list_too_long : ConsensusError;
}.

(** The accessors of a payload read the fields it was built from. *)
Class PayloadLaws `{CF : ConsensusFunctions, ET : !ExecutionTypes} (PT : PayloadTypes) : Prop := {
  deneb_payload_parent_hash p :
    payload_parent_hash (ExecutionPayload_Deneb (make_deneb_payload p)) = deneb_parent_hash p;
  deneb_payload_block_hash p :
    payload_block_hash (ExecutionPayload_Deneb (make_deneb_payload p)) = deneb_block_hash p;
  deneb_payload_gas_limit p :
    payload_gas_limit (ExecutionPayload_Deneb (make_deneb_payload p)) = deneb_gas_limit p;
  deneb_payload_gas_used p :
    payload_gas_used (ExecutionPayload_Deneb (make_deneb_payload p)) = deneb_gas_used p;
}.

Section compat.
Context `{PT : PayloadTypes}.

Definition to_bytes32 (value : Hash32) : Hash32 := value.
Definition to_bytes20 (value : ExecutionAddress) : ExecutionAddress := value.
Definition to_byte_vector (value : LogsBloom) : LogsBloom := value.

(** [TryFrom] for a list with a limit on its length. *)
Definition try_list {A} (limit : N) (l : list A) : option (list A) :=
  if decide (N.of_nat (length l) ≤ limit) then Some l else None.

Definition to_withdrawal (w : Withdrawal) : Withdrawal := {|
  withdrawal_index := withdrawal_index w;
  withdrawal_validator_index := withdrawal_validator_index w;
  withdrawal_address := to_bytes20 (withdrawal_address w);
  withdrawal_amount := withdrawal_amount w;
|}.

Definition to_execution_payload (value : SealedBlock) (fork : Fork)
    : option (result BuildError ExecutionPayload) :=
  let hash := sealed_hash value in
  let header := sealed_header value in
  let transactions := sealed_transactions value in
  let withdrawals := sealed_withdrawals value in
  match fork with
  | Fork_Deneb =>
      transactions ← mapM (λ t, try_list MAX_BYTES_PER_TRANSACTION (encoded_2718 t)) transactions;
      withdrawals ← withdrawals;
      let withdrawals := map to_withdrawal withdrawals in
      extra_data ← try_list MAX_EXTRA_DATA_BYTES (header_extra_data header);
      transactions ← try_list MAX_TRANSACTIONS_PER_PAYLOAD transactions;
      withdrawals ← try_list MAX_WITHDRAWALS_PER_PAYLOAD withdrawals;
      blob_gas_used ← header_blob_gas_used header;
      excess_blob_gas ← header_excess_blob_gas header;
      let payload := {|
        deneb_parent_hash := to_bytes32 (header_parent header);
        deneb_fee_recipient := to_bytes20 (header_beneficiary header);
        deneb_state_root := to_bytes32 (header_state_root header);
        deneb_receipts_root := to_bytes32 (header_receipts_root header);
        deneb_logs_bloom := to_byte_vector (header_logs_bloom header);
        deneb_prev_randao := to_bytes32 (header_mix_hash header);
        deneb_block_number := header_number header;
        deneb_gas_limit := header_gas_limit header;
        deneb_gas_used := header_gas_used header;
        deneb_timestamp := header_timestamp header;
        deneb_extra_data := extra_data;
        deneb_base_fee_per_gas := default 0 (header_base_fee_per_gas header);
        deneb_block_hash := to_bytes32 hash;
        deneb_transactions := transactions;
        deneb_withdrawals := withdrawals;
        deneb_blob_gas_used := blob_gas_used;
        deneb_excess_blob_gas := excess_blob_gas;
      |} in
      Some (Ok (ExecutionPayload_Deneb (make_deneb_payload payload)))
  | fork => Some (Err (UnsupportedFork fork))
  end.

Definition to_blobs_bundle (sidecars : list BlobTransactionSidecar)
    : result BuildError BlobsBundle :=
  let commitments := sidecars ≫= sidecar_commitments in
  let proofs := sidecars ≫= sidecar_proofs in
  let blobs := sidecars ≫= sidecar_blobs in
  commitments ← ok_or (try_list MAX_BLOB_COMMITMENTS_PER_BLOCK commitments)
    (BuildError_Consensus list_too_long);
  proofs ← ok_or (try_list MAX_BLOB_COMMITMENTS_PER_BLOCK proofs)
    (BuildError_Consensus list_too_long);
  blobs ← ok_or (try_list MAX_BLOB_COMMITMENTS_PER_BLOCK blobs)
    (BuildError_Consensus list_too_long);
  Ok {| commitments := commitments; proofs := proofs; blobs := blobs |}.
End compat.

(** * Properties *)

Section compat_properties.
Context `{CF : ConsensusFunctions} `{ET : !ExecutionTypes} {PT : PayloadTypes}.
Context `{PL : !PayloadLaws PT}.

Lemma try_list_Some {A} limit (l l' : list A) :
  try_list limit l = Some l' ↔ l' = l ∧ N.of_nat (length l) ≤ limit.
Proof. unfold try_list. case_decide; naive_solver. Qed.

(** A Deneb payload has the hashes and the gas of its block. *)
Lemma to_execution_payload_fields block fork p :
  to_execution_payload block fork = Some (Ok p) →
  payload_parent_hash p = header_parent (sealed_header block) ∧
  payload_block_hash p = sealed_hash block ∧
  payload_gas_limit p = header_gas_limit (sealed_header block) ∧
  payload_gas_used p = header_gas_used (sealed_header block) ∧
  fork = Fork_Deneb ∧ payload_version p = Fork_Deneb.
Proof.
  unfold to_execution_payload. destruct fork; try done. intros Hp.
  repeat (apply bind_Some in Hp as (? & _ & Hp)).
  injection Hp as <-.
  rewrite deneb_payload_parent_hash, deneb_payload_block_hash, deneb_payload_gas_limit,
    deneb_payload_gas_used. done.
Qed.

(** The payload carries the encodings of the block's transactions, in their order. *)
Lemma to_execution_payload_transactions block fork p :
  to_execution_payload block fork = Some (Ok p) →
  ∃ d, p = ExecutionPayload_Deneb (make_deneb_payload d) ∧
    deneb_block_hash d = sealed_hash block ∧
    deneb_transactions d = map encoded_2718 (sealed_transactions block).
Proof.
  unfold to_execution_payload. destruct fork; try done. intros Hp.
  apply bind_Some in Hp as (encoded & Hmap & Hp).
  apply bind_Some in Hp as (? & _ & Hp). apply bind_Some in Hp as (? & _ & Hp).
  apply bind_Some in Hp as (txs & Htxs & Hp).
  repeat (apply bind_Some in Hp as (? & _ & Hp)). injection Hp as <-.
  eexists. split_and!; [done..|]. simpl. apply try_list_Some in Htxs as [-> _].
  apply mapM_Some in Hmap. induction Hmap as [|t e ts es He _ IH]; [done|].
  apply try_list_Some in He as [-> _]. simpl. by rewrite IH.
Qed.

(** Converting a Deneb block panics exactly when it lacks a Deneb field
    or exceeds one of the limits of the payload's lists. *)
Theorem to_execution_payload_total block :
  is_Some (to_execution_payload block Fork_Deneb) ↔
  is_Some (sealed_withdrawals block) ∧
  is_Some (header_blob_gas_used (sealed_header block)) ∧
  is_Some (header_excess_blob_gas (sealed_header block)) ∧
  N.of_nat (length (header_extra_data (sealed_header block))) ≤ MAX_EXTRA_DATA_BYTES ∧
  N.of_nat (length (sealed_transactions block)) ≤ MAX_TRANSACTIONS_PER_PAYLOAD ∧
  N.of_nat (length (default [] (sealed_withdrawals block))) ≤ MAX_WITHDRAWALS_PER_PAYLOAD ∧
  Forall (λ t, N.of_nat (length (encoded_2718 t)) ≤ MAX_BYTES_PER_TRANSACTION)
    (sealed_transactions block).
Proof.
  unfold to_execution_payload. cbn [to_execution_payload].
  assert (Htxs : is_Some (mapM (λ t, try_list MAX_BYTES_PER_TRANSACTION (encoded_2718 t))
      (sealed_transactions block)) ↔
    Forall (λ t, N.of_nat (length (encoded_2718 t)) ≤ MAX_BYTES_PER_TRANSACTION)
      (sealed_transactions block)).
  { rewrite mapM_is_Some. apply Forall_proper; [|done]. intros t. unfold compose, try_list.
    case_decide; naive_solver. }
  destruct (mapM _ _) as [txs|] eqn:Hm; simpl.
  2: { split; [by intros [? ?]|]. intros (_ & _ & _ & _ & _ & _ & [? ?]%Htxs). done. }
  pose proof (length_mapM _ _ _ Hm) as Hlen.
  assert (Hall := proj1 Htxs (mk_is_Some _ _ eq_refl)). clear Htxs.
  destruct (sealed_withdrawals block) as [ws|]; simpl.
  2: { split; [by intros [? ?]|by intros ([? ?] & _)]. }
  unfold try_list. rewrite length_map, <-Hlen.
  destruct (decide (N.of_nat (length (header_extra_data _)) ≤ _)); simpl;
    [|split; [by intros [? ?]|tauto]].
  destruct (decide (N.of_nat (length (sealed_transactions _)) ≤ _)); simpl;
    [|split; [by intros [? ?]|tauto]].
  destruct (decide (N.of_nat (length ws) ≤ _)); simpl; [|split; [by intros [? ?]|tauto]].
  destruct (header_blob_gas_used _); simpl.
  2: { split; [by intros [? ?]|by intros (_ & [? ?] & _)]. }
  destruct (header_excess_blob_gas _); simpl.
  2: { split; [by intros [? ?]|by intros (_ & _ & [? ?] & _)]. }
  split; [|by eauto]. intros _. split_and!; eauto.
Qed.

(** The bundle holds the commitments, proofs and blobs of all sidecars, in
    order, and is refused exactly when one of the lists is too long. *)
Theorem to_blobs_bundle_spec sidecars :
  to_blobs_bundle sidecars =
    let bundle := {| commitments := sidecars ≫= sidecar_commitments;
                     proofs := sidecars ≫= sidecar_proofs;
                     blobs := sidecars ≫= sidecar_blobs |} in
    if decide (N.of_nat (length (commitments bundle)) ≤ MAX_BLOB_COMMITMENTS_PER_BLOCK ∧
               N.of_nat (length (proofs bundle)) ≤ MAX_BLOB_COMMITMENTS_PER_BLOCK ∧
               N.of_nat (length (blobs bundle)) ≤ MAX_BLOB_COMMITMENTS_PER_BLOCK)
    then Ok bundle else Err (BuildError_Consensus list_too_long).
Proof.
  unfold to_blobs_bundle, try_list. cbv zeta. cbn [commitments proofs blobs].
  repeat case_decide; simpl; tauto || naive_solver.
Qed.
End compat_properties.

(** * Examples *)

Module ToyPayloads.
Import ToyInstances.
Import ToyExecution.

Definition toy_make_payload (p : DenebPayload) : toy_payload := {|
  toy_parent_hash := deneb_parent_hash p;
  toy_block_hash := deneb_block_hash p;
  toy_gas_limit := deneb_gas_limit p;
  toy_gas_used := deneb_gas_used p;
  toy_transaction_count := N.of_nat (length (deneb_transactions p));
|}.

#[export] Instance toy_payload_types : PayloadTypes := {|
  make_deneb_payload := toy_make_payload : DenebPayload → deneb_ExecutionPayload;
  MAX_EXTRA_DATA_BYTES := 32;
  MAX_BYTES_PER_TRANSACTION := 1073741824;
  MAX_TRANSACTIONS_PER_PAYLOAD := 1048576;
  MAX_WITHDRAWALS_PER_PAYLOAD := 16;
  MAX_BLOB_COMMITMENTS_PER_BLOCK := 4096;
  list_too_long := 9%N : ConsensusError;
|}.

#[export] Instance toy_payload_laws : PayloadLaws toy_payload_types.
Proof. by split. Qed.

(** A Deneb block is converted. *)
Example toy_block_total : is_Some (to_execution_payload (toy_block 40 41) Fork_Deneb).
Proof. vm_compute. eauto. Qed.
End ToyPayloads.
