(* ===== verification/AuctionSchedule.v ===== *)
(** [mev-build-rs/src/auctioneer/auction_schedule.rs]: which relays serve which
    proposer in which slot, as the relays' proposer schedules report it. *)

From S2P Require Import Prelude.
From S2P Require Import Consensus.
From S2P Require Import Types.
From S2P Require Import Toy.

#[local] Open Scope N_scope.

Notation RelayIndex := nat (only parsing).
Notation RelaySet := (gset nat) (only parsing).

Section auction_schedule.
Context `{CT : ConsensusTypes}.

Record Proposer : Type := {
  proposer_public_key : BlsPublicKey;
  fee_recipient : ExecutionAddress;
  gas_limit : N;
}.

#[export] Instance Proposer_eq : EqDecision Proposer.
Proof. solve_decision. Defined.

#[export] Instance Proposer_countable : Countable Proposer.
Proof.
  apply (inj_countable' (λ p, (proposer_public_key p, fee_recipient p, gas_limit p))
           (λ '(k, f, g), Build_Proposer k f g)). by intros [].
Defined.

#[local] Notation Proposals := (gmap Proposer RelaySet).

Record AuctionSchedule : Type := {
  schedule : gmap N Proposals;
}.

Definition empty_schedule : AuctionSchedule := {| schedule := ∅ |}.

Definition clear (retain_slot : N) (self : AuctionSchedule) : AuctionSchedule :=
  {| schedule := retain_keys (λ slot, retain_slot ≤ slot) (schedule self) |}.

Definition get_matching_proposals (self : AuctionSchedule) (slot : N) : option Proposals :=
  schedule self !! slot.

(** The proposer an entry describes. *)
Definition entry_proposer (entry : ProposerSchedule) : Proposer :=
  let registration := registration_message (schedule_entry entry) in
  {| proposer_public_key := registration_public_key registration;
     fee_recipient := registration_fee_recipient registration;
     gas_limit := registration_gas_limit registration |}.

(** The body of the loop of [process]. *)
Definition process_entry (relay : RelayIndex) (self : AuctionSchedule) (entry : ProposerSchedule)
    : AuctionSchedule :=
  let slot := default ∅ (schedule self !! schedule_slot entry) in
  let proposer := entry_proposer entry in
  let relays := default ∅ (slot !! proposer) in
  {| schedule :=
       <[schedule_slot entry := <[proposer := {[relay]} ∪ relays]> slot]> (schedule self) |}.

Definition process (relay : RelayIndex) (entries : list ProposerSchedule) (self : AuctionSchedule)
    : AuctionSchedule * list N :=
  (foldl (process_entry relay) self entries, map schedule_slot entries).
End auction_schedule.

(** * Properties *)

Section auction_schedule_properties.
Context `{CT : ConsensusTypes}.
Implicit Types (self : AuctionSchedule) (entry : ProposerSchedule) (entries : list ProposerSchedule).

(** The relays that serve [proposer] in [slot]. *)
Definition serving self (slot : N) (proposer : Proposer) : RelaySet :=
  default ∅ (default ∅ (schedule self !! slot) !! proposer).

Lemma process_entry_serving relay self entry slot proposer :
  serving (process_entry relay self entry) slot proposer =
    if decide (schedule_slot entry = slot ∧ entry_proposer entry = proposer)
    then {[relay]} ∪ serving self slot proposer else serving self slot proposer.
Proof.
  unfold serving, process_entry. simpl.
  destruct (decide (schedule_slot entry = slot)) as [<-|Hslot].
  - rewrite lookup_insert_eq. simpl.
    destruct (decide (entry_proposer entry = proposer)) as [<-|Hp].
    + rewrite lookup_insert_eq. by rewrite decide_True.
    + rewrite lookup_insert_ne by done. by rewrite decide_False by (by intros []).
  - rewrite lookup_insert_ne by done. by rewrite decide_False by (by intros []).
Qed.

(** After the schedule of a relay is processed, the relay serves a
    proposer in a slot exactly when it did before or the schedule says so, no other
    relay's entries have changed, and the slots returned are those of the entries. *)
Theorem process_spec relay entries self slot proposer r :
  (r ∈ serving (process relay entries self).1 slot proposer ↔
     r ∈ serving self slot proposer ∨
     (r = relay ∧ ∃ entry, entry ∈ entries ∧ schedule_slot entry = slot ∧
                           entry_proposer entry = proposer)) ∧
  (process relay entries self).2 = map schedule_slot entries.
Proof.
  split; [|done]. simpl. revert self. induction entries as [|entry entries IH]; intros self; simpl.
  { split; [by left|]. intros [?|(_ & entry & Hin & _)]; [done|]. by apply elem_of_nil in Hin. }
  rewrite IH, process_entry_serving. setoid_rewrite elem_of_cons.
  case_decide as H; [rewrite elem_of_union, elem_of_singleton|]; naive_solver.
Qed.

(** [clear] forgets exactly the slots before the given one. *)
Theorem clear_spec retain_slot self slot :
  get_matching_proposals (clear retain_slot self) slot =
    if decide (retain_slot ≤ slot) then get_matching_proposals self slot else None.
Proof. apply lookup_retain_keys. Qed.
End auction_schedule_properties.
