(* ===== verification/Auctioneer.v ===== *)
(** [mev-build-rs/src/auctioneer/service.rs]: the builder's auctioneer, which opens an
    auction for each proposer it knows when the chain asks for a payload, and submits
    the payloads that are built for it.

    The service is one loop over messages, so its state is passed from one handler to
    the next.  What it asks of others (the payload builder, the bidder, the relays) is
    recorded in [effects], in order; their answers are the fields of [World].  A panic
    is [None]. *)

From S2P Require Import Prelude.
From S2P Require Import Consensus.
From S2P Require Import Types.
From S2P Require Import Signing.
From S2P Require Import RelayClient.
From S2P Require Import Execution.
From S2P Require Import Attributes.
From S2P Require Import Compat.
From S2P Require Import AuctionSchedule.
From S2P Require Import Toy.

#[local] Open Scope N_scope.

Definition PROPOSAL_SCHEDULE_INTERVAL : N := 2.

Section auctioneer.
Context `{CF : ConsensusFunctions} `{BS : !BuilderSignable}.
Context {HS : Hashing} `{ET : !ExecutionTypes} {PT : PayloadTypes} {Url : Type}.

Record AuctionContext : Type := {
  context_slot : N;
  context_attributes : BuilderPayloadBuilderAttributes;
  context_proposer : Proposer;
  context_relays : gset nat;
}.

Definition bid_trace_for (payload : EthBuiltPayload) (public_key : BlsPublicKey)
    (auction_context : AuctionContext) : BidTrace := {|
  trace_slot := context_slot auction_context;
  trace_parent_hash :=
    to_bytes32 (attributes_parent (inner (context_attributes auction_context)));
  trace_block_hash := to_bytes32 (sealed_hash (built_block payload));
  trace_builder_public_key := public_key;
  trace_proposer_public_key := proposer_public_key (context_proposer auction_context);
  trace_proposer_fee_recipient := to_bytes20 (fee_recipient (context_proposer auction_context));
  trace_gas_limit := header_gas_limit (sealed_header (built_block payload));
  trace_gas_used := header_gas_used (sealed_header (built_block payload));
  trace_value := built_fees payload;
|}.

Definition prepare_submission (payload : EthBuiltPayload) (signing_key : SecretKey)
    (public_key : BlsPublicKey) (auction_context : AuctionContext) (context : ChainContext)
    : option (result BuildError SignedBidSubmission) :=
  let message := bid_trace_for payload public_key auction_context in
  let fork := fork_for context (context_slot auction_context) in
  execution_payload ← to_execution_payload (built_block payload) fork;
  Some (
    execution_payload ← execution_payload;
    signature ← map_err BuildError_Consensus (sign_builder_message message signing_key context);
    match fork with
    | Fork_Bellatrix =>
        Ok (SignedBidSubmission_Bellatrix {|
          bellatrix_submission_message := message;
          bellatrix_submission_execution_payload := execution_payload;
          bellatrix_submission_signature := signature |})
    | Fork_Capella =>
        Ok (SignedBidSubmission_Capella {|
          bellatrix_submission_message := message;
          bellatrix_submission_execution_payload := execution_payload;
          bellatrix_submission_signature := signature |})
    | Fork_Deneb =>
        blobs_bundle ← to_blobs_bundle (built_sidecars payload);
        Ok (SignedBidSubmission_Deneb {|
          deneb_submission_message := message;
          deneb_submission_execution_payload := execution_payload;
          deneb_submission_blobs_bundle := blobs_bundle;
          deneb_submission_signature := signature |})
    | fork => Err (UnsupportedFork fork)
    end).

(** What the service asks of the other parts of the program. *)
Inductive Effect : Type :=
| NewPayload (attributes : BuilderPayloadBuilderAttributes)
| StartBid (auction : AuctionContext) (revenue_updates : N)
| SubmitBid (relay : Relay Url) (submission : SignedBidSubmission).

Record Config : Type := {
  config_secret_key : SecretKey;
  config_public_key : BlsPublicKey;
  config_relays : list (Relay Url);
  config_context : ChainContext;
  config_genesis_time : N;
}.

Record Service : Type := {
  auction_schedule : AuctionSchedule;
  open_auctions : gmap PayloadId AuctionContext;
  processed_payload_attributes : gmap N (gset PayloadId);
  (** the next channel, and what has been asked of others *)
  next_channel : N;
  effects : list Effect;
}.

(** The answers of the relays and of the payload builder, the clock's conversion of
    a timestamp, and the orders in which the hash maps and sets are iterated. *)
Record World : Type := {
  world_schedule : Relay Url → result Error (list ProposerSchedule);
  world_new_payload : BuilderPayloadBuilderAttributes → bool;
  convert_timestamp_to_slot : N → N → N → option N;
  iter_proposals : gmap Proposer (gset nat) → list (Proposer * gset nat);
  iter_relays : gset nat → list nat;
}.

(** [Service::new]: the public key is the one of the configured secret key. *)
Definition new (secret_key : SecretKey) (relays : list (Relay Url)) (context : ChainContext)
    (genesis_time : N) : Config * Service :=
  ({| config_secret_key := secret_key;
      config_public_key := secret_key_public_key secret_key;
      config_relays := relays;
      config_context := context;
      config_genesis_time := genesis_time |},
   {| auction_schedule := empty_schedule;
      open_auctions := ∅;
      processed_payload_attributes := ∅;
      next_channel := 0;
      effects := [] |}).

Definition set_schedule (a : AuctionSchedule) (self : Service) : Service :=
  {| auction_schedule := a; open_auctions := open_auctions self;
     processed_payload_attributes := processed_payload_attributes self;
     next_channel := next_channel self; effects := effects self |}.
Definition set_open_auctions (m : gmap PayloadId AuctionContext) (self : Service) : Service :=
  {| auction_schedule := auction_schedule self; open_auctions := m;
     processed_payload_attributes := processed_payload_attributes self;
     next_channel := next_channel self; effects := effects self |}.
Definition set_processed (m : gmap N (gset PayloadId)) (self : Service) : Service :=
  {| auction_schedule := auction_schedule self; open_auctions := open_auctions self;
     processed_payload_attributes := m;
     next_channel := next_channel self; effects := effects self |}.
Definition emit (e : Effect) (self : Service) : Service :=
  {| auction_schedule := auction_schedule self; open_auctions := open_auctions self;
     processed_payload_attributes := processed_payload_attributes self;
     next_channel := next_channel self; effects := effects self ++ [e] |}.

(** [mpsc::channel(..)] *)
Definition channel (self : Service) : Service * N :=
  ({| auction_schedule := auction_schedule self; open_auctions := open_auctions self;
      processed_payload_attributes := processed_payload_attributes self;
      next_channel := next_channel self + 1; effects := effects self |}, next_channel self).

Definition fetch_proposer_schedules (config : Config) (world : World) (self : Service) : Service :=
  foldl (λ self '(relay_index, relay),
    match world_schedule world relay with
    | Ok schedule =>
        set_schedule (process relay_index schedule (auction_schedule self)).1 self
    | Err _ => self
    end) self (imap pair (config_relays config)).

Definition on_slot (config : Config) (world : World) (slot : N) (self : Service) : Service :=
  if decide (u64_mul slot PROPOSAL_SCHEDULE_INTERVAL
               `mod` slots_per_epoch (config_context config) = 0)
  then fetch_proposer_schedules config world self
  else self.

Definition on_epoch (config : Config) (epoch : N) (self : Service) : Service :=
  let retain_slot := u64_mul epoch (slots_per_epoch (config_context config)) in
  let self := set_schedule (clear retain_slot (auction_schedule self)) self in
  let self := set_open_auctions
    (filter (λ '(_, auction), retain_slot ≤ context_slot auction) (open_auctions self)) self in
  set_processed
    (filter (λ '(slot, _), retain_slot ≤ slot) (processed_payload_attributes self)) self.

Definition get_proposals (slot : N) (self : Service) : option (gmap Proposer (gset nat)) :=
  get_matching_proposals (auction_schedule self) slot.

Definition store_auction (auction : AuctionContext) (self : Service) : Service * AuctionContext :=
  let payload_id := payload_id_of (context_attributes auction) in
  match open_auctions self !! payload_id with
  | Some auction => (self, auction)
  | None => (set_open_auctions (<[payload_id := auction]> (open_auctions self)) self, auction)
  end.

Definition open_auction (world : World) (slot : N) (proposer : Proposer) (relays : gset nat)
    (attributes : BuilderPayloadBuilderAttributes) (self : Service)
    : Service * option PayloadId :=
  let '(self, revenue_updates) := channel self in
  let proposal := {|
    proposer_gas_limit := gas_limit proposer;
    proposer_fee_recipient := fee_recipient proposer;
    bidder := revenue_updates;
  |} in
  let attributes := attach_proposal attributes proposal in
  let auction := {|
    context_slot := slot;
    context_attributes := attributes;
    context_proposer := proposer;
    context_relays := relays;
  |} in
  let '(self, auction) := store_auction auction self in
  let self := emit (NewPayload (context_attributes auction)) self in
  if world_new_payload world (context_attributes auction) then
    let payload_id := payload_id_of (context_attributes auction) in
    (emit (StartBid auction revenue_updates) self, Some payload_id)
  else (self, None).

(** The result is whether the identifier is new. *)
Definition observe_payload_id (slot : N) (payload_id : PayloadId) (self : Service)
    : Service * bool :=
  let processed_set := default ∅ (processed_payload_attributes self !! slot) in
  (set_processed
     (<[slot := {[payload_id]} ∪ processed_set]> (processed_payload_attributes self)) self,
   bool_decide (payload_id ∉ processed_set)).

(** The body of the loop over the proposals. *)
Definition open_for (world : World) (slot : N) (attributes : BuilderPayloadBuilderAttributes)
    (self : Service) (entry : Proposer * gset nat) : Service :=
  let '(self, opened) := open_auction world slot entry.1 entry.2 attributes self in
  match opened with
  | Some payload_id => (observe_payload_id slot payload_id self).1
  | None => self
  end.

Definition on_payload_attributes (config : Config) (world : World)
    (attributes : BuilderPayloadBuilderAttributes) (self : Service) : option Service :=
  slot ← convert_timestamp_to_slot world (timestamp_of attributes) (config_genesis_time config)
           (seconds_per_slot (config_context config));
  let '(self, is_new) := observe_payload_id slot (payload_id_of attributes) self in
  if negb is_new then Some self
  else
    match get_proposals slot self with
    | Some proposals =>
        Some (foldl (open_for world slot attributes) self (iter_proposals world proposals))
    | None => Some self
    end.

Definition submit_payload (config : Config) (world : World) (payload : EthBuiltPayload)
    (self : Service) : option Service :=
  auction ← open_auctions self !! built_id payload;
  prepared ← prepare_submission payload (config_secret_key config) (config_public_key config)
               auction (config_context config);
  match prepared with
  | Ok signed_submission =>
      Some (foldl (λ self relay_index,
        match config_relays config !! relay_index with
        | Some relay => emit (SubmitBid relay signed_submission) self
        | None => self
        end) self (iter_relays world (context_relays auction)))
  | Err _ => Some self
  end.

Inductive ClockMessage : Type :=
| NewSlot (slot : N)
| NewEpoch (epoch : N).

Definition process_clock (config : Config) (world : World) (message : ClockMessage)
    (self : Service) : Service :=
  match message with
  | NewSlot slot => on_slot config world slot self
  | NewEpoch epoch => on_epoch config epoch self
  end.

(** The branches of the [select!] in [spawn]; an event other than new attributes is
    ignored. *)
Inductive Message : Type :=
| Clock (message : ClockMessage)
| PayloadEvent (attributes : option BuilderPayloadBuilderAttributes)
| Bid (payload : EthBuiltPayload).

Definition process_payload_event (config : Config) (world : World)
    (event : option BuilderPayloadBuilderAttributes) (self : Service) : option Service :=
  match event with
  | Some attributes => on_payload_attributes config world attributes self
  | None => Some self
  end.

Definition process_message (config : Config) (self : Service) (message : World * Message)
    : option Service :=
  match message with
  | (world, Clock message) => Some (process_clock config world message self)
  | (world, PayloadEvent event) => process_payload_event config world event self
  | (world, Bid payload) => submit_payload config world payload self
  end.

(** [spawn]: the schedules are fetched once, then messages are processed one by one. *)
Definition spawn (config : Config) (world : World) (messages : list (World * Message))
    (self : Service) : option Service :=
  foldl (λ self message, self ← self; process_message config self message)
    (Some (fetch_proposer_schedules config world self)) messages.
End auctioneer.

Arguments Effect {CT} Url.
Arguments Config {CT} Url.
Arguments Service {CT} Url.
Arguments World {CT} Url.

(** * Properties *)

Section auctioneer_properties.
Context `{CF : ConsensusFunctions} `{BS : !BuilderSignable}.
Context {HS : Hashing} `{ET : !ExecutionTypes} {PT : PayloadTypes} {Url : Type}.
Implicit Types (self : Service Url) (config : Config Url) (world : World Url).
Implicit Types (auction : AuctionContext) (a : BuilderPayloadBuilderAttributes).

(** ** The invariant *)

(** An auction is kept under the identifier of its attributes, and these ask for the
    gas limit and the fee recipient of its proposer. *)
Definition auction_ok (id : PayloadId) auction : Prop :=
  payload_id_of (context_attributes auction) = id ∧
  ∃ revenue_updates, proposal (context_attributes auction) = Some {|
    proposer_gas_limit := gas_limit (context_proposer auction);
    proposer_fee_recipient := fee_recipient (context_proposer auction);
    bidder := revenue_updates;
  |}.

Definition service_ok self : Prop := map_Forall auction_ok (open_auctions self).

Lemma fetch_open_auctions config world self :
  open_auctions (fetch_proposer_schedules config world self) = open_auctions self.
Proof.
  apply (foldl_invariant (λ self', open_auctions self' = open_auctions self)); [|done].
  intros self' [i relay] _ H. by destruct (world_schedule world relay).
Qed.

Lemma store_auction_spec auction self :
  let id := payload_id_of (context_attributes auction) in
  (store_auction auction self).2 = default auction (open_auctions self !! id) ∧
  open_auctions (store_auction auction self).1 =
    <[id := default auction (open_auctions self !! id)]> (open_auctions self) ∧
  effects (store_auction auction self).1 = effects self ∧
  processed_payload_attributes (store_auction auction self).1 = processed_payload_attributes self.
Proof.
  unfold store_auction. simpl. destruct (open_auctions self !! _) as [stored|] eqn:H; simpl.
  - by rewrite insert_id.
  - done.
Qed.

Lemma open_auction_ok world slot proposer rs a self :
  service_ok self → service_ok (open_auction world slot proposer rs a self).1.
Proof.
  intros Hself. unfold open_auction, channel.
  match goal with |- context [store_auction ?x ?y] =>
    pose proof (store_auction_spec x y) as (Hsnd & Hopen & _);
    assert (Hok : service_ok (store_auction x y).1);
    [|destruct (store_auction x y) as [self' auction]] end.
  - unfold service_ok. rewrite Hopen. apply map_Forall_insert_2; [|done].
    destruct (open_auctions _ !! _) as [stored|] eqn:Hstored; [by apply Hself|].
    split; [done|]. by eexists.
  - simpl. by destruct (world_new_payload _ _).
Qed.

Lemma open_for_ok world slot a self entry :
  service_ok self → service_ok (open_for world slot a self entry).
Proof.
  intros Hself. pose proof (open_auction_ok world slot entry.1 entry.2 a self Hself) as Hok.
  unfold open_for. by destruct (open_auction _ _ _ _ _ _) as [self' [id|]].
Qed.

Lemma process_message_ok config self message self' :
  service_ok self → process_message config self message = Some self' → service_ok self'.
Proof.
  intros Hself. destruct message as [world [[slot|epoch]|[a|]|payload]]; simpl.
  - intros [= <-]. unfold on_slot. case_decide; [|done].
    unfold service_ok. by rewrite fetch_open_auctions.
  - intros [= <-] id auction [H _]%map_lookup_filter_Some. by apply Hself.
  - unfold on_payload_attributes. intros (slot & _ & H)%bind_Some. revert H. simpl.
    case_bool_decide; simpl; [|by intros [= <-]].
    destruct (get_proposals _ _) as [proposals|]; intros [= <-]; [|done].
    apply foldl_invariant; [|done]. intros. by apply open_for_ok.
  - by intros [= <-].
  - unfold submit_payload. intros (auction & _ & H)%bind_Some. revert H.
    intros (prepared & _ & H)%bind_Some. revert H.
    destruct prepared; intros [= <-]; [|done].
    apply foldl_invariant; [|done]. intros self'' i _ ?. by destruct (_ !! i).
Qed.

Lemma spawn_service_ok secret_key rs context genesis_time world messages :
  let '(config, self) := new (Url := Url) secret_key rs context genesis_time in
  match spawn config world messages self with
  | Some self' => service_ok self'
  | None => True
  end.
Proof.
  simpl. unfold spawn.
  apply (foldl_invariant (λ o, match o with Some self => service_ok self | None => True end)).
  - intros [self|] message _ Hself; [|done]. simpl.
    destruct (process_message _ self message) as [self'|] eqn:H; [|done].
    by eapply process_message_ok.
  - unfold service_ok. by rewrite fetch_open_auctions.
Qed.

(** C28: Whatever messages the service processes, every open auction is kept
    under the identifier of its attributes, and these ask the payload builder for
    the gas limit and the fee recipient its proposer has registered. *)
Theorem spawn_ok secret_key rs context genesis_time world messages :
  let '(config, self) := new (Url := Url) secret_key rs context genesis_time in
  match spawn config world messages self with
  | Some self' => service_ok self'
  | None => True
  end.
Proof. apply spawn_service_ok. Qed.

(** ** Duplicate events *)

Definition processed self (slot : N) : gset PayloadId :=
  default ∅ (processed_payload_attributes self !! slot).

(** The time [world] gives to the attributes. *)
Definition slot_of config world a : option N :=
  convert_timestamp_to_slot world (timestamp_of a) (config_genesis_time config)
    (seconds_per_slot (config_context config)).

Lemma observe_processed slot id self slot' :
  processed (observe_payload_id slot id self).1 slot' =
    if decide (slot' = slot) then {[id]} ∪ processed self slot' else processed self slot'.
Proof.
  unfold processed. simpl. case_decide as H; [subst; by rewrite lookup_insert_eq|].
  by rewrite lookup_insert_ne.
Qed.

(** An event whose identifier was processed in its slot changes nothing. *)
Lemma processed_ignored config world a self slot :
  slot_of config world a = Some slot → payload_id_of a ∈ processed self slot →
  on_payload_attributes config world a self = Some self.
Proof.
  unfold slot_of, on_payload_attributes, processed. intros -> Hin. simpl.
  rewrite bool_decide_eq_false_2 by (by intros Hnot). simpl. f_equal.
  destruct (processed_payload_attributes self !! slot) as [ids|] eqn:Hids; simpl in *;
    [|set_solver].
  assert (Hsame : {[payload_id_of a]} ∪ ids = ids) by set_solver.
  rewrite Hsame, insert_id by done. by destruct self.
Qed.

(** The bidders started since [self0] are for identifiers processed in [slot]. *)
Definition bids_processed (self0 : Service Url) (slot : N) self : Prop :=
  ∃ new, effects self = effects self0 ++ new ∧
    ∀ auction ch, StartBid auction ch ∈ new →
      payload_id_of (context_attributes auction) ∈ processed self slot.

Lemma open_for_processed world slot a self0 self entry :
  bids_processed self0 slot self → bids_processed self0 slot (open_for world slot a self entry).
Proof.
  intros (new & Heff & Hnew). unfold open_for, open_auction, channel.
  match goal with |- context [store_auction ?x ?y] =>
    pose proof (store_auction_spec x y) as (_ & _ & Heff' & Hproc');
    destruct (store_auction x y) as [self' auction] end.
  cbn [fst snd effects processed_payload_attributes] in Heff', Hproc'.
  destruct (world_new_payload _ _).
  - exists (new ++ [NewPayload (context_attributes auction); StartBid auction (next_channel self)]).
    split; [simpl; by rewrite Heff', Heff, <-!app_assoc|].
    intros auction' ch [Hin|Hin]%elem_of_app;
      rewrite observe_processed, decide_True by done; apply elem_of_union.
    + right. unfold processed, emit. simpl. rewrite Hproc'. by apply (Hnew auction' ch).
    + left. rewrite !elem_of_cons in Hin. destruct Hin as [?|[[= -> ->]|Hin]]; [done| |].
      * by apply elem_of_singleton.
      * by apply elem_of_nil in Hin.
  - exists (new ++ [NewPayload (context_attributes auction)]).
    split; [simpl; by rewrite Heff', Heff, <-!app_assoc|].
    intros auction' ch [Hin|Hin]%elem_of_app.
    + unfold processed. simpl. rewrite Hproc'. by apply (Hnew auction' ch).
    + apply elem_of_cons in Hin as [?|Hin]; [done|]. by apply elem_of_nil in Hin.
Qed.

Lemma open_for_grows world slot a self entry id :
  id ∈ processed self slot → id ∈ processed (open_for world slot a self entry) slot.
Proof.
  intros Hid. unfold open_for, open_auction, channel.
  match goal with |- context [store_auction ?x ?y] =>
    pose proof (store_auction_spec x y) as (_ & _ & _ & Hproc');
    destruct (store_auction x y) as [self' auction] end.
  cbn [fst processed_payload_attributes] in Hproc'.
  destruct (world_new_payload _ _).
  - rewrite observe_processed, decide_True by done. apply elem_of_union. right.
    unfold processed, emit. simpl. by rewrite Hproc'.
  - unfold processed. simpl. by rewrite Hproc'.
Qed.

(** The payload builder announces every payload it starts as new payload
    attributes.  The service ignores the announcements of the auctions it has itself
    opened, as it ignores a repetition of the event it opened them for: neither
    changes its state or starts anything. *)
Theorem own_auctions_ignored config world a self self' slot :
  slot_of config world a = Some slot →
  on_payload_attributes config world a self = Some self' →
  ∃ new, effects self' = effects self ++ new ∧
    ∀ world' a', slot_of config world' a' = Some slot →
      payload_id_of a' = payload_id_of a ∨
      (∃ auction ch, StartBid auction ch ∈ new ∧
                     payload_id_of a' = payload_id_of (context_attributes auction)) →
      on_payload_attributes config world' a' self' = Some self'.
Proof.
  intros Hslot Hrun.
  assert (Hbids : bids_processed self slot self' ∧ payload_id_of a ∈ processed self' slot).
  { revert Hrun. unfold on_payload_attributes. fold (slot_of config world a). rewrite Hslot.
    simpl.
    assert (Hobs : bids_processed self slot (observe_payload_id slot (payload_id_of a) self).1 ∧
      payload_id_of a ∈ processed (observe_payload_id slot (payload_id_of a) self).1 slot).
    { split.
      - exists []. split; [by rewrite app_nil_r|]. intros ? ? Hin. by apply elem_of_nil in Hin.
      - rewrite observe_processed, decide_True by done. set_solver. }
    case_bool_decide; simpl; [|by intros [= <-]].
    destruct (get_proposals _ _) as [proposals|]; intros [= <-]; [|done].
    apply (foldl_invariant (λ self', bids_processed self slot self' ∧
      payload_id_of a ∈ processed self' slot)); [|done].
    intros self'' entry _ [Hb Hin]. split; [by apply open_for_processed|].
    by apply open_for_grows. }
  destruct Hbids as [(new & Heff & Hnew) Hin]. exists new. split; [done|].
  intros world' a' Hslot' [Heq|(auction & ch & Hstart & Heq)];
    apply (processed_ignored _ _ _ _ slot); rewrite ?Heq; eauto.
Qed.

(** ** Submissions *)

(** The relays an auction is for, among those configured. *)
Definition relays_of config world auction : list (Relay Url) :=
  omap (λ i, config_relays config !! i) (iter_relays world (context_relays auction)).

Lemma submit_loop config (sub : SignedBidSubmission) l self :
  foldl (λ self relay_index,
    match config_relays config !! relay_index with
    | Some relay => emit (SubmitBid relay sub) self
    | None => self
    end) self l =
  {| auction_schedule := auction_schedule self; open_auctions := open_auctions self;
     processed_payload_attributes := processed_payload_attributes self;
     next_channel := next_channel self;
     effects := effects self ++
       map (λ relay, SubmitBid relay sub) (omap (λ i, config_relays config !! i) l) |}.
Proof.
  revert self. induction l as [|i l IH]; intros self; simpl.
  - rewrite app_nil_r. by destruct self.
  - rewrite IH. destruct (config_relays config !! i); simpl; [|done]. by rewrite <-app_assoc.
Qed.

Lemma submit_payload_Some config world payload self self' :
  submit_payload config world payload self = Some self' →
  ∃ auction prepared,
    open_auctions self !! built_id payload = Some auction ∧
    prepare_submission payload (config_secret_key config) (config_public_key config) auction
      (config_context config) = Some prepared ∧
    open_auctions self' = open_auctions self ∧
    processed_payload_attributes self' = processed_payload_attributes self ∧
    effects self' = effects self ++
      match prepared with
      | Ok sub => map (λ relay, SubmitBid relay sub) (relays_of config world auction)
      | Err _ => []
      end.
Proof.
  unfold submit_payload. intros (auction & Hauction & H)%bind_Some.
  apply bind_Some in H as (prepared & Hprep & H). exists auction, prepared.
  destruct prepared as [sub|e]; simplify_eq.
  - rewrite submit_loop. by split_and!.
  - by rewrite app_nil_r.
Qed.

(** A payload is submitted once to each configured relay of the auction it
    was built for, as one and the same submission, prepared from that auction; when
    no submission can be prepared nothing is sent; and nothing else changes. *)
Theorem submit_payload_spec config world payload self self' :
  submit_payload config world payload self = Some self' →
  ∃ auction prepared,
    open_auctions self !! built_id payload = Some auction ∧
    prepare_submission payload (config_secret_key config) (config_public_key config) auction
      (config_context config) = Some prepared ∧
    open_auctions self' = open_auctions self ∧
    processed_payload_attributes self' = processed_payload_attributes self ∧
    effects self' = effects self ++
      match prepared with
      | Ok sub => map (λ relay, SubmitBid relay sub) (relays_of config world auction)
      | Err _ => []
      end.
Proof. apply submit_payload_Some. Qed.

(** [on_epoch] keeps exactly the auctions of the epoch's slots and later. *)
Theorem auctioneer_on_epoch_retains config epoch self id auction :
  epoch * slots_per_epoch (config_context config) < u64_mod →
  open_auctions (on_epoch config epoch self) !! id = Some auction ↔
  open_auctions self !! id = Some auction ∧
    epoch * slots_per_epoch (config_context config) ≤ context_slot auction.
Proof.
  intros Hrange. unfold on_epoch. simpl. rewrite map_lookup_filter_Some.
  by rewrite u64_mul_small.
Qed.

(** A payload that is finished for an auction after the clock has left the
    auction's epoch finds no auction, and the service panics. *)
Theorem late_payload_panics config world world' epoch payload auction self :
  epoch * slots_per_epoch (config_context config) < u64_mod →
  open_auctions self !! built_id payload = Some auction →
  context_slot auction < epoch * slots_per_epoch (config_context config) →
  (self ← process_message config self (world, Clock (NewEpoch epoch));
   process_message config self (world', Bid payload)) = None.
Proof.
  intros Hrange Hauction Hslot. simpl. unfold submit_payload.
  destruct (open_auctions (on_epoch config epoch self) !! built_id payload) as [auction'|] eqn:H;
    [|done].
  unfold on_epoch in H. simpl in H. apply map_lookup_filter_Some in H as [H Hle].
  rewrite u64_mul_small in Hle by done. simplify_eq. lia.
Qed.

(** Two proposers of one slot that ask for the same gas limit and fee
    recipient share an identifier: opening an auction for the second leaves the first
    one's in place: the auctions are as they were. *)
Theorem equal_preferences_share_auction world slot p1 p2 rs1 rs2 a self :
  gas_limit p1 = gas_limit p2 → fee_recipient p1 = fee_recipient p2 →
  let self1 := (open_auction world slot p1 rs1 a self).1 in
  open_auctions (open_auction world slot p2 rs2 a self1).1 = open_auctions self1.
Proof.
  intros Hgas Hfee. cbv zeta.
  assert (Hspec : ∀ p rs (s : Service Url),
    let id := mix_proposal_into_payload_id (payload_id_of a)
      {| proposer_gas_limit := gas_limit p; proposer_fee_recipient := fee_recipient p;
         bidder := next_channel s |} in
    ∃ stored, open_auctions (open_auction world slot p rs a s).1
      = <[id := stored]> (open_auctions s) ∧
      (∀ x, open_auctions s !! id = Some x → stored = x)).
  { intros p rs s. unfold open_auction, channel.
    match goal with |- context [store_auction ?x ?y] =>
      pose proof (store_auction_spec x y) as (_ & Hopen & _);
      destruct (store_auction x y) as [s' auction] end.
    cbn [fst open_auctions] in Hopen. eexists. split.
    - destruct (world_new_payload _ _); exact Hopen.
    - intros x Hx. unfold payload_id_of, attach_proposal in *. simpl in *. by rewrite Hx. }
  destruct (Hspec p1 rs1 self) as (x1 & H1 & _).
  destruct (Hspec p2 rs2 (open_auction world slot p1 rs1 a self).1) as (x2 & H2 & Hsame).
  rewrite H2. apply insert_id.
  assert (Hid : ∀ ch ch', mix_preimage (payload_id_of a) {| proposer_gas_limit := gas_limit p2;
      proposer_fee_recipient := fee_recipient p2; bidder := ch |} =
    mix_preimage (payload_id_of a) {| proposer_gas_limit := gas_limit p1;
      proposer_fee_recipient := fee_recipient p1; bidder := ch' |}).
  { intros. unfold mix_preimage. simpl. by rewrite Hgas, Hfee. }
  unfold mix_proposal_into_payload_id in *. rewrite (Hid _ (next_channel self)) in *.
  rewrite H1 in *.
  rewrite lookup_insert_eq in *. f_equal. symmetry. by apply Hsame.
Qed.
End auctioneer_properties.

(** * Examples *)

Section examples.
Import ToyInstances.
Import ToyHashing.
Import ToyExecution.
Import ToyPayloads.

(** A builder with secret key 2 and three relays; the first and the third report
    that the validator with key [1005] proposes in slot 201.  Slots take twelve
    seconds. *)
Definition toy_relays : list (Relay N) :=
  map (λ k, {| relay_public_key := toy_pk k; relay_endpoint := k |}) [1001; 1002; 1003].

Definition toy_entry : ProposerSchedule := {|
  schedule_slot := 201;
  schedule_validator_index := 3;
  schedule_entry := {|
    registration_message := {|
      registration_fee_recipient := toy_address 77;
      registration_gas_limit := 30000000;
      registration_timestamp := 20;
      registration_public_key := toy_pk 1005;
    |};
    registration_signature := toy_sig 1005 1005027;
  |};
|}.

Definition toy_world : World N := {|
  world_schedule := λ relay,
    if relay_endpoint relay =? 1002 then Err (Error_Api (0 : ApiError)) else Ok [toy_entry];
  world_new_payload := λ _, true;
  convert_timestamp_to_slot := λ t genesis seconds, Some ((t - genesis) / seconds);
  iter_proposals := λ m, map_to_list m;
  iter_relays := λ s, elements s;
|}.

Definition toy_config : Config N := (new (toy_sk 2) toy_relays (toy_network 32) 0).1.

Definition toy_attributes : BuilderPayloadBuilderAttributes :=
  Attributes.new (toy_hash 40) {|
    rpc_timestamp := 2412;
    rpc_prev_randao := toy_hash 3;
    rpc_suggested_fee_recipient := toy_address 9;
    rpc_withdrawals := Some [];
    rpc_parent_beacon_block_root := None;
  |}.

(** The service after the chain asked for a payload in slot 201. *)
Definition toy_before : Service N :=
  fetch_proposer_schedules toy_config toy_world (new (toy_sk 2) toy_relays (toy_network 32) 0).2.
Definition toy_service : Service N :=
  default toy_before (on_payload_attributes toy_config toy_world toy_attributes toy_before).

Definition toy_auction_context : AuctionContext := {|
  context_slot := 201;
  context_attributes := attach_proposal toy_attributes {|
    proposer_gas_limit := 30000000; proposer_fee_recipient := toy_address 77; bidder := 0 |};
  context_proposer := {|
    proposer_public_key := toy_pk 1005; fee_recipient := toy_address 77;
    gas_limit := 30000000 |};
  context_relays := {[0%nat; 2%nat]};
|}.

Definition toy_built : EthBuiltPayload := {|
  built_id := payload_id_of (context_attributes toy_auction_context);
  built_block := toy_block 40 41;
  built_fees := 500;
  built_sidecars := [];
|}.

Definition submitted_to (self : Service N) : list N :=
  omap (λ e, match e with SubmitBid relay _ => Some (relay_endpoint relay) | _ => None end)
    (effects self).

Definition opened (self : Service N) : nat :=
  length (omap (λ e, match e with StartBid _ _ => Some tt | _ => None end) (effects self)).

(** One auction is opened, and the payload goes to the two relays that know the
    proposer. *)
Lemma submit_payload_spec_witness :
  opened toy_service = 1%nat ∧
  match submit_payload toy_config toy_world toy_built toy_service with
  | Some self' => submitted_to self' = [1003; 1001] ∧ open_auctions self' = open_auctions toy_service
  | None => False
  end.
Proof.
  split; [vm_compute; reflexivity|].
  destruct (submit_payload toy_config toy_world toy_built toy_service) as [self'|] eqn:H.
  - destruct (submit_payload_spec toy_config toy_world toy_built toy_service self' H)
      as (auction & prepared & _ & _ & Hopen & _ & _).
    split; [|exact Hopen].
    assert (Hsub : submitted_to <$> submit_payload toy_config toy_world toy_built toy_service
      = Some [1003; 1001]) by (vm_compute; reflexivity).
    rewrite H in Hsub. by injection Hsub.
  - assert (Hsome : bool_decide (is_Some (submit_payload toy_config toy_world toy_built toy_service))
      = true) by (vm_compute; reflexivity).
    rewrite H in Hsome. discriminate Hsome.
Defined.

Lemma toy_service_run :
  on_payload_attributes toy_config toy_world toy_attributes toy_before = Some toy_service.
Proof.
  unfold toy_service.
  destruct (on_payload_attributes toy_config toy_world toy_attributes toy_before) eqn:H; [done|].
  assert (Hsome : bool_decide (is_Some (on_payload_attributes toy_config toy_world toy_attributes
    toy_before)) = true) by (vm_compute; reflexivity).
  rewrite H in Hsome. discriminate Hsome.
Qed.

Lemma own_auctions_ignored_witness :
  on_payload_attributes toy_config toy_world toy_attributes toy_service = Some toy_service.
Proof.
  destruct (own_auctions_ignored toy_config toy_world toy_attributes toy_before toy_service 201)
    as (new & _ & Hnew).
  - vm_compute. reflexivity.
  - exact toy_service_run.
  - apply (Hnew toy_world toy_attributes); [vm_compute; reflexivity|]. left. reflexivity.
Defined.

Lemma toy_open : context_slot <$> open_auctions toy_service !! built_id toy_built = Some 201.
Proof. by vm_compute. Qed.

Lemma auctioneer_on_epoch_retains_witness :
  ∃ auction, open_auctions (on_epoch toy_config 6 toy_service) !! built_id toy_built = Some auction.
Proof.
  pose proof toy_open as Hopen.
  destruct (open_auctions toy_service !! built_id toy_built) as [auction|] eqn:H;
    [|discriminate Hopen].
  exists auction. apply auctioneer_on_epoch_retains.
  - vm_compute. reflexivity.
  - split; [exact H|]. simpl in Hopen. injection Hopen as ->. vm_compute. discriminate.
Defined.

Lemma late_payload_panics_witness :
  (self ← process_message toy_config toy_service (toy_world, Clock (NewEpoch 7));
   process_message toy_config self (toy_world, Bid toy_built)) = None.
Proof.
  pose proof toy_open as Hopen.
  destruct (open_auctions toy_service !! built_id toy_built) as [auction|] eqn:H;
    [|discriminate Hopen].
  apply (late_payload_panics toy_config toy_world toy_world 7 toy_built auction).
  - vm_compute. reflexivity.
  - exact H.
  - simpl in Hopen. injection Hopen as ->. vm_compute. reflexivity.
Defined.

(** A second validator with the same preferences. *)
Lemma equal_preferences_share_auction_witness :
  let p k := {| proposer_public_key := toy_pk k; fee_recipient := toy_address 77;
                gas_limit := 30000000 |} in
  let self1 := (open_auction toy_world 201 (p 1005) ∅ toy_attributes toy_before).1 in
  open_auctions (open_auction toy_world 201 (p 1006) ∅ toy_attributes self1).1
    = open_auctions self1.
Proof.
  exact (equal_preferences_share_auction toy_world 201
    {| proposer_public_key := toy_pk 1005; fee_recipient := toy_address 77; gas_limit := 30000000 |}
    {| proposer_public_key := toy_pk 1006; fee_recipient := toy_address 77; gas_limit := 30000000 |}
    ∅ ∅ toy_attributes toy_before eq_refl eq_refl).
Defined.
End examples.
