(* ===== verification/EndToEnd.v ===== *)
(** What the three programs promise each other: the relay accepts what the builder
    submits, and the proposer's multiplexer accepts what the relay answers. *)

From S2P Require Import Prelude.
From S2P Require Import Consensus.
From S2P Require Import Types.
From S2P Require Import Signing.
From S2P Require Import ValidatorRegistry.
From S2P Require Import AuctionContext.
From S2P Require Import Tasks.
From S2P Require Import RelayBlocks.
From S2P Require Import RelayClient.
From S2P Require Import RelayMux.
From S2P Require Import Execution.
From S2P Require Import Attributes.
From S2P Require Import Compat.
From S2P Require Import AuctionSchedule.
From S2P Require Import Auctioneer.
From S2P Require Import Relay.
From S2P Require Import RelaySpec.
From S2P Require Import RelaySafety.
From S2P Require Import Toy.

#[local] Open Scope N_scope.

(** * From the builder to the relay *)

Section builder_to_relay.
Context `{CF : ConsensusFunctions} `{BS : !BuilderSignable}.
Context {HS : Hashing} `{ET : !ExecutionTypes} {PT : PayloadTypes}.
Context `{PL : !PayloadLaws PT} `{TL : !SignableLaws BidTrace}.

(** The submission carries the trace, the payload of the block, and a signature of
    the trace that verifies under the builder's key. *)
Lemma prepare_submission_Ok payload sk auction ctx sub :
  prepare_submission payload sk (secret_key_public_key sk) auction ctx = Some (Ok sub) →
  submission_message sub = bid_trace_for payload (secret_key_public_key sk) auction ∧
  to_execution_payload (built_block payload) (fork_for ctx (context_slot auction))
    = Some (Ok (submission_payload sub)) ∧
  verify_signed_builder_data (submission_message sub) (secret_key_public_key sk)
    (submission_signature sub) ctx = Ok tt.
Proof.
  unfold prepare_submission. intros (r & Hr & H)%bind_Some. injection H as H.
  apply bind_Ok in H as (p & -> & H). apply bind_Ok in H as (sig & Hsig & H).
  apply map_err_Ok in Hsig. pose proof (sign_builder_message_verifies _ _ _ _ Hsig) as Hver.
  apply to_execution_payload_fields in Hr as Hf. destruct Hf as (_ & _ & _ & _ & Hfork & _).
  rewrite Hfork in *. apply bind_Ok in H as (bundle & _ & H). by injection H as <-.
Qed.

(** What the auctioneer prepares passes every check of the relay: if the
    payload builds on the block the auction is for, the relay has accepted this
    builder and opened the auction, and the preferences the auction was opened with
    are those of the proposer's current registration at the relay, then the
    submission is valid there. *)
Theorem prepared_submission_accepted inner (s : Shared) payload sk auction sub registration :
  prepare_submission payload sk (secret_key_public_key sk) auction (relay_context inner)
    = Some (Ok sub) →
  attributes_parent (Attributes.inner (context_attributes auction))
    = header_parent (sealed_header (built_block payload)) →
  secret_key_public_key sk ∈ builder_registry inner →
  {| slot := context_slot auction;
     parent_hash := attributes_parent (Attributes.inner (context_attributes auction));
     public_key := proposer_public_key (context_proposer auction) |}
    ∈ Relay.open_auctions (state s) →
  get_signed_registration (registry s) (proposer_public_key (context_proposer auction))
    = Some registration →
  fee_recipient (context_proposer auction)
    = registration_fee_recipient (registration_message registration) →
  submission_valid inner s sub.
Proof.
  intros Hprep Hparent Hbuilder Hopen Hreg Hfee.
  apply prepare_submission_Ok in Hprep as (Hmsg & Hpayload & Hver).
  apply to_execution_payload_fields in Hpayload as (Hp & Hb & Hl & Hu & _).
  split; unfold builder_of, request_of, signed_by_builder, trace_describes; rewrite Hmsg.
  - done.
  - done.
  - rewrite Hp, Hb, Hl, Hu. split_and!; try done. by exists registration.
  - unfold builder_of. rewrite Hmsg. by rewrite Hmsg in Hver.
Qed.
End builder_to_relay.

(** * From the relay to the multiplexer *)

Section relay_to_mux.
Context `{CF : ConsensusFunctions} `{BS : !BuilderSignable} `{CL : !ConsensusLaws}.
Context `{!SignableLaws BuilderBid} (arrived : SignedBidSubmission → Prop).

(** Every bid the relay sells passes the multiplexer's validation under the
    relay's public key. *)
Theorem sold_bid_validates inner k c :
  sold arrived inner k c →
  validate_bid (signed_builder_bid c) (Relay.relay_public_key inner) (relay_context inner) = Ok tt.
Proof.
  intros (sub & d & [] & _). apply validate_bid_Ok. by split.
Qed.

(** The contents the relay releases for a context it has sold pass the
    multiplexer's validation against any block with the header of the bid and the
    commitments of the bid. *)
Theorem sold_contents_match inner k c (block : SignedBlindedBeaconBlock) :
  sold arrived inner k c →
  blinded_payload_header (blinded_message block)
    = bid_header (signed_bid_message (signed_builder_bid c)) →
  blinded_kzg_commitments (blinded_message block)
    = bid_blob_kzg_commitments (signed_bid_message (signed_builder_bid c)) →
  matches_block block (to_auction_contents c).
Proof.
  intros Hsold Hheader Hkzg. pose proof (sold_header arrived inner k c Hsold) as Hto.
  destruct Hsold as (sub & d & Hc & _). unfold matches_block.
  rewrite Hheader, Hkzg. apply to_header_hashes in Hto as [-> _]. split; [done|].
  rewrite (holds_commitments _ _ _ _ _ Hc), <-(holds_blobs _ _ _ _ _ Hc). by destruct c.
Qed.
End relay_to_mux.

(** * Examples *)

Section examples.
Import ToyInstances.
Import ToyHashing.
Import ToyExecution.
Import ToyPayloads.

(** The builder's submission for the block of its auction, and the relay that has
    the proposer's registration and has opened the auction. *)
Definition toy_prepared : option (result BuildError SignedBidSubmission) :=
  prepare_submission toy_built (toy_sk 2) (secret_key_public_key (toy_sk 2)) toy_auction_context
    (relay_context toy_inner).

Lemma toy_prepared_Ok : ∃ sub, toy_prepared = Some (Ok sub).
Proof.
  assert (H : bool_decide (is_Some (r ← toy_prepared; if is_ok r then Some () else None)) = true)
    by (vm_compute; reflexivity).
  destruct toy_prepared as [[sub|e]|]; [by exists sub|done|done].
Qed.

Lemma prepared_submission_accepted_witness :
  ∃ sub, toy_prepared = Some (Ok sub) ∧ submission_valid toy_inner toy_relay sub.
Proof.
  destruct toy_prepared_Ok as (sub & H). exists sub. split; [exact H|].
  refine (prepared_submission_accepted toy_inner toy_relay toy_built (toy_sk 2)
    toy_auction_context sub (toy_registration 20) H _ _ _ _ _).
  - reflexivity.
  - apply (bool_decide_unpack _). vm_compute. exact I.
  - apply (bool_decide_unpack _). vm_compute. exact I.
  - vm_compute. reflexivity.
  - reflexivity.
Defined.

(** The context the relay makes of a submission is one it may sell. *)
Definition toy_sale : result Error AuctionContext.AuctionContext := toy_context 201 40 41 500 6.

Lemma toy_sold : ∃ c, toy_sale = Ok c ∧ sold any_submission toy_inner toy_request c.
Proof.
  assert (Hok : is_ok toy_sale = true) by (vm_compute; reflexivity).
  apply is_ok_true in Hok as [c Hc]. exists c. split; [exact Hc|].
  exists (toy_submission 201 40 41 500), 6%N.
  split; [exact (new_holds _ _ _ _ _ Hc)|]. split; [exact I|]. split; [reflexivity|].
  split; [apply (bool_decide_unpack _); vm_compute; exact I|].
  split; [vm_compute; reflexivity|]. split; [reflexivity|]. split; [reflexivity|].
  exists (toy_registration 20).
  split; [reflexivity|]. split; [vm_compute; reflexivity|reflexivity].
Qed.

Lemma sold_bid_validates_witness :
  ∃ c, toy_sale = Ok c ∧
    validate_bid (signed_builder_bid c) (Relay.relay_public_key toy_inner) (relay_context toy_inner)
      = Ok tt.
Proof.
  destruct toy_sold as (c & H & Hsold). exists c. split; [exact H|].
  exact (sold_bid_validates any_submission toy_inner toy_request c Hsold).
Defined.

(** The header and the commitments of the bid are those of the block the proposer
    signs. *)
Lemma toy_sale_header c :
  toy_sale = Ok c →
  blinded_payload_header (blinded_message (toy_blinded_block 201 40 41))
    = bid_header (signed_bid_message (signed_builder_bid c)) ∧
  blinded_kzg_commitments (blinded_message (toy_blinded_block 201 40 41))
    = bid_blob_kzg_commitments (signed_bid_message (signed_builder_bid c)).
Proof.
  intros Hc. pose proof (new_holds _ _ _ _ _ Hc) as Hholds. split.
  - pose proof (holds_header _ _ _ _ _ Hholds) as H. revert H. generalize (bid_header
      (signed_bid_message (signed_builder_bid c))). intros h H. vm_compute in H.
    injection H as <-. reflexivity.
  - rewrite (holds_commitments _ _ _ _ _ Hholds). reflexivity.
Qed.

Lemma sold_contents_match_witness :
  ∃ c, toy_sale = Ok c ∧ matches_block (toy_blinded_block 201 40 41) (to_auction_contents c).
Proof.
  destruct toy_sold as (c & H & Hsold). exists c. split; [exact H|].
  destruct (toy_sale_header c H) as [Hheader Hkzg].
  exact (sold_contents_match any_submission toy_inner toy_request c (toy_blinded_block 201 40 41) Hsold
    Hheader Hkzg).
Defined.
End examples.
