(* ===== verification/AuctionBook.v ===== *)
(** What the auctioneer does, told from the history of what it has heard.

    The relays name, in the schedules they answer with, the proposers of coming slots and
    their preferences; what a relay has named is known until the clock enters an epoch
    past the slot.  When the chain asks for a payload in a slot, the auctioneer opens an
    auction for each proposer that is known for it, and a payload built for an auction
    goes to relays that have named its proposer. *)

From S2P Require Import Prelude.
From S2P Require Import Consensus.
From S2P Require Import Types.
From S2P Require Import Signing.
From S2P Require Import ValidatorRegistry.
From S2P Require Import Relay.
From S2P Require Import RelaySpec.
From S2P Require Import EndToEnd.
From S2P Require Import RelayClient.
From S2P Require Import Execution.
From S2P Require Import Attributes.
From S2P Require Import Compat.
From S2P Require Import AuctionSchedule.
From S2P Require Import Auctioneer.
From S2P Require Import Toy.

#[local] Open Scope N_scope.

Section book.
Context `{CF : ConsensusFunctions} `{BS : !BuilderSignable}.
Context {HS : Hashing} `{ET : !ExecutionTypes} {PT : PayloadTypes} {Url : Type}.
Context (config : Auctioneer.Config Url) (start : World Url).
Implicit Types (self : Service Url) (world : World Url) (auction : AuctionContext).
Implicit Types (a : BuilderPayloadBuilderAttributes) (p : Proposer) (i : nat).
Implicit Types (messages : list (World Url * Message)) (m : World Url * Message).

(** * The specification *)

(** The [i]-th relay answers with a schedule that has the entry. *)
Definition reports world i (entry : ProposerSchedule) : Prop :=
  ∃ relay schedule, config_relays config !! i = Some relay ∧
    world_schedule world relay = Ok schedule ∧ entry ∈ schedule.

Definition names world i (slot : N) p : Prop :=
  ∃ entry, reports world i entry ∧ schedule_slot entry = slot ∧ entry_proposer entry = p.

(** The relays are asked at the start, and in every slot of this kind. *)
Definition asks (slot : N) : Prop :=
  u64_mul slot PROPOSAL_SCHEDULE_INTERVAL `mod` slots_per_epoch (config_context config) = 0.

(** [known messages slot p i]: after the messages, the [i]-th relay is known to serve [p]
    in the slot. *)
Inductive known : list (World Url * Message) → N → Proposer → nat → Prop :=
| known_start slot p i : names start i slot p → known [] slot p i
| known_asked messages world now slot p i :
    asks now → names world i slot p → known (messages ++ [(world, Clock (NewSlot now))]) slot p i
| known_kept messages m slot p i :
    known messages slot p i →
    (∀ epoch, m.2 = Clock (NewEpoch epoch) →
       u64_mul epoch (slots_per_epoch (config_context config)) ≤ slot) →
    known (messages ++ [m]) slot p i.

(** At some time the relay has named the proposer. *)
Definition named messages (slot : N) p i (entry : ProposerSchedule) : Prop :=
  schedule_slot entry = slot ∧ entry_proposer entry = p ∧
  ∃ world, (world = start ∨ ∃ now, (world, Clock (NewSlot now)) ∈ messages) ∧ reports world i entry.

Lemma named_later messages m slot p i entry :
  named messages slot p i entry → named (messages ++ [m]) slot p i entry.
Proof.
  intros (? & ? & world & Hworld & ?). split; [done|]. split; [done|]. exists world. split; [|done].
  destruct Hworld as [?|[now ?]]; [by left|]. right. exists now. apply elem_of_app. by left.
Qed.

Lemma known_named messages slot p i : known messages slot p i → ∃ entry, named messages slot p i entry.
Proof.
  induction 1 as [slot p i (entry & ? & ? & ?)|messages world now slot p i _ (entry & ? & ? & ?)
    |messages m slot p i _ [entry ?] _]; exists entry.
  - split; [done|]. split; [done|]. exists start. split; [by left|done].
  - split; [done|]. split; [done|]. exists world. split; [|done]. right. exists now.
    apply elem_of_app. right. left.
  - by apply named_later.
Qed.

Lemma known_nil slot p i : known [] slot p i → names start i slot p.
Proof.
  inversion 1 as [|messages ? ? ? ? ? ? ? Hnil|messages ? ? ? ? ? ? Hnil]; [done|..];
    by destruct messages.
Qed.

(** What a message adds to what is known. *)
Lemma known_snoc messages m slot p i :
  known (messages ++ [m]) slot p i ↔
  (∃ now, m.2 = Clock (NewSlot now) ∧ asks now ∧ names m.1 i slot p) ∨
  known messages slot p i ∧
    ∀ epoch, m.2 = Clock (NewEpoch epoch) →
      u64_mul epoch (slots_per_epoch (config_context config)) ≤ slot.
Proof.
  split.
  - inversion 1 as [? ? ? ? Hnil|messages' world now ? ? ? ? ? Hsnoc|messages' m' ? ? ? ? ? Hsnoc].
    + by destruct messages.
    + apply app_inj_tail in Hsnoc as [-> <-]. left. by exists now.
    + apply app_inj_tail in Hsnoc as [-> ->]. by right.
  - intros [(now & Hm & ? & ?)|[? ?]]; [|by constructor].
    destruct m as [world m]. simpl in *. subst m. by constructor.
Qed.

(** * The schedule *)

(** The messages that have been processed. *)
Definition heard messages self0 self : Prop := spawn config start messages self0 = Some self.

Lemma heard_snoc messages m self0 self :
  heard (messages ++ [m]) self0 self ↔
  ∃ self1, heard messages self0 self1 ∧ process_message config self1 m = Some self.
Proof. unfold heard, spawn. rewrite foldl_app. simpl. apply bind_Some. Qed.

(** A service that has heard nothing. *)
Definition blank self : Prop :=
  auction_schedule self = empty_schedule ∧ open_auctions self = ∅ ∧
  processed_payload_attributes self = ∅ ∧ effects self = [].

Definition serves self (slot : N) p i : Prop := i ∈ serving (auction_schedule self) slot p.

(** Asking the relays adds what they name. *)
Lemma fetch_serves world self slot p i :
  serves (fetch_proposer_schedules config world self) slot p i ↔
  serves self slot p i ∨ names world i slot p.
Proof.
  unfold fetch_proposer_schedules, names, reports.
  assert (Hloop : ∀ l self, serves (foldl (λ self '(relay_index, relay),
      match world_schedule world relay with
      | Ok schedule => set_schedule (process relay_index schedule (auction_schedule self)).1 self
      | Err _ => self
      end) self l) slot p i ↔
    serves self slot p i ∨ ∃ entry, (∃ relay schedule, (i, relay) ∈ l ∧
      world_schedule world relay = Ok schedule ∧ entry ∈ schedule) ∧
      schedule_slot entry = slot ∧ entry_proposer entry = p).
  { induction l as [|[j relay] l IH]; intros self'; simpl.
    { split; [by left|]. intros [?|(? & (? & ? & Hin & _) & _)]; [done|]. by apply elem_of_nil in Hin. }
    rewrite IH. setoid_rewrite elem_of_cons.
    destruct (world_schedule world relay) as [schedule|e] eqn:Hw.
    - unfold serves at 1. simpl.
      rewrite (proj1 (process_spec j schedule (auction_schedule self') slot p i)).
      unfold serves. split; [|].
      + intros [[?|[-> (entry & ? & ? & ?)]]|(entry & (relay' & s & ? & ? & ?) & ? & ?)]; [by left|..];
          right; exists entry; (split; [|done]); eauto 10.
      + intros [?|(entry & (relay' & s & [[= -> ->]|?] & Hs & ?) & ? & ?)]; [by left; left|..].
        * left. right. split; [done|]. rewrite Hw in Hs. injection Hs as <-. eauto.
        * right. eauto 10.
    - split.
      + intros [?|(entry & (relay' & s & ? & ? & ?) & ? & ?)]; [by left|].
        right. exists entry. split; [|done]. eauto 10.
      + intros [?|(entry & (relay' & s & [[= -> ->]|?] & Hs & ?) & ? & ?)]; [by left|congruence|].
        right. eauto 10. }
  rewrite Hloop. setoid_rewrite elem_of_lookup_imap. naive_solver.
Qed.

(** Opening an auction, in one equation for each part of the state. *)
Lemma open_for_spec world slot a self entry :
  let p := entry.1 in
  let opened := {|
    context_slot := slot;
    context_attributes := attach_proposal a {|
      proposer_gas_limit := gas_limit p; proposer_fee_recipient := fee_recipient p;
      bidder := next_channel self |};
    context_proposer := p;
    context_relays := entry.2;
  |} in
  let id := payload_id_of (context_attributes opened) in
  let auction := default opened (open_auctions self !! id) in
  let self' := open_for world slot a self entry in
  auction_schedule self' = auction_schedule self ∧
  open_auctions self' = <[id := auction]> (open_auctions self) ∧
  effects self' = effects self ++ NewPayload (context_attributes auction) ::
    if world_new_payload world (context_attributes auction)
    then [StartBid auction (next_channel self)] else [].
Proof.
  cbv zeta. unfold open_for, open_auction, channel, store_auction. cbn [open_auctions context_attributes].
  destruct (open_auctions self !! _) as [stored|] eqn:Hstored; simpl.
  - rewrite insert_id by done.
    destruct (world_new_payload world _); simpl; split_and!; try done; by rewrite <-app_assoc.
  - destruct (world_new_payload world _); simpl; split_and!; try done; by rewrite <-app_assoc.
Qed.

Lemma open_loop_schedule world slot a self l :
  auction_schedule (foldl (open_for world slot a) self l) = auction_schedule self.
Proof.
  apply (foldl_invariant (λ self', auction_schedule self' = auction_schedule self)); [|done].
  intros self' entry _ <-. apply open_for_spec.
Qed.

Lemma on_payload_attributes_schedule world a self self' :
  on_payload_attributes config world a self = Some self' →
  auction_schedule self' = auction_schedule self.
Proof.
  unfold on_payload_attributes. intros (slot & _ & H)%bind_Some. revert H. simpl.
  case_bool_decide; simpl; [|by intros [= <-]].
  destruct (get_proposals _ _) as [proposals|]; intros [= <-]; [|done].
  by rewrite open_loop_schedule.
Qed.

Lemma submit_payload_schedule world payload self self' :
  submit_payload config world payload self = Some self' →
  auction_schedule self' = auction_schedule self.
Proof.
  unfold submit_payload. intros (auction & _ & H)%bind_Some. apply bind_Some in H as (prepared & _ & H).
  destruct prepared; simplify_eq; [|done]. by rewrite submit_loop.
Qed.

Lemma process_message_serves m self self' slot p i :
  process_message config self m = Some self' →
  serves self' slot p i ↔
  (∃ now, m.2 = Clock (NewSlot now) ∧ asks now ∧ names m.1 i slot p) ∨
  serves self slot p i ∧
    ∀ epoch, m.2 = Clock (NewEpoch epoch) →
      u64_mul epoch (slots_per_epoch (config_context config)) ≤ slot.
Proof.
  destruct m as [world [[now|epoch]|[a|]|payload]]; simpl.
  - intros [= <-]. unfold on_slot. case_decide as Hask; [rewrite fetch_serves|]; naive_solver.
  - intros [= <-]. unfold serves, serving. unfold on_epoch. cbn [auction_schedule set_processed set_open_auctions set_schedule].
    pose proof (clear_spec (u64_mul epoch (slots_per_epoch (config_context config)))
      (auction_schedule self) slot) as Hclear. unfold get_matching_proposals in Hclear.
    rewrite Hclear. case_decide; [naive_solver|]. split.
    + simpl. rewrite lookup_empty. simpl. by intros ?%elem_of_empty.
    + intros [(? & ? & _)|[_ Hkeep]]; [done|]. exfalso. auto.
  - intros Hrun%on_payload_attributes_schedule. unfold serves. rewrite Hrun. naive_solver.
  - intros [= <-]. naive_solver.
  - intros Hrun%submit_payload_schedule. unfold serves. rewrite Hrun. naive_solver.
Qed.

Lemma heard_serves messages self0 self slot p i :
  blank self0 → heard messages self0 self → serves self slot p i ↔ known messages slot p i.
Proof.
  intros (Hblank & _). revert self. induction messages as [|m messages IH] using rev_ind; intros self.
  - intros [= <-]. rewrite fetch_serves. unfold serves. rewrite Hblank. unfold serving. simpl.
    rewrite lookup_empty. simpl. rewrite lookup_empty. simpl. split.
    + intros [?%elem_of_empty|?]; [done|by constructor].
    + intros Hknown. right. by apply known_nil.
  - intros (self1 & Hheard & Hrun)%heard_snoc.
    rewrite (process_message_serves _ _ _ slot p i Hrun), known_snoc, (IH self1 Hheard). done.
Qed.

(** A proposer is on the schedule because some relay serves it. *)
Definition schedule_full self : Prop :=
  map_Forall (λ _ proposals, map_Forall (λ _ relays, relays ≠ ∅) proposals)
    (schedule (auction_schedule self)).

Lemma process_full i entries (sched : AuctionSchedule) :
  map_Forall (λ _ proposals, map_Forall (λ _ relays, relays ≠ ∅) proposals) (schedule sched) →
  map_Forall (λ _ proposals, map_Forall (λ _ relays, relays ≠ ∅) proposals)
    (schedule (process i entries sched).1).
Proof.
  intros Hs. simpl. apply (foldl_invariant (λ sched : AuctionSchedule,
    map_Forall (λ _ proposals, map_Forall (λ _ relays, relays ≠ ∅) proposals) (schedule sched)));
    [|done].
  clear Hs. intros sched' entry _ Hs. simpl. apply map_Forall_insert_2; [|done].
  apply map_Forall_insert_2; [set_solver|].
  destruct (schedule sched' !! _) as [proposals|] eqn:Hp; [by apply (Hs _ _ Hp)|apply map_Forall_empty].
Qed.

Lemma fetch_full world self :
  schedule_full self → schedule_full (fetch_proposer_schedules config world self).
Proof.
  intros Hs. apply (foldl_invariant schedule_full); [|done]. intros self' [i relay] _ Hs'.
  destruct (world_schedule world relay) as [schedule|e]; [|done]. by apply process_full.
Qed.

Lemma heard_full messages self0 self :
  blank self0 → heard messages self0 self → schedule_full self.
Proof.
  intros (Hblank & _). revert self. induction messages as [|m messages IH] using rev_ind; intros self.
  - intros [= <-]. apply fetch_full. unfold schedule_full. rewrite Hblank. apply map_Forall_empty.
  - intros (self1 & Hfull%IH & Hrun)%heard_snoc. revert Hrun.
    destruct m as [world [[now|epoch]|[a|]|payload]]; simpl.
    + intros [= <-]. unfold on_slot. case_decide; [by apply fetch_full|done].
    + intros [= <-] slot proposals. unfold on_epoch. simpl. unfold retain_keys.
      intros [Hp _]%map_lookup_filter_Some. by apply (Hfull slot).
    + intros Hrun%on_payload_attributes_schedule. unfold schedule_full. by rewrite Hrun.
    + by intros [= <-].
    + intros Hrun%submit_payload_schedule. unfold schedule_full. by rewrite Hrun.
Qed.

(** * The auctions *)

(** The identifier of the auction of a proposer. *)
Definition auction_id a p : PayloadId :=
  mix_proposal_into_payload_id (payload_id_of a) {|
    proposer_gas_limit := gas_limit p; proposer_fee_recipient := fee_recipient p; bidder := 0 |}.

Lemma heard_service_ok messages self0 self : blank self0 → heard messages self0 self → service_ok self.
Proof.
  intros (_ & Hopen & _). revert self. induction messages as [|m messages IH] using rev_ind; intros self.
  - intros [= <-]. unfold service_ok. rewrite fetch_open_auctions, Hopen. apply map_Forall_empty.
  - intros (self1 & Hok%IH & Hrun)%heard_snoc. by eapply process_message_ok.
Qed.

(** An auction stays open in the loop over the proposals. *)
Lemma open_loop_keeps world slot a self l id auction :
  open_auctions self !! id = Some auction →
  open_auctions (foldl (open_for world slot a) self l) !! id = Some auction.
Proof.
  intros Hopen. apply (foldl_invariant (λ self', open_auctions self' !! id = Some auction)); [|done].
  intros self' entry _ Hopen'. destruct (open_for_spec world slot a self' entry) as (_ & -> & _).
  apply lookup_insert_Some.
  destruct (decide (payload_id_of (attach_proposal a {| proposer_gas_limit := gas_limit entry.1;
    proposer_fee_recipient := fee_recipient entry.1; bidder := next_channel self' |}) = id))
    as [Hid|Hid]; [left|by right].
  split; [done|]. cbn [context_attributes]. by rewrite Hid, Hopen'.
Qed.

Lemma open_loop_auction world slot a self l entry :
  entry ∈ l → open_auctions self !! auction_id a entry.1 = None →
  (∀ entry', entry' ∈ l → auction_id a entry'.1 = auction_id a entry.1 → entry' = entry) →
  ∃ auction, open_auctions (foldl (open_for world slot a) self l) !! auction_id a entry.1 = Some auction ∧
    context_slot auction = slot ∧ context_proposer auction = entry.1 ∧ context_relays auction = entry.2.
Proof.
  revert self. induction l as [|entry1 l IH]; intros self Hin Hnone Honly; [by apply elem_of_nil in Hin|].
  cbn [foldl]. pose proof (open_for_spec world slot a self entry1) as (_ & Hopen & _).
  change (payload_id_of (context_attributes _)) with (auction_id a entry1.1) in Hopen.
  destruct (decide (auction_id a entry1.1 = auction_id a entry.1)) as [Hid|Hid].
  - rewrite (Honly entry1 (list_elem_of_here _ _) Hid) in *. rewrite Hnone in Hopen. simpl in Hopen.
    eexists. split; [apply open_loop_keeps; rewrite Hopen; apply lookup_insert_eq|]. by split_and!.
  - apply IH.
    + by apply elem_of_cons in Hin as [->|?].
    + by rewrite Hopen, lookup_insert_ne.
    + intros entry' Hin'. apply Honly. by right.
Qed.

(** The builds that are asked for are those of the proposals. *)
Lemma open_loop_builds world slot a self l :
  service_ok self →
  ∃ new, effects (foldl (open_for world slot a) self l) = effects self ++ new ∧
    ∀ id, (∃ attributes, NewPayload attributes ∈ new ∧ payload_id_of attributes = id) ↔
          ∃ entry, entry ∈ l ∧ auction_id a entry.1 = id.
Proof.
  revert self. induction l as [|entry l IH]; intros self Hok.
  { exists []. split; [by rewrite app_nil_r|]. intros id.
    split; [intros (? & ?%elem_of_nil & _)|intros (? & ?%elem_of_nil & _)]; done. }
  cbn [foldl]. pose proof (open_for_ok world slot a self entry Hok) as Hok1.
  pose proof (open_for_spec world slot a self entry) as (_ & Hopen & Heffects).
  change (payload_id_of (context_attributes _)) with (auction_id a entry.1) in Hopen, Heffects.
  set (auction := default _ (open_auctions self !! auction_id a entry.1)) in *.
  assert (Hid : payload_id_of (context_attributes auction) = auction_id a entry.1).
  { refine (proj1 (Hok1 _ _ _)). rewrite Hopen. apply lookup_insert_eq. }
  destruct (IH _ Hok1) as (new & Hnew & Hids). rewrite Hnew, Heffects.
  eexists. split; [by rewrite <-app_assoc|]. intros id. specialize (Hids id).
  setoid_rewrite elem_of_app. setoid_rewrite elem_of_cons. split.
  - intros (attributes & [[Heq|Hstart]|Hin] & Hattributes).
    + injection Heq as ->. exists entry. split; [by left|congruence].
    + destruct (world_new_payload _ _); [apply elem_of_cons in Hstart as [?|Hstart]; [done|]|];
        by apply elem_of_nil in Hstart.
    + destruct (proj1 Hids) as (entry' & ? & ?); [by exists attributes|]. exists entry'. auto.
  - intros (entry' & [->|Hin] & Hentry).
    + exists (context_attributes auction). split; [by left; left|congruence].
    + destruct (proj2 Hids) as (attributes & ? & ?); [by exists entry'|]. exists attributes. auto.
Qed.

(** Hash maps and sets are iterated in some order. *)
Record iterates world : Prop := {
  iterates_proposals proposals : iter_proposals world proposals ≡ₚ map_to_list proposals;
  iterates_relays relays : iter_relays world relays ≡ₚ elements relays;
}.

(** The loop is over the known proposers, with the relays they are known from. *)
Lemma proposals_known messages self0 self world slot p relays :
  blank self0 → heard messages self0 self → iterates world →
  (p, relays) ∈ default [] (iter_proposals world <$> get_proposals slot self) ↔
  (∃ i, known messages slot p i) ∧ (∀ i, i ∈ relays ↔ known messages slot p i).
Proof.
  intros Hblank Hheard Hworld. setoid_rewrite <-(heard_serves _ _ _ _ _ _ Hblank Hheard).
  pose proof (heard_full _ _ _ Hblank Hheard) as Hfull.
  unfold get_proposals, get_matching_proposals, serves, serving.
  destruct (schedule (auction_schedule self) !! slot) as [proposals|] eqn:Hslot; simpl.
  - rewrite (iterates_proposals _ Hworld), elem_of_map_to_list.
    destruct (proposals !! p) as [relays'|] eqn:Hp; simpl.
    + specialize (Hfull slot proposals Hslot p relays' Hp). simpl in Hfull. split.
      * intros [= ->]. split; [|done]. by apply set_choose_L.
      * intros [_ Hsame]. f_equal. set_solver.
    + split; [done|]. by intros [[i ?%elem_of_empty] _].
  - rewrite lookup_empty. simpl. split; [by intros ?%elem_of_nil|]. by intros [[i ?%elem_of_empty] _].
Qed.

(** * Where auctions and submissions come from *)

(** The auction is of an event of the chain, for a proposer that its relays have named. *)
Record auction_named messages (id : PayloadId) auction : Prop := {
  auction_event : ∃ world a, (world, PayloadEvent (Some a)) ∈ messages ∧
    slot_of config world a = Some (context_slot auction) ∧
    attributes_parent (inner (context_attributes auction)) = attributes_parent (inner a) ∧
    id = auction_id a (context_proposer auction);
  auction_relays i : i ∈ context_relays auction →
    ∃ entry, named messages (context_slot auction) (context_proposer auction) i entry;
}.

(** The submission is of a payload that was received, built for such an auction. *)
Definition submission_made messages (relay : RelayClient.Relay Url) (sub : SignedBidSubmission) : Prop :=
  ∃ world payload auction i,
    (world, Bid payload) ∈ messages ∧ auction_named messages (built_id payload) auction ∧
    prepare_submission payload (config_secret_key config) (config_public_key config) auction
      (config_context config) = Some (Ok sub) ∧
    i ∈ context_relays auction ∧ config_relays config !! i = Some relay.

Lemma auction_named_later messages m id auction :
  auction_named messages id auction → auction_named (messages ++ [m]) id auction.
Proof.
  intros [(world & a & ? & ?) Hrelays]. split.
  - exists world, a. split; [apply elem_of_app; by left|done].
  - intros i (entry & ?)%Hrelays. exists entry. by apply named_later.
Qed.

Lemma submission_made_later messages m relay sub :
  submission_made messages relay sub → submission_made (messages ++ [m]) relay sub.
Proof.
  intros (world & payload & auction & i & ? & ? & ?). exists world, payload, auction, i.
  split; [apply elem_of_app; by left|]. split; [by apply auction_named_later|done].
Qed.

Definition traced messages self : Prop :=
  map_Forall (auction_named messages) (open_auctions self) ∧
  ∀ relay sub, SubmitBid relay sub ∈ effects self → submission_made messages relay sub.

Lemma traced_later messages m self : traced messages self → traced (messages ++ [m]) self.
Proof.
  intros [Hopen Hsubs]. split.
  - intros id auction ?%Hopen. by apply auction_named_later.
  - intros relay sub ?%Hsubs. by apply submission_made_later.
Qed.

Lemma fetch_effects world self : effects (fetch_proposer_schedules config world self) = effects self.
Proof.
  apply (foldl_invariant (λ self', effects self' = effects self)); [|done].
  intros self' [i relay] _ H. by destruct (world_schedule world relay).
Qed.

Lemma fetch_traced messages world self :
  traced messages self → traced messages (fetch_proposer_schedules config world self).
Proof. unfold traced. by rewrite fetch_open_auctions, fetch_effects. Qed.

Lemma open_for_traced messages world slot a self entry :
  (world, PayloadEvent (Some a)) ∈ messages → slot_of config world a = Some slot →
  (∀ i, i ∈ entry.2 → ∃ e, named messages slot entry.1 i e) →
  traced messages self → traced messages (open_for world slot a self entry).
Proof.
  intros Hevent Hslot Hnamed [Hopen Hsubs].
  destruct (open_for_spec world slot a self entry) as (_ & Hopen' & Heffects).
  change (payload_id_of (context_attributes _)) with (auction_id a entry.1) in Hopen'. split.
  - rewrite Hopen'. apply map_Forall_insert_2; [|done].
    destruct (open_auctions self !! auction_id a entry.1) as [stored|] eqn:Hstored; [by apply Hopen|].
    split; [|exact Hnamed]. exists world, a. by split_and!.
  - intros relay sub. rewrite Heffects. intros [?|Hin]%elem_of_app; [by apply Hsubs|].
    apply elem_of_cons in Hin as [?|Hin]; [done|].
    destruct (world_new_payload _ _); [apply elem_of_cons in Hin as [?|Hin]; [done|]|];
      by apply elem_of_nil in Hin.
Qed.

Lemma event_traced messages self0 self self' world a :
  blank self0 → heard messages self0 self → iterates world →
  on_payload_attributes config world a self = Some self' →
  traced messages self → traced (messages ++ [(world, PayloadEvent (Some a))]) self'.
Proof.
  intros Hblank Hheard Hworld Hrun Htraced. pose proof (traced_later _ (world, PayloadEvent (Some a)) _ Htraced) as Hlater.
  revert Hrun. unfold on_payload_attributes. intros (slot & Hslot & Hrun)%bind_Some. revert Hrun. simpl.
  case_bool_decide; simpl; [|by intros [= <-]].
  pose proof (λ p relays, proposals_known messages self0 self world slot p relays Hblank Hheard Hworld)
    as Hknown. unfold get_proposals in *. simpl in *.
  destruct (get_matching_proposals _ slot) as [proposals|]; intros [= <-]; [|done].
  apply foldl_invariant; [|done]. intros self1 [p relays] Hin Htraced1.
  apply open_for_traced; [apply elem_of_app; right; left|done| |done].
  intros i Hi. apply Hknown in Hin as [_ Hrelays]. apply Hrelays, known_named in Hi as [entry ?].
  exists entry. by apply named_later.
Qed.

Lemma bid_traced messages self self' world payload :
  iterates world → submit_payload config world payload self = Some self' →
  traced messages self → traced (messages ++ [(world, Bid payload)]) self'.
Proof.
  intros Hworld Hrun Htraced. pose proof (traced_later _ (world, Bid payload) _ Htraced) as [Hopen Hsubs].
  apply submit_payload_Some in Hrun as (auction & prepared & Hauction & Hprepared & Hopen' & _ & Heffects).
  split; [by rewrite Hopen'|]. intros relay sub. rewrite Heffects. intros [?|Hin]%elem_of_app; [by apply Hsubs|].
  destruct prepared as [sub'|e]; [|by apply elem_of_nil in Hin].
  apply list_elem_of_fmap in Hin as (relay' & [= <- <-] & Hrelay).
  unfold relays_of in Hrelay. apply list_elem_of_omap in Hrelay as (i & Hi & Hrelay).
  exists world, payload, auction, i. split; [apply elem_of_app; right; left|].
  split; [by apply Hopen|]. split; [done|]. split; [|done].
  rewrite (iterates_relays _ Hworld) in Hi. by apply elem_of_elements in Hi.
Qed.

Lemma heard_traced messages self0 self :
  blank self0 → Forall (λ m, iterates m.1) messages → heard messages self0 self → traced messages self.
Proof.
  intros Hblank. revert self. induction messages as [|m messages IH] using rev_ind; intros self.
  - intros _ [= <-]. apply fetch_traced. destruct Hblank as (_ & Hopen & _ & Heffects). split.
    + rewrite Hopen. apply map_Forall_empty.
    + rewrite Heffects. by intros relay sub ?%elem_of_nil.
  - intros [Hworlds Hworld]%Forall_app (self1 & Hheard & Hrun)%heard_snoc.
    rewrite Forall_singleton in Hworld. specialize (IH self1 Hworlds Hheard).
    destruct m as [world [[now|epoch]|[a|]|payload]]; simpl in Hrun.
    + injection Hrun as <-. unfold on_slot. case_decide; [apply fetch_traced|]; by apply traced_later.
    + injection Hrun as <-. apply (traced_later _ (world, Clock (NewEpoch epoch))) in IH as [Hopen Hsubs].
      split; [|done]. intros id auction [Hauction _]%map_lookup_filter_Some. by apply Hopen.
    + by apply (event_traced messages self0 self1 self world a).
    + injection Hrun as <-. by apply traced_later.
    + by apply (bid_traced messages self1 self world payload).
Qed.
End book.

(** * What the service promises *)

Section promises.
Context `{CF : ConsensusFunctions} `{BS : !BuilderSignable}.
Context {HS : Hashing} `{ET : !ExecutionTypes} {PT : PayloadTypes} {Url : Type}.
Context (secret_key : SecretKey) (relays : list (RelayClient.Relay Url)) (context : ChainContext).
Context (genesis_time : N).
Implicit Types (world start : World Url) (self : Service Url) (messages : list (World Url * Message)).

#[local] Notation config := (Auctioneer.new secret_key relays context genesis_time).1.
#[local] Notation service := (Auctioneer.new secret_key relays context genesis_time).2.

Lemma new_blank : blank service.
Proof. done. Qed.

(** C10: When the chain asks for a payload in a slot, the service ignores the event
    if it has processed it before.  Otherwise it asks for builds under exactly the
    identifiers of the proposers that are then known for the slot: those that some relay
    has named for it, unless an epoch past the slot has begun since.  The auction of a
    proposer whose identifier is new and its own is for the relays that it is known
    from, and for no others. *)
Theorem auctions_for_known start messages world a self slot self' :
  spawn config start messages service = Some self → iterates world →
  slot_of config world a = Some slot → on_payload_attributes config world a self = Some self' →
  (payload_id_of a ∈ processed self slot → self' = self) ∧
  (payload_id_of a ∉ processed self slot →
   (∃ new, effects self' = effects self ++ new ∧
      ∀ id, (∃ attributes, NewPayload attributes ∈ new ∧ payload_id_of attributes = id) ↔
            ∃ p i, known config start messages slot p i ∧ auction_id a p = id) ∧
   ∀ p i, known config start messages slot p i → open_auctions self !! auction_id a p = None →
     (∀ p' i', known config start messages slot p' i' → auction_id a p' = auction_id a p → p' = p) →
     ∃ auction, open_auctions self' !! auction_id a p = Some auction ∧
       context_slot auction = slot ∧ context_proposer auction = p ∧
       ∀ j, j ∈ context_relays auction ↔ known config start messages slot p j).
Proof.
  intros Hheard Hworld Hslot Hrun. split.
  { intros Hin. rewrite (processed_ignored _ _ _ _ _ Hslot Hin) in Hrun. by injection Hrun as <-. }
  intros Hnew. pose proof (λ p relays, proposals_known config start messages service self world slot p
    relays new_blank Hheard Hworld) as Hknown.
  pose proof (heard_service_ok _ _ _ _ _ new_blank Hheard) as Hok.
  unfold on_payload_attributes in Hrun. fold (slot_of config world a) in Hrun. rewrite Hslot in Hrun.
  cbn [mbind option_bind] in Hrun. unfold processed in Hnew.
  destruct (observe_payload_id slot (payload_id_of a) self) as [self1 is_new] eqn:Hobs.
  injection Hobs as <- <-. rewrite bool_decide_eq_true_2 in Hrun by done. simpl in Hrun.
  set (self1 := set_processed _ self) in *.
  assert (Hrun' : self' = foldl (open_for world slot a) self1
    (default [] (iter_proposals world <$> get_proposals slot self))).
  { unfold get_proposals in *. simpl in *. by destruct (get_matching_proposals _ _); injection Hrun as <-. }
  assert (Hentry : ∀ p i, known config start messages slot p i → ∃ rs,
    (p, rs) ∈ default [] (iter_proposals world <$> get_proposals slot self)).
  { intros p i Hp. setoid_rewrite Hknown. exists (serving (auction_schedule self) slot p).
    split; [by exists i|]. intros j. apply (heard_serves _ _ _ _ _ _ _ _ new_blank Hheard). }
  split.
  - destruct (open_loop_builds world slot a self1 (default [] (iter_proposals world <$> get_proposals slot self)) Hok)
      as (new & Heffects & Hids). exists new. rewrite Hrun'. split; [exact Heffects|]. intros id.
    rewrite (Hids id). split.
    + intros ([p rs] & [[i Hi] _]%Hknown & <-). by exists p, i.
    + intros (p & i & Hp & <-). destruct (Hentry p i Hp) as [rs Hin]. by exists (p, rs).
  - intros p i Hp Hnone Hown. destruct (Hentry p i Hp) as [rs Hin]. rewrite Hrun'.
    destruct (open_loop_auction world slot a self1 _ (p, rs) Hin Hnone) as (auction & Hauction & ? & ? & Hrs).
    { intros [p' rs'] Hin' Hid. simpl in Hid. pose proof (proj1 (Hknown _ _) Hin') as [[i' Hi'] Hrs'].
      rewrite (Hown p' i' Hi' Hid) in *. f_equal. apply Hknown in Hin as [_ Hrs]. set_solver. }
    exists auction. split_and!; [done..|]. rewrite Hrs. by apply Hknown in Hin as [_ ?].
Qed.

(** C11: Every submission goes to a relay that has itself named the proposer for the
    slot, in an entry with the key and the fee recipient of the submission; the chain has
    asked for a payload in that slot on top of the submission's parent; and the block and
    the value are those of a payload that was received.  So a relay of the same network
    that accepts the builder and has opened the auction finds the submission valid, as long
    as the proposer's registration at that relay is the one of the entry and the payload's
    block extends the parent of the auction, as the payloads of a job do when that parent
    is named by a hash that is not zero. *)
Theorem submissions_named `{PL : !PayloadLaws PT} `{TL : !SignableLaws BidTrace}
    start messages self relay sub :
  spawn config start messages service = Some self →
  Forall (λ m, iterates m.1) messages → SubmitBid relay sub ∈ effects self →
  let trace := submission_message sub in
  ∃ i entry payload,
    relays !! i = Some relay ∧
    (∃ world, (world = start ∨ ∃ now, (world, Clock (NewSlot now)) ∈ messages) ∧
       reports config world i entry) ∧
    schedule_slot entry = trace_slot trace ∧
    registration_public_key (registration_message (schedule_entry entry))
      = trace_proposer_public_key trace ∧
    registration_fee_recipient (registration_message (schedule_entry entry))
      = trace_proposer_fee_recipient trace ∧
    (∃ world a, (world, PayloadEvent (Some a)) ∈ messages ∧
       slot_of config world a = Some (trace_slot trace) ∧
       attributes_parent (inner a) = trace_parent_hash trace) ∧
    (∃ world, (world, Bid payload) ∈ messages) ∧
    sealed_hash (built_block payload) = trace_block_hash trace ∧
    built_fees payload = trace_value trace ∧
    ∀ inner (s : Relay.Shared), Relay.relay_context inner = context →
      secret_key_public_key secret_key ∈ Relay.builder_registry inner →
      request_of sub ∈ Relay.open_auctions (Relay.state s) →
      header_parent (sealed_header (built_block payload)) = trace_parent_hash trace →
      get_signed_registration (Relay.registry s) (trace_proposer_public_key trace)
        = Some (schedule_entry entry) →
      submission_valid inner s sub.
Proof.
  intros Hheard Hworlds Hsub. cbv zeta.
  destruct (heard_traced _ _ _ _ _ new_blank Hworlds Hheard) as [_ Hsubs].
  destruct (Hsubs relay sub Hsub) as (world & payload & auction & i & Hbid & [Hevent Hrelays] & Hprepared & Hi & Hrelay).
  destruct (Hrelays i Hi) as (entry & Hslot & Hproposer & Hreported).
  destruct Hevent as (world' & a & Hevent & Htime & Hparent & _).
  pose proof (prepare_submission_Ok _ _ _ _ _ Hprepared) as (Hmessage & _).
  exists i, entry, payload. rewrite Hmessage. simpl. rewrite <-Hproposer. split_and!; try done.
  - by exists world', a.
  - by exists world.
  - intros relay_inner s Hcontext Hbuilder Hopen Hblock Hregistration.
    rewrite <-Hcontext in Hprepared.
    apply (prepared_submission_accepted relay_inner s payload secret_key auction sub (schedule_entry entry)
      Hprepared); try done.
    + unfold request_of in Hopen. by rewrite Hmessage in Hopen.
    + by rewrite <-Hproposer.
    + by rewrite <-Hproposer.
Qed.
End promises.

(** * Examples *)

Section examples.
Import ToyInstances.
Import ToyHashing.
Import ToyExecution.
Import ToyPayloads.

Lemma toy_iterates : iterates toy_world.
Proof. by split. Qed.

Definition toy_proposer : Proposer := entry_proposer toy_entry.

Lemma toy_names i slot p : names toy_config toy_world i slot p → slot = 201 ∧ p = toy_proposer.
Proof.
  intros (entry & (relay & schedule & _ & Hschedule & Hin) & <- & <-).
  assert (entry = toy_entry) as ->; [|done]. revert Hschedule. simpl.
  destruct (_ =? _); [done|]. intros [= <-]. by apply list_elem_of_singleton in Hin.
Qed.

Lemma toy_known : known toy_config toy_world [] 201 toy_proposer 0.
Proof.
  constructor. exists toy_entry. split; [|by split].
  exists {| relay_public_key := toy_pk 1001; relay_endpoint := 1001 |}, [toy_entry].
  split; [reflexivity|]. split; [reflexivity|left].
Qed.

(** The first relay has named the validator with key 1005, so there is an auction for
    it, and the relay is one of the auction's. *)
Lemma auctions_for_known_witness : ∃ auction,
  open_auctions toy_service !! auction_id toy_attributes toy_proposer = Some auction ∧
  context_proposer auction = toy_proposer ∧ 0%nat ∈ context_relays auction.
Proof.
  destruct (auctions_for_known (toy_sk 2) toy_relays (toy_network 32) 0 toy_world [] toy_world
    toy_attributes toy_before 201 toy_service) as [_ Hnew].
  - reflexivity.
  - exact toy_iterates.
  - vm_compute. reflexivity.
  - exact toy_service_run.
  - destruct Hnew as [_ Hopen]; [apply (bool_decide_unpack _); vm_compute; exact I|].
    destruct (Hopen toy_proposer 0%nat toy_known) as (auction & Hauction & _ & Hproposer & Hrelays).
    + vm_compute. reflexivity.
    + by intros p' i' [_ ->]%known_nil%toy_names _.
    + exists auction. split; [exact Hauction|]. split; [exact Hproposer|].
      apply Hrelays. exact toy_known.
Defined.

(** The payload of the auction arrives. *)
Definition toy_heard : list (World N * Message) :=
  [(toy_world, PayloadEvent (Some toy_attributes)); (toy_world, Bid toy_built)].

Definition toy_after : option (Service N) :=
  spawn toy_config toy_world toy_heard (Auctioneer.new (toy_sk 2) toy_relays (toy_network 32) 0).2.

Lemma submitted_elem (l : list (Effect N)) k ks :
  omap (λ e, match e with SubmitBid relay _ => Some (relay_endpoint relay) | _ => None end) l = k :: ks →
  ∃ relay sub, SubmitBid relay sub ∈ l.
Proof.
  intros Hl. assert (Hin : k ∈ k :: ks) by left. rewrite <-Hl in Hin.
  apply list_elem_of_omap in Hin as ([| |relay sub] & Hin & Hk); [done..|]. by exists relay, sub.
Qed.

Lemma toy_after_submits : ∃ self relay sub, toy_after = Some self ∧ SubmitBid relay sub ∈ effects self.
Proof.
  assert (H : submitted_to <$> toy_after = Some [1003; 1001]) by (vm_compute; reflexivity).
  destruct toy_after as [self|]; [|discriminate H]. injection H as H.
  apply submitted_elem in H as (relay & sub & Hin). by exists self, relay, sub.
Qed.

Lemma submissions_named_witness : ∃ self relay sub,
  toy_after = Some self ∧ SubmitBid relay sub ∈ effects self ∧
  ∃ i entry, toy_relays !! i = Some relay ∧ schedule_slot entry = trace_slot (submission_message sub).
Proof.
  destruct toy_after_submits as (self & relay & sub & Hself & Hsub). exists self, relay, sub.
  split; [exact Hself|]. split; [exact Hsub|].
  destruct (submissions_named (toy_sk 2) toy_relays (toy_network 32) 0 toy_world toy_heard self relay sub
    Hself) as (i & entry & payload & Hrelay & _ & Hslot & _).
  - constructor; [exact toy_iterates|constructor; [exact toy_iterates|constructor]].
  - exact Hsub.
  - exists i, entry. split; [exact Hrelay|exact Hslot].
Defined.
End examples.
