(* ===== verification/PaidBids.v ===== *)
(** The builder from end to end: what its auctioneer submits is a bid the relay accepts,
    for a block whose last transaction pays the proposer what the bid says.

    The auction names the attributes; the job generator starts a job for them; the job,
    its builds, the bidder and the tasks that finalize a payload run in any order; a
    payload that comes out is submitted by the auctioneer under its identifier. *)

From S2P Require Import Prelude.
From S2P Require Import Consensus.
From S2P Require Import Types.
From S2P Require Import Signing.
From S2P Require Import ValidatorRegistry.
From S2P Require Import AuctionContext.
From S2P Require Import Tasks.
From S2P Require Import RelayClient.
From S2P Require Import Execution.
From S2P Require Import Attributes.
From S2P Require Import PayloadBuilder.
From S2P Require Import Bidder.
From S2P Require Import PayloadJob.
From S2P Require Import JobGenerator.
From S2P Require Import Compat.
From S2P Require Import AuctionSchedule.
From S2P Require Import Auctioneer.
From S2P Require Import RelayBlocks.
From S2P Require Import Relay.
From S2P Require Import RelaySpec.
From S2P Require Import RelaySafety.
From S2P Require Import EndToEnd.
From S2P Require Import Toy.

#[local] Open Scope N_scope.

Section paid_bids.
Context `{CF : ConsensusFunctions} `{BS : !BuilderSignable}.
Context {HS : Hashing} `{ET : !ExecutionTypes} {EX : ExecutionTerms} {PT : PayloadTypes}.
Context {FC : FloatConversion} {Url : Type}.
Context `{PL : !PayloadLaws PT} `{TL : !SignableLaws BidTrace}.
Context (view : ExecutionFunctions → Prop) (view_laws : ∀ EF, view EF → ExecutionLaws).

(** The relay is ready for this builder's bids in an auction: it has accepted the
    builder, opened the auction, and holds the registration the auction's preferences
    come from. *)
Definition relay_ready (inner : Relay.Inner) (rs : Shared) (public_key : BlsPublicKey)
    (auction : AuctionContext) : Prop :=
  public_key ∈ builder_registry inner ∧
  {| slot := context_slot auction;
     parent_hash := attributes_parent (Attributes.inner (context_attributes auction));
     public_key := proposer_public_key (context_proposer auction) |}
    ∈ Relay.open_auctions (state rs) ∧
  ∃ registration,
    get_signed_registration (registry rs) (proposer_public_key (context_proposer auction))
      = Some registration ∧
    fee_recipient (context_proposer auction)
      = registration_fee_recipient (registration_message registration).

(** The last transaction of the payload, signed by the builder, transfers [value] to
    [recipient]. *)
Definition pays (builder : PayloadBuilder.Inner) (payload : ExecutionPayload)
    (recipient : ExecutionAddress) (value : N) : Prop :=
  ∃ (EF : ExecutionFunctions) block transactions tx signature, view EF ∧
    payload = ExecutionPayload_Deneb (make_deneb_payload block) ∧
    deneb_transactions block
      = transactions ++ [encoded_2718 (from_transaction_and_signature tx signature)] ∧
    sign_hash_sync (PayloadBuilder.signer builder) (signature_hash tx) = Some signature ∧
    tx_to tx = recipient ∧ tx_value tx = value ∧
    tx_chain_id tx = PayloadBuilder.chain_id builder.

(** A payload dispatched by a job of the auction extends the auction's parent, is kept
    under the auction's identifier, and its submission pays the proposer what the bidder
    has answered to the fees of some payload. *)
Lemma dispatched_payload_pays builder strategy `{GF : !GeneratorFunctions}
    {EF : ExecutionFunctions} generator now auction id job until outcomes s payload :
  auction_ok id auction →
  hash_is_zero (attributes_parent (Attributes.inner (context_attributes auction))) = false →
  new_payload_job generator now (context_attributes auction) = Returns (Ok (job, until)) →
  steps (system_step view builder (config job) strategy)
    (system_started (config job) (cached_reads job) outcomes) s →
  payload ∈ sys_dispatched s →
  built_id payload = id ∧
  header_parent (sealed_header (built_block payload))
    = attributes_parent (Attributes.inner (context_attributes auction)) ∧
  (∃ fees, run strategy fees = Some (Some (built_fees payload))) ∧
  ∀ sk ctx sub,
    prepare_submission payload sk (secret_key_public_key sk) auction ctx = Some (Ok sub) →
    trace_value (submission_message sub) = built_fees payload ∧
    trace_proposer_fee_recipient (submission_message sub)
      = fee_recipient (context_proposer auction) ∧
    pays builder (submission_payload sub) (trace_proposer_fee_recipient (submission_message sub))
      (trace_value (submission_message sub)).
Proof using view_laws TL PL.
  intros [Hid (updates & Hproposal)] Hzero Hjob Hsteps Hdispatched.
  assert (Hconfig : config_attributes (config job) = context_attributes auction ∧
    sealed_hash (parent_block (config job))
      = attributes_parent (Attributes.inner (context_attributes auction))).
  { unfold new_payload_job in Hjob. inv_outcome Hjob. inv_outcome Hjob. injection Hjob as <- _.
    pose proof (find_parent_spec (context_attributes auction)) as Hnamed. rewrite Hstep in Hnamed.
    split; [done|]. by apply (named_hash _ _ Hnamed). }
  destruct Hconfig as [Hattributes Hparent].
  assert (Hok : system_ok view builder (config job) strategy s).
  { eapply reachable_ok; [exact view_laws|]. by exists (cached_reads job), outcomes. }
  pose proof (ok_dispatched _ _ _ _ _ Hok) as Hall. rewrite Forall_forall in Hall.
  destruct (Hall payload Hdispatched)
    as ([Hpid Hpparent] & EF' & fees & fin & p & block & tx & used & Hview & Hrun & Hp & Hto & Hpaid).
  rewrite Hattributes in *. split_and!; [congruence..|by exists fees|].
  intros sk ctx sub (Hmsg & Hpayload & _)%prepare_submission_Ok. rewrite Hmsg.
  split; [done|]. split; [done|].
  apply to_execution_payload_transactions in Hpayload as (d & Hd & _ & Htxs).
  destruct (paid_signature _ _ _ _ _ _ _ _ Hpaid) as (signature & Hsig & Hlast).
  exists EF', d, (map encoded_2718 (sealed_transactions block)), tx, signature.
  split_and!; try done; simpl.
  - by rewrite Htxs, Hlast, map_app.
  - rewrite (paid_to _ _ _ _ _ _ _ _ Hpaid), Hto. rewrite Hproposal in Hp. by injection Hp as <-.
  - apply (paid_value _ _ _ _ _ _ _ _ Hpaid).
  - apply (paid_chain _ _ _ _ _ _ _ _ Hpaid).
Qed.

(** The builder makes a submission for an auction: whatever messages its auctioneer has
    processed, it has opened the auction; a job was started for it, and however its builds,
    the bidder and the finalizing tasks interleaved, and whatever the chain looked like
    meanwhile, a payload was dispatched; and this is what the auctioneer sends for it. *)
Inductive submits (builder : PayloadBuilder.Inner) (strategy : BasicStrategy) (sk : SecretKey)
    (ctx : ChainContext) (auction : AuctionContext) (sub : SignedBidSubmission) : Prop :=
| submits_payload `{GF : !GeneratorFunctions} {EF : ExecutionFunctions}
    (relays : list (Relay Url)) genesis_time started messages self id
    generator now job until outcomes s payload world self' relay submitted :
    Auctioneer.spawn (Auctioneer.new sk relays ctx genesis_time).1 started messages
      (Auctioneer.new sk relays ctx genesis_time).2 = Some self →
    Auctioneer.open_auctions self !! id = Some auction →
    hash_is_zero (attributes_parent (Attributes.inner (context_attributes auction))) = false →
    new_payload_job generator now (context_attributes auction) = Returns (Ok (job, until)) →
    steps (system_step view builder (PayloadJob.config job) strategy)
      (system_started (PayloadJob.config job) (cached_reads job) outcomes) s →
    payload ∈ sys_dispatched s →
    submit_payload (Auctioneer.new sk relays ctx genesis_time).1 world payload self = Some self' →
    effects self' = effects self ++ submitted →
    SubmitBid relay sub ∈ submitted →
    submits builder strategy sk ctx auction sub.

(** What such a submission is prepared from. *)
Lemma submits_prepared builder strategy sk ctx auction sub :
  submits builder strategy sk ctx auction sub →
  ∃ payload, prepare_submission payload sk (secret_key_public_key sk) auction ctx = Some (Ok sub) ∧
    header_parent (sealed_header (built_block payload))
      = attributes_parent (Attributes.inner (context_attributes auction)) ∧
    (∃ fees, run strategy fees = Some (Some (trace_value (submission_message sub)))) ∧
    trace_proposer_fee_recipient (submission_message sub)
      = fee_recipient (context_proposer auction) ∧
    pays builder (submission_payload sub) (trace_proposer_fee_recipient (submission_message sub))
      (trace_value (submission_message sub)).
Proof using view_laws TL PL.
  intros [GF EF relays genesis_time started messages self id generator now job until outcomes s
    payload world self' relay submitted Hspawn Hauction Hzero Hjob Hsteps Hdispatched Hsubmit
    Hsubmitted Hin].
  pose proof (spawn_service_ok sk relays ctx genesis_time started messages) as Hok.
  simpl in Hok, Hspawn. rewrite Hspawn in Hok.
  destruct (dispatched_payload_pays builder strategy generator now auction id job until outcomes s
    payload (Hok id auction Hauction) Hzero Hjob Hsteps Hdispatched)
    as (Hid & Hparent & (fees & Hfees) & Hpays).
  apply submit_payload_Some in Hsubmit as (auction' & prepared & Hfound & Hprep & _ & _ & Heffects).
  rewrite Hid, Hauction in Hfound. injection Hfound as <-.
  rewrite Hsubmitted in Heffects. apply app_inv_head in Heffects. subst submitted.
  destruct prepared as [sub'|e]; [|by apply elem_of_nil in Hin].
  apply list_elem_of_fmap in Hin as (relay' & [= -> ->] & _). simpl in Hprep.
  destruct (Hpays _ _ _ Hprep) as (Hvalue & Hrecipient & Hpaid).
  exists payload. split_and!; try done. exists fees. by rewrite Hvalue.
Qed.

(** C7: Every submission of the builder for an auction that names its parent (by a hash
    that is not zero) is of a block whose last transaction, signed
    by the builder, transfers to the proposer's fee recipient exactly the value the
    submission bids, which is what the bidder answered to the fees of a payload; and a
    relay that accepts this builder, has opened the auction and holds the registration it
    was opened with finds the submission valid. *)
Theorem accepted_bid_pays_proposer builder strategy sk ctx auction sub :
  submits builder strategy sk ctx auction sub →
  trace_proposer_fee_recipient (submission_message sub) = fee_recipient (context_proposer auction) ∧
  pays builder (submission_payload sub) (fee_recipient (context_proposer auction))
    (trace_value (submission_message sub)) ∧
  (∃ fees, run strategy fees = Some (Some (trace_value (submission_message sub)))) ∧
  ∀ inner rs, relay_context inner = ctx →
    relay_ready inner rs (secret_key_public_key sk) auction →
    submission_valid inner rs sub.
Proof using view_laws TL PL.
  intros (payload & Hprep & Hparent & Hfees & Hrecipient & Hpays)%submits_prepared.
  split; [done|]. split; [by rewrite <-Hrecipient|]. split; [done|].
  intros inner rs <- (Hbuilder & Hopen & registration & Hreg & Hfee).
  by apply (prepared_submission_accepted inner rs payload sk auction sub registration).
Qed.

(** ** What the proposer gets *)

(** The payload of a context pays the value of its bid at an address the proposer of the
    auction has signed. *)
Definition pays_registered (ctx : ChainContext) (k : AuctionRequest)
    (c : AuctionContext.AuctionContext) : Prop :=
  ∃ builder registration,
    key_of registration = public_key k ∧ signed_by_key registration ctx ∧
    pays builder (execution_payload c) (registration_fee_recipient (registration_message registration))
      (bid_value (signed_bid_message (signed_builder_bid c))).

(** Of the submissions that arrive, those under the key of an accepted builder were made by
    a builder of this kind: the accepted builders run this program, and nobody else has
    their keys. *)
Definition honest_builders (inner : Relay.Inner) (arrived : SignedBidSubmission → Prop) : Prop :=
  ∀ sub, arrived sub → builder_of sub ∈ builder_registry inner →
    ∃ builder strategy sk auction, submits builder strategy sk (relay_context inner) auction sub.

Lemma sold_pays inner arrived k c :
  honest_builders inner arrived → sold arrived inner k c →
  pays_registered (relay_context inner) k c.
Proof using view_laws TL PL.
  intros Hhonest (sub & d & Hc & Harrived & _ & Hbuilder & _ & _ & _ & reg & Hkey & Hsigned & Hfee).
  destruct (Hhonest sub Harrived Hbuilder) as (builder & strategy & sk & auction & Hsubmits).
  apply submits_prepared in Hsubmits as (_ & _ & _ & _ & _ & Hpays).
  exists builder, reg. split; [done|]. split; [done|].
  rewrite (holds_payload _ _ _ _ _ Hc), (holds_bid_value _ _ _ _ _ Hc),
    (holds_value _ _ _ _ _ Hc). by rewrite <-Hfee.
Qed.

(** C3: The program from end to end: when the accepted builders run this builder,
    then whatever requests the relay serves and however they interleave, every bid it
    offers is for the header of a payload whose last transaction, signed by a builder, is a
    transfer to the proposer, at an address it has signed, of exactly the value of the bid;
    and so is that of every payload the relay releases, which is the one of the header the
    proposer has signed.  That the transfer succeeds when the block is executed is not
    claimed: [append_payment] does not look at it. *)
Theorem proposer_is_paid `{BL : !SignableLaws BuilderBid} relay_key builders ctx root arrived
    horizon pl :
  let '(inner, s0) := Relay.new relay_key builders ctx root in
  honest_builders inner arrived →
  steps (pool_step (request arrived inner horizon)) (start s0) pl →
  (∀ k bid, Reply_bid k (Ok bid) ∈ finished pl →
     ∃ c, bid = signed_builder_bid c ∧
       to_header (execution_payload c) = Ok (bid_header (signed_bid_message bid)) ∧
       pays_registered ctx k c) ∧
  (∀ block contents, Reply_contents block (Ok contents) ∈ finished pl →
     ∃ k c, contents = to_auction_contents c ∧ slot k = blinded_slot (blinded_message block) ∧
       to_header (contents_execution_payload contents)
         = Ok (blinded_payload_header (blinded_message block)) ∧
       verify_blinded_block_signature k block root ctx = Ok tt ∧
       pays_registered ctx k c).
Proof using view_laws TL PL.
  simpl. intros Hhonest Hsteps.
  apply (new_pool_ok arrived) in Hsteps as [_ Hreplies]. rewrite Forall_forall in Hreplies.
  split.
  - intros k bid Hin. destruct (Hreplies _ Hin) as (c & Hsold & ->). exists c.
    split; [done|]. pose proof (sold_header _ _ _ _ Hsold) as Hheader. split.
    + by destruct c.
    + by apply (sold_pays _ _ _ _ Hhonest Hsold).
  - intros block contents Hin.
    destruct (Hreplies _ Hin) as (k & c & Hsold & -> & Hslot & Hheader & Hsigned).
    exists k, c. split_and!; try done. by apply (sold_pays _ _ _ _ Hhonest Hsold).
Qed.
End paid_bids.

(** * Examples *)

Module ToyPaidBids.
Import ToyInstances.
Import ToyHashing.
Import ToyExecution.
Import ToyPayloads.
Import ToyGenerator.
Import ToyBidder.
Import ToyJob.

(** The chain asks for a payload on top of block 41 in slot 201. *)
Definition toy_asked : BuilderPayloadBuilderAttributes :=
  Attributes.new (toy_hash 41) ToyBuilder.toy_rpc.

Definition toy_messages : list (World N * Message) :=
  [(toy_world, PayloadEvent (Some toy_asked))].

Definition toy_auctioneer : option (Service N) :=
  Auctioneer.spawn (Auctioneer.new (toy_sk 2) toy_relays (toy_network 32) 0).1 toy_world toy_messages
    (Auctioneer.new (toy_sk 2) toy_relays (toy_network 32) 0).2.

Definition toy_paid_auction : AuctionContext := {|
  context_slot := 201;
  context_attributes := attach_proposal toy_asked ToyBuilder.toy_proposal;
  context_proposer := context_proposer toy_auction_context;
  context_relays := context_relays toy_auction_context;
|}.

Definition toy_paid_id : PayloadId := payload_id_of (context_attributes toy_paid_auction).

Definition toy_paid_job : PayloadJob := job_started {|
  parent_block := seal (toy_hash 41) (toy_chain_block (toy_block 40 41));
  extra_data := [7];
  config_attributes := context_attributes toy_paid_auction;
|} None.

(** One build, its bid, and its payment. *)
Definition toy_paid_schedule : list (ExecutionFunctions * Action) :=
  pair toy_client <$> [DoPoll false 1; DoBuild 0; DoPoll false 0; DoSend; DoBid; DoPoll false 0;
                       DoFinalize].

Definition toy_paid_run : option System :=
  exec_all ToyBuilder.toy_builder (config toy_paid_job) toy_strategy toy_closed 10 toy_paid_schedule
    (system_started (config toy_paid_job) None ∅).

(** The relay after it has opened the auction on top of block 41. *)
Definition toy_ready : Shared :=
  (Tasks.run (Relay.on_payload_attributes {|
     event_proposer_index := 3;
     event_proposal_slot := 201;
     event_parent_block_hash := toy_hash 41;
   |}) toy_relay).1.

(** The submissions that were made. *)
Definition submissions_of (l : list (Effect N)) : list SignedBidSubmission :=
  omap (λ e, match e with SubmitBid _ sub => Some sub | _ => None end) l.

Definition toy_submitted : option SignedBidSubmission :=
  self ← toy_auctioneer;
  s ← toy_paid_run;
  payload ← head (sys_dispatched s);
  self' ← submit_payload (Auctioneer.new (toy_sk 2) toy_relays (toy_network 32) 0).1 toy_world
            payload self;
  head (submissions_of (drop (length (effects self)) (effects self'))).

Definition toy_paid_submission : SignedBidSubmission :=
  default (toy_submission 201 41 41 0) toy_submitted.

Lemma is_default {A} (o : option A) d : bool_decide (is_Some o) = true → o = Some (default d o).
Proof. destruct o; [done|]. intros H%bool_decide_eq_true. by destruct H. Qed.

Lemma toy_submitted_eq : toy_submitted = Some toy_paid_submission.
Proof. apply is_default. vm_compute. reflexivity. Qed.

Lemma submitted_parts {A B C D E} (a : option A) (b : option B) (f : B → option C)
    (g : A → C → option D) (h : A → D → option E) e :
  (self ← a; s ← b; p ← f s; self' ← g self p; h self self') = Some e →
  ∃ self s p self', a = Some self ∧ b = Some s ∧ f s = Some p ∧ g self p = Some self' ∧
    h self self' = Some e.
Proof.
  destruct a as [self|], b as [s|]; try done. simpl. destruct (f s) as [p|] eqn:Hp; [|done].
  simpl. destruct (g self p) as [self'|] eqn:Hg; [|done]. intros He. eauto 10.
Qed.

Lemma head_elem {A} (l : list A) x : head l = Some x → x ∈ l.
Proof. destruct l; [done|]. intros [= ->]. left. Qed.

Lemma head_submission l sub : head (submissions_of l) = Some sub → ∃ relay, SubmitBid relay sub ∈ l.
Proof.
  intros Hin%head_elem. apply list_elem_of_omap in Hin as (e & He & Hsub).
  destruct e as [| |relay sub']; try done. injection Hsub as ->. eauto.
Qed.

Lemma toy_paid_open self : toy_auctioneer = Some self →
  Auctioneer.open_auctions self !! toy_paid_id = Some toy_paid_auction.
Proof.
  assert (H : (self ← toy_auctioneer; Auctioneer.open_auctions self !! toy_paid_id)
    = Some toy_paid_auction) by (vm_compute; reflexivity).
  intros Hself. rewrite Hself in H. exact H.
Qed.

Lemma toy_ready_ready : relay_ready toy_inner toy_ready (toy_pk 1002) toy_paid_auction.
Proof.
  split; [apply (bool_decide_unpack _); vm_compute; exact I|].
  split; [apply (bool_decide_unpack _); vm_compute; exact I|].
  exists (toy_registration 20). split; [vm_compute; reflexivity|reflexivity].
Qed.

Lemma toy_parent_named :
  hash_is_zero (attributes_parent (Attributes.inner (context_attributes toy_paid_auction))) = false.
Proof. vm_compute. reflexivity. Qed.

Lemma toy_paid_new_job :
  new_payload_job toy_generator 2410000000000 (context_attributes toy_paid_auction)
    = Returns (Ok (toy_paid_job, 2424000000000)).
Proof. vm_compute. reflexivity. Qed.

Lemma toy_paid_steps s :
  toy_paid_run = Some s →
  steps (system_step toy_view ToyBuilder.toy_builder (config toy_paid_job) toy_strategy)
    (system_started (config toy_paid_job) (cached_reads toy_paid_job) ∅) s.
Proof. unfold toy_paid_run. apply exec_all_sound. repeat constructor. Qed.

Lemma submit_grows {Url} config world payload (self self' : Service Url) :
  submit_payload config world payload self = Some self' →
  effects self' = effects self ++ drop (length (effects self)) (effects self').
Proof.
  intros (auction & prepared & _ & _ & _ & _ & Heffects)%submit_payload_Some.
  rewrite Heffects at 2. by rewrite drop_app_length.
Qed.

#[local] Opaque toy_auctioneer toy_paid_run toy_strategy toy_paid_submission.

(** The builder makes the submission. *)
Lemma toy_submits :
  submits (Url := N) toy_view ToyBuilder.toy_builder toy_strategy (toy_sk 2) (toy_network 32)
    toy_paid_auction toy_paid_submission.
Proof.
  destruct (submitted_parts _ _ _ _ _ _ toy_submitted_eq)
    as (self & s & payload & self' & Hself & Hs & Hhead & Hself' & Hsub).
  apply head_submission in Hsub as (relay & Hin).
  exact (submits_payload toy_view ToyBuilder.toy_builder toy_strategy (toy_sk 2) (toy_network 32)
    toy_paid_auction toy_paid_submission toy_relays 0 toy_world toy_messages self toy_paid_id
    toy_generator 2410000000000 toy_paid_job 2424000000000 ∅ s payload toy_world self' relay _
    Hself (toy_paid_open self Hself) toy_parent_named toy_paid_new_job (toy_paid_steps s Hs)
    (head_elem _ _ Hhead) Hself' (submit_grows _ _ _ _ _ Hself') Hin).
Qed.

Lemma toy_paid_value : trace_value (submission_message toy_paid_submission) = 110707.
Proof. vm_compute. reflexivity. Qed.

(** The bid of the submission, 110707, is what the proposer is paid. *)
Lemma accepted_bid_pays_proposer_witness :
  pays toy_view ToyBuilder.toy_builder (submission_payload toy_paid_submission) (toy_address 77)
    (trace_value (submission_message toy_paid_submission)) ∧
  trace_value (submission_message toy_paid_submission) = 110707 ∧
  submission_valid toy_inner toy_ready toy_paid_submission.
Proof.
  destruct (accepted_bid_pays_proposer toy_view toy_view_laws ToyBuilder.toy_builder toy_strategy
    (toy_sk 2) (toy_network 32) toy_paid_auction toy_paid_submission toy_submits)
    as (_ & Hpays & _ & Hvalid).
  split; [exact Hpays|]. split; [exact toy_paid_value|].
  exact (Hvalid toy_inner toy_ready eq_refl toy_ready_ready).
Defined.

(** The relay serves the builder's submission, the proposer's question for a bid, and the
    block the proposer signs for it. *)
Definition toy_arrived (sub : SignedBidSubmission) : Prop := sub = toy_paid_submission.

Definition toy_paid_request : AuctionRequest :=
  {| slot := 201; parent_hash := toy_hash 41; public_key := toy_pk 1005 |}.

Definition toy_paid_header : toy_header :=
  match to_header (submission_payload toy_paid_submission) with
  | Ok h => toy_header_of h
  | Err _ => Build_toy_header 0 0 0
  end.

Definition toy_paid_block : SignedBlindedBeaconBlock :=
  SignedBlindedBeaconBlock_Deneb {|
    signed_block_message := {|
      block_slot := 201;
      block_proposer_index := 3;
      block_parent_root := toy_root 11;
      block_state_root := toy_root 12;
      block_body := {|
        deneb_fields := toy_fields;
        deneb_execution_payload := (toy_paid_header : deneb_ExecutionPayloadHeader);
        deneb_bls_to_execution_changes := (13%N : BlsToExecutionChanges);
        deneb_blob_kzg_commitments := [toy_commitment 3];
      |};
    |};
    signed_block_signature := toy_sig 1005 (1000 * 201 + toy_header_block_hash toy_paid_header + 4);
  |}.

Definition toy_served : pool Shared Reply :=
  play (toy_script
    [(λ _, Reply_clock) <$> Relay.on_epoch toy_inner toy_node 6;
     Reply_registered <$> Relay.register_validators toy_inner in_order 1000 [toy_registration 20];
     Reply_attributes <$> Relay.on_payload_attributes {|
       event_proposer_index := 3; event_proposal_slot := 201;
       event_parent_block_hash := toy_hash 41 |};
     Reply_submitted toy_paid_submission <$> submit_bid toy_inner 6 toy_paid_submission;
     Reply_bid toy_paid_request <$> fetch_best_bid toy_paid_request;
     Reply_contents toy_paid_block <$> open_bid toy_inner toy_node toy_paid_block])
    (start RelaySafety.toy_start).

Lemma toy_script_requests (spawns : task Shared Reply → Prop) requests :
  Forall spawns requests →
  Forall (λ action, match action with inl p => spawns p | inr _ => True end) (toy_script requests).
Proof.
  induction 1 as [|p requests Hp _ IH]; [constructor|].
  constructor; [exact Hp|]. apply Forall_app. split; [by apply Forall_replicate|exact IH].
Qed.

Lemma toy_served_steps :
  steps (pool_step (request toy_arrived toy_inner 64)) (start RelaySafety.toy_start) toy_served.
Proof.
  apply play_steps, toy_script_requests.
  constructor; [apply request_on_epoch; vm_compute; discriminate|].
  constructor; [apply request_register|]. constructor; [apply request_attributes|].
  constructor; [apply request_submit; reflexivity|].
  constructor; [apply request_fetch|]. constructor; [apply request_open|constructor].
Qed.

(** The last two replies are a bid and a payload. *)
Definition last_replies (replies : list Reply) : option (AuctionRequest * N) :=
  match replies with
  | Reply_contents _ (Ok _) :: Reply_bid k (Ok bid) :: _ =>
      Some (k, bid_value (signed_bid_message bid))
  | _ => None
  end.

Lemma last_replies_elem replies k value :
  last_replies replies = Some (k, value) →
  ∃ bid block contents, Reply_bid k (Ok bid) ∈ replies ∧
    Reply_contents block (Ok contents) ∈ replies ∧ bid_value (signed_bid_message bid) = value.
Proof.
  destruct replies as [|[| | | |block [contents|]| | |] [|[| | |k' [bid|]| | | |] rest]]; try done.
  intros [= -> Hvalue]. exists bid, block, contents.
  split; [right; left|]. split; [left|exact Hvalue].
Qed.

Lemma toy_served_replies : last_replies (finished toy_served) = Some (toy_paid_request, 110707).
Proof. vm_compute. reflexivity. Qed.

Lemma proposer_is_paid_witness : ∃ c,
  bid_value (signed_bid_message (signed_builder_bid c)) = 110707 ∧
  pays_registered toy_view (toy_network 32) toy_paid_request c.
Proof.
  destruct (proposer_is_paid (Url := N) toy_view toy_view_laws (toy_sk 1) [toy_pk 1002]
    (toy_network 32) (toy_root 1) toy_arrived 64 toy_served) as [Hbids _].
  - intros sub -> _. exists ToyBuilder.toy_builder, toy_strategy, (toy_sk 2), toy_paid_auction.
    exact toy_submits.
  - exact toy_served_steps.
  - destruct (last_replies_elem _ _ _ toy_served_replies)
      as (bid & block & contents & Hbid & _ & Hvalue).
    destruct (Hbids _ bid Hbid) as (c & -> & _ & Hpays). exists c. split; [exact Hvalue|exact Hpays].
Defined.
End ToyPaidBids.
