(* ===== verification/Proposer.v ===== *)
(** What a proposer gets that asks for a bid through the multiplexer, when the relays are
    relays of this program and the builders they accept are builders of this program.

    [serve] says which relay runs behind each address, and what it has replied; the
    multiplexer's answers are among those replies, as [OverHttp] shows them to arrive. *)

From S2P Require Import Prelude.
From S2P Require Import Consensus.
From S2P Require Import Types.
From S2P Require Import Signing.
From S2P Require Import ValidatorRegistry.
From S2P Require Import AuctionContext.
From S2P Require Import Tasks.
From S2P Require Import Traces.
From S2P Require Import RelayClient.
From S2P Require Import RelayMux.
From S2P Require Import BidBoard.
From S2P Require Import Execution.
From S2P Require Import Attributes.
From S2P Require Import PayloadBuilder.
From S2P Require Import Bidder.
From S2P Require Import PayloadJob.
From S2P Require Import Compat.
From S2P Require Import Relay.
From S2P Require Import RelaySpec.
From S2P Require Import RelaySafety.
From S2P Require Import EndToEnd.
From S2P Require Import PaidBids.
From S2P Require Import Toy.

#[local] Open Scope N_scope.

Section proposer.
Context `{CF : ConsensusFunctions} `{BS : !BuilderSignable} `{CL : !ConsensusLaws}.
Context {HS : Hashing} `{ET : !ExecutionTypes} {EX : ExecutionTerms} {PT : PayloadTypes}.
Context {FC : FloatConversion} {Url BuilderUrl : Type}.
Context `{PL : !PayloadLaws PT} `{TL : !SignableLaws BidTrace} `{BL : !SignableLaws BuilderBid}.
Context (view : ExecutionFunctions → Prop) (view_laws : ∀ EF, view EF → ExecutionLaws).
Context (ctx : ChainContext).
Context (serve : RelayClient.Relay Url → Relay.Inner * pool Shared RelaySafety.Reply).
Context (arrived : RelayClient.Relay Url → SignedBidSubmission → Prop).
Implicit Types (r : RelayClient.Relay Url) (b : SignedBuilderBid).
Implicit Types (block : SignedBlindedBeaconBlock) (contents : AuctionContents).

(** A relay of this program with honest builders runs at the address. *)
Definition runs_relay r : Prop :=
  ∃ sk builders root horizon s0,
    Relay.new sk builders ctx root = ((serve r).1, s0) ∧
    steps (pool_step (request (arrived r) (serve r).1 horizon)) (start s0) (serve r).2 ∧
    honest_builders (Url := BuilderUrl) view (serve r).1 (arrived r).

(** The answers the multiplexer gets are the relays' replies. *)
Definition bids_served (request : AuctionRequest) (gather : Answers Url SignedBuilderBid) : Prop :=
  ∀ rs r b, (r, Some (Ok b)) ∈ gather rs →
    RelaySafety.Reply_bid request (Ok b) ∈ finished (serve r).2.

Definition contents_served block (gather : Answers Url AuctionContents) : Prop :=
  ∀ rs r contents, (r, Some (Ok contents)) ∈ gather rs →
    RelaySafety.Reply_contents block (Ok contents) ∈ finished (serve r).2.

(** The hashes of a header bind the payload: no two submissions that arrive anywhere have
    different payloads with one header. *)
Definition headers_bind : Prop :=
  ∀ r r' sub sub' h, arrived r sub → arrived r' sub' →
    to_header (submission_payload sub) = Ok h → to_header (submission_payload sub') = Ok h →
    submission_payload sub = submission_payload sub'.

(** ** What one relay replies *)

Lemma served_replies r :
  runs_relay r →
  honest_builders (Url := BuilderUrl) view (serve r).1 (arrived r) ∧
  relay_context (serve r).1 = ctx ∧
  Forall (reply_ok (arrived r) (serve r).1) (finished (serve r).2).
Proof.
  intros (sk & builders & root & horizon & s0 & Hnew & Hsteps & Hhonest).
  split; [done|]. injection Hnew as Hinner <-. rewrite <-Hinner in *.
  split; [done|]. by apply (new_pool_ok (arrived r)) in Hsteps as [_ ?].
Qed.

(** The payload of a sold context arrived in a submission, and has the header of the
    bid. *)
Lemma sold_submission r k c :
  sold (arrived r) (serve r).1 k c →
  ∃ sub, arrived r sub ∧ execution_payload c = submission_payload sub ∧
    to_header (submission_payload sub)
      = Ok (bid_header (signed_bid_message (signed_builder_bid c))).
Proof.
  intros (sub & d & Hc & Harrived & _). exists sub. split; [done|].
  split; [apply (holds_payload _ _ _ _ _ Hc)|apply (holds_header _ _ _ _ _ Hc)].
Qed.

Lemma served_bid r request b :
  runs_relay r → RelaySafety.Reply_bid request (Ok b) ∈ finished (serve r).2 →
  ∃ c sub, arrived r sub ∧ execution_payload c = submission_payload sub ∧
    to_header (submission_payload sub) = Ok (bid_header (signed_bid_message b)) ∧
    b = signed_builder_bid c ∧ pays_registered view ctx request c.
Proof using view_laws TL PL BL.
  intros (Hhonest & Hctx & Hok)%served_replies Hin. rewrite Forall_forall in Hok.
  destruct (Hok _ Hin) as (c & Hsold & ->).
  destruct (sold_submission _ _ _ Hsold) as (sub & ? & ? & ?). exists c, sub.
  split_and!; try done. rewrite <-Hctx. by eapply sold_pays.
Qed.

Lemma served_contents r block contents :
  runs_relay r → RelaySafety.Reply_contents block (Ok contents) ∈ finished (serve r).2 →
  ∃ sub, arrived r sub ∧ contents_execution_payload contents = submission_payload sub ∧
    to_header (submission_payload sub) = Ok (blinded_payload_header (blinded_message block)).
Proof using BL.
  intros (_ & _ & Hok)%served_replies Hin. rewrite Forall_forall in Hok.
  destruct (Hok _ Hin) as (k & c & Hsold & -> & _ & Hheader & _).
  destruct (sold_submission _ _ _ Hsold) as (sub & ? & Hpayload & _). exists sub.
  assert (Hc : contents_execution_payload (to_auction_contents c) = execution_payload c)
    by (by destruct c).
  rewrite Hc, Hpayload in *. done.
Qed.

(** ** What the multiplexer pins *)

(** The relays of a bid on the board are configured. *)
Lemma best_offer_relays inner request b rs :
  best_offer bids_served inner request b rs →
  (∀ r, r ∈ rs → r ∈ relays inner) ∧
  ∃ r, r ∈ relays inner ∧ RelaySafety.Reply_bid request (Ok b) ∈ finished (serve r).2.
Proof.
  intros (gather & Hserved & Hasked & _ & Hrs & (r & Hr & Hoffered) & _). split.
  - intros r' (b' & [Hin _] & _)%Hrs. by eapply Hasked.
  - destruct Hoffered as [Hin _]. exists r. split; [by eapply Hasked|by eapply Hserved].
Qed.

(** C4: Let every configured relay be a relay of this program whose accepted builders run
    this builder ([runs_relay]), and let no two payloads that are submitted to them share a
    header ([headers_bind]).  Then a proposer that asks the multiplexer for a bid, signs a
    block with the header of that bid, and gets its contents from the multiplexer, gets a
    payload whose last transaction is a transfer of exactly the value of the bid to an
    address that the proposer of the auction has signed: whatever other requests the
    multiplexer and the relays serve, whatever the interleaving, and whichever relay
    releases the payload. *)
Theorem proposer_is_paid_through_mux rs pl request b block gather contents :
  let '(inner, st0) := RelayMux.new rs ctx in
  Forall runs_relay rs → headers_bind →
  steps (pool_step (BidBoard.board_request bids_served contents_served inner)) (start st0) pl →
  BidBoard.Reply_bid request (Answered (Ok b)) ∈ finished pl →
  BidBoard.Reply_contents block gather (Ok contents) ∈ finished pl →
  blinded_payload_header (blinded_message block) = bid_header (signed_bid_message b) →
  matches_block block contents ∧
  ∃ proposer_builder registration,
    key_of registration = public_key request ∧ signed_by_key registration ctx ∧
    pays view proposer_builder (contents_execution_payload contents)
      (registration_fee_recipient (registration_message registration))
      (bid_value (signed_bid_message b)).
Proof using view_laws TL PL BL.
  simpl. set (inner := (RelayMux.new rs ctx).1). intros Hrelays Hbind Hsteps Hbid Hcontents Hheader.
  rewrite Forall_forall in Hrelays.
  destruct (pool_has_simple_ledger (BidBoard.ledger_of bids_served inner) _ _ _ _
    (board_justified_lasting contents_served inner)
    (board_request_ensures bids_served contents_served inner) (new_board bids_served rs ctx) Hsteps)
    as (t & [_ Hlegal] & Hjustified & _).
  rewrite Forall_forall in Hjustified.
  destruct (Hjustified _ Hbid) as (rs0 & Hpins0).
  destruct (Hjustified _ Hcontents)
    as (Hserved & Hmatches & request1 & b1 & rs1 & r1 & _ & Hpins1 & _ & Hr1 & Hin1).
  split; [done|].
  apply (legal_elem _ _ _ Hlegal) in Hpins0 as [_ (_ & r0 & Hr0 & Hreply0)%best_offer_relays].
  apply (legal_elem _ _ _ Hlegal) in Hpins1 as [_ [Hconfigured _]%best_offer_relays].
  destruct (served_bid r0 request b (Hrelays r0 Hr0) Hreply0)
    as (c & sub0 & Harrived0 & Hpayload0 & Hheader0 & -> & builder & registration & ? & ? & Hpays).
  destruct (served_contents r1 block contents (Hrelays r1 (Hconfigured r1 Hr1))
    (Hserved _ _ _ Hin1)) as (sub1 & Harrived1 & -> & Hheader1).
  exists builder, registration. split; [done|]. split; [done|].
  rewrite Hheader in Hheader1.
  by rewrite (Hbind r1 r0 sub1 sub0 _ Harrived1 Harrived0 Hheader1 Hheader0), <-Hpayload0.
Qed.
End proposer.

(** * Examples *)

Section examples.
Import ToyInstances.
Import ToyHashing.
Import ToyExecution.
Import ToyPayloads.
Import ToyBuilder.
Import ToyBidder.
Import ToyJob.
Import ToyPaidBids.

(** The multiplexer has one relay, the one that served the builder's submission. *)
Definition toy_address_of_relay : RelayClient.Relay N :=
  {| RelayClient.relay_public_key := Relay.relay_public_key toy_inner; relay_endpoint := 1 |}.

Definition toy_front : RelayMux.Inner N * RelayMux.State N :=
  RelayMux.new [toy_address_of_relay] (toy_network 32).

(** What the relay has replied last. *)
Definition toy_last : option (AuctionContents * SignedBuilderBid) :=
  match finished toy_served with
  | RelaySafety.Reply_contents _ (Ok contents) :: RelaySafety.Reply_bid _ (Ok b) :: _ =>
      Some (contents, b)
  | _ => None
  end.

Definition toy_offered : SignedBuilderBid := default (toy_bid 1001 41 0) (snd <$> toy_last).

Definition toy_bids : Answers N SignedBuilderBid :=
  map (λ r, (r, (λ last, Ok last.2) <$> toy_last)).
Definition toy_contents : Answers N AuctionContents :=
  map (λ r, (r, (λ last, Ok last.1) <$> toy_last)).

Lemma toy_last_replies contents b :
  toy_last = Some (contents, b) →
  RelaySafety.Reply_bid toy_paid_request (Ok b) ∈ finished toy_served ∧
  RelaySafety.Reply_contents toy_paid_block (Ok contents) ∈ finished toy_served.
Proof.
  assert (Htake : take 2 (finished toy_served) = match toy_last with
    | Some (contents, b) =>
        [RelaySafety.Reply_contents toy_paid_block (Ok contents);
         RelaySafety.Reply_bid toy_paid_request (Ok b)]
    | None => [] end) by (vm_compute; reflexivity).
  intros Hlast. rewrite Hlast in Htake. clear Hlast.
  assert (Hin : ∀ x, x ∈ take 2 (finished toy_served) → x ∈ finished toy_served).
  { intros x Hx. apply (elem_of_take _ 2) in Hx as (i & Hi & _). by eapply list_elem_of_lookup_2. }
  rewrite Htake in Hin. split; apply Hin; [right; left|left].
Qed.

Definition toy_front_script : list (task (RelayMux.State N) (BidBoard.Reply (Url := N)) + nat) :=
  [inl (BidBoard.Reply_bid toy_paid_request
          <$> RelayMux.fetch_best_bid toy_front.1 toy_bids (λ l, l) toy_paid_request);
   inr 0%nat; inr 0%nat;
   inl (BidBoard.Reply_contents toy_paid_block toy_contents
          <$> RelayMux.open_bid toy_contents toy_paid_block);
   inr 0%nat; inr 0%nat].

Definition toy_front_pool : pool (RelayMux.State N) (BidBoard.Reply (Url := N)) :=
  play toy_front_script (start toy_front.2).

Definition toy_serve (r : RelayClient.Relay N) : Relay.Inner * pool Shared RelaySafety.Reply :=
  (toy_inner, toy_served).

Lemma toy_asked_only {A} (f : RelayClient.Relay N → option (result Error A)) :
  answers_asked (map (λ r, (r, f r))).
Proof. by intros rs r x (r' & [= -> _] & ?)%list_elem_of_fmap. Qed.

(** An answer of a relay is a part of the last replies. *)
Lemma answer_last {A B} (o : option B) (f : B → A) rs (r : RelayClient.Relay N) (x : A) :
  (r, Some (Ok x)) ∈ map (λ r, (r, (λ last, Ok (E := Error) (f last)) <$> o)) rs →
  ∃ last, o = Some last ∧ x = f last.
Proof.
  intros (r' & [= _ Heq] & _)%list_elem_of_fmap. destruct o as [last|]; [|discriminate Heq].
  injection Heq as ->. exists last. split; reflexivity.
Qed.

Lemma toy_bids_served : bids_served toy_serve toy_paid_request toy_bids.
Proof.
  intros rs r b ([contents b'] & Hlast & ->)%answer_last. apply (toy_last_replies _ _ Hlast).
Qed.

Lemma toy_contents_served : contents_served toy_serve toy_paid_block toy_contents.
Proof.
  intros rs r contents ([contents' b] & Hlast & ->)%answer_last.
  apply (toy_last_replies _ _ Hlast).
Qed.

Lemma toy_front_steps :
  steps (pool_step (board_request (bids_served toy_serve) (contents_served toy_serve) toy_front.1))
    (start toy_front.2) toy_front_pool.
Proof.
  apply play_steps.
  constructor; [apply BidBoard.request_fetch; [exact toy_bids_served|apply toy_asked_only|reflexivity]|].
  do 2 (constructor; [exact I|]).
  constructor; [apply BidBoard.request_open; [exact toy_contents_served|apply toy_asked_only]|].
  do 2 (constructor; [exact I|]). constructor.
Qed.

Lemma toy_runs_relay r :
  runs_relay (BuilderUrl := N) toy_view (toy_network 32) toy_serve (λ _, toy_arrived) r.
Proof.
  exists (toy_sk 1), [toy_pk 1002], (toy_root 1), 64, RelaySafety.toy_start.
  split; [reflexivity|]. split; [exact toy_served_steps|].
  intros sub -> _. exists ToyBuilder.toy_builder, toy_strategy, (toy_sk 2), toy_paid_auction.
  exact toy_submits.
Qed.

(** The multiplexer has offered the relay's bid, and released its payload. *)
Lemma toy_front_replies : ∃ b gather contents,
  BidBoard.Reply_bid toy_paid_request (Answered (Ok b)) ∈ finished toy_front_pool ∧
  BidBoard.Reply_contents toy_paid_block gather (Ok contents) ∈ finished toy_front_pool ∧
  blinded_payload_header (blinded_message toy_paid_block) = bid_header (signed_bid_message b) ∧
  bid_value (signed_bid_message b) = 110707.
Proof.
  assert (H : match finished toy_front_pool with
    | [BidBoard.Reply_contents block _ (Ok _); BidBoard.Reply_bid request (Answered (Ok b))] =>
        block = toy_paid_block ∧ request = toy_paid_request ∧
        blinded_payload_header (blinded_message toy_paid_block) = bid_header (signed_bid_message b) ∧
        bid_value (signed_bid_message b) = 110707
    | _ => False
    end) by (vm_compute; repeat split; reflexivity).
  destruct (finished toy_front_pool) as [|[| |block gather [contents|]] [|[|request [[b|]| |]|] [|]]];
    try contradiction.
  destruct H as (-> & -> & Hheader & Hvalue). exists b, gather, contents.
  split; [right; left|]. split; [left|]. by split.
Qed.

Lemma proposer_is_paid_through_mux_witness : ∃ contents builder registration,
  matches_block toy_paid_block contents ∧ key_of registration = toy_pk 1005 ∧
  pays toy_view builder (contents_execution_payload contents)
    (registration_fee_recipient (registration_message registration)) 110707.
Proof.
  destruct toy_front_replies as (b & gather & contents & Hbid & Hcontents & Hheader & Hvalue).
  destruct (proposer_is_paid_through_mux (BuilderUrl := N) toy_view toy_view_laws (toy_network 32)
    toy_serve (λ _, toy_arrived) [toy_address_of_relay] toy_front_pool toy_paid_request b
    toy_paid_block gather contents) as (Hmatches & builder & registration & Hkey & _ & Hpays).
  - constructor; [apply toy_runs_relay|constructor].
  - intros r r' sub sub' h -> -> _ _. reflexivity.
  - exact toy_front_steps.
  - exact Hbid.
  - exact Hcontents.
  - exact Hheader.
  - rewrite Hvalue in Hpays. exists contents, builder, registration.
    split; [exact Hmatches|]. split; [exact Hkey|exact Hpays].
Defined.
End examples.
