(* ===== verification/RelayService.v ===== *)
(** The tasks that drive the three programs, of [mev-relay-rs/src/service.rs],
    [mev-boost-rs/src/service.rs] and [mev-build-rs/src/service.rs].

    The stream of slots and the answers of the beacon node are arguments, and so is
    [epoch_for], the epoch the clock gives a slot.  The turns of the relay's clock are
    a list of calls, which [perform] executes on the relay. *)

From S2P Require Import Prelude.
From S2P Require Import Consensus.
From S2P Require Import Types.
From S2P Require Import ValidatorRegistry.
From S2P Require Import Tasks.
From S2P Require Import Relay.
From S2P Require Import RelaySpec.
From S2P Require RelayMux.
From S2P Require Auctioneer.
From S2P Require Import Toy.

#[local] Open Scope N_scope.

(** * Clocks *)

Section clocks.
Context (epoch_for : N → N).

Inductive RelayCall : Type :=
| CallEpoch (epoch : N)
| CallSlot (slot : N).

(** The [while let] loop of the relay. *)
Fixpoint relay_turns (current_epoch : N) (slots : list N) : list RelayCall :=
  match slots with
  | [] => []
  | slot :: slots =>
      let epoch := epoch_for slot in
      if decide (current_epoch < epoch)
      then CallEpoch epoch :: CallSlot slot :: relay_turns epoch slots
      else CallSlot slot :: relay_turns current_epoch slots
  end.

(** The relay's task; [None] when it panics because there is no slot. *)
Definition relay_task (slots : list N) : option (list RelayCall) :=
  match slots with
  | [] => None
  | current_slot :: slots =>
      let current_epoch := epoch_for current_slot in
      Some (CallEpoch current_epoch :: relay_turns current_epoch slots)
  end.

(** The [while let] loop of the builder's clock. *)
Fixpoint builder_turns (current_epoch : N) (slots : list N) : list Auctioneer.ClockMessage :=
  match slots with
  | [] => []
  | slot :: slots =>
      let epoch := epoch_for slot in
      if decide (current_epoch < epoch)
      then Auctioneer.NewSlot slot :: Auctioneer.NewEpoch epoch :: builder_turns epoch slots
      else Auctioneer.NewSlot slot :: builder_turns current_epoch slots
  end.

(** The messages of the builder's clock. *)
Definition builder_clock (slots : list N) : option (list Auctioneer.ClockMessage) :=
  match slots with
  | [] => None
  | current_slot :: slots =>
      let current_epoch := epoch_for current_slot in
      Some (Auctioneer.NewSlot current_slot :: Auctioneer.NewEpoch current_epoch
            :: builder_turns current_epoch slots)
  end.
End clocks.

(** * The relay's tasks *)

Section relay_service.
Context `{CF : ConsensusFunctions} `{BS : !BuilderSignable}.

(** A turn of the clock, with the beacon node that answers at the time. *)
Definition perform (inner : Inner) (node : BeaconNode) (call : RelayCall) : task Shared () :=
  match call with
  | CallEpoch epoch => on_epoch inner node epoch
  | CallSlot slot => on_slot inner node slot
  end.

Fixpoint perform_all (inner : Inner) (node : RelayCall → BeaconNode) (calls : list RelayCall)
    : task Shared () :=
  match calls with
  | [] => Done ()
  | call :: calls => _ ← perform inner (node call) call; perform_all inner node calls
  end.

(** The stream of payload attributes is read until it fails or ends, and then always
    retried; what the relay cannot process is skipped. *)
Fixpoint read_stream (events : list (result ApiError PayloadAttributesEvent))
    : task Shared (result () ()) :=
  match events with
  | [] => Done (Err ())
  | Ok event :: events => _ ← on_payload_attributes event; read_stream events
  | Err _ :: _ => Done (Err ())
  end.

Definition consensus_attempt
    (get_events : result ApiError (list (result ApiError PayloadAttributesEvent)))
    : task Shared (result () ()) :=
  match get_events with
  | Ok stream => read_stream stream
  | Err _ => Done (Err ())
  end.
End relay_service.

(** [ServiceHandle::poll]: the relay, then its source of payload attributes, then its
    server. *)
Definition service_handle_poll {A} (relay consensus server : Poll A) : Poll A :=
  match relay with
  | Ready _ => relay
  | Pending =>
      match consensus with
      | Ready _ => consensus
      | Pending => server
      end
  end.

(** * The multiplexer's tasks *)

Section mux_service.
Context `{CF : ConsensusFunctions} {Url : Type}.

Fixpoint mux_task (slots : list N) : task (RelayMux.State Url) () :=
  match slots with
  | [] => Done ()
  | slot :: slots => _ ← RelayMux.on_slot slot; mux_task slots
  end.
End mux_service.

Definition mux_handle_poll {A} (relay_mux server : Poll A) : Poll A :=
  match relay_mux with
  | Ready _ => relay_mux
  | Pending => server
  end.

(** * Properties *)

Section clock_properties.
Context (epoch_for : N → N) (epoch_for_mono : ∀ a b, a ≤ b → epoch_for a ≤ epoch_for b).

Definition call_slot (call : RelayCall) : option N :=
  match call with CallSlot slot => Some slot | CallEpoch _ => None end.
Definition call_epoch (call : RelayCall) : option N :=
  match call with CallEpoch epoch => Some epoch | CallSlot _ => None end.

Definition message_call (message : Auctioneer.ClockMessage) : RelayCall :=
  match message with
  | Auctioneer.NewSlot slot => CallSlot slot
  | Auctioneer.NewEpoch epoch => CallEpoch epoch
  end.

(** The epoch that was entered last. *)
Definition epoch_after (current_epoch : N) (calls : list RelayCall) : N :=
  default current_epoch (last (omap call_epoch calls)).

Lemma epoch_after_cons e call calls :
  epoch_after e (call :: calls) = epoch_after (default e (call_epoch call)) calls.
Proof.
  unfold epoch_after. destruct call as [epoch|slot]; simpl; [|done].
  rewrite last_cons. by destruct (last _).
Qed.

Lemma relay_turns_spec e slots :
  StronglySorted N.lt slots → Forall (λ slot, e ≤ epoch_for slot) slots →
  let calls := relay_turns epoch_for e slots in
  omap call_slot calls = slots ∧
  StronglySorted N.lt (e :: omap call_epoch calls) ∧
  ∀ pre slot post, calls = pre ++ CallSlot slot :: post → epoch_after e pre = epoch_for slot.
Proof.
  intros Hsorted. revert e. induction Hsorted as [|slot slots Hsorted IH Hlt]; intros e He.
  - simpl. split_and!; [done|by repeat constructor|]. by intros [].
  - apply Forall_cons in He as [He _]. simpl.
    assert (Hmono : Forall (λ slot', epoch_for slot ≤ epoch_for slot') slots).
    { eapply Forall_impl; [exact Hlt|]. intros slot' Hslot. apply epoch_for_mono. lia. }
    case_decide as Hnew.
    + destruct (IH (epoch_for slot) Hmono) as (Hslots & Hepochs & Hturn). simpl.
      split_and!; [by f_equal| |].
      * constructor; [done|]. constructor; [done|].
        apply StronglySorted_inv in Hepochs as [_ Hall].
        eapply Forall_impl; [exact Hall|]. simpl. lia.
      * intros pre slot' post Hpre.
        destruct pre as [|call [|call' pre]]; simplify_eq/=; rewrite !epoch_after_cons; [done|].
        by eapply Hturn.
    + assert (Heq : epoch_for slot = e) by lia. rewrite Heq in *.
      destruct (IH e Hmono) as (Hslots & Hepochs & Hturn).
      split_and!; [simpl; by f_equal|done|].
      intros pre slot' post Hpre. destruct pre as [|call pre]; simplify_eq/=; [done|].
      rewrite epoch_after_cons. by eapply Hturn.
Qed.

Lemma epoch_after_elem e calls :
  epoch_after e calls = e ∨ CallEpoch (epoch_after e calls) ∈ calls.
Proof.
  unfold epoch_after. destruct (last (omap call_epoch calls)) as [e'|] eqn:Hlast; [|by left].
  right. apply last_Some in Hlast as [l Hl].
  assert (Hin : e' ∈ omap call_epoch calls) by (rewrite Hl; set_solver).
  apply list_elem_of_omap in Hin as ([epoch|] & Hin & [= ->]). done.
Qed.

Lemma relay_turns_epochs e slots epoch :
  CallEpoch epoch ∈ relay_turns epoch_for e slots → ∃ slot, slot ∈ slots ∧ epoch = epoch_for slot.
Proof.
  revert e. induction slots as [|slot slots IH]; intros e; simpl; [by intros ?%elem_of_nil|].
  case_decide; rewrite !elem_of_cons;
    [intros [[= ->]|[?|(slot' & Hin & ->)%IH]]|intros [?|(slot' & Hin & ->)%IH]]; try done;
    [exists slot|exists slot'|exists slot']; set_solver.
Qed.

(** The epochs the relay enters end with the epoch of the last slot. *)
Lemma relay_task_epochs first rest now calls :
  StronglySorted N.lt (first :: rest ++ [now]) →
  relay_task epoch_for (first :: rest ++ [now]) = Some calls →
  CallEpoch (epoch_for now) ∈ calls ∧ CallSlot now ∈ calls ∧
  (∀ epoch, CallEpoch epoch ∈ calls → epoch ≤ epoch_for now) ∧
  (∀ slot, CallSlot slot ∈ calls → slot ≤ now).
Proof using epoch_for_mono.
  intros Hsorted [= <-].
  assert (Hle : ∀ slot, slot ∈ first :: rest ++ [now] → slot ≤ now).
  { intros slot Hin. rewrite app_comm_cons, elem_of_app in Hin.
    destruct Hin as [Hin|Hin%list_elem_of_singleton]; [|lia].
    rewrite app_comm_cons in Hsorted.
    pose proof (StronglySorted_app_1_elem_of N.lt _ _ slot now Hsorted Hin ltac:(set_solver)). lia. }
  apply StronglySorted_inv in Hsorted as [Hsorted Hfirst].
  destruct (relay_turns_spec (epoch_for first) (rest ++ [now]) Hsorted) as (Hslots & _ & Hturn).
  { eapply Forall_impl; [exact Hfirst|]. intros slot Hlt. apply epoch_for_mono. lia. }
  assert (Hcalled : ∀ slot, slot ∈ rest ++ [now] ↔
    CallSlot slot ∈ relay_turns epoch_for (epoch_for first) (rest ++ [now])).
  { intros slot. rewrite <-Hslots at 1. rewrite list_elem_of_omap. split; [|by eauto].
    by intros ([|slot'] & Hin & [= ->]). }
  assert (Hin : CallSlot now ∈ relay_turns epoch_for (epoch_for first) (rest ++ [now]))
    by (apply Hcalled; set_solver).
  split_and!.
  - apply list_elem_of_split in Hin as (pre & post & Hpre). pose proof (Hturn pre now post Hpre) as Hnow.
    rewrite Hpre. destruct (epoch_after_elem (epoch_for first) pre) as [He|He];
      rewrite Hnow in He; [rewrite He; by left|set_solver].
  - set_solver.
  - intros epoch [[= ->]|He]%elem_of_cons; [apply epoch_for_mono, Hle; set_solver|].
    apply relay_turns_epochs in He as (slot & Hslot & ->). apply epoch_for_mono, Hle. set_solver.
  - intros slot [?|Hslot]%elem_of_cons; [done|]. apply Hcalled in Hslot. apply Hle. set_solver.
Qed.

(** Over slots that increase, the relay enters every epoch once and in order,
    the epoch of its first slot first; every later slot gets one turn, in order, after
    its own epoch has been entered and before the next one.  The builder's clock goes
    through the same epochs, and announces the first slot as well. *)
Theorem clocks_spec first slots calls messages :
  StronglySorted N.lt (first :: slots) →
  relay_task epoch_for (first :: slots) = Some calls →
  builder_clock epoch_for (first :: slots) = Some messages →
  omap call_slot calls = slots ∧
  StronglySorted N.lt (omap call_epoch calls) ∧
  head calls = Some (CallEpoch (epoch_for first)) ∧
  (∀ pre slot post, calls = pre ++ CallSlot slot :: post →
     epoch_after (epoch_for first) pre = epoch_for slot) ∧
  omap call_slot (message_call <$> messages) = first :: slots ∧
  omap call_epoch (message_call <$> messages) = omap call_epoch calls.
Proof using epoch_for_mono.
  intros Hsorted [= <-] [= <-]. apply StronglySorted_inv in Hsorted as [Hsorted Hfirst].
  destruct (relay_turns_spec (epoch_for first) slots Hsorted) as (Hslots & Hepochs & Hturn).
  { eapply Forall_impl; [exact Hfirst|]. intros slot Hlt. apply epoch_for_mono. lia. }
  assert (Hsame : ∀ l e,
    omap call_slot (message_call <$> builder_turns epoch_for e l)
      = omap call_slot (relay_turns epoch_for e l) ∧
    omap call_epoch (message_call <$> builder_turns epoch_for e l)
      = omap call_epoch (relay_turns epoch_for e l)).
  { induction l as [|slot l IH]; intros e; simpl; [done|].
    case_decide; csimpl; [destruct (IH (epoch_for slot)) as [-> ->]|destruct (IH e) as [-> ->]];
      done. }
  destruct (Hsame slots (epoch_for first)) as [Hs He].
  csimpl. split_and!; [done|done|done| |by rewrite Hs, Hslots|by rewrite He].
  intros pre slot post Hpre. destruct pre as [|call pre]; simplify_eq/=.
  rewrite epoch_after_cons. by eapply Hturn.
Qed.
End clock_properties.

Section relay_service_properties.
Context `{CF : ConsensusFunctions} `{BS : !BuilderSignable}.
Implicit Types (inner : Inner) (node : RelayCall → BeaconNode) (s : Shared) (k : AuctionRequest).

(** ** What the turns of the clock keep *)

(** An auction's submissions outlive four epochs, an open auction its next slot. *)
Definition retains inner (call : RelayCall) k : Prop :=
  match call with
  | CallEpoch epoch => (epoch - 4) * slots_per_epoch (relay_context inner) ≤ slot k
  | CallSlot _ => True
  end.

Definition stays_open (call : RelayCall) k : Prop :=
  match call with
  | CallEpoch _ => True
  | CallSlot now => now ≤ slot k + 1
  end.

#[export] Instance retains_dec inner call k : Decision (retains inner call k).
Proof. destruct call; simpl; apply _. Defined.

Definition call_in_range inner (call : RelayCall) : Prop :=
  match call with
  | CallEpoch epoch => epoch * slots_per_epoch (relay_context inner) < u64_mod
  | CallSlot _ => True
  end.

Definition open_in_range s : Prop :=
  ∀ k, k ∈ open_auctions (state s) → slot k + 1 < u64_mod.

(** What survives of the three maps, and of the open auctions, when the clock has made
    [calls]. *)
Record kept_by inner (calls : list RelayCall) s s' : Prop := {
  kept_auctions k : auctions (state s') !! k
    = if decide (Forall (λ call, retains inner call k) calls) then auctions (state s) !! k else None;
  kept_submissions k : other_submissions (state s') !! k
    = if decide (Forall (λ call, retains inner call k) calls)
      then other_submissions (state s) !! k else None;
  kept_delivered k : delivered_payloads (state s') !! k
    = if decide (Forall (λ call, retains inner call k) calls)
      then delivered_payloads (state s) !! k else None;
  kept_open k : k ∈ open_auctions (state s') ↔
    k ∈ open_auctions (state s) ∧ Forall (λ call, stays_open call k) calls;
}.

Lemma on_slot_submissions inner (node : BeaconNode) now s :
  other_submissions (state (run (on_slot inner node now) s).1) = other_submissions (state s).
Proof. by rewrite run_on_slot. Qed.

Lemma perform_kept inner (node : BeaconNode) call s :
  call_in_range inner call → open_in_range s →
  kept_by inner [call] s (run (perform inner node call) s).1.
Proof.
  intros Hrange Hopen. destruct call as [epoch|now]; cbn [perform].
  - assert (Hone : ∀ k, Forall (λ call, retains inner call k) [CallEpoch epoch] ↔
      (epoch - 4) * slots_per_epoch (relay_context inner) ≤ slot k).
    { intros k. by rewrite Forall_singleton. }
    split; intros k; destruct (on_epoch_retains inner node epoch s k Hrange) as (Ha & Ho & Hd & Hp).
    + rewrite Ha. apply decide_ext. by rewrite Hone.
    + rewrite Ho. apply decide_ext. by rewrite Hone.
    + rewrite Hd. apply decide_ext. by rewrite Hone.
    + rewrite Hp, Forall_singleton. simpl. tauto.
  - destruct (on_slot_spec inner node now s Hopen) as (Hp & _ & Ha & Hd & _).
    assert (Hall : ∀ k, Forall (λ call, retains inner call k) [CallSlot now]).
    { intros k. by repeat constructor. }
    split; intros k; rewrite ?decide_True by apply Hall; try congruence.
    + by rewrite on_slot_submissions.
    + rewrite Hp, Forall_singleton. done.
Qed.

Lemma kept_by_cons inner call calls s1 s2 s3 :
  kept_by inner [call] s1 s2 → kept_by inner calls s2 s3 → kept_by inner (call :: calls) s1 s3.
Proof.
  intros [Ha1 Ho1 Hd1 Hp1] [Ha2 Ho2 Hd2 Hp2].
  assert (Hif : ∀ {A} k (x y z : option A),
    x = (if decide (Forall (λ call, retains inner call k) [call]) then y else None) →
    z = (if decide (Forall (λ call, retains inner call k) calls) then x else None) →
    z = (if decide (Forall (λ call, retains inner call k) (call :: calls)) then y else None)).
  { intros A k x y z -> ->. pose proof (Forall_cons (λ call, retains inner call k) call calls).
    pose proof (Forall_singleton (λ call, retains inner call k) call).
    repeat case_decide; try done; exfalso; tauto. }
  split; intros k;
    [exact (Hif _ k _ _ _ (Ha1 k) (Ha2 k))|exact (Hif _ k _ _ _ (Ho1 k) (Ho2 k))
    |exact (Hif _ k _ _ _ (Hd1 k) (Hd2 k))|].
  rewrite Hp2, Hp1, !Forall_cons, Forall_nil. tauto.
Qed.

Lemma perform_all_kept inner node calls s :
  Forall (call_in_range inner) calls → open_in_range s →
  kept_by inner calls s (run (perform_all inner node calls) s).1.
Proof.
  intros Hrange. revert s. induction Hrange as [|call calls Hcall _ IH]; intros s Hopen.
  - simpl. split; intros k; rewrite ?decide_True by constructor; try done.
    split; [by intros|by intros []].
  - cbn [perform_all]. rewrite run_bind.
    pose proof (perform_kept inner (node call) call s Hcall Hopen) as Hstep.
    destruct (run (perform inner (node call) call) s) as [s1 []]. simpl in Hstep.
    eapply kept_by_cons; [done|]. apply IH. intros k Hk.
    apply (kept_open _ _ _ _ Hstep) in Hk as [Hk _]. by apply Hopen.
Qed.
(** C24: When the relay's clock has gone through its slots, undisturbed, up to the
    slot [now], the submissions and deliveries of exactly the current epoch and the four
    before it are kept, and of the open auctions exactly those of the previous slot on. *)
Theorem relay_clock_bounds inner node epoch_for first rest now calls s :
  (∀ a b, a ≤ b → epoch_for a ≤ epoch_for b) →
  StronglySorted N.lt (first :: rest ++ [now]) →
  relay_task epoch_for (first :: rest ++ [now]) = Some calls →
  epoch_for now * slots_per_epoch (relay_context inner) < u64_mod → open_in_range s →
  let st := state s in
  let st' := state (run (perform_all inner node calls) s).1 in
  ∀ k, let retained := (epoch_for now - 4) * slots_per_epoch (relay_context inner) ≤ slot k in
    auctions st' !! k = (if decide retained then auctions st !! k else None) ∧
    other_submissions st' !! k = (if decide retained then other_submissions st !! k else None) ∧
    delivered_payloads st' !! k = (if decide retained then delivered_payloads st !! k else None) ∧
    (k ∈ open_auctions st' ↔ k ∈ open_auctions st ∧ now ≤ slot k + 1).
Proof.
  intros Hmono Hsorted Htask Hrange Hopen st st' k retained.
  destruct (relay_task_epochs epoch_for Hmono first rest now calls Hsorted Htask) as (Hnow & Hslot & Hmax & Hlast).
  destruct (perform_all_kept inner node calls s) as [Ha Ho Hd Hp]; [|done|].
  { apply Forall_forall. intros [epoch|] Hin; simpl; [|done]. apply Hmax in Hin. nia. }
  assert (Hkeep : Forall (λ call, retains inner call k) calls ↔ retained).
  { rewrite Forall_forall. split; [intros Hall; apply (Hall _ Hnow)|].
    intros Hret [epoch|] Hin; simpl; [|done]. apply Hmax in Hin. unfold retained in Hret. nia. }
  unfold st', st. rewrite (Ha k), (Ho k), (Hd k), (Hp k).
  split_and!; [by apply decide_ext..|]. apply and_iff_compat_l. rewrite Forall_forall. split.
  - intros Hall. apply (Hall _ Hslot).
  - intros Hle [|slot] Hin; simpl; [done|]. apply Hlast in Hin. lia.
Qed.

(** The auction an event announces, if its proposer is known. *)
Definition announces s (event : PayloadAttributesEvent) k : Prop :=
  slot k = event_proposal_slot event ∧ parent_hash k = event_parent_block_hash event ∧
  get_public_key (registry s) (event_proposer_index event) = Some (public_key k).

(** Only the set of open auctions differs. *)
Definition opened s k_open : Shared := update_state (set_open_auctions k_open) s.

Lemma on_payload_attributes_run event s :
  ∃ r open, run (on_payload_attributes event) s = (opened s open, r) ∧
    ∀ k, k ∈ open ↔ k ∈ open_auctions (state s) ∨ announces s event k.
Proof.
  unfold on_payload_attributes, announces. rewrite run_try. simpl.
  destruct (get_public_key _ _) as [key|]; simpl.
  - eexists _, _. split; [reflexivity|]. intros k. rewrite elem_of_union, elem_of_singleton.
    destruct k as [sl h pk]. simpl. naive_solver.
  - exists (Err (Error_Relay (UnknownValidatorIndex (event_proposer_index event)))),
      (open_auctions (state s)).
    split; [by destruct s as [? ? []]|]. naive_solver.
Qed.

(** Reading the stream of payload attributes ends only to be retried.  Until
    the stream fails, each event opens the auction for the proposer it names, an event
    for an unknown proposer is skipped and does not stop the reading, and nothing else
    changes. *)
Theorem payload_attributes_stream_spec events rest s :
  let stream := map Ok events ++ rest in
  (rest = [] ∨ ∃ err events', rest = Err err :: events') →
  ∃ open, run (consensus_attempt (Ok stream)) s = (opened s open, Err ()) ∧
    ∀ k, k ∈ open ↔ k ∈ open_auctions (state s) ∨ ∃ event, event ∈ events ∧ announces s event k.
Proof.
  intros stream Hrest. unfold stream. clear stream. revert s.
  induction events as [|event events IH]; intros s; cbn [map app consensus_attempt read_stream].
  - exists (open_auctions (state s)). split.
    + destruct Hrest as [->|(err & events' & ->)]; simpl; by destruct s as [? ? []].
    + intros k. split; [by left|]. by intros [?|(event & ?%elem_of_nil & _)].
  - rewrite run_bind. destruct (on_payload_attributes_run event s) as (r & open & -> & Hopen).
    destruct (IH (opened s open)) as (open' & Hrun & Hopen').
    exists open'. simpl in Hrun. split; [by rewrite Hrun|].
    intros k. rewrite (Hopen' k). simpl. rewrite Hopen. unfold announces. simpl. set_solver.
Qed.
End relay_service_properties.

Section mux_service_properties.
Context `{CF : ConsensusFunctions} {Url : Type}.

(** What the multiplexer still holds after a slot was offered for it, or for one of
    the two slots before. *)
Lemma mux_task_keeps slots now (st : RelayMux.State Url) h c :
  RelayMux.outstanding_bids (run (mux_task (slots ++ [now])) st).1 !! h = Some c →
  RelayMux.outstanding_bids st !! h = Some c ∧ now ≤ RelayMux.context_slot c + 2.
Proof.
  revert st. induction slots as [|slot slots IH]; intros st; cbn [app mux_task]; rewrite run_bind; simpl.
  - intros [Hc Hle]%map_lookup_filter_Some. split; [done|].
    fold (saturating_sub now RelayMux.AUCTION_LIFETIME) in Hle. rewrite saturating_sub_spec in Hle.
    unfold RelayMux.AUCTION_LIFETIME in Hle. lia.
  - intros [Hc Hle]%IH. split; [|done]. simpl in Hc. by apply map_lookup_filter_Some in Hc as [? _].
Qed.
End mux_service_properties.

(** The handles of the services are done as soon as one of their tasks is. *)
Lemma service_handle_ready {A} (relay consensus server : Poll A) :
  service_handle_poll relay consensus server = Pending ↔
  relay = Pending ∧ consensus = Pending ∧ server = Pending.
Proof. destruct relay, consensus, server; naive_solver. Qed.

Lemma mux_handle_ready {A} (relay_mux server : Poll A) :
  mux_handle_poll relay_mux server = Pending ↔ relay_mux = Pending ∧ server = Pending.
Proof. destruct relay_mux, server; naive_solver. Qed.

(** * Examples *)

Module ToyService.
Import ToyInstances.

Definition toy_epoch_for (slot : N) : N := slot / 32.

Lemma toy_epoch_mono a b : a ≤ b → toy_epoch_for a ≤ toy_epoch_for b.
Proof. apply N.Div0.div_le_mono. Qed.

Example toy_turns :
  relay_task toy_epoch_for [63; 64; 65; 200] =
    Some [CallEpoch 1; CallEpoch 2; CallSlot 64; CallSlot 65; CallEpoch 6; CallSlot 200].
Proof. reflexivity. Qed.

Lemma clocks_spec_witness :
  omap call_slot [CallEpoch 1; CallEpoch 2; CallSlot 64; CallSlot 65; CallEpoch 6; CallSlot 200]
    = [64; 65; 200] ∧
  StronglySorted N.lt [1; 2; 6].
Proof.
  destruct (clocks_spec toy_epoch_for toy_epoch_mono 63 [64; 65; 200] _ _
    ltac:(repeat constructor) eq_refl eq_refl) as (H1 & H2 & _).
  split; [exact H1|exact H2].
Defined.

(** Entering the eleventh epoch drops the auction of slot 201. *)
Lemma relay_clock_bounds_witness :
  auctions (state (run (perform_all toy_inner (λ _, toy_node)
    [CallEpoch 6; CallEpoch 11; CallSlot 352]) toy_auction).1) !! toy_request = None.
Proof.
  refine (eq_trans (proj1 (relay_clock_bounds toy_inner (λ _, toy_node) toy_epoch_for 201 [] 352 _
    toy_auction toy_epoch_mono _ eq_refl _ toy_open_slots toy_request)) _).
  - repeat constructor.
  - vm_compute. reflexivity.
  - apply decide_False. vm_compute. intros H. apply H. reflexivity.
Defined.

Definition toy_failure : result ApiError PayloadAttributesEvent := Err (3 : N).

Definition toy_announcement (index slot : N) : PayloadAttributesEvent := {|
  event_proposer_index := index; event_proposal_slot := slot; event_parent_block_hash := toy_hash 40 |}.

Lemma payload_attributes_stream_spec_witness : ∃ open,
  run (consensus_attempt (Ok [Ok (toy_announcement 3 300); Ok (toy_announcement 999 300); toy_failure]))
    toy_auction = (opened toy_auction open, Err ()) ∧
  (∀ k, k ∈ open ↔ k ∈ open_auctions (state toy_auction) ∨
     ∃ event, event ∈ [toy_announcement 3 300; toy_announcement 999 300] ∧ announces toy_auction event k).
Proof.
  apply (payload_attributes_stream_spec [toy_announcement 3 300; toy_announcement 999 300]
    [toy_failure] toy_auction).
  right. by eexists _, _.
Defined.
End ToyService.
