(* ===== verification/OverHttp.v ===== *)
(** The relay behind its server, and the multiplexer that asks it over HTTP. *)

From S2P Require Import Prelude.
From stdpp Require Import strings.
From S2P Require Import Consensus.
From S2P Require Import Types.
From S2P Require Import Tasks.
From S2P Require Import AuctionContext.
From S2P Require Import RelayBlocks.
From S2P Require Import RelayClient.
From S2P Require Import RelayMux.
From S2P Require Import Relay.
From S2P Require Import RelaySpec.
From S2P Require Import RelaySafety.
From S2P Require Import RelayData.
From S2P Require Import Untagged.
From S2P Require Import Api.
From S2P Require Import EndToEnd.
From S2P Require Import Toy.

#[local] Open Scope N_scope.

(** * The traits of the relay *)

Section relay_traits.
Context `{CF : ConsensusFunctions} `{BS : !BuilderSignable} `{HT : !HttpTypes}.
Context {HI : HashIteration}.

(** The relay, at a moment of the clock. *)
Definition relay_provider (inner : Relay.Inner) (node : BeaconNode) (order : VisitOrder)
    (unix_time_in_nanos : N) : BlindedBlockProvider Shared := {|
  provider_register_validators := Relay.register_validators inner order unix_time_in_nanos;
  provider_fetch_best_bid auction_request := Some <$> Relay.fetch_best_bid auction_request;
  provider_open_bid signed_block := Some <$> Relay.open_bid inner node signed_block;
|}.

Definition relay_relayer (inner : Relay.Inner) (receive_duration : N)
    : BlindedBlockRelayer Shared := {|
  relayer_get_proposal_schedule := Some <$> Relay.get_proposal_schedule;
  relayer_submit_bid signed_submission :=
    Some <$> Relay.submit_bid inner receive_duration signed_submission;
|}.

Definition relay_data (inner : Relay.Inner) : BlindedBlockDataProvider Shared := {|
  data_public_key := Relay.relay_public_key inner;
  data_registered_validators_count := Relay.registered_validators_count;
  data_get_delivered_payloads _ := Some <$> RelayData.get_delivered_payloads;
  data_get_block_submissions _ := Some <$> RelayData.get_block_submissions;
  data_fetch_validator_registration public_key :=
    Some <$> Relay.fetch_validator_registration public_key;
|}.
End relay_traits.

(** * What crosses the wire *)

Section exchange.
Context `{CF : ConsensusFunctions} `{BS : !BuilderSignable} `{CL : !ConsensusLaws}.
Context `{!SignableLaws BuilderBid} {HI : HashIteration}.
Context `{HT : !HttpTypes} {HH : Http} {HL : HttpLaws HH}.
Context `{CB : !Codec Json bellatrix_BuilderBid deneb_BuilderBid, CBL : !CodecLaws CB}.
Context `{CC : !Codec Json bellatrix_AuctionContents deneb_AuctionContents, CCL : !CodecLaws CC}.
Context `{CS : !Codec Json bellatrix_SignedBidSubmission deneb_SignedBidSubmission, CSL : !CodecLaws CS}.
Context (inner : Relay.Inner) (node : BeaconNode) (order : VisitOrder).
Context (nanos receive_duration : N) (lost : ApiError).
Context (arrived : SignedBidSubmission → Prop).
Implicit Types (s : Shared) (k : AuctionRequest) (block : SignedBlindedBeaconBlock).

(** The relay's server as its clients reach it. *)
Definition relay_api : Transport Shared :=
  loopback lost (serve_relay (relay_provider inner node order nanos) (relay_relayer inner receive_duration)
    (relay_data inner)).

(** The page at the root shows the relay's key and how many validators have registered,
    and asking for it changes nothing. *)
Lemma root_page query version body s :
  run (serve_relay (relay_provider inner node order nanos) (relay_relayer inner receive_duration)
    (relay_data inner)
    {| request_method := GET; request_path := []; request_query := query;
       request_version := version; request_body := body |}) s =
  (s, Some {| status := OK;
    body := Some (html (root_html (debug_key (Relay.relay_public_key inner))
      (display_count (ValidatorRegistry.registration_count (registry s)))
      ++ ROOT_HTML_TRAILER)%string) |}).
Proof. done. Qed.

Lemma fetch_best_bid_sold s k a :
  k ∈ open_auctions (state s) → auctions (state s) !! k = Some a →
  run (Relay.fetch_best_bid k) s = (s, Ok (signed_builder_bid (arc_val a))).
Proof.
  intros Hopen Ha. simpl. rewrite decide_True by done. simpl. rewrite Ha. simpl.
  by rewrite drop_clone_shared.
Qed.

Lemma decoded_unless_bellatrix bid :
  bid_version bid ≠ Fork_Bellatrix → bid_decoded bid = bid.
Proof. by destruct bid. Qed.

Lemma matches_decoded block contents :
  matches_block block (contents_decoded contents) ↔ matches_block block contents.
Proof. by destruct contents. Qed.

(** C6: The whole exchange of a proposer with a relay, over HTTP, for a bid that is not of
    Bellatrix (which would be decoded as one of Capella).  The bid for an open auction
    reaches the multiplexer unchanged and passes its validation under the relay's key; and
    when the relay releases a payload for a block with the header and the blobs of that
    bid, what reaches the multiplexer matches that block: the multiplexer takes it when it
    is the first answer, and a multiplexer that has asked the relay for the block returns
    contents that match, whatever any other relay has answered. *)
Theorem exchange_over_http {Url : Type} (relay : RelayClient.Relay Url) s k a :
  relay_ok arrived inner s → k ∈ open_auctions (state s) → auctions (state s) !! k = Some a →
  RelayClient.relay_public_key relay = Relay.relay_public_key inner →
  let bid := signed_builder_bid (arc_val a) in
  bid_version (signed_bid_message bid) ≠ Fork_Bellatrix →
  run (Api.fetch_best_bid relay_api k) s = (s, Ok bid) ∧
  accept_bid (relay_context inner) (relay, Some (Ok bid)) = Some (relay, bid) ∧
  ∀ block s' contents,
    block_request (registry s) block = Some k →
    blinded_kzg_commitments (blinded_message block) = bid_blob_kzg_commitments (signed_bid_message bid) →
    run (Relay.open_bid inner node block) s = (s', Ok contents) →
    let hash := header_block_hash (blinded_payload_header (blinded_message block)) in
    ∃ received, run (Api.open_bid relay_api block) s = (s', Ok received) ∧
      matches_block block received ∧
      (∀ responses, first_valid_payload hash (blinded_kzg_commitments (blinded_message block))
         (Ok received :: responses) = Some received) ∧
      ∀ (st : RelayMux.State Url) context gather,
        outstanding_bids st !! hash = Some context →
        (relay, Some (Ok received)) ∈ gather (context_relays context) →
        ∃ returned, run (RelayMux.open_bid gather block) st = (st, Ok returned) ∧
          matches_block block returned.
Proof.
  intros Hok Hopen Ha Hkey bid Hversion.
  assert (Hsold : sold arrived inner k (arc_val a)) by (by eapply (ok_auctions _ _ _ Hok)).
  split_and!.
  - unfold relay_api. rewrite client_fetch_best_bid.
    cbn [provider_fetch_best_bid relay_provider]. rewrite run_fmap.
    rewrite (fetch_best_bid_sold s k a Hopen Ha). simpl. f_equal. unfold signed_bid_decoded.
    fold bid. rewrite decoded_unless_bellatrix by done. by destruct bid.
  - simpl. rewrite Hkey. fold bid. unfold bid. by rewrite (sold_bid_validates arrived inner k).
  - intros block s' contents Hblock Hkzg Hrun. exists (contents_decoded contents). split.
    + assert (Hanswer : run (provider_open_bid Shared (relay_provider inner node order nanos) block) s
        = (s', Some (Ok contents))).
      { cbn [provider_open_bid relay_provider]. by rewrite run_fmap, Hrun. }
      unfold relay_api. rewrite client_open_bid, Hanswer; [done|].
      unfold bid_is_prepared. by rewrite Hanswer.
    + rewrite open_bid_run in Hrun. destruct (open_checks inner node block s) as [[k' a']|e] eqn:Hc;
        [|done]. injection Hrun as _ <-. apply open_checks_Ok in Hc as [full [Hk _ Ha' Hh _ _ _ _]].
      rewrite Hblock in Hk. injection Hk as <-. rewrite Ha in Ha'. injection Ha' as <-.
      assert (Hmatches : matches_block block (contents_decoded (to_auction_contents (arc_val a)))).
      { apply matches_decoded. eapply sold_contents_match; [exact Hsold|by rewrite Hh|done]. }
      split; [done|]. split.
      * intros responses. simpl. by rewrite (proj2 (validate_payload_Ok _ _)).
      * intros st context gather Hcontext Hin. pose proof (mux_open_bid_spec gather block st) as Hspec.
        cbv zeta in Hspec. rewrite Hcontext in Hspec.
        destruct Hspec as [(returned & r & ? & ? & _)|[_ Hno]]; [by exists returned|].
        by destruct (Hno _ _ Hin).
Qed.
End exchange.

(** * Examples *)

Module ToyExchange.
Import ToyInstances.
Import ToyApi.

(** The example relay, built by its handlers, satisfies the invariant. *)
Lemma run_relay_ok {A} horizon (p : task Shared A) Q s :
  safe (relay_ok any_submission toy_inner) (keeps_delivered horizon) p Q →
  relay_ok any_submission toy_inner s → relay_ok any_submission toy_inner (run p s).1.
Proof. intros Hp Hs. exact (proj1 (safe_run _ _ _ _ _ Hp Hs)). Qed.

Lemma toy_relay_ok : relay_ok any_submission toy_inner toy_relay.
Proof.
  unfold toy_relay.
  eapply (run_relay_ok 1000); [apply on_payload_attributes_safe|].
  eapply (run_relay_ok 1000); [apply register_validators_safe|].
  eapply (run_relay_ok 1000); [apply on_epoch_safe; vm_compute; discriminate|].
  apply new_relay_ok.
Qed.

Lemma submit_all_ok subs s :
  relay_ok any_submission toy_inner s →
  relay_ok any_submission toy_inner (submit_all toy_inner subs s).
Proof.
  revert s. induction subs as [|[d sub] subs IH]; intros s Hs; simpl; [done|].
  apply IH. eapply (run_relay_ok 1000); [|done]. by apply submit_bid_safe.
Qed.

Lemma toy_auction_ok : relay_ok any_submission toy_inner toy_auction.
Proof. apply submit_all_ok, toy_relay_ok. Qed.

#[local] Instance toy_hash_iteration : HashIteration := toy_iteration.

Definition toy_mux_relay : RelayClient.Relay N := {|
  RelayClient.relay_public_key := Relay.relay_public_key toy_inner; RelayClient.relay_endpoint := 0 |}.

Lemma found {A} (P : A → Prop) (o : option A) :
  match o with Some a => P a | None => False end → ∃ a, o = Some a ∧ P a.
Proof. destruct o; naive_solver. Qed.

Lemma released {A E B} (r : A * result E B) : is_ok r.2 = true → ∃ a b, r = (a, Ok b).
Proof. destruct r as [? []]; naive_solver. Qed.

Lemma toy_exchange_facts : ∃ a s' contents,
  auctions (state toy_auction) !! toy_request = Some a ∧
  bid_version (signed_bid_message (signed_builder_bid (arc_val a))) ≠ Fork_Bellatrix ∧
  block_request (registry toy_auction) (toy_blinded_block 201 40 43) = Some toy_request ∧
  blinded_kzg_commitments (blinded_message (toy_blinded_block 201 40 43))
    = bid_blob_kzg_commitments (signed_bid_message (signed_builder_bid (arc_val a))) ∧
  run (Relay.open_bid toy_inner toy_node (toy_blinded_block 201 40 43)) toy_auction
    = (s', Ok contents).
Proof.
  assert (H : match auctions (state toy_auction) !! toy_request with
    | Some a =>
        (bid_version (signed_bid_message (signed_builder_bid (arc_val a))),
         bid_blob_kzg_commitments (signed_bid_message (signed_builder_bid (arc_val a))))
        = (Fork_Deneb, blinded_kzg_commitments (blinded_message (toy_blinded_block 201 40 43)))
    | None => False
    end) by (vm_compute; reflexivity).
  assert (Hrun : is_ok (run (Relay.open_bid toy_inner toy_node (toy_blinded_block 201 40 43))
    toy_auction).2 = true) by (vm_compute; reflexivity).
  apply found in H as (a & Ha & H). injection H as Hversion Hkzg.
  apply released in Hrun as (s' & contents & Hopened).
  exists a, s', contents. split; [exact Ha|]. split; [by rewrite Hversion|].
  split; [vm_compute; reflexivity|]. split; [exact (eq_sym Hkzg)|exact Hopened].
Qed.

Lemma exchange_over_http_witness : ∃ bid received s',
  run (Api.fetch_best_bid (relay_api toy_inner toy_node in_order 1000 6 toy_lost) toy_request) toy_auction
    = (toy_auction, Ok bid) ∧
  run (Api.open_bid (relay_api toy_inner toy_node in_order 1000 6 toy_lost) (toy_blinded_block 201 40 43))
    toy_auction = (s', Ok received) ∧
  matches_block (toy_blinded_block 201 40 43) received.
Proof.
  destruct toy_exchange_facts as (a & s' & contents & Ha & Hversion & Hblock & Hkzg & Hrun).
  destruct (exchange_over_http toy_inner toy_node in_order 1000 6 toy_lost any_submission toy_mux_relay toy_auction
    toy_request a toy_auction_ok) as (Hbid & _ & Hopen).
  - apply (bool_decide_unpack _). vm_compute. exact I.
  - exact Ha.
  - reflexivity.
  - exact Hversion.
  - destruct (Hopen _ _ _ Hblock Hkzg Hrun) as (received & Hreceived & Hmatches & _).
    eexists _, received, s'. split; [exact Hbid|]. split; [exact Hreceived|exact Hmatches].
Defined.
End ToyExchange.
