(* ===== verification/Startup.v ===== *)
(** How the three programs start: [mev-rs/src/genesis.rs], the configurations and the
    construction of the services in [mev-relay-rs/src/service.rs],
    [mev-boost-rs/src/service.rs] and [mev-build-rs/src/service.rs], the commands of
    [bin/mev/src/cmd/], the binary [bin/mev/src/main.rs] with all its features, and the
    script [bin/utils/src/main.rs].

    The networks of the consensus library and the client of the beacon node are the
    fields of [Startup]; what a beacon node answers is the argument [ask].  A path is
    the string it is, or [None] when it is not UTF-8, and an [Ipv4Addr] is a number
    below [2^32].  What the server and the tasks do once they are spawned is modelled
    in [Api] and [RelayService]. *)

From S2P Require Import Prelude.
From Stdlib Require Import Ascii.
From stdpp Require Import strings.
From S2P Require Import Consensus.
From S2P Require Import Types.
From S2P Require Import Tasks.
From S2P Require Import Execution.
From S2P Require Import Attributes.
From S2P Require Import RelayClient.
From S2P Require Relay.
From S2P Require Import RelaySafety.
From S2P Require RelayMux.
From S2P Require Import Compat.
From S2P Require Auctioneer.
From S2P Require Bidder.
From S2P Require PayloadBuilder.
From S2P Require JobGenerator.
From S2P Require Import RelayService.
From S2P Require Import Toy.

#[local] Open Scope N_scope.

Class Startup `{CT : ConsensusTypes} (Url : Type) := {
  Network : Type;
  Network_Mainnet : Network;
  Network_Sepolia : Network;
  Network_Holesky : Network;
  Network_Custom : string → Network;
  (** [Context::try_from], [Context::genesis_time] and [typical_genesis_time] *)
  context_try_from : Network → result ConsensusError ChainContext;
  context_genesis_time : ChainContext → result ConsensusError N;
  typical_genesis_time : ChainContext → N;
  (** the client of a beacon node *)
  Client : Type;
  client_new : Url → Client;
  default_secret_key : SecretKey;
}.

Section genesis.
Context `{CT : ConsensusTypes} {Url : Type} `{UP : !UrlParsing Url} {SU : Startup Url}.

Record GenesisDetails : Type := {
  genesis_time : N;
  details_validators_root : Root;
}.

Definition Answers : Type := Client → result ApiError GenesisDetails.

Definition ok {E A} (r : result E A) : option A :=
  match r with Ok a => Some a | Err _ => None end.

Definition get_genesis_time (ask : Answers) (context : ChainContext)
    (beacon_node_url : option string) (beacon_node : option Client) : N :=
  match context_genesis_time context with
  | Ok genesis_time => genesis_time
  | Err _ =>
      match client ← beacon_node; ok (ask client) with
      | Some genesis_details => genesis_time genesis_details
      | None =>
          match url ← beacon_node_url; url ← parse_url url; ok (ask (client_new url)) with
          | Some genesis_details => genesis_time genesis_details
          | None => typical_genesis_time context
          end
      end
  end.
End genesis.

(** * The relay *)

Module RelayStartup.
Section relay.
Context `{CF : ConsensusFunctions} {Url : Type} `{UP : !UrlParsing Url} {SU : Startup Url}.

Record Config : Type := {
  host : N;
  port : N;
  beacon_node_url : string;
  secret_key : SecretKey;
  accepted_builders : list BlsPublicKey;
}.

(** [Ipv4Addr::LOCALHOST] is 127.0.0.1. *)
Definition default_config : Config := {|
  host := 2130706433;
  port := 28545;
  beacon_node_url := "http://127.0.0.1:5052";
  secret_key := default_secret_key;
  accepted_builders := [];
|}.

Record Service : Type := {
  service_host : N;
  service_port : N;
  service_beacon_node : Client;
  service_network : Network;
  service_secret_key : SecretKey;
  service_accepted_builders : list BlsPublicKey;
}.

(** [None] when the URL does not parse. *)
Definition from (network : Network) (config : Config) : option Service :=
  endpoint ← parse_url (beacon_node_url config);
  let beacon_node := client_new endpoint in
  Some {|
    service_host := host config;
    service_port := port config;
    service_beacon_node := beacon_node;
    service_network := network;
    service_secret_key := secret_key config;
    service_accepted_builders := accepted_builders config;
  |}.

(** What is spawned: the relay, the address of its server, and the genesis of the
    clock. *)
Record Spawned : Type := {
  spawned_inner : Relay.Inner;
  spawned_shared : Relay.Shared;
  spawned_address : N * N;
  spawned_genesis_time : N;
}.

(** The beacon node is asked for the genesis time and then for the root, and may answer
    differently. *)
Definition spawn (ask_time ask_root : Answers) (self : Service) : result Error Spawned :=
  context ← map_err Error_Consensus (context_try_from (service_network self));
  let genesis_time := get_genesis_time ask_time context None (Some (service_beacon_node self)) in
  genesis_details ← map_err Error_Api (ask_root (service_beacon_node self));
  let genesis_validators_root := details_validators_root genesis_details in
  let '(inner, shared) := Relay.new (service_secret_key self) (service_accepted_builders self)
    context genesis_validators_root in
  Ok {|
    spawned_inner := inner;
    spawned_shared := shared;
    spawned_address := (service_host self, service_port self);
    spawned_genesis_time := genesis_time;
  |}.
End relay.
End RelayStartup.

(** * The multiplexer *)

Module MuxStartup.
Section mux.
Context `{CF : ConsensusFunctions} {Url : Type} `{UP : !UrlParsing Url} {SU : Startup Url}.

Record Config : Type := {
  host : N;
  port : N;
  relays : list string;
  beacon_node_url : option string;
}.

(** [Ipv4Addr::UNSPECIFIED] is 0.0.0.0. *)
Definition default_config : Config := {|
  host := 0;
  port := 18550;
  relays := [];
  beacon_node_url := None;
|}.

Record Service : Type := {
  service_host : N;
  service_port : N;
  service_relays : list (Relay Url);
  service_network : Network;
  service_config : Config;
}.

Definition from (network : Network) (config : Config) : Service :=
  let relays := relay_from <$> parse_relay_endpoints (relays config) in
  {| service_host := host config; service_port := port config; service_relays := relays;
     service_network := network; service_config := config |}.

Record Spawned : Type := {
  spawned_inner : RelayMux.Inner Url;
  spawned_state : RelayMux.State Url;
  spawned_address : N * N;
  spawned_genesis_time : N;
}.

(** The genesis time is computed by the task of the clock. *)
Definition spawn (ask : Answers) (self : Service) : result Error Spawned :=
  context ← map_err Error_Consensus (context_try_from (service_network self));
  let '(inner, state) := RelayMux.new (service_relays self) context in
  let genesis_time := get_genesis_time ask context (beacon_node_url (service_config self)) None in
  Ok {|
    spawned_inner := inner;
    spawned_state := state;
    spawned_address := (service_host self, service_port self);
    spawned_genesis_time := genesis_time;
  |}.
End mux.
End MuxStartup.

(** * The builder *)

(** What the programs report: a message of their own, an error of [mev_rs], or an error
    of another library. *)
Inductive Report `{CT : ConsensusTypes} {LibraryError : Type} : Type :=
| Report_Message (message : string)
| Report_Error (e : Error)
| Report_Library (e : LibraryError).
Arguments Report {CT} LibraryError.

Module BuilderStartup.
Section builder.
Context `{CF : ConsensusFunctions} {Url : Type} `{UP : !UrlParsing Url} {SU : Startup Url}.
Context `{BS : !BuilderSignable} {HS : Hashing} `{ET : !ExecutionTypes} {PT : PayloadTypes}.
Context {EX : ExecutionTerms} {EF : ExecutionFunctions} {LibraryError : Type}.

(** [auctioneer::Config], as it is read. *)
Record AuctioneerConfig : Type := {
  auctioneer_secret_key : SecretKey;
  auctioneer_relays : list string;
}.

Record Config : Type := {
  config_auctioneer : AuctioneerConfig;
  config_builder : JobGenerator.BuilderConfig;
  config_bidder : Bidder.Config;
  beacon_node_url : option string;
}.

Record Services : Type := {
  auctioneer_config : Auctioneer.Config Url;
  auctioneer : Auctioneer.Service Url;
  bidder_config : Bidder.Config;
  clock_genesis_time : N;
}.

(** [auctioneer::Service::new], from the configuration as it is read. *)
Definition new_auctioneer (config : AuctioneerConfig) (context : ChainContext)
    (genesis_time : N) : Auctioneer.Config Url * Auctioneer.Service Url :=
  let relays := relay_from <$> parse_relay_endpoints (auctioneer_relays config) in
  Auctioneer.new (auctioneer_secret_key config) relays context genesis_time.

Definition construct_services (ask : Answers) (network : Network) (config : Config)
    : result Error Services :=
  context ← map_err Error_Consensus (context_try_from network);
  let genesis_time := get_genesis_time ask context (beacon_node_url config) None in
  let '(auctioneer_config, auctioneer) :=
    new_auctioneer (config_auctioneer config) context genesis_time in
  Ok {|
    auctioneer_config := auctioneer_config;
    auctioneer := auctioneer;
    bidder_config := config_bidder config;
    clock_genesis_time := genesis_time;
  |}.

Definition PathBuf : Type := option string.

Definition custom_network_from_config_directory (path : PathBuf)
    : outcome (Report LibraryError) Network :=
  path ←! unwrap path;
  Returns (Ok (Network_Custom path)).

Inductive NamedChain : Type :=
| NamedChain_Mainnet
| NamedChain_Sepolia
| NamedChain_Holesky
| NamedChain_Other (id : N).

(** The network of [launch]; [chain] is the name of the client's chain, if it has one. *)
Definition network_of_chain (chain : option NamedChain)
    (custom_chain_config_directory : option PathBuf) : outcome (Report LibraryError) Network :=
  let custom :=
    path ←! Returns (ok_or custom_chain_config_directory
      (Report_Message "missing custom chain configuration when expected"));
    custom_network_from_config_directory path in
  match chain with
  | Some NamedChain_Mainnet => Returns (Ok Network_Mainnet)
  | Some NamedChain_Sepolia => Returns (Ok Network_Sepolia)
  | Some NamedChain_Holesky => Returns (Ok Network_Holesky)
  | Some (NamedChain_Other _) => custom
  | None => custom
  end.

(** [signer_from_mnemonic] is the wallet library, [launch_node] the execution client,
    which reports its chain.  The services are spawned then: [Auctioneer.spawn] and
    [RelayService.builder_clock] are their loops. *)
Definition launch (signer_from_mnemonic : list N → result LibraryError Signer)
    (launch_node : JobGenerator.PayloadServiceBuilder → result LibraryError (option NamedChain))
    (ask : Answers) (custom_chain_config_directory : option PathBuf) (config : Config)
    : outcome (Report LibraryError) Services :=
  payload_builder ←! Returns (map_err Report_Library
    (JobGenerator.try_from signer_from_mnemonic (config_builder config)));
  chain ←! Returns (map_err Report_Library (launch_node payload_builder));
  network ←! network_of_chain chain custom_chain_config_directory;
  Returns (map_err Report_Error (construct_services ask network config)).
End builder.
End BuilderStartup.

(** * The commands *)

Module Commands.
Section commands.
Context `{CF : ConsensusFunctions} {Url : Type} `{UP : !UrlParsing Url} {SU : Startup Url}.
Context `{BS : !BuilderSignable} {HS : Hashing} `{ET : !ExecutionTypes} {PT : PayloadTypes}.
Context {EX : ExecutionTerms} {EF : ExecutionFunctions} {LibraryError : Type}.

Record Config : Type := {
  network : option Network;
  boost : option MuxStartup.Config;
  builder : option BuilderStartup.Config;
  relay : option RelayStartup.Config;
}.

(** The file system and the TOML library; the reason a file cannot be loaded is wrapped
    in a message. *)
Context (read_to_string : string → result LibraryError string).
Context (from_str : string → result LibraryError Config).
Context (wrap_err : string → LibraryError → LibraryError).

Definition from_toml_file (path : string) : result LibraryError Config :=
  config_data ← read_to_string path;
  from_str config_data.

Definition load (path : string) : result (Report LibraryError) Config :=
  map_err (λ e, Report_Library (wrap_err "could not parse TOML" e)) (from_toml_file path).

(** [joined] is what the handles of the spawned tasks end with. *)
Definition execute_boost (ask : Answers) (joined : MuxStartup.Spawned → result LibraryError ())
    (config_file : string) : result (Report LibraryError) () :=
  config ← load config_file;
  network ← ok_or (network config) (Report_Message "missing `network` from configuration)");
  match boost config with
  | Some config =>
      let service := MuxStartup.from network config in
      handle ← map_err Report_Error (MuxStartup.spawn ask service);
      map_err Report_Library (joined handle)
  | None => Err (Report_Message "missing boost config from file provided")
  end.

Inductive RelayCommands : Type :=
| Mock (config_file : string).

Record RelayCommand : Type := {
  config_file : option string;
  command : option RelayCommands;
}.

Definition execute_relay (ask_time ask_root : Answers)
    (joined : RelayStartup.Spawned → result LibraryError ()) (self : RelayCommand)
    : outcome (Report LibraryError) () :=
  config_file ←! match command self with
                 | Some (Mock config_file) => Returns (Ok config_file)
                 | None => unwrap (config_file self)
                 end;
  config ←! Returns (load config_file);
  network ←! Returns (ok_or (network config)
    (Report_Message "missing `network` from configuration)"));
  match relay config with
  | Some config =>
      service ←! unwrap (RelayStartup.from network config);
      service ←! Returns (map_err Report_Error (RelayStartup.spawn ask_time ask_root service));
      Returns (map_err Report_Library (joined service))
  | None => Returns (Err (Report_Message "missing relay config from file provided"))
  end.

(** The command [build], run by the execution client's own command line. *)
Definition execute_build signer_from_mnemonic launch_node (ask : Answers)
    (custom_chain_config_directory : option BuilderStartup.PathBuf) (config_file : string)
    : outcome (Report LibraryError) BuilderStartup.Services :=
  config ←! Returns (load config_file);
  config ←! Returns (ok_or (builder config) (Report_Message "missing `builder` configuration"));
  BuilderStartup.launch signer_from_mnemonic launch_node ask custom_chain_config_directory config.

Definition execute_config (config_file : string) : result (Report LibraryError) () :=
  _ ← load config_file;
  Ok ().
End commands.
End Commands.

(** * The binaries *)

(** [std::path::Path::parent] on a system whose separator is a slash.  A path is the list
    of its characters from the last to the first; separators at its end, and components
    [.] other than the first, do not count. *)
Module Path.
Fixpoint trim (path : list ascii) : list ascii :=
  match path with
  | [] => []
  | c :: rest =>
      if decide (c = "/"%char) then match rest with [] => path | _ => trim rest end
      else if decide (c = "."%char) then
        match rest with
        | next :: _ => if decide (next = "/"%char) then trim rest else path
        | [] => path
        end
      else path
  end.

Fixpoint drop_component (path : list ascii) : list ascii :=
  match path with
  | [] => []
  | c :: rest => if decide (c = "/"%char) then path else drop_component rest
  end.

Definition parent (path : string) : option string :=
  let path := trim (rev (String.list_ascii_of_string path)) in
  if decide (path = [] ∨ path = ["/"%char]) then None
  else Some (String.string_of_list_ascii (rev (trim (drop_component path)))).

Example parents :
  parent "chain/config.json" = Some "chain"%string ∧ parent "/config.json" = Some "/"%string ∧
  parent "./a//b/./" = Some "./a"%string ∧ parent "mainnet" = Some ""%string ∧
  parent "/" = None ∧ parent "" = None.
Proof. by vm_compute. Qed.
End Path.

Module Main.
Section main.
Context `{CF : ConsensusFunctions} {Url : Type} `{UP : !UrlParsing Url} {SU : Startup Url}.
Context `{BS : !BuilderSignable} {HS : Hashing} `{ET : !ExecutionTypes} {PT : PayloadTypes}.
Context {EX : ExecutionTerms} {EF : ExecutionFunctions} {LibraryError : Type}.

(** The future of a command, raced against the signal that ends the program;
    [interrupted] says which of them is ready first. *)
Definition run_task_until_signal (task : outcome (Report LibraryError) ()) (interrupted : bool)
    : outcome (Report LibraryError) () :=
  if interrupted then Returns (Ok tt) else task.

(** What the parser of arguments found: the subcommand, if any, and for the argument
    [chain] its raw values ([None] for one that is not UTF-8), unless the subcommand has
    no such argument. *)
Definition parse_custom_chain_config_directory {E}
    (subcommand : option (result E (option (list (option string)))))
    : result (Report LibraryError) (option BuilderStartup.PathBuf) :=
  matches ← ok_or subcommand (Report_Message "missing subcommand");
  match matches with
  | Ok (Some iter) => Ok (raw ← head iter; s ← raw; path ← Path.parent s; Some (Some path))
  | Ok None | Err _ => Ok None
  end.

Inductive Commands : Type :=
| Boost (config_file : string)
| Build (config_file : string)
| Relay (command : Commands.RelayCommand)
| Config (config_file : string).

Context (read_to_string : string → result LibraryError string).
Context (from_str : string → result LibraryError Commands.Config).
Context (wrap_err : string → LibraryError → LibraryError).
Context (signer_from_mnemonic : list N → result LibraryError Signer).
Context (launch_node :
  JobGenerator.PayloadServiceBuilder → result LibraryError (option BuilderStartup.NamedChain)).
Context (ask_time ask_root : Answers).
Context (mux_joined : MuxStartup.Spawned (Url := Url) → result LibraryError ()).
Context (relay_joined : RelayStartup.Spawned → result LibraryError ()).
Context (node_exited : BuilderStartup.Services (Url := Url) → result LibraryError ()).

Definition main {E} (subcommand : option (result E (option (list (option string)))))
    (command : Commands) (interrupted : bool) : outcome (Report LibraryError) () :=
  custom_chain_config_directory ←! Returns (parse_custom_chain_config_directory subcommand);
  match command with
  | Boost config_file =>
      run_task_until_signal
        (Returns (Commands.execute_boost read_to_string from_str wrap_err ask_time mux_joined
                    config_file)) interrupted
  | Build config_file =>
      services ←! Commands.execute_build read_to_string from_str wrap_err signer_from_mnemonic
        launch_node ask_time custom_chain_config_directory config_file;
      Returns (map_err Report_Library (node_exited services))
  | Relay cmd =>
      run_task_until_signal
        (Commands.execute_relay read_to_string from_str wrap_err ask_time ask_root relay_joined cmd)
        interrupted
  | Config config_file =>
      run_task_until_signal
        (Returns (Commands.execute_config read_to_string from_str wrap_err config_file)) interrupted
  end.
End main.
End Main.

(** [bin/utils/src/main.rs]: a script that prints what a relay bids for the slot after
    the head of the chain.  The addresses it is written for parse. *)
Module Utils.
Section utils.
Context `{CF : ConsensusFunctions}.

(** The bids printed, and whether the script came to its end: it panics on the first
    error. *)
Fixpoint print_bids (fetch_best_bid : AuctionRequest → result Error SignedBuilderBid)
    (slot : N) (parent_hash : Hash32) (schedules : list ProposerSchedule)
    : list SignedBuilderBid * bool :=
  match schedules with
  | [] => ([], true)
  | schedule :: schedules =>
      if decide (schedule_slot schedule = slot) then
        let public_key := registration_public_key (registration_message (schedule_entry schedule)) in
        let auction_request :=
          {| Types.slot := slot; Types.parent_hash := parent_hash; Types.public_key := public_key |} in
        match fetch_best_bid auction_request with
        | Ok signed_bid =>
            let '(printed, over) := print_bids fetch_best_bid slot parent_hash schedules in
            (signed_bid :: printed, over)
        | Err _ => ([], false)
        end
      else print_bids fetch_best_bid slot parent_hash schedules
  end.

(** The head's slot and, after the merge, the hash of its payload. *)
Definition main (get_beacon_block : result ApiError (N * option Hash32))
    (get_proposal_schedule : result Error (list ProposerSchedule))
    (fetch_best_bid : AuctionRequest → result Error SignedBuilderBid)
    : list SignedBuilderBid * bool :=
  match get_beacon_block with
  | Ok (head_slot, Some parent_hash) =>
      match get_proposal_schedule with
      | Ok schedules => print_bids fetch_best_bid (u64_add head_slot 1) parent_hash schedules
      | Err _ => ([], false)
      end
  | Ok (_, None) | Err _ => ([], false)
  end.
End utils.
End Utils.

(** * Properties *)

Section startup_properties.
Context `{CF : ConsensusFunctions} {Url : Type} `{UP : !UrlParsing Url} {SU : Startup Url}.
Context `{BS : !BuilderSignable} {HS : Hashing} `{ET : !ExecutionTypes} {PT : PayloadTypes}.
Context {EX : ExecutionTerms} {EF : ExecutionFunctions} {LibraryError : Type}.

(** Nobody is asked for a genesis time that the network's parameters hold; otherwise it
    is the one some beacon node has answered with, or the typical one. *)
Lemma get_genesis_time_spec (ask : Answers) context url node :
  match context_genesis_time context with
  | Ok t => get_genesis_time ask context url node = t
  | Err _ =>
      (∃ client details, ask client = Ok details ∧
         get_genesis_time ask context url node = genesis_time details) ∨
      get_genesis_time ask context url node = typical_genesis_time context
  end.
Proof.
  unfold get_genesis_time. destruct (context_genesis_time context) as [t|e]; [done|].
  assert (Hasked : ∀ client details, ok (ask client) = Some details → ask client = Ok details).
  { intros client details. by destruct (ask client); intros [= ->]. }
  destruct (node ≫= _) as [details|] eqn:Hnode.
  { apply bind_Some in Hnode as (client & _ & ?). left. exists client, details. auto. }
  destruct (url ≫= _) as [details|] eqn:Hurl; [|by right].
  apply bind_Some in Hurl as (? & _ & (address & _ & ?)%bind_Some).
  left. exists (client_new address), details. auto.
Qed.

(** A relay that is started has the keys of the configuration; and whatever runs on it
    from then on, it is safe, with the configured builders as the accepted ones. *)
Theorem started_relay_safe `{!SignableLaws BuilderBid} arrived network config service
    (ask_time ask_root : Answers) spawned horizon pl :
  RelayStartup.from network config = Some service →
  RelayStartup.spawn ask_time ask_root service = Ok spawned →
  let inner := RelayStartup.spawned_inner spawned in
  steps (pool_step (request arrived inner horizon)) (start (RelayStartup.spawned_shared spawned)) pl →
  Relay.relay_secret_key inner = RelayStartup.secret_key config ∧
  (∀ builder, builder ∈ Relay.builder_registry inner ↔
     builder ∈ RelayStartup.accepted_builders config) ∧
  relay_ok arrived inner (shared pl) ∧ Forall (reply_ok arrived inner) (finished pl).
Proof.
  intros (url & Hurl & Hservice)%bind_Some Hspawn. injection Hservice as <-.
  unfold RelayStartup.spawn in Hspawn. simpl in Hspawn.
  destruct (context_try_from network) as [context|]; simpl in Hspawn; [|done].
  destruct (ask_root _) as [details|]; simpl in Hspawn; [|done]. injection Hspawn as <-.
  intros inner Hsteps. split; [done|].
  split; [intros builder; simpl; by rewrite elem_of_list_to_set|].
  exact (new_pool_ok _ _ _ _ _ _ _ Hsteps).
Qed.

(** A multiplexer that is started asks the configured relays whose address parses, in
    their order, and holds no bid. *)
Theorem started_mux_relays (ask : Answers) network config spawned :
  MuxStartup.spawn ask (MuxStartup.from network config) = Ok spawned →
  RelayMux.relays (MuxStartup.spawned_inner spawned) =
    relay_from <$> omap endpoint_of (MuxStartup.relays config) ∧
  RelayMux.outstanding_bids (MuxStartup.spawned_state spawned) = ∅.
Proof.
  unfold MuxStartup.spawn. simpl.
  destruct (context_try_from network) as [context|]; simpl; [|done]. intros [= <-]. simpl.
  by rewrite (proj1 (parse_relay_endpoints_spec _)).
Qed.

(** The auctioneer that is started has no open auction, signs with the configured key,
    and counts slots from the genesis of the clock that drives it. *)
Theorem constructed_services_spec (ask : Answers) network (config : BuilderStartup.Config)
    (services : BuilderStartup.Services (Url := Url)) :
  BuilderStartup.construct_services ask network config = Ok services →
  Auctioneer.service_ok (BuilderStartup.auctioneer services) ∧
  Auctioneer.config_secret_key (BuilderStartup.auctioneer_config services) =
    BuilderStartup.auctioneer_secret_key (BuilderStartup.config_auctioneer config) ∧
  Auctioneer.config_genesis_time (BuilderStartup.auctioneer_config services) =
    BuilderStartup.clock_genesis_time services.
Proof.
  unfold BuilderStartup.construct_services.
  destruct (context_try_from network) as [context|]; simpl; [|done]. by intros [= <-].
Qed.

(** The builder takes the network of the client's chain when it is one of the three it
    knows, whatever directory is given, and panics exactly when it needs the directory
    and its name is not UTF-8. *)
Lemma network_of_chain_panics (chain : option BuilderStartup.NamedChain) directory :
  BuilderStartup.network_of_chain (LibraryError := LibraryError) chain directory = Panics ↔
  (chain = None ∨ ∃ id, chain = Some (BuilderStartup.NamedChain_Other id)) ∧
  directory = Some None.
Proof. destruct chain as [[]|], directory as [[]|]; simpl; naive_solver. Qed.

(** The command [relay] panics exactly when no file is given, or when the file names a
    network and a relay whose beacon node has no URL that parses. *)
Theorem execute_relay_panics (read_to_string : string → result LibraryError string) from_str
    wrap_err (ask_time ask_root : Answers) joined self :
  Commands.execute_relay read_to_string from_str wrap_err ask_time ask_root joined self = Panics ↔
  (Commands.command self = None ∧ Commands.config_file self = None) ∨
  ∃ file config network relay_config,
    (Commands.command self = Some (Commands.Mock file) ∨
     Commands.command self = None ∧ Commands.config_file self = Some file) ∧
    Commands.from_toml_file read_to_string from_str file = Ok config ∧
    Commands.network config = Some network ∧ Commands.relay config = Some relay_config ∧
    parse_url (RelayStartup.beacon_node_url relay_config) = None.
Proof.
  unfold Commands.execute_relay.
  assert (Hfile : ∀ file,
    (config ←! Returns (Commands.load read_to_string from_str wrap_err file);
     network ←! Returns (ok_or (Commands.network config)
       (Report_Message "missing `network` from configuration)"));
     match Commands.relay config with
     | Some config =>
         service ←! unwrap (RelayStartup.from network config);
         service ←! Returns (map_err Report_Error (RelayStartup.spawn ask_time ask_root service));
         Returns (map_err Report_Library (joined service))
     | None => Returns (Err (Report_Message "missing relay config from file provided"))
     end) = Panics ↔
    ∃ config network relay_config,
      Commands.from_toml_file read_to_string from_str file = Ok config ∧
      Commands.network config = Some network ∧ Commands.relay config = Some relay_config ∧
      parse_url (RelayStartup.beacon_node_url relay_config) = None).
  { intros file. unfold Commands.load.
    destruct (Commands.from_toml_file _ _ file) as [config|]; simpl; [|naive_solver].
    destruct (Commands.network config) as [network|] eqn:Hnetwork; simpl; [|naive_solver].
    destruct (Commands.relay config) as [rc|] eqn:Hrelay; simpl; [|naive_solver].
    unfold RelayStartup.from.
    destruct (parse_url _) as [url|] eqn:Hurl; simpl; [|naive_solver].
    destruct (RelayStartup.spawn _ _ _) as [sp|]; simpl; naive_solver. }
  destruct (Commands.command self) as [[file]|], (Commands.config_file self) as [file'|]; simpl;
    rewrite ?Hfile; naive_solver.
Qed.

(** A signal ends every program but the builder without an error. *)
Lemma main_interrupted {E} read_to_string from_str wrap_err signer_from_mnemonic launch_node
    (ask_time ask_root : Answers) mux_joined relay_joined node_exited
    (subcommand : option (result E (option (list (option string))))) command :
  is_Some subcommand → (∀ config_file, command ≠ Main.Build config_file) →
  Main.main (LibraryError := LibraryError) read_to_string from_str wrap_err signer_from_mnemonic
    launch_node ask_time ask_root mux_joined relay_joined node_exited subcommand command true
    = Returns (Ok tt).
Proof.
  intros [matches ->] Hbuild. unfold Main.main. cbn. destruct matches as [[iter|]|e]; cbn;
    destruct command; try done; by destruct (Hbuild config_file).
Qed.

(** The builder is given the directory of the file its chain is named by. *)
Lemma custom_directory_spec {E} (subcommand : option (result E (option (list (option string))))) path :
  Main.parse_custom_chain_config_directory (LibraryError := LibraryError) subcommand = Ok (Some path) ↔
  ∃ s values p, subcommand = Some (Ok (Some (Some s :: values))) ∧ Path.parent s = Some p ∧
    path = Some p.
Proof.
  unfold Main.parse_custom_chain_config_directory.
  destruct subcommand as [[[[|[s|] values]|]|e]|]; simpl; [naive_solver| |naive_solver..].
  split.
  - intros [= H]. apply bind_Some in H as (p & Hp & [= <-]). by exists s, values, p.
  - intros (s' & values' & p & [= <- <-] & -> & ->). done.
Qed.

(** The script prints the relay's answers for the proposers of the slot, in the order of
    the schedule, up to the first error. *)
Lemma print_bids_spec (fetch_best_bid : AuctionRequest → result Error SignedBuilderBid)
    slot parent_hash schedules :
  let request schedule := {| Types.slot := slot; Types.parent_hash := parent_hash;
    Types.public_key := registration_public_key (registration_message (schedule_entry schedule)) |} in
  let answers := (λ schedule, fetch_best_bid (request schedule)) <$>
    filter (λ schedule, schedule_slot schedule = slot) schedules in
  let '(printed, over) := Utils.print_bids fetch_best_bid slot parent_hash schedules in
  if over then answers = Ok <$> printed
  else ∃ e rest, answers = (Ok <$> printed) ++ Err e :: rest.
Proof.
  intros request. simpl. induction schedules as [|schedule schedules IH]; [done|]. simpl.
  rewrite filter_cons. case_decide; [|done]. simpl. fold (request schedule).
  destruct (fetch_best_bid (request schedule)) as [bid|e]; [|by eexists _, _].
  destruct (Utils.print_bids _ _ _ _) as [printed []]; simpl.
  - by f_equal.
  - destruct IH as (e & rest & IH). exists e, rest. by f_equal.
Qed.
End startup_properties.

(** * Examples *)

Module ToyStartup.
Import ToyInstances.

#[local] Instance toy_urls : UrlParsing N := {|
  parse_url s := if decide (s = ""%string) then None else Some (N.of_nat (String.length s));
  username _ := ""%string;
  try_bytes_from_hex_str _ := Some [];
  public_key_try_from _ := Some (toy_pk 1001);
|}.

(** A network that knows no genesis time, with a beacon node that does. *)
#[local] Instance toy_startup : Startup N := {|
  Network := string;
  Network_Mainnet := "mainnet"%string;
  Network_Sepolia := "sepolia"%string;
  Network_Holesky := "holesky"%string;
  Network_Custom path := path;
  context_try_from _ := Ok (toy_network 32);
  context_genesis_time _ := Err (1 : ConsensusError);
  typical_genesis_time _ := 7;
  Client := N;
  client_new url := url;
  default_secret_key := 1 : SecretKey;
|}.

Definition toy_ask (client : Client) : result ApiError GenesisDetails :=
  if decide (client = 21) then Ok {| genesis_time := 12; details_validators_root := (5 : Root) |}
  else Err (2 : ApiError).

Example toy_relay_starts :
  (service ← RelayStartup.from Network_Mainnet RelayStartup.default_config;
   RelayStartup.spawned_genesis_time <$> ok (RelayStartup.spawn toy_ask toy_ask service)) = Some 12.
Proof. reflexivity. Qed.

Example toy_mux_starts :
  MuxStartup.spawned_genesis_time <$>
    MuxStartup.spawn toy_ask (MuxStartup.from Network_Mainnet MuxStartup.default_config) = Ok 7.
Proof. reflexivity. Qed.
End ToyStartup.
