(* ===== verification/IntegrationTest.v ===== *)
(** [mev-boost-rs/tests/]: the integration test of the multiplexer, for any proposers.

    The test runs a relay with the services of an [IdentityBuilder] behind its server,
    starts the multiplexer in front of it, registers some proposers, and lets each of
    them propose a block.  Here the test is a function of what it draws (keys, times,
    the order of the proposers), of how the multiplexer breaks ties, and of the slots
    that its clock enters meanwhile; its result is whether all assertions hold and
    nothing panics. *)

From S2P Require Import Prelude.
From stdpp Require Import strings.
From S2P Require Import Consensus.
From S2P Require Import Types.
From S2P Require Import Signing.
From S2P Require Import Tasks.
From S2P Require Import RelayClient.
From S2P Require Import RelayMux.
From S2P Require Import Untagged.
From S2P Require Import Api.
From S2P Require Import RelayService.
From S2P Require Import OverHttp.
From S2P Require Import Startup.
From S2P Require Import RelayBlocks.
From S2P Require Import Toy.

#[local] Open Scope N_scope.

(** What the test uses of the libraries: values of fixed bytes, the forks' epochs, and
    payloads and bodies with default fields. *)
Class TestLibrary `{CT : ConsensusTypes} := {
  secret_key_from : list N → SecretKey;
  address_from : list N → ExecutionAddress;
  hash_from : list N → Hash32;
  root_from : list N → Root;
  bellatrix_fork_epoch : ChainContext → N;
  capella_fork_epoch : ChainContext → N;
  bellatrix_payload_with : Hash32 → ExecutionAddress → N → bellatrix_ExecutionPayload;
  capella_payload_with : Hash32 → ExecutionAddress → N → capella_ExecutionPayload;
  payload_fee_recipient : ExecutionPayload → ExecutionAddress;
  default_root : Root;
  default_fields : BodyFields;
  default_changes : BlsToExecutionChanges;
}.

(** * The relay of the test *)

Module IdentityBuilder.
Section identity_builder.
Context `{CF : ConsensusFunctions} `{BS : !BuilderSignable} `{TL : !TestLibrary}.

Record IdentityBuilder : Type := {
  signing_key : SecretKey;
  public_key : BlsPublicKey;
  context : ChainContext;
}.

(** What is behind the two mutexes; [None] is a mutex whose holder has panicked. *)
Record State : Type := {
  bids : option (gmap N ExecutionPayload);
  registrations : option (gmap BlsPublicKey ValidatorRegistration);
}.

Definition new (context : ChainContext) : IdentityBuilder * State :=
  let signing_key := secret_key_from (replicate 32 1) in
  let public_key := secret_key_public_key signing_key in
  ({| signing_key := signing_key; public_key := public_key; context := context |},
   {| bids := Some ∅; registrations := Some ∅ |}).

Definition register_validators (registrations' : list SignedValidatorRegistration)
    : task State (option (result Error ())) :=
  critical (λ st,
    match registrations st with
    | None => (st, None)
    | Some state =>
        let state := foldl (λ state registration,
          let registration := registration_message registration in
          let public_key := registration_public_key registration in
          <[public_key := registration]> state) state registrations' in
        ({| bids := bids st; registrations := Some state |}, Some (Ok tt))
    end).

(** The payload and the bid for it. *)
Definition prepare_bid (self : IdentityBuilder) (auction_request : AuctionRequest)
    (preferences : ValidatorRegistration) : option (ExecutionPayload * SignedBuilderBid) :=
  let capella_fork_slot :=
    u64_mul (capella_fork_epoch (context self)) (slots_per_epoch (context self)) in
  let value := 1337 in
  ' (payload, builder_bid) ←
    if slot auction_request <? capella_fork_slot then
      let payload := bellatrix_payload_with (parent_hash auction_request)
        (registration_fee_recipient preferences) (registration_gas_limit preferences) in
      header ← ok (bellatrix_try_into_header payload);
      let builder_bid := BuilderBid_Bellatrix {|
        bellatrix_bid_header := ExecutionPayloadHeader_Bellatrix header;
        bellatrix_bid_value := value;
        bellatrix_bid_public_key := public_key self;
      |} in
      Some (ExecutionPayload_Bellatrix payload, builder_bid)
    else
      let payload := capella_payload_with (parent_hash auction_request)
        (registration_fee_recipient preferences) (registration_gas_limit preferences) in
      header ← ok (capella_try_into_header payload);
      let builder_bid := BuilderBid_Capella {|
        bellatrix_bid_header := ExecutionPayloadHeader_Capella header;
        bellatrix_bid_value := value;
        bellatrix_bid_public_key := public_key self;
      |} in
      Some (ExecutionPayload_Capella payload, builder_bid);
  signature ← ok (sign_builder_message builder_bid (signing_key self) (context self));
  Some (payload, {| signed_bid_message := builder_bid; signed_bid_signature := signature |}).

(** The registrations are locked until the end. *)
Definition fetch_best_bid (self : IdentityBuilder) (auction_request : AuctionRequest)
    : task State (option (result Error SignedBuilderBid)) :=
  critical (λ st,
    match registrations st with
    | None => (st, None)
    | Some state =>
        match state !! Types.public_key auction_request ≫= prepare_bid self auction_request with
        | None => ({| bids := bids st; registrations := None |}, None)
        | Some (payload, signed_builder_bid) =>
            match bids st with
            | None => ({| bids := None; registrations := None |}, None)
            | Some state' =>
                ({| bids := Some (<[slot auction_request := payload]> state');
                    registrations := Some state |}, Some (Ok signed_builder_bid))
            end
        end
    end).

Definition open_bid (signed_block : SignedBlindedBeaconBlock)
    : task State (option (result Error AuctionContents)) :=
  let slot := blinded_slot (blinded_message signed_block) in
  critical (λ st,
    match bids st with
    | None => (st, None)
    | Some state =>
        let auction_contents :=
          execution_payload ← (state !! slot : option ExecutionPayload);
          match signed_blinded_version signed_block with
          | Fork_Bellatrix => Some (AuctionContents_Bellatrix execution_payload)
          | Fork_Capella => Some (AuctionContents_Capella execution_payload)
          | _ => None
          end in
        match auction_contents with
        | Some auction_contents => (st, Some (Ok auction_contents))
        | None => ({| bids := None; registrations := registrations st |}, None)
        end
    end).

Definition provider (self : IdentityBuilder) : BlindedBlockProvider State := {|
  provider_register_validators := register_validators;
  provider_fetch_best_bid := fetch_best_bid self;
  provider_open_bid := open_bid;
|}.
End identity_builder.
End IdentityBuilder.

(** * The multiplexer between its clients and a relay *)

(** A task on one part of a pair. *)
Fixpoint on_left {R S A} (p : task R A) : task (R * S) A :=
  match p with
  | Done a => Done a
  | Atomic section k =>
      Atomic (λ rs, let '(r, b) := section rs.1 in ((r, rs.2), b)) (λ b, on_left (k b))
  end.

Fixpoint on_right {R S A} (p : task S A) : task (R * S) A :=
  match p with
  | Done a => Done a
  | Atomic section k =>
      Atomic (λ rs, let '(s, b) := section rs.2 in ((rs.1, s), b)) (λ b, on_right (k b))
  end.

Section front.
Context `{CF : ConsensusFunctions} `{BS : !BuilderSignable} {Url R : Type}.
Context `{HT : !HttpTypes} {HH : Http}.
Context `{CB : !Codec Json bellatrix_BuilderBid deneb_BuilderBid}.
Context `{CC : !Codec Json bellatrix_AuctionContents deneb_AuctionContents}.
(** How each relay is reached, and how ties are broken. *)
Context (relay_api : Relay Url → Transport R) (shuffle : list nat → list nat).

(** Every relay is asked; nobody times out. *)
Fixpoint ask_each {A} (ask : Transport R → task R (result Error A)) (relays : list (Relay Url))
    : task R (list (Relay Url * option (result Error A))) :=
  match relays with
  | [] => Done []
  | relay :: relays =>
      result ← ask (relay_api relay);
      results ← ask_each ask relays;
      Done ((relay, Some result) :: results)
  end.

(** The services of the multiplexer, over its state and that of the relays. *)
Definition mux_register_validators (inner : RelayMux.Inner Url)
    (registrations : list SignedValidatorRegistration)
    : task (RelayMux.State Url * R) (Outcome (result Error ())) :=
  results ← on_right (ask_each (λ api, Api.register_validators api registrations)
                        (RelayMux.relays inner));
  on_left (RelayMux.register_validators inner (λ _, results) registrations).

Definition mux_fetch_best_bid (inner : RelayMux.Inner Url) (auction_request : AuctionRequest)
    : task (RelayMux.State Url * R) (Outcome (result Error SignedBuilderBid)) :=
  results ← on_right (ask_each (λ api, Api.fetch_best_bid api auction_request)
                        (RelayMux.relays inner));
  on_left (RelayMux.fetch_best_bid inner (λ _, results) shuffle auction_request).

Definition mux_open_bid (signed_block : SignedBlindedBeaconBlock)
    : task (RelayMux.State Url * R) (result Error AuctionContents) :=
  let block := blinded_message signed_block in
  let expected_block_hash := header_block_hash (blinded_payload_header block) in
  context ←? on_left (RelayMux.get_context expected_block_hash);
  results ← on_right (ask_each (λ api, Api.open_bid api signed_block)
                        (RelayMux.context_relays context));
  match RelayMux.first_valid_payload expected_block_hash (blinded_kzg_commitments block)
          (omap snd results) with
  | Some auction_contents => Done (Ok auction_contents)
  | None => Done (Err (Error_Boost (MissingPayload expected_block_hash)))
  end.

(** A handler that panics or waits for ever sends no response. *)
Definition response_of {A} (answer : Outcome A) : option A :=
  match answer with
  | Answered a => Some a
  | Panicked | Waiting => None
  end.

Definition mux_provider (inner : RelayMux.Inner Url)
    : BlindedBlockProvider (RelayMux.State Url * R) := {|
  provider_register_validators registrations :=
    response_of <$> mux_register_validators inner registrations;
  provider_fetch_best_bid auction_request :=
    response_of <$> mux_fetch_best_bid inner auction_request;
  provider_open_bid signed_block := Some <$> mux_open_bid signed_block;
|}.
End front.

(** * The test *)

Section integration.
Context `{CF : ConsensusFunctions} `{BS : !BuilderSignable} `{TL : !TestLibrary}.
Context {Url : Type} `{UP : !UrlParsing Url} {SU : Startup Url}.
Context `{HT : !HttpTypes} {HH : Http}.
Context `{CB : !Codec Json bellatrix_BuilderBid deneb_BuilderBid}.
Context `{CC : !Codec Json bellatrix_AuctionContents deneb_AuctionContents}.

(** The state of the multiplexer and of the relay. *)
#[local] Notation World := (RelayMux.State Url * IdentityBuilder.State)%type.

(** A panic of the test ends it: [unwrap] and [assert_eq]. *)
Definition unwrap {R E A} (p : task R (result E A)) : task R (result () A) :=
  map_err (λ _, tt) <$> p.

Definition unwrap_now {R E A} (r : result E A) : task R (result () A) := unwrap (Done r).

Definition assert_eq {R A} `{!EqDecision A} (left right : A) : task R (result () ()) :=
  Done (if decide (left = right) then Ok tt else Err tt).

Record Proposer : Type := {
  proposer_index : N;
  proposer_public_key : BlsPublicKey;
  proposer_signing_key : SecretKey;
  proposer_fee_recipient : ExecutionAddress;
}.

(** The keys are drawn at random. *)
Definition create_proposers (signing_keys : list SecretKey) : list Proposer :=
  imap (λ i signing_key, {|
    proposer_index := N.of_nat i;
    proposer_public_key := secret_key_public_key signing_key;
    proposer_signing_key := signing_key;
    proposer_fee_recipient := address_from (replicate 20 (N.of_nat i mod 256));
  |}) signing_keys.

(** The slot of a block of the given fork, the first or a later one. *)
Definition test_fork (shuffling_index : nat) : Fork :=
  if decide (shuffling_index = 0%nat) then Fork_Bellatrix else Fork_Capella.

Definition test_slot (context : ChainContext) (fork : Fork) : option N :=
  match fork with
  | Fork_Bellatrix =>
      Some (u64_add 30 (u64_mul (bellatrix_fork_epoch context) (slots_per_epoch context)))
  | Fork_Capella =>
      Some (u64_add 30 (u64_mul (capella_fork_epoch context) (slots_per_epoch context)))
  | _ => None
  end.

Definition make_signed_block (fork : Fork) (signed_bid : SignedBuilderBid) (current_slot : N)
    (proposer : Proposer) (context : ChainContext) (genesis_validators_root : Root)
    : option SignedBlindedBeaconBlock :=
  let beacon_block {B} (body : B) : Block B := {|
    block_slot := current_slot;
    block_proposer_index := proposer_index proposer;
    block_parent_root := default_root;
    block_state_root := default_root;
    block_body := body;
  |} in
  let fork_version := fork_version_for context fork in
  match fork with
  | Fork_Bellatrix =>
      header ← header_bellatrix (bid_header (signed_bid_message signed_bid));
      let beacon_block_body := {|
        bellatrix_fields := default_fields;
        bellatrix_execution_payload := header;
      |} in
      let beacon_block := beacon_block beacon_block_body in
      domain ← ok (compute_beacon_proposer_domain fork_version genesis_validators_root context);
      signature ← ok (sign_with_domain (BlindedBeaconBlock_Bellatrix beacon_block)
                        (proposer_signing_key proposer) domain);
      Some (SignedBlindedBeaconBlock_Bellatrix
        {| signed_block_message := beacon_block; signed_block_signature := signature |})
  | Fork_Capella =>
      header ← header_capella (bid_header (signed_bid_message signed_bid));
      let beacon_block_body := {|
        capella_fields := default_fields;
        capella_execution_payload := header;
        capella_bls_to_execution_changes := default_changes;
      |} in
      let beacon_block := beacon_block beacon_block_body in
      domain ← ok (compute_beacon_proposer_domain fork_version genesis_validators_root context);
      signature ← ok (sign_with_domain (BlindedBeaconBlock_Capella beacon_block)
                        (proposer_signing_key proposer) domain);
      Some (SignedBlindedBeaconBlock_Capella
        {| signed_block_message := beacon_block; signed_block_signature := signature |})
  | _ => None
  end.

(** [between] are the slots that the multiplexer's clock enters after the bid has been
    fetched and before the block is opened. *)
Definition propose_block (beacon_node : Transport World) (between : list N) (proposer : Proposer)
    (shuffling_index : nat) (context : ChainContext) (genesis_validators_root : Root)
    : task World (result () ()) :=
  let fork := test_fork shuffling_index in
  current_slot ←? unwrap_now (ok_or (test_slot context fork) tt);
  let parent_hash := hash_from (replicate 32 (N.of_nat shuffling_index mod 256)) in
  let request := {|
    slot := current_slot;
    parent_hash := parent_hash;
    public_key := proposer_public_key proposer;
  |} in
  signed_bid ←? unwrap (Api.fetch_best_bid beacon_node request);
  _ ←? assert_eq (header_parent_hash (bid_header (signed_bid_message signed_bid))) parent_hash;
  signed_block ←? unwrap_now (ok_or
    (make_signed_block fork signed_bid current_slot proposer context genesis_validators_root) tt);
  _ ←? unwrap (check_status beacon_node);
  _ ← on_left (mux_task between);
  auction_contents ←? unwrap (Api.open_bid beacon_node signed_block);
  let payload := contents_execution_payload auction_contents in
  _ ←? assert_eq (payload_parent_hash payload) parent_hash;
  _ ←? assert_eq (payload_fee_recipient payload) (proposer_fee_recipient proposer);
  unwrap (check_status beacon_node).

(** The proposers in the order of the shuffle, from the given index on. *)
Fixpoint propose_blocks (beacon_node : Transport World) (clock : nat → list N * list N)
    (proposers : list Proposer) (i : nat) (context : ChainContext) (genesis_validators_root : Root)
    : task World (result () ()) :=
  match proposers with
  | [] => Done (Ok tt)
  | proposer :: proposers =>
      _ ← on_left (mux_task (clock i).1);
      _ ←? propose_block beacon_node (clock i).2 proposer i context genesis_validators_root;
      propose_blocks beacon_node clock proposers (S i) context genesis_validators_root
  end.

Definition make_registration (context : ChainContext) (proposer : Proposer) (timestamp : N)
    : option SignedValidatorRegistration :=
  let registration := {|
    registration_fee_recipient := proposer_fee_recipient proposer;
    registration_gas_limit := 30000000;
    registration_timestamp := timestamp;
    registration_public_key := proposer_public_key proposer;
  |} in
  signature ← ok (sign_builder_message registration (proposer_signing_key proposer) context);
  Some {| registration_message := registration; registration_signature := signature |}.

(** The address of the relay. *)
Definition relay_url (relay_public_key : BlsPublicKey) : string :=
  "http://" ++ debug_key relay_public_key ++ "@127.0.0.1:28545".

Definition test_config (relay_public_key : BlsPublicKey) : MuxStartup.Config := {|
  MuxStartup.host := MuxStartup.host MuxStartup.default_config;
  MuxStartup.port := MuxStartup.port MuxStartup.default_config;
  MuxStartup.relays := [relay_url relay_public_key];
  MuxStartup.beacon_node_url := MuxStartup.beacon_node_url MuxStartup.default_config;
|}.

(** What the test draws: the keys, the time of each registration, the order of the
    proposers; what it meets: how ties are broken, the answers about the genesis, and the
    slots that the clock enters before each proposer and while it proposes; [lost] is the
    error of a request without a response. *)
Definition test_end_to_end (signing_keys : list SecretKey) (get_time : nat → N)
    (shuffle : list Proposer → list Proposer) (shuffle_bids : list nat → list nat)
    (ask : Answers) (clock : nat → list N * list N) (lost : ApiError) : result () () :=
  let proposers := create_proposers signing_keys in
  let genesis_validators_root := root_from (replicate 32 23) in
  context ← map_err (λ _, tt) (context_try_from Network_Sepolia);
  let secret_key := secret_key_from (replicate 32 1) in
  let relay_public_key := secret_key_public_key secret_key in
  let '(builder, shelves) := IdentityBuilder.new context in
  let relay := loopback lost (serve_provider (IdentityBuilder.provider builder)) in
  let service := MuxStartup.from Network_Sepolia (test_config relay_public_key) in
  spawned ← map_err (λ _, tt) (MuxStartup.spawn ask service);
  let beacon_node := loopback lost (serve_provider
    (mux_provider (λ _, relay) shuffle_bids (MuxStartup.spawned_inner spawned))) in
  (run (
    _ ←? unwrap (check_status beacon_node);
    registrations ←? unwrap_now (ok_or
      (mapM (λ '(i, proposer), make_registration context proposer (get_time i))
        (imap pair proposers)) tt);
    _ ←? unwrap (Api.register_validators beacon_node registrations);
    _ ←? unwrap (check_status beacon_node);
    propose_blocks beacon_node clock (shuffle proposers) 0 context genesis_validators_root)
    (MuxStartup.spawned_state spawned, shelves)).2.
End integration.

(** * Properties *)

Section lifting.
Context {R S A : Type}.

Lemma run_on_left (p : task R A) (r : R) (s : S) :
  run (on_left p) (r, s) = let '(r', a) := run p r in ((r', s), a).
Proof.
  revert r. induction p as [a|B section k IH]; intros r; [done|]. simpl.
  destruct (section r) as [r' b]. apply IH.
Qed.

Lemma run_on_right (p : task S A) (r : R) (s : S) :
  run (on_right p) (r, s) = let '(s', a) := run p s in ((r, s'), a).
Proof.
  revert s. induction p as [a|B section k IH]; intros s; [done|]. simpl.
  destruct (section s) as [s' b]. apply IH.
Qed.

Lemma run_unwrap {E} (p : task R (result E A)) r :
  run (unwrap p) r = let '(r', a) := run p r in (r', map_err (λ _, ()) a).
Proof. apply run_fmap. Qed.
End lifting.

(** A step of the test, once it is known how it ends. *)
Section steps.
Context {R : Type}.

Lemma try_Ok {E A B} (p : task R (result E A)) (f : A → task R (result E B)) s s' a :
  run p s = (s', Ok a) → run (task_try p f) s = run (f a) s'.
Proof. rewrite run_try. by intros ->. Qed.

Lemma try_Err {E A B} (p : task R (result E A)) (f : A → task R (result E B)) s s' e :
  run p s = (s', Err e) → run (task_try p f) s = (s', Err e).
Proof. rewrite run_try. by intros ->. Qed.

Lemma run_unwrap_Ok {E A} (p : task R (result E A)) s s' a :
  run p s = (s', Ok a) → run (unwrap p) s = (s', Ok a).
Proof. rewrite run_unwrap. by intros ->. Qed.

Lemma run_unwrap_Err {E A} (p : task R (result E A)) s s' e :
  run p s = (s', Err e) → run (unwrap p) s = (s', Err tt).
Proof. rewrite run_unwrap. by intros ->. Qed.

Lemma unwrap_now_Some {A} (o : option A) (s : R) a :
  o = Some a → run (unwrap_now (ok_or o tt)) s = (s, Ok a).
Proof. by intros ->. Qed.

Lemma assert_eq_refl `{!EqDecision A} (a b : A) (s : R) :
  a = b → run (assert_eq a b) s = (s, Ok tt).
Proof. intros ->. unfold assert_eq. by rewrite decide_True. Qed.
End steps.

(** ** A server of the builder API alone *)

Section provider_server.
Context `{CF : ConsensusFunctions} `{HT : !HttpTypes} {HH : Http} {HL : HttpLaws HH}.
Context `{CB : !Codec Json bellatrix_BuilderBid deneb_BuilderBid, CBL : !CodecLaws CB}.
Context `{CC : !Codec Json bellatrix_AuctionContents deneb_AuctionContents, CCL : !CodecLaws CC}.
Context `{CS : !Codec Json bellatrix_SignedBidSubmission deneb_SignedBidSubmission}.
Context {R : Type} (builder : BlindedBlockProvider R) (lost : ApiError).

Notation api := (loopback lost (serve_provider builder)).

(** The relay's server routes the same requests to the builder API. *)
Lemma routed_alike relay data req :
  is_Some (route_provider builder req) →
  loopback lost (serve_provider builder) req = loopback lost (serve_relay builder relay data) req.
Proof. unfold loopback, serve_provider, serve_relay. by intros [handler ->]. Qed.

Context (relay : BlindedBlockRelayer R) (data : BlindedBlockDataProvider R).

Lemma front_fetch_best_bid auction_request s :
  run (Api.fetch_best_bid api auction_request) s =
    let '(s', answer) := run (provider_fetch_best_bid R builder auction_request) s in
    (s', bid_arrives lost auction_request answer).
Proof using HL CBL relay data CS.
  rewrite <-(client_fetch_best_bid builder relay data lost). unfold Api.fetch_best_bid, http_get.
  rewrite (routed_alike relay data); [done|].
  unfold route_provider. cbn [request_path header_prefix app].
  rewrite !decide_False by done. cbn [drop take].
  rewrite decide_True by auto using display_slot_nonempty, debug_hash_nonempty, debug_key_nonempty.
  eauto.
Qed.

Lemma front_open_bid block s :
  bid_is_prepared (provider_open_bid R builder block) s →
  run (Api.open_bid api block) s =
    let '(s', answer) := run (provider_open_bid R builder block) s in
    (s', answer_arrives lost contents_decoded answer).
Proof using HL CCL relay data CS.
  intros Hp. rewrite <-(client_open_bid builder relay data lost) by done. unfold Api.open_bid.
  rewrite (routed_alike relay data); [done|]. unfold route_provider. simpl. eauto.
Qed.

Lemma front_register_validators registrations s :
  bid_is_prepared (provider_register_validators R builder registrations) s →
  run (Api.register_validators api registrations) s =
    let '(s', answer) := run (provider_register_validators R builder registrations) s in
    (s', answer_arrives lost id answer).
Proof using HL relay data CS.
  intros Hp. rewrite <-(client_register_validators builder relay data lost) by done.
  unfold Api.register_validators, http_post.
  rewrite (routed_alike relay data); [done|]. unfold route_provider. simpl. eauto.
Qed.

Lemma front_check_status s : run (check_status api) s = (s, Ok tt).
Proof using HL. unfold check_status. rewrite run_try. simpl. by rewrite ok_response. Qed.
End provider_server.

(** ** The relay of the test *)

(** Payloads keep the fields they are made with and have headers; domains can be computed
    and messages signed; and the root of a bid is that of its variant's value. *)
Class TestLaws `{CF : ConsensusFunctions} `{BS : !BuilderSignable} (TL : TestLibrary) : Prop := {
  bellatrix_with_parent_hash h a g :
    payload_parent_hash (ExecutionPayload_Bellatrix (bellatrix_payload_with h a g)) = h;
  bellatrix_with_fee_recipient h a g :
    payload_fee_recipient (ExecutionPayload_Bellatrix (bellatrix_payload_with h a g)) = a;
  bellatrix_with_header h a g :
    ∃ header, bellatrix_try_into_header (bellatrix_payload_with h a g) = Ok header;
  capella_with_parent_hash h a g :
    payload_parent_hash (ExecutionPayload_Capella (capella_payload_with h a g)) = h;
  capella_with_fee_recipient h a g :
    payload_fee_recipient (ExecutionPayload_Capella (capella_payload_with h a g)) = a;
  capella_with_header h a g :
    ∃ header, capella_try_into_header (capella_payload_with h a g) = Ok header;
  builder_domain_computed context : ∃ domain, compute_builder_domain context = Ok domain;
  proposer_domain_computed version root context :
    ∃ domain, compute_beacon_proposer_domain version root context = Ok domain;
  bid_signed (bid : BuilderBid) sk domain : ∃ signature, sign_with_domain bid sk domain = Ok signature;
  registration_signed (registration : ValidatorRegistration) sk domain :
    ∃ signature, sign_with_domain registration sk domain = Ok signature;
  block_signed (block : BlindedBeaconBlock) sk domain :
    ∃ signature, sign_with_domain block sk domain = Ok signature;
  bid_root inner domain :
    compute_signing_root (BuilderBid_Capella inner) domain
      = compute_signing_root (BuilderBid_Bellatrix inner) domain;
}.

Section identity_builder_properties.
Context `{CF : ConsensusFunctions} `{BS : !BuilderSignable} `{CL : !ConsensusLaws}.
Context `{TL : !TestLibrary} `{TW : !TestLaws TL} `{BL : !SignableLaws BuilderBid}.
Implicit Types (self : IdentityBuilder.IdentityBuilder) (k : AuctionRequest).
Implicit Types (preferences : ValidatorRegistration) (payload : ExecutionPayload).

(** A header of the fork that the slot is in. *)
Definition header_of_fork (context : ChainContext) k (h : ExecutionPayloadHeader) : Prop :=
  if slot k <? u64_mul (capella_fork_epoch context) (slots_per_epoch context)
  then is_Some (header_bellatrix h) else is_Some (header_capella h).

(** A bid for [k] and the payload behind it. *)
Record bid_for self k preferences payload (bid : SignedBuilderBid) : Prop := {
  for_parent_hash : payload_parent_hash payload = parent_hash k;
  for_fee_recipient : payload_fee_recipient payload = registration_fee_recipient preferences;
  for_block_hash : header_block_hash (bid_header (signed_bid_message bid)) = payload_block_hash payload;
  for_bid_parent_hash : header_parent_hash (bid_header (signed_bid_message bid)) = parent_hash k;
  for_fork : header_of_fork (IdentityBuilder.context self) k (bid_header (signed_bid_message bid));
  for_blobs : bid_version (signed_bid_message bid) ≠ Fork_Deneb;
  for_key : bid_public_key (signed_bid_message bid) = IdentityBuilder.public_key self;
  for_signature :
    verify_signed_builder_data (signed_bid_message bid)
      (secret_key_public_key (IdentityBuilder.signing_key self)) (signed_bid_signature bid)
      (IdentityBuilder.context self) = Ok tt;
}.

Lemma bid_signs (bid : BuilderBid) sk context :
  ∃ signature, sign_builder_message bid sk context = Ok signature.
Proof using TW.
  unfold sign_builder_message. destruct (builder_domain_computed context) as [domain ->].
  apply bid_signed.
Qed.

Lemma prepare_bid_spec self k preferences :
  ∃ payload bid, IdentityBuilder.prepare_bid self k preferences = Some (payload, bid) ∧
    bid_for self k preferences payload bid.
Proof using TW CL BL.
  unfold IdentityBuilder.prepare_bid.
  set (h := parent_hash k). set (a := registration_fee_recipient preferences).
  set (g := registration_gas_limit preferences).
  destruct (slot k <? _) eqn:Hfork.
  - destruct (bellatrix_with_header h a g) as [header Hheader]. rewrite Hheader. simpl.
    destruct (bid_signs (BuilderBid_Bellatrix {|
        bellatrix_bid_header := ExecutionPayloadHeader_Bellatrix header; bellatrix_bid_value := 1337;
        bellatrix_bid_public_key := IdentityBuilder.public_key self |})
      (IdentityBuilder.signing_key self) (IdentityBuilder.context self)) as [signature Hsig].
    rewrite Hsig. simpl. eexists _, _. split; [done|].
    apply bellatrix_header_hashes in Hheader as [Hhash Hparent]. rewrite bellatrix_with_parent_hash in Hparent.
    split; simpl; try done.
    + apply bellatrix_with_parent_hash.
    + apply bellatrix_with_fee_recipient.
    + unfold header_of_fork. rewrite Hfork. by eexists.
    + by apply sign_builder_message_verifies.
  - destruct (capella_with_header h a g) as [header Hheader]. rewrite Hheader. simpl.
    destruct (bid_signs (BuilderBid_Capella {|
        bellatrix_bid_header := ExecutionPayloadHeader_Capella header; bellatrix_bid_value := 1337;
        bellatrix_bid_public_key := IdentityBuilder.public_key self |})
      (IdentityBuilder.signing_key self) (IdentityBuilder.context self)) as [signature Hsig].
    rewrite Hsig. simpl. eexists _, _. split; [done|].
    apply capella_header_hashes in Hheader as [Hhash Hparent]. rewrite capella_with_parent_hash in Hparent.
    split; simpl; try done.
    + apply capella_with_parent_hash.
    + apply capella_with_fee_recipient.
    + unfold header_of_fork. rewrite Hfork. by eexists.
    + by apply sign_builder_message_verifies.
Qed.

(** A Bellatrix bid is read back as a Capella bid, which has the same root. *)
Lemma bid_for_decoded self k preferences payload bid :
  bid_for self k preferences payload bid →
  bid_for self k preferences payload (signed_bid_decoded bid).
Proof using TW.
  destruct bid as [bid signature]. intros [? ? ? ? ? ? ? Hsig].
  destruct bid as [inner|inner|inner]; [|done..]. split; try done. simpl in *.
  unfold verify_signed_builder_data in *. destruct (compute_builder_domain _) as [domain|]; [|done].
  simpl in *. by rewrite bid_root.
Qed.

Lemma signed_bid_decoded_twice bid : signed_bid_decoded (signed_bid_decoded bid) = signed_bid_decoded bid.
Proof. by destruct bid as [[] ?]. Qed.

(** The relay is ready for the proposers. *)
Definition shelves_ready (proposers : list Proposer) (shelves : IdentityBuilder.State) : Prop :=
  is_Some (IdentityBuilder.bids shelves) ∧
  ∃ registrations, IdentityBuilder.registrations shelves = Some registrations ∧
    ∀ p, p ∈ proposers → ∃ registration,
      registrations !! proposer_public_key p = Some registration ∧
      registration_fee_recipient registration = proposer_fee_recipient p.

(** A ready relay has a bid for each of them, and keeps the payload under the slot. *)
Lemma identity_fetch_best_bid self k proposers p shelves :
  shelves_ready proposers shelves → p ∈ proposers → public_key k = proposer_public_key p →
  ∃ preferences payload bid shelves',
    run (IdentityBuilder.fetch_best_bid self k) shelves = (shelves', Some (Ok bid)) ∧
    registration_fee_recipient preferences = proposer_fee_recipient p ∧
    bid_for self k preferences payload bid ∧
    shelves_ready proposers shelves' ∧
    (∃ kept, IdentityBuilder.bids shelves' = Some kept ∧ kept !! slot k = Some payload).
Proof using TW CL BL.
  intros [[kept Hkept] (registrations & Hregs & Hall)] Hp Hk.
  destruct (Hall p Hp) as (preferences & Hpreferences & Hfee).
  destruct (prepare_bid_spec self k preferences) as (payload & bid & Hprepare & Hbid).
  exists preferences, payload, bid. eexists. split.
  - simpl. rewrite Hregs, Hk, Hpreferences. simpl. by rewrite Hprepare, Hkept.
  - split; [done|]. split; [done|]. split.
    + split; [done|]. exists registrations. by split.
    + eexists. split; [done|]. apply lookup_insert_eq.
Qed.

Lemma identity_open_bid block shelves kept payload :
  IdentityBuilder.bids shelves = Some kept →
  kept !! blinded_slot (blinded_message block) = Some payload →
  signed_blinded_version block ∈ [Fork_Bellatrix; Fork_Capella] →
  ∃ contents, run (IdentityBuilder.open_bid block) shelves = (shelves, Some (Ok contents)) ∧
    contents_execution_payload contents = payload ∧ contents_blobs_bundle contents = None.
Proof.
  intros Hbids Hkept Hversion. unfold IdentityBuilder.open_bid, critical. cbv zeta. cbn [run].
  rewrite Hbids, Hkept. cbn [mbind option_bind].
  apply elem_of_cons in Hversion as [Hv|Hv%list_elem_of_singleton]; rewrite Hv; by eexists.
Qed.
End identity_builder_properties.

(** ** The multiplexer in front of it *)

Section front_properties.
Context `{CF : ConsensusFunctions} `{BS : !BuilderSignable} `{CL : !ConsensusLaws}.
Context `{TL : !TestLibrary} `{TW : !TestLaws TL} `{BL : !SignableLaws BuilderBid}.
Context `{HT : !HttpTypes} {HH : Http} {HL : HttpLaws HH}.
Context `{CB : !Codec Json bellatrix_BuilderBid deneb_BuilderBid, CBL : !CodecLaws CB}.
Context `{CC : !Codec Json bellatrix_AuctionContents deneb_AuctionContents, CCL : !CodecLaws CC}.
Context `{CS : !Codec Json bellatrix_SignedBidSubmission deneb_SignedBidSubmission}.
Context {Url : Type} (lost : ApiError) (shuffle : list nat → list nat).
Context (self : IdentityBuilder.IdentityBuilder) (r : Relay Url) (inner : RelayMux.Inner Url).
Context (shuffle_ok : ∀ l, shuffle l ≡ₚ l).
Context (inner_relays : RelayMux.relays inner = [r]).
Context (inner_context : RelayMux.mux_context inner = IdentityBuilder.context self).
Context (relay_key : RelayClient.relay_public_key r = IdentityBuilder.public_key self).
Context (self_key : IdentityBuilder.public_key self
  = secret_key_public_key (IdentityBuilder.signing_key self)).

Definition relay_of_test : Transport IdentityBuilder.State :=
  loopback lost (serve_provider (IdentityBuilder.provider self)).

Definition beacon_node : Transport (RelayMux.State Url * IdentityBuilder.State) :=
  loopback lost (serve_provider (mux_provider (λ _, relay_of_test) shuffle inner)).

(** Services that the test does not ask, to compare the servers with. *)
Definition no_relayer {R} : BlindedBlockRelayer R := {|
  relayer_get_proposal_schedule := Done None;
  relayer_submit_bid _ := Done None;
|}.

Definition no_data {R} : BlindedBlockDataProvider R := {|
  data_public_key := IdentityBuilder.public_key self;
  data_registered_validators_count := Done 0%nat;
  data_get_delivered_payloads _ := Done None;
  data_get_block_submissions _ := Done None;
  data_fetch_validator_registration _ := Done None;
|}.

Lemma ask_one {A} (ask : Transport IdentityBuilder.State → task IdentityBuilder.State (result Error A)) s :
  run (ask_each (λ _ : Relay Url, relay_of_test) ask [r]) s =
    let '(s', a) := run (ask relay_of_test) s in (s', [(r, Some a)]).
Proof. cbn [ask_each]. rewrite run_bind. by destruct (run _ s) as [s' a]. Qed.

(** The bid of the relay is valid, and the only one. *)
Lemma mux_takes_bid k preferences payload bid st :
  bid_for self k preferences payload bid →
  run (RelayMux.fetch_best_bid inner (λ _, [(r, Some (Ok bid))]) shuffle k) st
    = (RelayMux.chosen st k bid [r], Answered (Ok bid)).
Proof using shuffle_ok inner_context relay_key self_key inner_relays.
  intros Hbid.
  assert (Haccept : RelayMux.accept_bid (RelayMux.mux_context inner) (r, Some (Ok bid)) = Some (r, bid)).
  { simpl. rewrite (proj2 (RelayMux.validate_bid_Ok bid (RelayClient.relay_public_key r) _)); [done|].
    rewrite relay_key, inner_context. split; [apply (for_key _ _ _ _ _ Hbid)|].
    rewrite self_key. apply (for_signature _ _ _ _ _ Hbid). }
  unfold RelayMux.fetch_best_bid. rewrite inner_relays. cbn [length buffer_unordered omap list_omap].
  rewrite Haccept.
  rewrite decide_False by done. cbv zeta.
  assert (Hbest : shuffle (RelayMux.select_best_bids (imap (λ i '(_, bid),
      (i, bid_value (signed_bid_message bid))) [(r, bid)])) = [0%nat]).
  { apply Permutation_singleton_r. rewrite shuffle_ok. unfold RelayMux.select_best_bids. simpl.
    by destruct (bid_value (signed_bid_message bid)). }
  rewrite Hbest. reflexivity.
Qed.

Lemma mux_fetches k proposers p st shelves :
  shelves_ready proposers shelves → p ∈ proposers → public_key k = proposer_public_key p →
  ∃ preferences payload bid shelves',
    run (Api.fetch_best_bid beacon_node k) (st, shelves)
      = ((RelayMux.chosen st k bid [r], shelves'), Ok bid) ∧
    registration_fee_recipient preferences = proposer_fee_recipient p ∧
    bid_for self k preferences payload bid ∧
    shelves_ready proposers shelves' ∧
    (∃ kept, IdentityBuilder.bids shelves' = Some kept ∧ kept !! slot k = Some payload).
Proof using All.
  intros Hready Hp Hk.
  destruct (identity_fetch_best_bid self k proposers p shelves Hready Hp Hk)
    as (preferences & payload & bid & shelves' & Hrun & Hfee & Hbid & Hready' & Hkept).
  apply bid_for_decoded in Hbid.
  exists preferences, payload, (signed_bid_decoded bid), shelves'. split_and!; try done.
  unfold beacon_node. rewrite (front_fetch_best_bid _ lost no_relayer no_data).
  cbn [provider_fetch_best_bid mux_provider]. rewrite run_fmap. unfold mux_fetch_best_bid.
  rewrite run_bind, run_on_right, inner_relays, ask_one. unfold relay_of_test.
  rewrite (front_fetch_best_bid _ lost no_relayer no_data).
  cbn [provider_fetch_best_bid IdentityBuilder.provider]. rewrite Hrun. cbn.
  rewrite run_on_left, (mux_takes_bid k preferences payload) by done.
  simpl. by rewrite signed_bid_decoded_twice.
Qed.

Lemma mux_task_none slots (st : RelayMux.State Url) h :
  RelayMux.outstanding_bids st !! h = None →
  RelayMux.outstanding_bids (run (mux_task slots) st).1 !! h = None.
Proof.
  revert st. induction slots as [|now slots IH]; intros st Hnone; cbn [mux_task]; [done|].
  rewrite run_bind. apply IH. simpl. apply map_lookup_filter_None. by left.
Qed.

(** A bid is dropped as soon as the clock is more than two slots past it. *)
Lemma mux_task_lookup slots (st : RelayMux.State Url) h c :
  RelayMux.outstanding_bids st !! h = Some c →
  RelayMux.outstanding_bids (run (mux_task slots) st).1 !! h =
    if decide (Forall (λ now, now ≤ RelayMux.context_slot c + RelayMux.AUCTION_LIFETIME) slots)
    then Some c else None.
Proof.
  revert st. induction slots as [|now slots IH]; intros st Hc; cbn [mux_task]; [done|].
  rewrite run_bind.
  assert (Hslot : RelayMux.outstanding_bids (run (RelayMux.on_slot now) st).1 !! h =
    if decide (now ≤ RelayMux.context_slot c + RelayMux.AUCTION_LIFETIME) then Some c else None).
  { simpl. fold (saturating_sub now RelayMux.AUCTION_LIFETIME). rewrite saturating_sub_spec.
    destruct (decide (now ≤ RelayMux.context_slot c + RelayMux.AUCTION_LIFETIME)).
    - apply map_lookup_filter_Some. split; [done|lia].
    - apply map_lookup_filter_None. right. intros c' Hc'. rewrite Hc in Hc'. simplify_eq. lia. }
  destruct (run (RelayMux.on_slot now) st) as [st' []]. simpl in Hslot.
  destruct (decide (now ≤ RelayMux.context_slot c + RelayMux.AUCTION_LIFETIME)) as [Hle|Hgt].
  - rewrite (IH _ Hslot). apply decide_ext. rewrite Forall_cons. naive_solver.
  - rewrite decide_False by (rewrite Forall_cons; naive_solver). by apply mux_task_none.
Qed.

Definition block_opens (block : SignedBlindedBeaconBlock) payload shelves : Prop :=
  header_block_hash (blinded_payload_header (blinded_message block)) = payload_block_hash payload ∧
  blinded_kzg_commitments (blinded_message block) = None ∧
  signed_blinded_version block ∈ [Fork_Bellatrix; Fork_Capella] ∧
  ∃ kept, IdentityBuilder.bids shelves = Some kept ∧
    kept !! blinded_slot (blinded_message block) = Some payload.

(** A block is opened when the multiplexer still has its bid. *)
Lemma mux_opens block payload (st : RelayMux.State Url) shelves :
  block_opens block payload shelves →
  let hash := header_block_hash (blinded_payload_header (blinded_message block)) in
  match RelayMux.outstanding_bids st !! hash with
  | Some c => RelayMux.context_relays c = [r] →
      ∃ contents, run (Api.open_bid beacon_node block) (st, shelves) = ((st, shelves), Ok contents) ∧
        contents_execution_payload contents = payload
  | None => ∃ e, run (Api.open_bid beacon_node block) (st, shelves) = ((st, shelves), Err e)
  end.
Proof using HL CCL CS.
  intros (Hhash & Hkzg & Hversion & kept & Hkept & Hpayload). cbv zeta.
  destruct (identity_open_bid block shelves kept payload Hkept Hpayload Hversion)
    as (contents & Hopen & Hcontents & Hblobs).
  assert (Hrelay : run (Api.open_bid relay_of_test block) shelves
    = (shelves, Ok (contents_decoded contents))).
  { unfold relay_of_test. rewrite (front_open_bid _ lost no_relayer no_data);
      unfold bid_is_prepared; cbn [provider_open_bid IdentityBuilder.provider]; by rewrite Hopen. }
  destruct (RelayMux.outstanding_bids st !! _) as [c|] eqn:Hc.
  - intros Hrelays. exists (contents_decoded (contents_decoded contents)).
    assert (Hmux : run (mux_open_bid (λ _, relay_of_test) block) (st, shelves)
      = ((st, shelves), Ok (contents_decoded contents))).
    { unfold mux_open_bid. rewrite run_try, run_on_left. simpl. rewrite Hc. simpl.
      rewrite run_bind, run_on_right, Hrelays, ask_one, Hrelay. cbn [omap list_omap snd].
      assert (Hvalid : RelayMux.matches_block block (contents_decoded contents)).
      { apply matches_decoded. split; [by rewrite Hcontents|by rewrite Hblobs, Hkzg]. }
      cbn [RelayMux.first_valid_payload]. by rewrite (proj2 (RelayMux.validate_payload_Ok _ _)). }
    split; [|by destruct contents].
    unfold beacon_node. rewrite (front_open_bid _ lost no_relayer no_data);
      unfold bid_is_prepared; cbn [provider_open_bid mux_provider]; by rewrite run_fmap, Hmux.
  - assert (Hmux : run (mux_open_bid (λ _ : Relay Url, relay_of_test) block) (st, shelves)
      = ((st, shelves), Err (Error_Boost (MissingOpenBid
           (header_block_hash (blinded_payload_header (blinded_message block))))))).
    { unfold mux_open_bid. rewrite run_try, run_on_left. simpl. by rewrite Hc. }
    eexists. unfold beacon_node. rewrite (front_open_bid _ lost no_relayer no_data);
      unfold bid_is_prepared; cbn [provider_open_bid mux_provider]; by rewrite run_fmap, Hmux.
Qed.

Lemma make_signed_block_spec fork bid current_slot proposer context root :
  (fork = Fork_Bellatrix ∧ is_Some (header_bellatrix (bid_header (signed_bid_message bid))) ∨
   fork = Fork_Capella ∧ is_Some (header_capella (bid_header (signed_bid_message bid)))) →
  ∃ block, make_signed_block fork bid current_slot proposer context root = Some block ∧
    blinded_payload_header (blinded_message block) = bid_header (signed_bid_message bid) ∧
    blinded_slot (blinded_message block) = current_slot ∧
    blinded_kzg_commitments (blinded_message block) = None ∧
    signed_blinded_version block ∈ [Fork_Bellatrix; Fork_Capella].
Proof using TW.
  intros [[-> [header Hheader]]|[-> [header Hheader]]]; unfold make_signed_block; rewrite Hheader; simpl.
  - destruct (proposer_domain_computed (fork_version_for context Fork_Bellatrix) root context)
      as [domain ->]. simpl. edestruct block_signed as [signature ->]. simpl. eexists. split; [done|].
    simpl. destruct (bid_header _); simplify_eq/=. split_and!; [done..|left].
  - destruct (proposer_domain_computed (fork_version_for context Fork_Capella) root context)
      as [domain ->]. simpl. edestruct block_signed as [signature ->]. simpl. eexists. split; [done|].
    simpl. destruct (bid_header _); simplify_eq/=. split_and!; [done..|right; left].
Qed.

(** ** The test *)

(** The block of the [i]-th proposer is in the slot of its fork, which comes before the
    Capella fork for the first and after it for the others. *)
Definition block_slot_of (context : ChainContext) (i : nat) : N :=
  default 0 (test_slot context (test_fork i)).

Definition forks_apart (context : ChainContext) : Prop :=
  let capella_fork_slot := u64_mul (capella_fork_epoch context) (slots_per_epoch context) in
  block_slot_of context 0 < capella_fork_slot ∧ capella_fork_slot ≤ block_slot_of context 1.

(** The clock is at most two slots past the block. *)
Definition on_time (context : ChainContext) (i : nat) (between : list N) : Prop :=
  Forall (λ now, now ≤ block_slot_of context i + RelayMux.AUCTION_LIFETIME) between.

#[local] Instance on_time_dec context i between : Decision (on_time context i between).
Proof. unfold on_time. apply _. Defined.

Lemma test_slot_of context i : test_slot context (test_fork i) = Some (block_slot_of context i).
Proof. unfold block_slot_of, test_fork. by case_decide. Qed.

Lemma header_of_test_fork context i k h :
  forks_apart context → slot k = block_slot_of context i → header_of_fork context k h →
  test_fork i = Fork_Bellatrix ∧ is_Some (header_bellatrix h) ∨
  test_fork i = Fork_Capella ∧ is_Some (header_capella h).
Proof.
  unfold header_of_fork. intros [Hbellatrix Hcapella] -> Hheader. destruct i as [|i].
  - left. split; [done|]. by rewrite (proj2 (N.ltb_lt _ _) Hbellatrix) in Hheader.
  - right. split; [done|]. change (block_slot_of context (S i)) with (block_slot_of context 1) in Hheader.
    by rewrite (proj2 (N.ltb_ge _ _) Hcapella) in Hheader.
Qed.

Context (apart : forks_apart (IdentityBuilder.context self)) (root : Root).

Lemma beacon_status w : run (check_status beacon_node) w = (w, Ok tt).
Proof using HL. apply front_check_status. Qed.

(** A proposer of a ready relay gets its block opened when the clock is on time, and
    fails otherwise. *)
Lemma propose_block_run proposers p i between st shelves :
  shelves_ready proposers shelves → p ∈ proposers →
  ∃ w', run (propose_block beacon_node between p i (IdentityBuilder.context self) root) (st, shelves)
      = (w', if decide (on_time (IdentityBuilder.context self) i between) then Ok tt else Err tt) ∧
    shelves_ready proposers w'.2.
Proof using All.
  intros Hready Hp. unfold propose_block. set (ctx := IdentityBuilder.context self).
  rewrite (try_Ok _ _ _ _ _ (unwrap_now_Some _ _ _ (test_slot_of ctx i))). cbv zeta.
  set (h := hash_from _). set (k := {| slot := block_slot_of ctx i; parent_hash := h;
    public_key := proposer_public_key p |}).
  destruct (mux_fetches k proposers p st shelves Hready Hp eq_refl)
    as (preferences & payload & bid & shelves' & Hfetch & Hfee & Hbid & Hready' & kept & Hkept & Hpayload).
  rewrite (try_Ok _ _ _ _ _ (run_unwrap_Ok _ _ _ _ Hfetch)).
  rewrite (try_Ok _ _ _ _ _ (assert_eq_refl _ _ _ (for_bid_parent_hash _ _ _ _ _ Hbid))).
  destruct (make_signed_block_spec (test_fork i) bid (block_slot_of ctx i) p ctx root)
    as (block & Hblock & Hheader & Hslot & Hkzg & Hversion).
  { exact (header_of_test_fork ctx i k _ apart eq_refl (for_fork _ _ _ _ _ Hbid)). }
  rewrite (try_Ok _ _ _ _ _ (unwrap_now_Some _ _ _ Hblock)).
  rewrite (try_Ok _ _ _ _ _ (run_unwrap_Ok _ _ _ _ (beacon_status _))).
  rewrite run_bind, run_on_left.
  assert (Hhash : header_block_hash (blinded_payload_header (blinded_message block))
    = RelayMux.bid_block_hash bid) by (by rewrite Hheader).
  pose proof (mux_task_lookup between (RelayMux.chosen st k bid [r]) (RelayMux.bid_block_hash bid)
    {| RelayMux.context_slot := slot k; RelayMux.context_relays := [r] |} (lookup_insert_eq _ _ _))
    as Hlookup.
  destruct (run (mux_task between) _) as [st' []].
  pose proof (mux_opens block payload st' shelves') as Hopens. cbv zeta in Hopens. simpl in Hlookup.
  rewrite Hhash, Hlookup in Hopens. clear Hlookup. unfold on_time.
  destruct (decide (Forall _ between)) as [Htime|Hlate].
  - destruct Hopens as (contents & Hopen & Hcontents); [|done|].
    { split; [by rewrite Hheader, <-(for_block_hash _ _ _ _ _ Hbid)|]. split; [done|]. split; [done|].
      exists kept. rewrite Hslot. by split. }
    exists (st', shelves'). split; [|done].
    rewrite (try_Ok _ _ _ _ _ (run_unwrap_Ok _ _ _ _ Hopen)), Hcontents.
    rewrite (try_Ok _ _ _ _ _ (assert_eq_refl _ _ _ (for_parent_hash _ _ _ _ _ Hbid))).
    rewrite (try_Ok _ _ _ _ _ (assert_eq_refl _ _ _
      (eq_trans (for_fee_recipient _ _ _ _ _ Hbid) Hfee))).
    apply (run_unwrap_Ok _ _ _ _ (beacon_status _)).
  - destruct Hopens as (e & Hopen).
    { split; [by rewrite Hheader, <-(for_block_hash _ _ _ _ _ Hbid)|]. split; [done|]. split; [done|].
      exists kept. rewrite Hslot. by split. }
    exists (st', shelves'). split; [|done].
    apply (try_Err _ _ _ _ _ (run_unwrap_Err _ _ _ _ Hopen)).
Qed.

Lemma propose_blocks_run proposers clock ps i st shelves :
  shelves_ready proposers shelves → (∀ p, p ∈ ps → p ∈ proposers) →
  (run (propose_blocks beacon_node clock ps i (IdentityBuilder.context self) root) (st, shelves)).2
    = Ok tt ↔
  ∀ j, (j < length ps)%nat → on_time (IdentityBuilder.context self) (i + j) (clock (i + j)%nat).2.
Proof using All.
  revert i st shelves. induction ps as [|p ps IH]; intros i st shelves Hready Hps.
  { simpl. split; [lia|done]. }
  cbn [propose_blocks]. rewrite run_bind, run_on_left. destruct (run (mux_task _) st) as [st1 []].
  destruct (propose_block_run proposers p i (clock i).2 st1 shelves Hready) as ([st' shelves'] & Hrun & Hready').
  { apply Hps. left. }
  destruct (decide (on_time _ i _)) as [Htime|Hlate].
  - rewrite (try_Ok _ _ _ _ _ Hrun), (IH (S i) st' shelves' Hready') by (intros; apply Hps; by right).
    cbn [length]. split.
    + intros Hall [|j] Hj; [by rewrite Nat.add_0_r|]. rewrite <-Nat.add_succ_comm. apply Hall. lia.
    + intros Hall j Hj. rewrite Nat.add_succ_comm. apply Hall. lia.
  - rewrite (try_Err _ _ _ _ _ Hrun). split; [done|]. intros Hall. destruct Hlate.
    specialize (Hall 0%nat). rewrite Nat.add_0_r in Hall. apply Hall. simpl. lia.
Qed.
End front_properties.

Section integration_properties.
Context `{CF : ConsensusFunctions} `{BS : !BuilderSignable} `{CL : !ConsensusLaws}.
Context `{TL : !TestLibrary} `{TW : !TestLaws TL} `{BL : !SignableLaws BuilderBid}.
Context `{HT : !HttpTypes} {HH : Http} {HL : HttpLaws HH}.
Context `{CB : !Codec Json bellatrix_BuilderBid deneb_BuilderBid, CBL : !CodecLaws CB}.
Context `{CC : !Codec Json bellatrix_AuctionContents deneb_AuctionContents, CCL : !CodecLaws CC}.
Context `{CS : !Codec Json bellatrix_SignedBidSubmission deneb_SignedBidSubmission}.
Context {Url : Type} `{UP : !UrlParsing Url} {SU : Startup Url}.
Implicit Types (p : Proposer) (ps : list Proposer) (l : list SignedValidatorRegistration).

(** ** Registering the proposers *)

(** The registration that a proposer signs. *)
Definition registers p (r : SignedValidatorRegistration) : Prop :=
  registration_public_key (registration_message r) = proposer_public_key p ∧
  registration_fee_recipient (registration_message r) = proposer_fee_recipient p.

Lemma make_registration_spec context p timestamp :
  ∃ r, make_registration context p timestamp = Some r ∧ registers p r.
Proof using TW.
  unfold make_registration, sign_builder_message.
  destruct (builder_domain_computed context) as [domain ->]. simpl.
  edestruct registration_signed as [signature ->]. simpl. by eexists.
Qed.

Lemma registrations_made context get_time ps :
  ∃ l, mapM (λ '(i, p), make_registration context p (get_time i)) (imap pair ps) = Some l ∧
    Forall2 registers ps l.
Proof using TW.
  setoid_rewrite mapM_Some. change pair with (λ (i : nat) p, (id i, p)). generalize (id (A := nat)).
  induction ps as [|p ps IH]; intros f; [by exists []|].
  destruct (make_registration_spec context p (get_time (f 0%nat))) as (r & Hr & Hp).
  destruct (IH (λ i, f (S i))) as (l & Hl & Hps). exists (r :: l). split; by constructor.
Qed.

Lemma stored_registration ps l (m : gmap BlsPublicKey ValidatorRegistration) p :
  Forall2 registers ps l → NoDup (proposer_public_key <$> ps) →
  let stored := foldl (λ state registration,
    let registration := registration_message registration in
    let public_key := registration_public_key registration in
    <[public_key := registration]> state) m l in
  (p ∈ ps → ∃ registration, stored !! proposer_public_key p = Some registration ∧
     registration_fee_recipient registration = proposer_fee_recipient p) ∧
  ∀ k, k ∉ proposer_public_key <$> ps → stored !! k = m !! k.
Proof.
  intros Hl. cbv zeta. revert m. induction Hl as [|p' r ps l [Hkey Hfee] Hl IH]; intros m; simpl.
  { intros _. split; [by intros ?%elem_of_nil|done]. }
  intros [Hp' Hps]%NoDup_cons. destruct (IH (<[proposer_public_key p' := registration_message r]> m) Hps)
    as [Hin Hout]. rewrite Hkey. split.
  - intros [->|?]%elem_of_cons; [|by apply Hin]. exists (registration_message r). split; [|done].
    by rewrite Hout, lookup_insert_eq.
  - intros k [Hk Hks]%not_elem_of_cons. by rewrite Hout, lookup_insert_ne.
Qed.

(** The multiplexer passes the registrations on, and the relay is ready. *)
Lemma proposers_registered lost shuffle self (r : Relay Url) inner ps l st context :
  RelayMux.relays inner = [r] → Forall2 registers ps l → NoDup (proposer_public_key <$> ps) →
  ∃ shelves', shelves_ready ps shelves' ∧
    run (Api.register_validators (beacon_node lost shuffle self inner) l)
      (st, (IdentityBuilder.new context).2) = ((st, shelves'), Ok tt).
Proof using HL CS.
  intros Hrelays Hl Hnodup. eexists {| IdentityBuilder.registrations := Some _ |}. split.
  - split; [by eexists|]. eexists. split; [done|]. intros p Hp.
    by apply (stored_registration ps l ∅ p Hl Hnodup).
  - assert (Hrelay : ∀ shelves', run (IdentityBuilder.register_validators l) (IdentityBuilder.new context).2
      = (shelves', Some (Ok tt)) →
      run (Api.register_validators (beacon_node lost shuffle self inner) l)
        (st, (IdentityBuilder.new context).2) = ((st, shelves'), Ok tt)).
    { intros shelves' Hrun.
      assert (Hapi : run (Api.register_validators (relay_of_test lost self) l)
        (IdentityBuilder.new context).2 = (shelves', Ok tt)).
      { unfold relay_of_test. rewrite (front_register_validators _ lost no_relayer (no_data self));
          unfold bid_is_prepared; cbn [provider_register_validators IdentityBuilder.provider];
          by rewrite Hrun. }
      assert (Hmux : run (mux_register_validators (λ _ : Relay Url, relay_of_test lost self) inner l)
        (st, (IdentityBuilder.new context).2) = ((st, shelves'), Answered (Ok tt))).
      { unfold mux_register_validators. rewrite run_bind, run_on_right, Hrelays, ask_one, Hapi.
        unfold RelayMux.register_validators. by rewrite Hrelays. }
      unfold beacon_node. rewrite (front_register_validators _ lost no_relayer (no_data self));
        unfold bid_is_prepared; cbn [provider_register_validators mux_provider];
        by rewrite run_fmap, Hmux. }
    apply Hrelay. reflexivity.
Qed.

Lemma create_proposers_keys signing_keys :
  proposer_public_key <$> create_proposers signing_keys = secret_key_public_key <$> signing_keys.
Proof. unfold create_proposers. rewrite fmap_imap. apply imap_const. Qed.

(** C9: The integration test passes for any proposers with different keys, in
    whatever order they propose, however ties between bids are broken and whatever time it
    is, exactly when the multiplexer's clock, between the bid and the block of any
    proposer, is at most two slots past the slot of the block; no request is taken to time
    out.  All requests of the test
    pass through two servers; the first proposer's block is a Bellatrix block, the others
    are Capella blocks. *)
Theorem integration_test_outcome (signing_keys : list SecretKey) get_time
    (shuffle : list Proposer → list Proposer) shuffle_bids (ask : Answers) clock lost context (endpoint : RelayEndpoint Url) :
  context_try_from Network_Sepolia = Ok context → forks_apart context →
  NoDup (secret_key_public_key <$> signing_keys) →
  (∀ ps, shuffle ps ≡ₚ ps) → (∀ indices, shuffle_bids indices ≡ₚ indices) →
  endpoint_of (relay_url (secret_key_public_key (secret_key_from (replicate 32 1)))) = Some endpoint →
  endpoint_public_key endpoint = secret_key_public_key (secret_key_from (replicate 32 1)) →
  test_end_to_end signing_keys get_time shuffle shuffle_bids ask clock lost = Ok tt ↔
  ∀ i, (i < length signing_keys)%nat → on_time context i (clock i).2.
Proof using All.
  intros Hcontext Hforks Hnodup Hshuffle Hbids Hendpoint Hkey.
  unfold test_end_to_end. set (sk := secret_key_from (replicate 32 1)) in *.
  set (url := relay_url (secret_key_public_key sk)) in *. rewrite Hcontext. cbn [map_err mbind result_bind].
  rewrite (surjective_pairing (IdentityBuilder.new context)).
  set (self := (IdentityBuilder.new context).1). set (shelves := (IdentityBuilder.new context).2).
  unfold MuxStartup.spawn, MuxStartup.from, test_config. fold url. simpl. rewrite Hcontext. simpl.
  rewrite (proj1 (parse_relay_endpoints_spec _)). simpl. rewrite Hendpoint. simpl.
  set (r := relay_from endpoint). set (inner := {| RelayMux.relays := [r]; RelayMux.mux_context := context |}).
  change (loopback lost (serve_provider (mux_provider _ shuffle_bids inner)))
    with (beacon_node lost shuffle_bids self inner).
  rewrite (try_Ok _ _ _ _ _ (run_unwrap_Ok _ _ _ _ (beacon_status lost shuffle_bids self inner _))).
  destruct (registrations_made context get_time (create_proposers signing_keys)) as (l & Hmade & Hl).
  rewrite (try_Ok _ _ _ _ _ (unwrap_now_Some _ _ _ Hmade)).
  destruct (proposers_registered lost shuffle_bids self r inner _ l {| RelayMux.outstanding_bids := ∅ |}
    context eq_refl Hl) as (shelves' & Hready & Hregister).
  { by rewrite create_proposers_keys. }
  fold shelves in Hregister.
  rewrite (try_Ok _ _ _ _ _ (run_unwrap_Ok _ _ _ _ Hregister)).
  rewrite (try_Ok _ _ _ _ _ (run_unwrap_Ok _ _ _ _ (beacon_status lost shuffle_bids self inner _))).
  change context with (IdentityBuilder.context self).
  rewrite (propose_blocks_run lost shuffle_bids self r inner Hbids eq_refl eq_refl Hkey eq_refl Hforks _
    (create_proposers signing_keys)).
  - rewrite (Permutation_length (Hshuffle _)). unfold create_proposers. by rewrite length_imap.
  - done.
  - intros p. by rewrite Hshuffle.
Qed.
End integration_properties.

(** * Examples *)

Module ToyIntegration.
Import ToyInstances.
Import ToyApi.

(** Payloads keep the fee recipient in the place of the gas used. *)
Definition toy_payload_with (h : Hash32) (a : ExecutionAddress) (g : N) : toy_payload :=
  {| toy_parent_hash := h; toy_block_hash := 0; toy_gas_limit := g; toy_gas_used := a;
     toy_transaction_count := 0 |}.

#[local] Instance toy_test_library : TestLibrary := {|
  secret_key_from bytes := foldr N.add 0 bytes : SecretKey;
  address_from bytes := foldr N.add 0 bytes : ExecutionAddress;
  hash_from bytes := foldr N.add 0 bytes : Hash32;
  root_from bytes := foldr N.add 0 bytes : Root;
  bellatrix_fork_epoch _ := 1;
  capella_fork_epoch _ := 3;
  bellatrix_payload_with := toy_payload_with;
  capella_payload_with := toy_payload_with;
  payload_fee_recipient payload := toy_gas_used (toy_payload_of payload) : ExecutionAddress;
  default_root := toy_root 0;
  default_fields := toy_fields;
  default_changes := 0 : BlsToExecutionChanges;
|}.

#[local] Instance toy_test_laws : TestLaws toy_test_library.
Proof. split; simpl; eauto. Qed.

#[local] Instance toy_test_urls : UrlParsing N := {|
  parse_url s := Some (N.of_nat (String.length s));
  username _ := ""%string;
  try_bytes_from_hex_str _ := Some [];
  public_key_try_from _ := Some (toy_pk 1032);
|}.

#[local] Existing Instance ToyStartup.toy_startup.

(** Three proposers, in the opposite order; [now] is a slot that starts between the bid
    and the block of the last one. *)
Definition toy_test (now : list N) : result () () :=
  test_end_to_end (Url := N) [toy_sk 1; toy_sk 2; toy_sk 3] N.of_nat (@rev Proposer) (λ l, l)
    ToyStartup.toy_ask (λ i, if decide (i = 2%nat) then ([300], now) else ([], [])) toy_lost.

Example toy_test_passes : toy_test [128] = Ok tt.
Proof. vm_compute. reflexivity. Qed.

(** The test depends on the clock. *)
Lemma integration_test_outcome_witness : toy_test [128] = Ok tt ∧ toy_test [129] ≠ Ok tt.
Proof.
  assert (Hpk : endpoint_of (relay_url (secret_key_public_key (secret_key_from (replicate 32 1))))
    = Some {| endpoint_url := 1056; endpoint_public_key := toy_pk 1032 |}) by (vm_compute; reflexivity).
  assert (Hforks : forks_apart (toy_network 32)) by (split; vm_compute; congruence).
  assert (Hkeys : NoDup (secret_key_public_key <$> [toy_sk 1; toy_sk 2; toy_sk 3]))
    by (apply (bool_decide_unpack _); vm_compute; exact I).
  split.
  - apply (integration_test_outcome [toy_sk 1; toy_sk 2; toy_sk 3] N.of_nat (@rev Proposer) (λ l, l)
      ToyStartup.toy_ask (λ i, if decide (i = 2%nat) then ([300], [128]) else ([], [])) toy_lost
      (toy_network 32) {| endpoint_url := 1056; endpoint_public_key := toy_pk 1032 |}).
    + reflexivity.
    + exact Hforks.
    + exact Hkeys.
    + intros ps. symmetry. apply Permutation_rev.
    + reflexivity.
    + exact Hpk.
    + reflexivity.
    + intros [|[|[|i]]] Hi; [exact (Forall_nil_2 _)|exact (Forall_nil_2 _)| |simpl in Hi; lia].
      apply Forall_singleton. vm_compute. congruence.
  - intros Hpass.
    apply (integration_test_outcome [toy_sk 1; toy_sk 2; toy_sk 3] N.of_nat (@rev Proposer) (λ l, l)
      ToyStartup.toy_ask (λ i, if decide (i = 2%nat) then ([300], [129]) else ([], [])) toy_lost
      (toy_network 32) {| endpoint_url := 1056; endpoint_public_key := toy_pk 1032 |}) with (i := 2%nat)
      in Hpass.
    + apply Forall_cons in Hpass as [Hlate _]. vm_compute in Hlate. by apply Hlate.
    + reflexivity.
    + exact Hforks.
    + exact Hkeys.
    + intros ps. symmetry. apply Permutation_rev.
    + reflexivity.
    + exact Hpk.
    + reflexivity.
    + simpl. lia.
Defined.
End ToyIntegration.
